(** * Rollout collection and advantage computation (OpenRLHF / ZeroGUI)

    A shallow embedding of
      - [openrlhf/trainer/ppo_utils/experience_maker.py]
        ([conditional_cat], [Experience.__add__], [Experience.__radd__],
        [process_experiences], [get_advantages_and_returns],
        [get_cumulative_returns], [make_experience_list]) and
      - [openrlhf/trainer/ray/vllm_engine.py]
        ([LLMRayActor.add_requests], [LLMRayActor.get_responses]).

    Tensor elements are exact rationals ([Q]): rounding of floating point
    numbers, [inf] and [nan] are not part of the model.  Python exceptions
    are values of [exn]; a function that can raise returns a [result]. *)

From Stdlib Require Import String List ZArith QArith Qpower Qfield Qround.
From Stdlib Require Import Lia Lqa Bool Arith.
Import ListNotations.

Set Implicit Arguments.

(** ** Python exceptions and the error monad *)

Inductive exn : Type :=
| AssertionError (msg : string)
| AttributeError
| IndexError
| KeyError
| RuntimeError
| TypeError
| Exception (msg : string).

Inductive result (A : Type) : Type :=
| Ok (a : A)
| Raise (e : exn).

Arguments Ok {A} a.
Arguments Raise {A} e.

Definition bind {A B : Type} (m : result A) (k : A -> result B) : result B :=
  match m with
  | Ok a => k a
  | Raise e => Raise e
  end.

Declare Scope py_scope.
Delimit Scope py_scope with py.
Notation "x <- m ;; k" := (bind m (fun x => k))
  (at level 100, m at next level, right associativity) : py_scope.
Notation "' p <- m ;; k" := (bind m (fun x => let p := x in k))
  (at level 100, p pattern, m at next level, right associativity) : py_scope.
Open Scope py_scope.

(** [for x in l: acc = body(acc, x)] where the body can raise. *)
Fixpoint for_each {A S : Type} (l : list A) (body : S -> A -> result S) (s : S)
  : result S :=
  match l with
  | [] => Ok s
  | x :: l' => s' <- body s x ;; for_each l' body s'
  end.

(** [[f(x) for x in l]] where [f] can raise. *)
Fixpoint map_result {A B : Type} (f : A -> result B) (l : list A)
  : result (list B) :=
  match l with
  | [] => Ok []
  | x :: l' => y <- f x ;; ys <- map_result f l' ;; Ok (y :: ys)
  end.

(** ** Lists *)

Fixpoint zip_with {A B C : Type} (f : A -> B -> C) (l : list A) (l' : list B)
  : list C :=
  match l, l' with
  | a :: t, b :: t' => f a b :: zip_with f t t'
  | _, _ => []
  end.

(** [chunks n k l]: the first [k] consecutive blocks of [n] elements of [l]. *)
Fixpoint chunks {A : Type} (n k : nat) (l : list A) : list (list A) :=
  match k with
  | O => []
  | S k' => firstn n l :: chunks n k' (skipn n l)
  end.

Definition Qsum (l : list Q) : Q := fold_right Qplus 0 l.

(** ** Tensors

    A tensor is its sizes and its elements in row-major order, as a
    contiguous [torch.Tensor].  A boolean tensor holds 0 and 1. *)

Module Torch.

Record Tensor : Type := mkTensor { shape : list nat; data : list Q }.

Definition numel (s : list nat) : nat := fold_right Nat.mul 1%nat s.

Definition shape_eqb (s s' : list nat) : bool :=
  if list_eq_dec Nat.eq_dec s s' then true else false.

(** [t.size(0)]; a 0-d tensor has no dimension 0. *)
Definition size0 (t : Tensor) : result nat :=
  match shape t with
  | n :: _ => Ok n
  | [] => Raise IndexError
  end.

(** [t[i, j]] of a 2-d tensor. *)
Definition get2 (t : Tensor) (i j : nat) : Q :=
  nth (i * nth 1 (shape t) 0%nat + j) (data t) 0.

(** [t[:, j]] of a 2-d tensor of sizes [B, T], as the list of its [B]
    elements. *)
Definition select_col (t : Tensor) (j : nat) : list Q :=
  map (fun i => get2 t i j) (seq 0 (nth 0 (shape t) 0%nat)).

(** Elementwise binary operation on tensors of the same sizes.  Broadcasting
    between different sizes is not modelled: it is refused. *)
Definition pointwise (f : Q -> Q -> Q) (a b : Tensor) : result Tensor :=
  if shape_eqb (shape a) (shape b)
  then Ok (mkTensor (shape a) (zip_with f (data a) (data b)))
  else Raise RuntimeError.

Definition mul := pointwise Qmult.
Definition add := pointwise Qplus.

Definition zeros (s : list nat) : Tensor := mkTensor s (repeat 0 (numel s)).
Definition zeros_like (t : Tensor) : Tensor := zeros (shape t).
Definition ones_like (t : Tensor) : Tensor :=
  mkTensor (shape t) (repeat 1 (numel (shape t))).

(** A Python number or a 1-d tensor: the operands of the arithmetic inside
    the recurrences, where a scalar is broadcast over a tensor. *)
Inductive operand : Type :=
| Num (x : Q)
| Vec (v : list Q).

Definition broadcast (f : Q -> Q -> Q) (a b : operand) : operand :=
  match a, b with
  | Num x, Num y => Num (f x y)
  | Num x, Vec v => Vec (map (fun y => f x y) v)
  | Vec u, Num y => Vec (map (fun x => f x y) u)
  | Vec u, Vec v => Vec (zip_with f u v)
  end.

Definition is_vec_of (n : nat) (o : operand) : bool :=
  match o with
  | Vec v => length v =? n
  | Num _ => false
  end.

Definition vec (o : operand) : list Q :=
  match o with
  | Vec v => v
  | Num _ => []
  end.

(** [torch.stack(cols, dim=1)] of 1-d tensors of one length [B]: the 2-d
    tensor of sizes [B, len(cols)] whose column [t] is [cols[t]].  An empty
    list is refused by torch, and so is a Python number in the list. *)
Definition stack_dim1 (cols : list operand) : result Tensor :=
  match cols with
  | [] => Raise RuntimeError
  | Num _ :: _ => Raise TypeError
  | Vec c0 :: _ =>
      if forallb (is_vec_of (length c0)) cols
      then Ok (mkTensor [length c0; length cols]
                 (flat_map (fun i => map (fun c => nth i (vec c) 0) cols)
                    (seq 0 (length c0))))
      else Raise RuntimeError
  end.

(** [t[:, j] = col], in place, on a 2-d tensor. *)
Definition assign_col (t : Tensor) (j : nat) (col : list Q) : Tensor :=
  let T := nth 1 (shape t) 0%nat in
  mkTensor (shape t)
    (map (fun k => if (k mod T =? j)%nat then nth (k / T) col 0
                   else nth k (data t) 0)
       (seq 0 (length (data t)))).

(** [t.unsqueeze(0)] and [t.squeeze(0)]. *)
Definition unsqueeze0 (t : Tensor) : Tensor :=
  mkTensor (1%nat :: shape t) (data t).

Definition squeeze0 (t : Tensor) : Tensor :=
  match shape t with
  | 1%nat :: s => mkTensor s (data t)
  | _ => t
  end.

(** [torch.cat((a, b), dim=0)]: the sizes after the first must agree,
    except that a tensor of shape [(0,)], which has no element, is passed
    over; a tensor without dimensions is refused. *)
Definition cat (a b : Tensor) : result Tensor :=
  match shape a, shape b with
  | n :: s, m :: s' =>
      if shape_eqb s s'
      then Ok (mkTensor ((n + m)%nat :: s) (data a ++ data b))
      else if shape_eqb (n :: s) [0%nat]
      then Ok (mkTensor (m :: s') (data a ++ data b))
      else if shape_eqb (m :: s') [0%nat]
      then Ok (mkTensor (n :: s) (data a ++ data b))
      else Raise RuntimeError
  | _, _ => Raise RuntimeError
  end.

(** [torch.cat(ts)] along dimension 0; an empty list is refused. *)
Fixpoint cat_list (ts : list Tensor) : result Tensor :=
  match ts with
  | [] => Raise RuntimeError
  | [t] => match shape t with [] => Raise RuntimeError | _ => Ok t end
  | t :: ts' => r <- cat_list ts' ;; cat t r
  end.

(** [t.reshape(-1)] and [t.flatten()]. *)
Definition flatten (t : Tensor) : Tensor :=
  mkTensor [length (data t)] (data t).

(** [t.reshape(-1, n)]: refused unless [n] is positive and divides the
    number of elements. *)
Definition reshape_rows (t : Tensor) (n : Z) : result Tensor :=
  let len := length (data t) in
  if ((0 <? n)%Z && (len mod Z.to_nat n =? 0)%nat)%bool
  then Ok (mkTensor [(len / Z.to_nat n)%nat; Z.to_nat n] (data t))
  else Raise RuntimeError.

(** The rows of a 2-d tensor. *)
Definition rows (t : Tensor) : list (list Q) :=
  match shape t with
  | [B; T] => chunks T B (data t)
  | _ => []
  end.

(** [t.chunk(k)] of a 1-d tensor: pieces of [ceil(len / k)] elements, the
    last one shorter; [k] empty pieces when the tensor is empty. *)
Definition chunk (t : Tensor) (k : nat) : result (list Tensor) :=
  if (k =? 0)%nat then Raise RuntimeError
  else
    let len := length (data t) in
    let size := ((len + k - 1) / k)%nat in
    Ok (map (fun piece => mkTensor [length piece] piece)
          (if (size =? 0)%nat then repeat [] k
           else chunks size ((len + size - 1) / size) (data t))).

(** [t.sum(dim=-1)]: the sums over the last dimension. *)
Definition sum_last (t : Tensor) : result Tensor :=
  match rev (shape t) with
  | [] => Ok (mkTensor [] [Qsum (data t)])
  | K :: s =>
      Ok (mkTensor (rev s)
            (map Qsum (chunks K (numel (rev s)) (data t))))
  end.

(** [for x in t]: the sub-tensors along dimension 0. *)
Definition iter (t : Tensor) : result (list Tensor) :=
  match shape t with
  | [] => Raise TypeError
  | B :: s => Ok (map (mkTensor s) (chunks (numel s) B (data t)))
  end.

(** [torch.ones_like(t) * r] for a number [r]. *)
Definition ones_times (t : Tensor) (r : Q) : Tensor :=
  mkTensor (shape t) (map (fun one => one * r) (data (ones_like t))).

(** [(t == 1).float()] on the elements. *)
Definition eq_one (x : Q) : Q := if Qeq_bool x 1 then 1 else 0.

End Torch.

Import Torch.

(** ** Python values held by an experience *)

#[local] Set Warnings "-register-all".

Inductive pyval : Type :=
| PyNone
| PyInt (z : Z)
| PyFloat (q : Q)
| PyTensor (t : Tensor)
| PyList (l : list pyval).

(** ** AdvantageEngine *)

Module AdvantageEngine.

(** [values = action_mask * values] when [action_mask is not None]. *)
Definition apply_mask (action_mask : option Tensor) (t : Tensor)
  : result Tensor :=
  match action_mask with
  | Some m => Torch.mul m t
  | None => Ok t
  end.

Section GAE.

Variables gamma lambd : Q.

(** One iteration of the loop of [get_advantages_and_returns] at timestep
    [t]; the state is [(lastgaelam, advantages_reversed)]. *)
Definition gae_body (response_length : nat) (values rewards : Tensor)
    (st : operand * list operand) (t : nat) : operand * list operand :=
  let '(lastgaelam, advantages_reversed) := st in
  let nextvalues :=
    if (t <? response_length - 1)%nat then Vec (select_col values (t + 1))
    else Num 0 in
  let delta :=
    broadcast Qminus
      (broadcast Qplus (Vec (select_col rewards t))
         (broadcast Qmult (Num gamma) nextvalues))
      (Vec (select_col values t)) in
  let lastgaelam :=
    broadcast Qplus delta
      (broadcast Qmult (broadcast Qmult (Num gamma) (Num lambd)) lastgaelam) in
  (lastgaelam, advantages_reversed ++ [lastgaelam]).

(** The body of [get_advantages_and_returns] for one padded tensor of sizes
    (batch_size, response_size).  The model follows the code where [values],
    [rewards] and the mask have these same sizes; other sizes are refused,
    and the kind of the exception is then not the code's in every case. *)
Definition get_advantages_and_returns_batched
    (values rewards : Tensor) (action_mask : option Tensor)
  : result (Tensor * Tensor) :=
  let lastgaelam := Num 0 in
  let advantages_reversed := [] in
  match shape rewards with
  | [_; response_length] =>
      values <- apply_mask action_mask values ;;
      rewards <- apply_mask action_mask rewards ;;
      let '(_, advantages_reversed) :=
        fold_left (gae_body response_length values rewards)
          (rev (seq 0 response_length)) (lastgaelam, advantages_reversed) in
      advantages <- stack_dim1 (rev advantages_reversed) ;;
      returns <- Torch.add advantages values ;;
      Ok (advantages, returns)
  | _ => Raise IndexError
  end.

End GAE.

(** One iteration of the loop of [get_cumulative_returns] at timestep [t];
    the state is [(cumulative_return, returns)]. *)
Definition cumulative_body (gamma : Q) (rewards : Tensor)
    (st : operand * Tensor) (t : nat) : operand * Tensor :=
  let '(cumulative_return, returns) := st in
  let cumulative_return :=
    broadcast Qplus (Vec (select_col rewards t))
      (broadcast Qmult (Num gamma) cumulative_return) in
  (cumulative_return, assign_col returns t (vec cumulative_return)).

(** The body of [get_cumulative_returns] for one padded tensor of sizes
    (batch_size, response_size). *)
Definition get_cumulative_returns_batched
    (rewards : Tensor) (action_mask : option Tensor) (gamma : Q)
  : result Tensor :=
  match shape rewards with
  | [batch_size; response_length] =>
      let returns := zeros_like rewards in
      let cumulative_return := Vec (repeat 0 batch_size) in
      rewards <- apply_mask action_mask rewards ;;
      let '(_, returns) :=
        fold_left (cumulative_body gamma rewards)
          (rev (seq 0 response_length)) (cumulative_return, returns) in
      Ok returns
  | _ => Raise IndexError
  end.

(** The items of a Python list of tensors, or of a tensor iterated along
    dimension 0. *)
Definition items (v : pyval) : result (list pyval) :=
  match v with
  | PyList l => Ok l
  | PyTensor t => ts <- iter t ;; Ok (map PyTensor ts)
  | _ => Raise TypeError
  end.

(** [get_advantages_and_returns(values, rewards, action_mask, gamma, lambd)]:
    a list of tensors (packed samples) is handled one sequence at a time
    through the tensor case.  Arguments that are neither are refused, as in
    the code, where the kind of the exception depends on the operation that
    meets them first. *)
Definition get_advantages_and_returns
    (values rewards : pyval) (action_mask : option Tensor) (gamma lambd : Q)
  : result (pyval * pyval) :=
  match values with
  | PyList vs =>
      rs <- items rewards ;;
      pairs <-
        map_result
          (fun vr =>
             match vr with
             | (PyTensor v, PyTensor r) =>
                 ' (adv, ret) <-
                   get_advantages_and_returns_batched gamma lambd
                     (unsqueeze0 v) (unsqueeze0 r) action_mask ;;
                 Ok (PyTensor (squeeze0 adv), PyTensor (squeeze0 ret))
             | _ => Raise AttributeError
             end)
          (combine vs rs) ;;
      Ok (PyList (map fst pairs), PyList (map snd pairs))
  | PyTensor v =>
      match rewards with
      | PyTensor r =>
          ' (adv, ret) <-
            get_advantages_and_returns_batched gamma lambd v r action_mask ;;
          Ok (PyTensor adv, PyTensor ret)
      | _ => Raise AttributeError
      end
  | _ => Raise AttributeError
  end.

(** [get_cumulative_returns(rewards, action_mask, gamma)]. *)
Definition get_cumulative_returns
    (rewards : pyval) (action_mask : option Tensor) (gamma : Q)
  : result pyval :=
  match rewards with
  | PyList rs =>
      rets <-
        map_result
          (fun r =>
             match r with
             | PyTensor r =>
                 ret <- get_cumulative_returns_batched (unsqueeze0 r)
                          action_mask gamma ;;
                 Ok (PyTensor (squeeze0 ret))
             | _ => Raise AttributeError
             end)
          rs ;;
      Ok (PyList rets)
  | PyTensor r =>
      ret <- get_cumulative_returns_batched r action_mask gamma ;;
      Ok (PyTensor ret)
  | _ => Raise AttributeError
  end.

End AdvantageEngine.

(** ** Python dictionaries

    A [dict] keeps its keys in insertion order, and [items()] iterates in
    that order: an association list with no repeated key.  Assigning to a
    key that is present replaces the value where it stands; a new key goes
    to the end. *)

Class Key (K : Type) : Type :=
  { key_eqb : K -> K -> bool;
    key_eqb_spec : forall a b, reflect (a = b) (key_eqb a b) }.

#[export] Instance Key_string : Key string :=
  { key_eqb := String.eqb; key_eqb_spec := String.eqb_spec }.

#[export] Instance Key_Z : Key Z :=
  { key_eqb := Z.eqb; key_eqb_spec := Z.eqb_spec }.

Module PyDict.

Section Dict.

Context {K V : Type} `{Key K}.

Definition dict : Type := list (K * V).

Definition keys (d : dict) : list K := map fst d.

(** [d.get(k)], [None] when the key is missing. *)
Fixpoint lookup (d : dict) (k : K) : option V :=
  match d with
  | [] => None
  | (k', v) :: d' => if key_eqb k k' then Some v else lookup d' k
  end.

(** [d[k]]. *)
Definition getitem (d : dict) (k : K) : result V :=
  match lookup d k with
  | Some v => Ok v
  | None => Raise KeyError
  end.

(** [d[k] = v]. *)
Fixpoint setitem (d : dict) (k : K) (v : V) : dict :=
  match d with
  | [] => [(k, v)]
  | (k', v') :: d' =>
      if key_eqb k k' then (k', v) :: d' else (k', v') :: setitem d' k v
  end.

(** [del d[k]] on the association list. *)
Fixpoint remove (d : dict) (k : K) : dict :=
  match d with
  | [] => []
  | (k', v') :: d' => if key_eqb k k' then d' else (k', v') :: remove d' k
  end.

(** [d.pop(k)]: the value and the remaining dictionary. *)
Definition pop (d : dict) (k : K) : result (V * dict) :=
  match lookup d k with
  | Some v => Ok (v, remove d k)
  | None => Raise KeyError
  end.

End Dict.

Arguments dict : clear implicits.

End PyDict.

Import PyDict.

(** ** ExperienceModel *)

Module ExperienceModel.

(** Python's [x + y] on the values an [info] entry holds: numbers are added,
    lists are concatenated, and a number is broadcast over a tensor. *)
Definition py_add (x y : pyval) : result pyval :=
  match x, y with
  | PyInt a, PyInt b => Ok (PyInt (a + b))
  | PyInt a, PyFloat b => Ok (PyFloat (inject_Z a + b))
  | PyFloat a, PyInt b => Ok (PyFloat (a + inject_Z b))
  | PyFloat a, PyFloat b => Ok (PyFloat (a + b))
  | PyList a, PyList b => Ok (PyList (a ++ b))
  | PyInt a, PyTensor t =>
      Ok (PyTensor
            (mkTensor (shape t) (map (fun y => inject_Z a + y) (data t))))
  | PyFloat a, PyTensor t =>
      Ok (PyTensor (mkTensor (shape t) (map (fun y => a + y) (data t))))
  | _, _ => Raise TypeError
  end.

(** [conditional_cat(attr1, attr2)]. *)
Definition conditional_cat (attr1 attr2 : pyval) : result pyval :=
  match attr1, attr2 with
  | PyNone, _ => Ok PyNone
  | _, PyNone => Ok PyNone
  | PyTensor x, PyTensor y => t <- Torch.cat x y ;; Ok (PyTensor t)
  | PyTensor _, _ => Raise TypeError
  | _, _ => py_add attr1 attr2
  end.

Record Experience : Type := mkExperience
  { sequences : pyval;
    action_log_probs : pyval;
    values : pyval;
    returns : pyval;
    advantages : pyval;
    attention_mask : pyval;
    action_mask : pyval;
    info : dict string pyval;
    kl : pyval;
    ref_log_probs : pyval;
    (** [Optional[dict]]: [None] when no data processor supplied inputs *)
    visual_inputs : option (dict string pyval) }.

(** The attributes that [__add__] hands to [conditional_cat]. *)
Inductive field : Type :=
| Fsequences | Faction_log_probs | Fvalues | Freturns | Fadvantages
| Fattention_mask | Faction_mask | Fkl | Fref_log_probs.

Definition getattr (e : Experience) (f : field) : pyval :=
  match f with
  | Fsequences => sequences e
  | Faction_log_probs => action_log_probs e
  | Fvalues => values e
  | Freturns => returns e
  | Fadvantages => advantages e
  | Fattention_mask => attention_mask e
  | Faction_mask => action_mask e
  | Fkl => kl e
  | Fref_log_probs => ref_log_probs e
  end.

(** [out = {}], then for [k] in [mine.keys()]:
    [out[k] = conditional_cat(mine[k], theirs[k])]. *)
Definition cat_dicts (mine : dict string pyval)
    (theirs : string -> result pyval) : result (dict string pyval) :=
  for_each (keys mine)
    (fun out k =>
       a <- getitem mine k ;;
       b <- theirs k ;;
       v <- conditional_cat a b ;;
       Ok (setitem out k v))
    [].

(** What can stand on the other side of [+]: an [Experience], or the
    integer that [sum] starts from. *)
Inductive pyobj : Type :=
| ObjInt (z : Z)
| ObjExperience (e : Experience).

(** The outcome of a binary special method. *)
Inductive special (A : Type) : Type :=
| NotImplemented
| Returns (a : A).

Arguments NotImplemented {A}.
Arguments Returns {A} a.

(** [Experience.__add__(self, other)]. *)
Definition Experience_add (self : Experience) (other : pyobj)
  : result (special Experience) :=
  match other with
  | ObjInt _ => Ok NotImplemented
  | ObjExperience other =>
      info' <- cat_dicts (info self) (getitem (info other)) ;;
      visual_inputs' <-
        match visual_inputs self with
        | None => Raise AttributeError
        | Some mine =>
            cat_dicts mine
              (match visual_inputs other with
               | None => fun _ => Raise TypeError
               | Some theirs => getitem theirs
               end)
        end ;;
      sequences' <- conditional_cat (sequences self) (sequences other) ;;
      action_log_probs' <-
        conditional_cat (action_log_probs self) (action_log_probs other) ;;
      values' <- conditional_cat (values self) (values other) ;;
      returns' <- conditional_cat (returns self) (returns other) ;;
      advantages' <- conditional_cat (advantages self) (advantages other) ;;
      attention_mask' <-
        conditional_cat (attention_mask self) (attention_mask other) ;;
      action_mask' <- conditional_cat (action_mask self) (action_mask other) ;;
      kl' <- conditional_cat (kl self) (kl other) ;;
      ref_log_probs' <-
        conditional_cat (ref_log_probs self) (ref_log_probs other) ;;
      Ok (Returns
            (mkExperience sequences' action_log_probs' values' returns'
               advantages' attention_mask' action_mask' info' kl'
               ref_log_probs' (Some visual_inputs')))
  end.

(** [Experience.__radd__(self, other)]. *)
Definition Experience_radd (self : Experience) (other : pyobj)
  : result (special Experience) :=
  match other with
  | ObjInt 0%Z => Ok (Returns self)
  | _ => Experience_add self other
  end.

(** Python's [a + b] where an operand may be an [Experience]: the left
    operand's [__add__] first, then, for an integer on the left, the right
    operand's [__radd__]. *)
Definition plus (a b : pyobj) : result pyobj :=
  match a, b with
  | ObjInt x, ObjInt y => Ok (ObjInt (x + y))
  | ObjInt _, ObjExperience e =>
      r <- Experience_radd e a ;;
      match r with
      | Returns e' => Ok (ObjExperience e')
      | NotImplemented => Raise TypeError
      end
  | ObjExperience e, _ =>
      r <- Experience_add e b ;;
      match r with
      | Returns e' => Ok (ObjExperience e')
      | NotImplemented => Raise TypeError
      end
  end.

(** The builtin [sum(experiences)], which starts from [0]. *)
Definition sum (experiences : list Experience) : result pyobj :=
  for_each experiences (fun acc e => plus acc (ObjExperience e)) (ObjInt 0).

End ExperienceModel.

(** ** RequestAggregator: [LLMRayActor] *)

Module VllmEngine.

(** A method call on the actor either returns or raises; the attributes
    assigned before a raise stay assigned. *)
Inductive outcome (S A : Type) : Type :=
| Return (a : A) (s : S)
| Throw (e : exn) (s : S).

Arguments Return {S A} a s.
Arguments Throw {S A} e s.

Definition state_of {S A : Type} (o : outcome S A) : S :=
  match o with
  | Return _ s => s
  | Throw _ s => s
  end.

Section Actor.

(** A request item (a list of prompt token ids), a generation output, and
    the engine behind [self.llm.generate]. *)
Variables (prompt output : Type).
Variable llm_generate : list prompt -> list output.

Record LLMRayActor : Type := mkActor
  { num_actors : Z;
    actor_counter : Z;
    requests : dict Z (list prompt);
    (** [self.responses] is not set before the first dispatch *)
    responses : option (dict Z (list output));
    (** ghost: the argument of every [self.llm.generate] call so far *)
    generate_calls : list (list prompt) }.

(** The attributes set by [__init__]. *)
Definition init (num_actors : Z) : LLMRayActor :=
  mkActor num_actors 0 [] None [].

(** [for actor_rank, num in num_requests:
       self.responses[actor_rank] = responses[offset : offset + num]
       offset += num] *)
Definition slice_responses (num_requests : list (Z * nat))
    (responses : list output) : dict Z (list output) :=
  snd
    (fold_left
       (fun '(offset, self_responses) '(actor_rank, num) =>
          ((offset + num)%nat,
           setitem self_responses actor_rank
             (firstn num (skipn offset responses))))
       num_requests (0%nat, [])).

(** [add_requests(self, actor_rank, sampling_params=..., prompt_token_ids=...)];
    [add_requests_vlm] is the same code on vision inputs. *)
Definition add_requests (self : LLMRayActor) (actor_rank : Z)
    (prompt_token_ids : list prompt) : outcome LLMRayActor unit :=
  let requests1 := setitem (requests self) actor_rank prompt_token_ids in
  let actor_counter1 := (actor_counter self + 1)%Z in
  let self1 :=
    mkActor (num_actors self) actor_counter1 requests1 (responses self)
      (generate_calls self) in
  if (actor_counter1 =? num_actors self)%Z then
    if negb (Z.of_nat (length requests1) =? num_actors self)%Z then
      Throw (AssertionError EmptyString) self1
    else
      let num_requests :=
        map (fun '(actor_rank, request) => (actor_rank, length request))
          requests1 in
      let requests := concat (map snd requests1) in
      let '(responses, calls) :=
        if (0 <? length requests)%nat
        then (llm_generate requests, generate_calls self ++ [requests])
        else ([], generate_calls self) in
      Return tt
        (mkActor (num_actors self) 0 []
           (Some (slice_responses num_requests responses)) calls)
  else Return tt self1.

(** [get_responses(self, actor_rank)]. *)
Definition get_responses (self : LLMRayActor) (actor_rank : Z)
  : outcome LLMRayActor (list output) :=
  match responses self with
  | None => Throw AttributeError self
  | Some d =>
      match pop d actor_rank with
      | Raise e => Throw e self
      | Ok (r, d') =>
          Return r
            (mkActor (num_actors self) (actor_counter self) (requests self)
               (Some d') (generate_calls self))
      end
  end.

(** The calls [add_requests(rank, prompt_token_ids=payload)] of a list of
    producers, one after the other, stopping at the first that raises. *)
Fixpoint register_all (self : LLMRayActor)
    (calls : list (Z * list prompt)) : outcome LLMRayActor unit :=
  match calls with
  | [] => Return tt self
  | (actor_rank, payload) :: calls' =>
      match add_requests self actor_rank payload with
      | Return _ self' => register_all self' calls'
      | Throw e self' => Throw e self'
      end
  end.

(** [get_responses(rank)] for each rank of a list, in that order; [None]
    as soon as one raises. *)
Fixpoint collect_all (self : LLMRayActor) (ranks : list Z)
  : option (list (list output)) :=
  match ranks with
  | [] => Some []
  | r :: ranks' =>
      match get_responses self r with
      | Return out self' =>
          match collect_all self' ranks' with
          | Some outs => Some (out :: outs)
          | None => None
          end
      | Throw _ _ => None
      end
  end.

End Actor.

End VllmEngine.

(** ** RolloutCollector: [NaiveExperienceMaker] *)

Module RolloutCollector.

Import ExperienceModel AdvantageEngine.

(** The remote work a rollout issues, in the order of issue. *)
Inductive event : Type :=
| EvGenerate      (* [self.generate_samples(all_prompts, ...)] *)
| EvBroadcast     (* [dist.broadcast_object_list(samples_list, ...)] *)
| EvEngineSleep   (* [batch_vllm_engine_call(self.vllm_engines, "sleep")] *)
| EvBarrier       (* [torch.distributed.barrier()] *)
| EvScore.        (* [self.make_experience(samples)] *)

(** A computation that issues remote work and may raise: the events issued
    up to the return or the raise, and the result. *)
Definition io (A : Type) : Type := (list event * result A)%type.

Definition io_bind {A B : Type} (m : io A) (k : A -> io B) : io B :=
  match m with
  | (tr, Ok a) => let '(tr', r) := k a in (tr ++ tr', r)
  | (tr, Raise e) => (tr, Raise e)
  end.

(** A remote call: its event, then its result. *)
Definition call {A : Type} (ev : event) (r : result A) : io A := ([ev], r).

(** Local computation. *)
Definition lift {A : Type} (r : result A) : io A := ([], r).

Declare Scope io_scope.
Delimit Scope io_scope with io.
Notation "x <-- m ;; k" := (io_bind m (fun x => k))
  (at level 100, m at next level, right associativity) : io_scope.

Fixpoint io_map {A B : Type} (f : A -> io B) (l : list A) : io (list B) :=
  match l with
  | [] => lift (Ok [])
  | x :: l' =>
      (y <-- f x ;; ys <-- io_map f l' ;; lift (Ok (y :: ys)))%io
  end.

(** [strategy.args], the attributes of the maker and the generation keyword
    arguments that the advantage stage reads. *)
Record Args : Type := mkArgs
  { advantage_estimator : string;
    n_samples_per_prompt : Z;
    packing_samples : bool;
    vllm_enable_sleep : bool;
    (** [strategy.ring_attn_rank] when [strategy.ring_attn_group is not None] *)
    ring_attn_rank : option Z;
    gamma : Q;
    lambd : Q }.

Definition estimator_in (name : string) (names : list string) : bool :=
  existsb (String.eqb name) names.

Definition as_tensor (v : pyval) : result Tensor :=
  match v with
  | PyTensor t => Ok t
  | _ => Raise AttributeError
  end.

(** [sum(v, [])] on a list of lists. *)
Definition sum_lists (v : pyval) : result pyval :=
  match v with
  | PyList ls =>
      for_each ls
        (fun acc l =>
           match acc, l with
           | PyList a, PyList b => Ok (PyList (a ++ b))
           | _, _ => Raise TypeError
           end)
        (PyList [])
  | _ => Raise TypeError
  end.

Definition set_info (e : Experience) (k : string) (v : pyval) : Experience :=
  mkExperience (sequences e) (action_log_probs e) (values e) (returns e)
    (advantages e) (attention_mask e) (action_mask e) (setitem (info e) k v)
    (kl e) (ref_log_probs e) (visual_inputs e).

(** [baseline = (rewards.sum(-1, keepdim=True) - rewards) / (n - 1)] on the
    rows of [rewards].  With [n = 1] the code divides by 0 and stores [inf]
    or [nan]; the division of [Q] gives 0 there, so the model follows the
    code for [n <> 1] only. *)
Definition rloo_baseline (n : Z) (rewards : list (list Q)) : list (list Q) :=
  map (fun row => map (fun x => (Qsum row - x) / inject_Z (n - 1)) row) rewards.

Section Collector.

Variable args : Args.

(** [process_experiences(self, experiences)]. *)
Definition process_experiences (experiences : list Experience)
  : result (list Experience * list pyval) :=
  if String.eqb (advantage_estimator args) "rloo" then
    rs <- map_result
            (fun experience =>
               r <- getitem (info experience) "reward"%string ;; as_tensor r)
            experiences ;;
    rewards <- cat_list rs ;;
    experiences <-
      map_result
        (fun experience =>
           r <- getitem (info experience) "reward"%string ;;
           r <- as_tensor r ;;
           Ok (set_info experience "acc_info"
                 (PyTensor
                    (flatten (mkTensor (shape r) (map eq_one (data r)))))))
        experiences ;;
    rewards <- reshape_rows rewards (n_samples_per_prompt args) ;;
    let baseline := rloo_baseline (n_samples_per_prompt args) (rows rewards) in
    let rewards :=
      mkTensor (shape rewards)
        (concat (zip_with (zip_with Qminus) (rows rewards) baseline)) in
    rewards <- chunk (flatten rewards) (length experiences) ;;
    Ok (experiences, map PyTensor rewards)
  else if estimator_in (advantage_estimator args) ["group_norm"%string] then
    merged <- ExperienceModel.sum experiences ;;
    merged' <- ExperienceModel.sum experiences ;;
    match merged, merged' with
    | ObjExperience e, ObjExperience e' =>
        r <- getitem (info e') "reward"%string ;;
        Ok ([e], [r])
    | _, _ => Raise AttributeError
    end
  else
    rewards <-
      map_result (fun experience => getitem (info experience) "reward"%string)
        experiences ;;
    Ok (experiences, rewards).

(** [1e-8]. *)
Definition eps : Q := 1 # 100000000.

(** [reward.size(-1)]. *)
Definition size_last (t : Tensor) : result nat :=
  match rev (shape t) with
  | K :: _ => Ok K
  | [] => Raise IndexError
  end.

(** [reward.reshape(-1, n, K)] as groups of [n] items of [K] components. *)
Definition reshape_groups (t : Tensor) (n : Z) (K : nat)
  : result (list (list (list Q))) :=
  let len := length (data t) in
  let n := Z.to_nat n in
  if ((0 <? n * K)%nat && (len mod (n * K) =? 0)%nat)%bool
  then Ok (map (chunks K n) (chunks (n * K) (len / (n * K)) (data t)))
  else Raise RuntimeError.

(** [reward[:, :, c]]. *)
Definition component (K c : nat) (groups : list (list (list Q)))
  : result (list (list Q)) :=
  if (c <? K)%nat then Ok (map (map (fun item => nth c item 0)) groups)
  else Raise IndexError.

Definition flat1 (rs : list (list Q)) : pyval :=
  PyTensor (mkTensor [length (concat rs)] (concat rs)).

Definition mean (row : list Q) : Q :=
  Qsum row / inject_Z (Z.of_nat (length row)).

(** [t[~mask] = 0] for a 1-d boolean mask, given as 1 for true and 0 for
    false: the mask must have the size of dimension 0, and a 0-d tensor
    takes no mask. *)
Definition zero_unmasked (t : Tensor) (mask : list Q) : result Tensor :=
  match shape t with
  | [] => Raise IndexError
  | B :: s =>
      if (B =? length mask)%nat then
        Ok (mkTensor (shape t)
              (concat
                 (zip_with
                    (fun row m => if Qeq_bool m 0 then map (fun _ => 0) row
                                  else row)
                    (chunks (numel s) B (data t)) mask)))
      else Raise IndexError
  end.

(** [t / v] for a 1-d tensor [v], which is broadcast along the last
    dimension of [t].  Where the code divides 0 by 0 it stores [nan], a
    value the model does not have: the quotient is 0 here. *)
Definition div_last (t : Tensor) (v : list Q) : result Tensor :=
  let N := length v in
  match rev (shape t) with
  | [] => Ok (mkTensor [N] (map (fun r => nth 0 (data t) 0 / r) v))
  | L :: s =>
      if (L =? N)%nat then
        Ok (mkTensor (shape t)
              (concat
                 (map (fun row => zip_with Qdiv row v)
                    (chunks L (numel s) (data t)))))
      else if (L =? 1)%nat then
        Ok (mkTensor (rev (N :: s))
              (flat_map (fun x => map (fun r => x / r) v) (data t)))
      else if (N =? 1)%nat then
        Ok (mkTensor (shape t) (map (fun x => x / nth 0 v 0) (data t)))
      else Raise RuntimeError
  end.

Section Std.

(** The square root on the elements of a tensor.  Its values are not
    rational in general, so it is a parameter; the statements about the
    standard deviation say how close to a root they take it to be. *)
Variable sqrt : Q -> Q.

(** [row.std()]: torch's default, with Bessel's correction. *)
Definition std (row : list Q) : Q :=
  sqrt (Qsum (map (fun x => (x - mean row) * (x - mean row)) row)
        / inject_Z (Z.of_nat (length row) - 1)).

(** [(reward - mean) / (std + 1e-8)] on one group. *)
Definition normalize (row : list Q) : list Q :=
  map (fun x => (x - mean row) / (std row + eps)) row.

(** The block of [make_experience_list] under
    [if self.advantage_estimator in ["group_norm", "reinforce++"]]: the
    normalized reward and the updated [experience.info]. *)
Definition group_norm_reward (reward : pyval) (info : dict string pyval)
  : result (pyval * dict string pyval) :=
  if negb (n_samples_per_prompt args >? 1)%Z then
    Raise (AssertionError "group_norm requires n_samples_per_prompt > 1")
  else
    reward <- as_tensor reward ;;
    K <- size_last reward ;;
    reward <- reshape_groups reward (n_samples_per_prompt args) K ;;
    label_reward <- component K 0 reward ;;
    let info :=
      setitem info "acc"%string (flat1 (map (map eq_one) label_reward)) in
    length_reward <- component K 1 reward ;;
    ' (reward, info) <-
      (if (3 <=? K)%nat then
         pattern_reward <- component K 2 reward ;;
         Ok (zip_with (zip_with Qplus)
               (zip_with (zip_with Qplus) length_reward label_reward)
               pattern_reward,
             setitem info "pattern_reward"%string (flat1 pattern_reward))
       else
         Ok (zip_with (zip_with Qplus) length_reward label_reward, info)) ;;
    let info := setitem info "reward"%string (flat1 reward) in
    let std_rows := map (fun row => repeat (std row) (length row)) reward in
    let reward := map normalize reward in
    let info := setitem info "length_reward"%string (flat1 length_reward) in
    let info := setitem info "label_reward"%string (flat1 label_reward) in
    let info := setitem info "reward_std"%string (flat1 std_rows) in
    let complete_mask :=
      map (map (fun x => if Qle_bool (-1) x then 1 else 0)) label_reward in
    let completion_ratio :=
      map (fun row => repeat (Qsum row / inject_Z (Z.of_nat (length row)))
                        (length row))
        complete_mask in
    let info :=
      setitem info "completion_ratio"%string (flat1 completion_ratio) in
    response_length <- getitem info "response_length"%string ;;
    complete_length <- as_tensor response_length ;;
    complete_length <- zero_unmasked complete_length (concat complete_mask) ;;
    complete_length <- div_last complete_length (concat completion_ratio) ;;
    let info :=
      setitem info "completion_length"%string (PyTensor complete_length) in
    info <-
      match lookup info "learn_mask"%string with
      | Some m => m <- as_tensor m ;;
                  Ok (setitem info "learn_mask"%string (PyTensor (flatten m)))
      | None => Ok info
      end ;;
    Ok (flat1 reward, info).

(** [openrlhf.models.utils.compute_reward(reward, self.kl_ctl.value,
    experience.kl, action_mask=..., num_actions=..., reward_clip_range=...)],
    from a module outside these sources. *)
Variable compute_reward : pyval -> pyval -> pyval -> pyval -> result pyval.

(** [[torch.ones_like(logps.unsqueeze(0)) * r
      for logps, r in zip(experience.ref_log_probs, reward)]]. *)
Definition broadcast_group_reward (ref_log_probs reward : pyval)
  : result pyval :=
  reward <- as_tensor reward ;;
  logps <-
    match ref_log_probs with
    | PyList logps => Ok logps
    | PyTensor logps => ts <- iter logps ;; Ok (map PyTensor ts)
    | _ => Raise TypeError
    end ;;
  rets <-
    map_result
      (fun '(logps, r) =>
         logps <- as_tensor logps ;;
         Ok (PyTensor (ones_times (unsqueeze0 logps) r)))
      (combine logps (data reward)) ;;
  Ok (PyList rets).

(** [reward.sum(dim=-1)], or one sum per sequence for packed samples. *)
Definition return_sums (reward : pyval) : result pyval :=
  if negb (packing_samples args) then
    reward <- as_tensor reward ;;
    s <- sum_last reward ;;
    Ok (PyTensor s)
  else
    each <-
      match reward with
      | PyList rs => Ok rs
      | PyTensor r => ts <- iter r ;; Ok (map PyTensor ts)
      | _ => Raise TypeError
      end ;;
    sums <- map_result (fun r => r <- as_tensor r ;; Ok (Qsum (data r))) each ;;
    Ok (PyTensor (mkTensor [length sums] sums)).

(** [experience.action_mask], a tensor or [None]. *)
Definition as_mask (action_mask : pyval) : result (option Tensor) :=
  match action_mask with
  | PyNone => Ok None
  | PyTensor m => Ok (Some m)
  | _ => Raise TypeError
  end.

(** One iteration of [for experience, reward in zip(experiences, rewards)]:
    the experience as the iteration leaves it. *)
Definition advantage_step (experience : Experience) (reward : pyval)
  : result Experience :=
  let est := advantage_estimator args in
  num_actions <- getitem (info experience) "num_actions"%string ;;
  ' (reward, info1) <-
    (if estimator_in est ["group_norm"; "reinforce++"]%string
     then group_norm_reward reward (info experience)
     else Ok (reward, info experience)) ;;
  reward <-
    (if negb (estimator_in est ["group_norm"%string])
     then compute_reward reward (kl experience) (action_mask experience)
            num_actions
     else Ok reward) ;;
  ' (advantages1, returns1) <-
    (if String.eqb est "gae" then
       mask <- as_mask (action_mask experience) ;;
       get_advantages_and_returns (values experience) reward mask
         (gamma args) (lambd args)
     else if estimator_in est ["reinforce"; "rloo"; "reinforce++"]%string then
       mask <- as_mask (action_mask experience) ;;
       ret <- get_cumulative_returns reward mask (gamma args) ;;
       Ok (ret, ret)
     else if estimator_in est ["group_norm"%string] then
       ret <- broadcast_group_reward (ref_log_probs experience) reward ;;
       Ok (ret, ret)
     else
       Raise (Exception ("Unkown advantage_estimator " ++ est))) ;;
  sums <- return_sums reward ;;
  let info2 := setitem info1 "return"%string sums in
  Ok (mkExperience (sequences experience) (action_log_probs experience)
        (values experience) returns1 advantages1 (attention_mask experience)
        (action_mask experience) (remove info2 "num_actions"%string) PyNone
        (ref_log_probs experience) (visual_inputs experience)).

(** The loop over [zip(experiences, rewards)]; an experience without a
    reward is left as it is. *)
Fixpoint advantage_loop (experiences : list Experience) (rewards : list pyval)
  : result (list Experience) :=
  match experiences, rewards with
  | experience :: experiences', reward :: rewards' =>
      e <- advantage_step experience reward ;;
      es <- advantage_loop experiences' rewards' ;;
      Ok (e :: es)
  | _, _ => Ok experiences
  end.

(** [experiences[0].info['dump/rewards'] =
      sum(experiences[0].info['dump/rewards'], [])]. *)
Definition flatten_dump_rewards (experiences : list Experience)
  : result (list Experience) :=
  match experiences with
  | [] => Raise IndexError
  | e :: es =>
      d <- getitem (info e) "dump/rewards"%string ;;
      d <- sum_lists d ;;
      Ok (set_info e "dump/rewards" d :: es)
  end.

(** The collaborators: generation, the broadcast that delivers the samples
    to a rank that does not generate, and scoring. *)
Variables (Prompts Samples : Type).
Variable generate_samples : Prompts -> result (list Samples).
Variable broadcast_object_list : result (list Samples).
Variable make_experience : Samples -> result Experience.

Open Scope io_scope.

(** [make_experience_list(self, all_prompts, **generate_kwargs)]. *)
Definition make_experience_list (all_prompts : Prompts)
  : io (list Experience) :=
  samples_list <--
    match ring_attn_rank args with
    | Some rank =>
        if (rank =? 0)%Z then
          samples_list <-- call EvGenerate (generate_samples all_prompts) ;;
          _ <-- call EvBroadcast (Ok tt) ;;
          lift (Ok samples_list)
        else call EvBroadcast broadcast_object_list
    | None => call EvGenerate (generate_samples all_prompts)
    end ;;
  _ <-- (if vllm_enable_sleep args then call EvEngineSleep (Ok tt)
         else lift (Ok tt)) ;;
  _ <-- call EvBarrier (Ok tt) ;;
  experiences <--
    io_map (fun samples => call EvScore (make_experience samples))
      samples_list ;;
  processed <-- lift (process_experiences experiences) ;;
  experiences <-- lift (flatten_dump_rewards (fst processed)) ;;
  lift (advantage_loop experiences (snd processed)).

End Std.

End Collector.

End RolloutCollector.

(** ** Vocabulary of the statements about the advantage engine *)

Module AdvantageSpec.

(** The element [i, t] that the recurrences read: the input, multiplied by
    the mask when there is one. *)
Definition masked (action_mask : option Tensor) (x : Tensor) (i t : nat) : Q :=
  match action_mask with
  | Some m => get2 m i t * get2 x i t
  | None => get2 x i t
  end.

(** A tensor of sizes [B, T] holding [B * T] elements. *)
Definition sized (B T : nat) (x : Tensor) : Prop :=
  shape x = [B; T] /\ length (data x) = (B * T)%nat.

Definition mask_sized (B T : nat) (action_mask : option Tensor) : Prop :=
  match action_mask with
  | Some m => sized B T m
  | None => True
  end.

Section Recurrence.

Variables gamma lambd : Q.
Variables (T : nat) (values rewards : Tensor).

(** [lastgaelam] after the iteration at timestep [t]. *)
Definition gae_next (lastgaelam : operand) (t : nat) : operand :=
  fst (AdvantageEngine.gae_body gamma lambd T values rewards
         (lastgaelam, []) t).

(** [lastgaelam] after [k] iterations, that is after the timesteps
    [T-1], ..., [T-k]. *)
Fixpoint lastgae (k : nat) : operand :=
  match k with
  | O => Num 0
  | S k' => gae_next (lastgae k') (T - 1 - k')
  end.

End Recurrence.

(** An operand that broadcasts against a column of [B] elements. *)
Definition column_like (B : nat) (o : operand) : Prop :=
  match o with
  | Num _ => True
  | Vec v => length v = B
  end.

(** Element [i] of an operand once broadcast. *)
Definition elt (o : operand) (i : nat) : Q :=
  match o with
  | Num x => x
  | Vec v => nth i v 0
  end.

(** The state of the loop of [get_cumulative_returns] after [k] iterations,
    that is after the timesteps [T-1], ..., [T-k]. *)
Definition after (gamma : Q) (B T : nat) (rewards : Tensor) (k : nat)
    (st : operand * Tensor) : Prop :=
  exists c,
    fst st = Vec c /\ length c = B /\ sized B T (snd st)
    /\ (forall i, (i < B)%nat ->
          nth i c 0 = if (k =? 0)%nat then 0 else get2 (snd st) i (T - k))
    /\ (forall i t, (i < B)%nat -> (T - k <= t < T)%nat ->
          get2 (snd st) i t
          = get2 rewards i t
            + gamma * (if (t <? T - 1)%nat then get2 (snd st) i (t + 1)
                       else 0)).

(** Every element of the mask is 1. *)
Definition all_ones (action_mask : option Tensor) : Prop :=
  match action_mask with
  | Some m => Forall (fun x => x == 1) (data m)
  | None => True
  end.

(** [sum_{k = t}^{T-1} gamma^(k-t) * r k]. *)
Definition discounted_sum (gamma : Q) (r : nat -> Q) (t T : nat) : Q :=
  Qsum (map (fun k => gamma ^ Z.of_nat (k - t) * r k) (seq t (T - t))).

(** Sample inputs: two rows of three timesteps, the last action of the
    first row masked out. *)
Definition sample_values : Tensor := mkTensor [2; 3]%nat [1; 2; 3; 4; 5; 6].
Definition sample_rewards : Tensor := mkTensor [2; 3]%nat [1; 1; 1; 0; 0; 1].
Definition sample_mask : Tensor := mkTensor [2; 3]%nat [1; 1; 0; 1; 1; 1].

(** The rewards [[1, 1, 1]] of one row. *)
Definition unit_rewards : Tensor := mkTensor [1; 3]%nat [1; 1; 1].

End AdvantageSpec.

(** ** Vocabulary of the statements about the collector *)

Module CollectorSpec.

Import ExperienceModel.

(** The experience carries the 1-d reward tensor [r] in its [info]. *)
Definition has_reward (e : Experience) (r : Tensor) : Prop :=
  lookup (info e) "reward"%string = Some (PyTensor r)
  /\ shape r = [length (data r)].

(** An experience that carries nothing but its [info]. *)
Definition bare (info : dict string pyval) : Experience :=
  mkExperience PyNone PyNone PyNone PyNone PyNone PyNone PyNone info PyNone
    PyNone (Some []).

Definition vector (l : list Q) : Tensor := mkTensor [length l] l.

(** Arguments with the given estimator and samples per prompt; no packing,
    no sleeping engines, no ring attention, gamma = lambd = 1. *)
Definition args_of (estimator : string) (n : Z) : RolloutCollector.Args :=
  RolloutCollector.mkArgs estimator n false false None 1 1.

(** The group [2, 4, 6] of one prompt. *)
Definition group_246 : Experience :=
  bare [("reward"%string, PyTensor (vector [2; 4; 6]))].

End CollectorSpec.

(** ** Sample experiences *)

Module Samples.

Import ExperienceModel CollectorSpec.

Definition matrix (B T : nat) (l : list Q) : pyval :=
  PyTensor (mkTensor [B; T] l).

(** A scored batch of two sequences of three actions. *)
Definition batch_of_two : Experience :=
  mkExperience
    (matrix 2 4 [1; 2; 3; 4; 5; 6; 7; 8])
    (matrix 2 3 [0; 0; 0; 0; 0; 0])
    (matrix 2 3 [1; 1; 1; 2; 2; 2])
    PyNone PyNone
    (matrix 2 4 [1; 1; 1; 1; 1; 1; 1; 1])
    (matrix 2 3 [1; 1; 1; 1; 1; 0])
    [("kl"%string, PyTensor (vector [0; 0]));
     ("reward"%string, PyTensor (vector [1; 0]));
     ("response_length"%string, PyTensor (vector [3; 2]));
     ("num_actions"%string, PyInt 3);
     ("dump/rewards"%string, PyList [PyList [PyFloat 1; PyFloat 0]])]
    (matrix 2 3 [0; 0; 0; 0; 0; 0])
    PyNone (Some []).

(** A scored batch of three sequences of three actions. *)
Definition batch_of_three : Experience :=
  mkExperience
    (matrix 3 4 [1; 2; 3; 4; 5; 6; 7; 8; 9; 10; 11; 12])
    (matrix 3 3 [0; 0; 0; 0; 0; 0; 0; 0; 0])
    (matrix 3 3 [1; 1; 1; 2; 2; 2; 3; 3; 3])
    PyNone PyNone
    (matrix 3 4 [1; 1; 1; 1; 1; 1; 1; 1; 1; 1; 1; 1])
    (matrix 3 3 [1; 1; 1; 1; 1; 1; 1; 0; 0])
    [("kl"%string, PyTensor (vector [0; 0; 0]));
     ("reward"%string, PyTensor (vector [1; 1; 0]));
     ("response_length"%string, PyTensor (vector [3; 3; 1]));
     ("num_actions"%string, PyInt 3);
     ("dump/rewards"%string, PyList [PyList [PyFloat 1; PyFloat 1; PyFloat 0]])]
    (matrix 3 3 [0; 0; 0; 0; 0; 0; 0; 0; 0])
    PyNone (Some []).

(** The batch of three scored without a critic: [values] is [None]. *)
Definition batch_without_critic : Experience :=
  mkExperience (sequences batch_of_three) (action_log_probs batch_of_three)
    PyNone PyNone PyNone (attention_mask batch_of_three)
    (action_mask batch_of_three) (info batch_of_three) (kl batch_of_three)
    PyNone (Some []).

(** The batch of three with no ["kl"] entry in [info]. *)
Definition batch_without_kl_entry : Experience :=
  mkExperience (sequences batch_of_three) (action_log_probs batch_of_three)
    (values batch_of_three) PyNone PyNone (attention_mask batch_of_three)
    (action_mask batch_of_three) (remove (info batch_of_three) "kl"%string)
    (kl batch_of_three) PyNone (Some []).

(** The merge of the batch of two with the batch of three. *)
Definition merged_batch : Experience :=
  Eval vm_compute in
    match Experience_add batch_of_two (ObjExperience batch_of_three) with
    | Ok (Returns e) => e
    | _ => batch_of_two
    end.

(** The merge of the batch of two with the batch scored without a critic. *)
Definition merged_without_critic : Experience :=
  Eval vm_compute in
    match
      Experience_add batch_of_two (ObjExperience batch_without_critic)
    with
    | Ok (Returns e) => e
    | _ => batch_of_two
    end.

End Samples.

(** ** Vocabulary of the statements about the merge *)

Module MergeSpec.

Import ExperienceModel.

(** [conditional_cat] accepts the two values. *)
Definition combinable (a b : pyval) : Prop :=
  exists v, conditional_cat a b = Ok v.

(** Every key of [mine] is a key of [theirs], with combinable values. *)
Definition entries_combinable (mine theirs : dict string pyval) : Prop :=
  forall k a, lookup mine k = Some a ->
    exists b, lookup theirs k = Some b /\ combinable a b.

Definition is_tensor (v : pyval) : Prop := exists t, v = PyTensor t.

End MergeSpec.

(** ** Vocabulary of the statements about the request aggregator *)

Module AggregatorSpec.

Import VllmEngine.

Section Spec.

Variables (prompt output : Type).
Variable llm_generate : list prompt -> list output.

(** The state of the actor where a round begins: nothing pending. *)
Definition round_start (self : LLMRayActor prompt output) : Prop :=
  actor_counter self = 0%Z /\ requests self = [].

(** The requests of a round put together, in the order of the list. *)
Definition combined (calls : list (Z * list prompt)) : list prompt :=
  concat (map snd calls).

(** What the round's generation returns: the engine is not called on an
    empty combined request. *)
Definition combined_result (calls : list (Z * list prompt)) : list output :=
  if (0 <? length (combined calls))%nat then llm_generate (combined calls)
  else [].

(** The consecutive slices of [responses], one per entry of [num_requests],
    starting at [offset]. *)
Fixpoint slices (offset : nat) (num_requests : list (Z * nat))
    (responses : list output) : list (Z * list output) :=
  match num_requests with
  | [] => []
  | (actor_rank, num) :: rest =>
      (actor_rank, firstn num (skipn offset responses))
      :: slices (offset + num) rest responses
  end.

Definition sizes (calls : list (Z * list prompt)) : list (Z * nat) :=
  map (fun '(actor_rank, request) => (actor_rank, length request)) calls.

(** The state a dispatch of the pending requests [all] leaves. *)
Definition dispatched (self : LLMRayActor prompt output)
    (all : list (Z * list prompt)) : LLMRayActor prompt output :=
  mkActor (num_actors self) 0 []
    (Some (slice_responses (sizes all) (combined_result all)))
    (if (0 <? length (combined all))%nat
     then generate_calls self ++ [combined all]
     else generate_calls self).

End Spec.

(** An engine for the examples: it answers the prompt [p] with [100 + p]. *)
Definition echo (requests : list nat) : list nat :=
  map (fun p => (100 + p)%nat) requests.

End AggregatorSpec.

(** ** Vocabulary of the statements about group normalization *)

Module GroupNormSpec.

Import ExperienceModel RolloutCollector CollectorSpec.

(** The sum of the named components of one item: length reward plus label
    reward, plus the pattern reward when the item has three components or
    more. *)
Definition item_sum (K : nat) (item : list Q) : Q :=
  if (3 <=? K)%nat then nth 1 item 0 + nth 0 item 0 + nth 2 item 0
  else nth 1 item 0 + nth 0 item 0.

(** The Bessel-corrected variance of a group, the square of torch's
    default [std]: the squared deviations from the mean, over [n - 1]. *)
Definition sample_variance (row : list Q) : Q :=
  Qsum (map (fun x => (x - mean row) * (x - mean row)) row)
  / inject_Z (Z.of_nat (length row) - 1).

(** The population variance: the same squared deviations, over [n]. *)
Definition population_variance (row : list Q) : Q :=
  Qsum (map (fun x => (x - mean row) * (x - mean row)) row)
  / inject_Z (Z.of_nat (length row)).

(** [s] is the square root of [v], to within [delta] on the square. *)
Definition root_within (delta s v : Q) : Prop :=
  0 <= s /\ v - delta <= s * s /\ s * s <= v + delta.

(** The scalar rewards of the [P] groups of [n] items of [K] components in
    a flat reward: [reward.reshape(-1, n, K)], the components of each item
    summed. *)
Definition group_sums (K n P : nat) (flat : list Q) : list (list Q) :=
  map (fun group => map (item_sum K) (chunks K n group))
    (chunks (n * K) P flat).

(** A scored micro-batch of some [b] samples: its reward has sizes [b, K]
    and its response lengths the size [b]. *)
Definition scored (K : nat) (e : Experience) (r : Tensor) : Prop :=
  lookup (info e) "reward"%string = Some (PyTensor r)
  /\ exists (b : nat) (l : Tensor),
       shape r = [b; K] /\ length (data r) = (b * K)%nat
       /\ lookup (info e) "response_length"%string = Some (PyTensor l)
       /\ shape l = [b].

(** A square root for the examples: the integer square root of [x * 10^12],
    over [10^6]. *)
Definition sqrt_approx (x : Q) : Q :=
  inject_Z (Z.sqrt (Qfloor (x * inject_Z (10 ^ 12)))) / inject_Z (10 ^ 6).

(** One prompt with four samples, whose label rewards are 1, 2, 3, 4 and
    whose length rewards are 0. *)
Definition group_1234 : Experience :=
  bare [("reward"%string,
         PyTensor (mkTensor [4; 2]%nat [1; 0; 2; 0; 3; 0; 4; 0]));
        ("response_length"%string, PyTensor (vector [5; 6; 7; 8]));
        ("num_actions"%string, PyInt 8);
        ("dump/rewards"%string, PyList [PyList []])].

(** The same group in two micro-batches of two samples. *)
Definition half_12 : Experience :=
  bare [("reward"%string, PyTensor (mkTensor [2; 2]%nat [1; 0; 2; 0]));
        ("response_length"%string, PyTensor (vector [5; 6]));
        ("num_actions"%string, PyInt 8)].

Definition half_34 : Experience :=
  bare [("reward"%string, PyTensor (mkTensor [2; 2]%nat [3; 0; 4; 0]));
        ("response_length"%string, PyTensor (vector [7; 8]));
        ("num_actions"%string, PyInt 8)].

End GroupNormSpec.

(** ** Vocabulary of the statements about configuration errors *)

Module ConfigSpec.

Import ExperienceModel RolloutCollector CollectorSpec Samples.

(** The estimator names that [make_experience_list] knows. *)
Definition known_estimators : list string :=
  ["gae"; "reinforce"; "rloo"; "reinforce++"; "group_norm"]%string.

Definition unknown_estimator (args : Args) : Prop :=
  estimator_in (advantage_estimator args) known_estimators = false.

(** A policy that needs several samples per prompt, with one or fewer. *)
Definition too_few_samples (args : Args) : Prop :=
  estimator_in (advantage_estimator args) ["group_norm"; "reinforce++"]%string
  = true
  /\ (n_samples_per_prompt args <= 1)%Z.

Section Run.

Variable args : Args.
Variables (Prompts Samples : Type).
Variable generate_samples : Prompts -> result (list Samples).
Variable broadcast_object_list : result (list Samples).

(** The samples a rank works on: its own generation, or what the broadcast
    delivers to a rank that does not generate. *)
Definition incoming_samples (all_prompts : Prompts) : result (list Samples) :=
  match ring_attn_rank args with
  | Some rank =>
      if (rank =? 0)%Z then generate_samples all_prompts
      else broadcast_object_list
  | None => generate_samples all_prompts
  end.

(** The remote work of a rollout of [k] micro-batches. *)
Definition remote_work (k : nat) : list event :=
  match ring_attn_rank args with
  | Some rank => if (rank =? 0)%Z then [EvGenerate; EvBroadcast]
                 else [EvBroadcast]
  | None => [EvGenerate]
  end
  ++ (if vllm_enable_sleep args then [EvEngineSleep] else [])
  ++ [EvBarrier] ++ repeat EvScore k.

Variable sqrt : Q -> Q.
Variable compute_reward : pyval -> pyval -> pyval -> pyval -> result pyval.

(** The stage after scoring: reward shaping, then advantages. *)
Definition local_stage (experiences : list Experience)
  : result (list Experience) :=
  processed <- process_experiences args experiences ;;
  experiences <- flatten_dump_rewards (fst processed) ;;
  advantage_loop args sqrt compute_reward experiences (snd processed).

End Run.

(** Collaborators for the examples: generation returns one micro-batch,
    scoring returns the batch of two, and [compute_reward] hands the reward
    back. *)
Definition one_micro_batch (_ : unit) : result (list nat) := Ok [0%nat].
Definition score_batch_of_two (_ : nat) : result Experience := Ok batch_of_two.
Definition reward_as_is (r _ _ _ : pyval) : result pyval := Ok r.

End ConfigSpec.


(** ** Vocabulary of the closed forms of the advantage engine *)

Module RecurrenceSpec.

(** The value after timestep [t]: 0 past the last timestep. *)
Definition next (T : nat) (v : nat -> Q) (t : nat) : Q :=
  if (t <? T - 1)%nat then v (t + 1)%nat else 0.

(** [delta_t = r_t + gamma * v_{t+1} - v_t]. *)
Definition td_error (gamma : Q) (T : nat) (r v : nat -> Q) (t : nat) : Q :=
  r t + gamma * next T v t - v t.

(** What a return collects at timestep [t]:
    [r_t + gamma * (1 - lambd) * v_{t+1}]. *)
Definition lambda_reward (gamma lambd : Q) (T : nat) (r v : nat -> Q)
    (t : nat) : Q :=
  r t + gamma * (1 - lambd) * next T v t.

(** A 1-d tensor. *)
Definition is_vector (t : Tensor) : Prop := shape t = [length (data t)].

(** Two packed sequences, of three and of two actions. *)
Definition packed_rewards : list Tensor :=
  [mkTensor [3]%nat [1; 1; 1]; mkTensor [2]%nat [0; 4]].

End RecurrenceSpec.

(** ** The states of the request aggregator *)

Module AggregatorStates.

Import VllmEngine.

Section States.

Variables (prompt output : Type).
Variable llm_generate : list prompt -> list output.

(** The states an actor created for [N] producers goes through, whatever
    the calls it serves: a call that raises leaves the attributes as it
    assigned them, and the actor goes on serving. *)
Inductive reachable (N : Z) : LLMRayActor prompt output -> Prop :=
| reach_init : reachable N (init prompt output N)
| reach_add_requests self actor_rank prompt_token_ids :
    reachable N self ->
    reachable N
      (state_of (add_requests llm_generate self actor_rank prompt_token_ids))
| reach_get_responses self actor_rank :
    reachable N self ->
    reachable N (state_of (get_responses self actor_rank)).

(** The counter has reached or passed the number of producers: no later
    registration can bring it to that number. *)
Definition wedged (self : LLMRayActor prompt output) : Prop :=
  (num_actors self <= actor_counter self)%Z.

End States.

End AggregatorStates.

(** ** Vocabulary of the statements about the stages of the collector *)

Module StageSpec.

Import ExperienceModel RolloutCollector CollectorSpec.

(** The rewards of a rollout put end to end. *)
Definition flat_rewards (rs : list Tensor) : list Q := concat (map data rs).

(** The rewards of prompt [i] when every prompt has [n] samples. *)
Definition group_of (n : nat) (flat : list Q) (i : nat) : list Q :=
  map (fun k => nth (i * n + k) flat 0) (seq 0 n).

(** [rewards - baseline] of the leave-one-out policy on [P] groups of [n],
    flattened. *)
Definition rloo_shaped (n P : nat) (flat : list Q) : list Q :=
  concat
    (map (fun row =>
            map (fun x => x - (Qsum row - x) / inject_Z (Z.of_nat n - 1)) row)
       (chunks n P flat)).

(** [(experience.info["reward"] == 1).float().reshape(-1)]. *)
Definition acc_flags (r : Tensor) : Tensor :=
  flatten (mkTensor (shape r) (map eq_one (data r))).

(** The experiences as the rloo policy hands them on: each one in its
    place, with its ["acc_info"] entry set from its own reward. *)
Definition with_acc_info (experiences : list Experience) (rs : list Tensor)
  : list Experience :=
  map (fun er => set_info (fst er) "acc_info" (PyTensor (acc_flags (snd er))))
    (combine experiences rs).

(** What the advantage stage leaves of an experience: no [kl], no
    ["num_actions"] entry, a ["return"] entry. *)
Definition finished (e : Experience) : Prop :=
  kl e = PyNone
  /\ lookup (info e) "num_actions"%string = None
  /\ lookup (info e) "return"%string <> None.

(** The attributes that the advantage stage does not assign. *)
Definition same_rollout (e e' : Experience) : Prop :=
  sequences e' = sequences e
  /\ action_log_probs e' = action_log_probs e
  /\ values e' = values e
  /\ attention_mask e' = attention_mask e
  /\ action_mask e' = action_mask e
  /\ ref_log_probs e' = ref_log_probs e
  /\ visual_inputs e' = visual_inputs e.

(** The entries of [info] that the group statistics write under
    group_norm and reinforce++, and those that they may write. *)
Definition group_statistics : list string :=
  ["acc"; "reward"; "length_reward"; "label_reward"; "reward_std";
   "completion_ratio"; "completion_length"]%string.

Definition group_entries : list string :=
  ("pattern_reward" :: "learn_mask" :: group_statistics)%string.

Definition with_group_statistics (args : Args) : bool :=
  estimator_in (advantage_estimator args) ["group_norm"; "reinforce++"]%string.

(** The entries of [info] that the advantage stage leaves as they were:
    all but ["return"] and ["num_actions"] and, where the group statistics
    are taken, the entries that these write. *)
Definition kept_entries (args : Args) (e e' : Experience) : Prop :=
  forall k : string,
    k <> "return"%string -> k <> "num_actions"%string ->
    (with_group_statistics args = true -> ~ In k group_entries) ->
    lookup (info e') k = lookup (info e) k.

(** Where the group statistics are taken, they are in [info]. *)
Definition has_group_statistics (args : Args) (e' : Experience) : Prop :=
  with_group_statistics args = true ->
  Forall (fun k => lookup (info e') k <> None) group_statistics.

(** The error of a rollout without a micro-batch. *)
Definition empty_rollout_error (estimator : string) : exn :=
  if String.eqb estimator "rloo" then RuntimeError
  else if String.eqb estimator "group_norm" then AttributeError
  else IndexError.

(** Two micro-batches of two samples each, one prompt with four samples. *)
Definition pair_12 : Experience :=
  bare [("reward"%string, PyTensor (vector [1; 2]))].
Definition pair_36 : Experience :=
  bare [("reward"%string, PyTensor (vector [3; 6]))].

(** Micro-batches of four and of two samples. *)
Definition four_samples : Experience :=
  bare [("reward"%string, PyTensor (vector [1; 2; 3; 4]))].
Definition two_samples : Experience :=
  bare [("reward"%string, PyTensor (vector [5; 6]))].

(** A scored experience of two sequences of one action, as the gae and
    reinforce estimators take it. *)
Definition scored_pair : Experience :=
  mkExperience PyNone PyNone
    (PyTensor (mkTensor [2; 1]%nat [0; 0]))
    PyNone PyNone PyNone PyNone
    [("reward"%string, PyTensor (mkTensor [2; 1]%nat [1; 2]));
     ("num_actions"%string, PyInt 1)]
    (PyTensor (mkTensor [2; 1]%nat [0; 0])) PyNone (Some []).

(** One prompt with four samples, as the group_norm estimator takes it:
    the log-probabilities of four sequences of two actions. *)
Definition grouped_four : Experience :=
  mkExperience PyNone PyNone PyNone PyNone PyNone PyNone PyNone
    [("response_length"%string, PyTensor (vector [5; 6; 7; 8]));
     ("num_actions"%string, PyInt 8);
     ("total_length"%string, PyTensor (vector [9; 9; 9; 9]))]
    (PyTensor (mkTensor [4; 2]%nat [0; 0; 0; 0; 0; 0; 0; 0]))
    (PyList (repeat (PyTensor (vector [0; 0])) 4)) (Some []).

(** Log-probabilities of two packed sequences, of three and two actions. *)
Definition packed_logps : list Tensor :=
  [mkTensor [3]%nat [0; 0; 0]; mkTensor [2]%nat [0; 0]].

End StageSpec.

(** ** Engines and their producers: [create_vllm_engines] and
       [RemoteExperienceMaker._generate_vllm] *)

Module EngineRouting.

Import VllmEngine RolloutCollector.

(** *** Exceptions beyond those of [exn], and the computations that end in
        one *)

Inductive fault : Type :=
| ZeroDivisionError
| ValueError
| Raised (e : exn).   (* raised here, or inside an actor and handed on by
                         [ray.get] *)

Inductive attempt (A : Type) : Type :=
| Done (a : A)
| Fails (f : fault).

Arguments Done {A} a.
Arguments Fails {A} f.

Definition attempt_bind {A B : Type} (m : attempt A) (k : A -> attempt B)
  : attempt B :=
  match m with
  | Done a => k a
  | Fails f => Fails f
  end.

Definition of_result {A : Type} (r : result A) : attempt A :=
  match r with
  | Ok a => Done a
  | Raise e => Fails (Raised e)
  end.

Declare Scope attempt_scope.
Delimit Scope attempt_scope with attempt.
Notation "x <~ m ;; k" := (attempt_bind m (fun x => k))
  (at level 100, m at next level, right associativity) : attempt_scope.
Notation "' p <~ m ;; k" := (attempt_bind m (fun x => let p := x in k))
  (at level 100, p pattern, m at next level, right associativity)
  : attempt_scope.

(** *** Python's ranges, indices and slices *)

(** [range(n)]. *)
Definition range (n : Z) : list Z := map Z.of_nat (seq 0 (Z.to_nat n)).

(** [a // b]. *)
Definition floordiv (a b : Z) : attempt Z :=
  if (b =? 0)%Z then Fails ZeroDivisionError else Done (a / b)%Z.

(** [a % b]. *)
Definition modulo (a b : Z) : attempt Z :=
  if (b =? 0)%Z then Fails ZeroDivisionError else Done (a mod b)%Z.

(** [l[i]] for an index that is not negative. *)
Definition index {A : Type} (l : list A) (i : Z) : attempt A :=
  match nth_error l (Z.to_nat i) with
  | Some x => Done x
  | None => Fails (Raised IndexError)
  end.

(** [l[a:b]] for bounds that are not negative. *)
Definition slice {A : Type} (l : list A) (a b : nat) : list A :=
  firstn (b - a) (skipn a l).

(** The items of [l] at the given indices, those in range. *)
Definition pick {A : Type} (l : list A) (indices : list Z) : list A :=
  flat_map
    (fun i => match nth_error l (Z.to_nat i) with
              | Some x => if (0 <=? i)%Z then [x] else []
              | None => []
              end)
    indices.

(** The indices of [l[start::step]] in a list of [len] items: a negative
    [start] counts from the end, and the indices run down for a negative
    [step]. *)
Definition slice_indices (len start step : Z) : list Z :=
  if (0 <? step)%Z then
    let first :=
      if (start <? 0)%Z then Z.max (start + len) 0 else Z.min start len in
    map (fun k => first + k * step)%Z
      (range ((len - first + step - 1) / step))
  else
    let first :=
      if (start <? 0)%Z then Z.max (start + len) (-1)
      else Z.min start (len - 1) in
    map (fun k => first + k * step)%Z (range ((first - step) / - step)).

(** [l[start::step]]. *)
Definition slice_step {A : Type} (l : list A) (start step : Z)
  : attempt (list A) :=
  if (step =? 0)%Z then Fails ValueError
  else Done (pick l (slice_indices (Z.of_nat (length l)) start step)).

(** The start indices of [range(0, n, step)]. *)
Definition range_step (n : nat) (step : Z) : attempt (list nat) :=
  if (step =? 0)%Z then Fails ValueError
  else if (step <? 0)%Z then Done []
  else
    let s := Z.to_nat step in
    Done (map (fun k => (k * s)%nat) (seq 0 ((n + s - 1) / s))).

(** [ray.get(refs)]: the results, or the first exception among them. *)
Fixpoint ray_get {A : Type} (refs : list (result A)) : attempt (list A) :=
  match refs with
  | [] => Done []
  | Ok a :: refs' =>
      match ray_get refs' with
      | Done l => Done (a :: l)
      | Fails f => Fails f
      end
  | Raise e :: _ => Fails (Raised e)
  end.

(** *** [create_vllm_engines] *)

(** What [create_vllm_engines] computes for the engine [i]. *)
Record EngineOptions : Type := mkEngineOptions
  { num_cpus : Q;                          (* [num_cpus=num_gpus] *)
    num_gpus : Q;                          (* [num_gpus=num_gpus] *)
    placement_group_bundle_index : Z;
    seed : Z;
    distributed_executor_backend : string;
    engine_num_actors : Z;                 (* [num_actors=num_actors] *)
    bundle_indices : option (list Z);
    engine_num_gpus : Q }.                 (* [num_gpus=0.2 if ... else 1] *)

Section Create.

(** [get_bundle_indices(shared_pg, i, tensor_parallel_size)], from
    [openrlhf.trainer.ray.utils]. *)
Variable get_bundle_indices : Z -> Z -> list Z.

(** [num_actors] of the engine [i]. *)
Definition num_actors_of (num_engines num_total_actors i : Z) : Z :=
  if (num_engines >=? num_total_actors)%Z then 1%Z
  else (num_total_actors / num_engines
        + (if (i <? num_total_actors mod num_engines)%Z then 1 else 0))%Z.

(** The options of the engines in the order of creation. *)
Definition create_vllm_engines
    (num_engines tensor_parallel_size seed num_total_actors : Z)
    (use_hybrid_engine : bool) : list EngineOptions :=
  let distributed_executor_backend :=
    if (tensor_parallel_size =? 1)%Z then "uni"%string else "ray"%string in
  let num_gpus : Q :=
    if (use_hybrid_engine && (tensor_parallel_size =? 1)%Z)%bool then 2 # 10
    else if (tensor_parallel_size =? 1)%Z then 1 else 0 in
  map
    (fun i =>
       let bundle_indices :=
         if (tensor_parallel_size >? 1)%Z
         then Some (get_bundle_indices i tensor_parallel_size)
         else None in
       mkEngineOptions num_gpus num_gpus
         (match bundle_indices with
          | Some (first :: _) => first
          | _ => i
          end)
         (seed + i)%Z distributed_executor_backend
         (num_actors_of num_engines num_total_actors i)
         bundle_indices
         (if use_hybrid_engine then 2 # 10 else 1))
    (range num_engines).

End Create.

(** *** [_generate_vllm] *)

(** A vLLM [RequestOutput] with its completions. *)
Record CompletionOutput : Type := mkCompletion
  { token_ids : list Z; text : string }.

Record RequestOutput : Type := mkRequestOutput
  { prompt_token_ids : list Z; outputs : list CompletionOutput }.

Section Generate.

(** A Python object of the dataset (an item of [all_prompts], or what it
    holds under a key), an image, and a value of the processed visual
    inputs. *)
Variables (Value Image Visual : Type).

(** What an engine is asked: the token ids of a prompt, or a vision input
    [{"prompt": ..., "multi_modal_data": ..., "mm_processor_kwargs": ...}]. *)
Inductive request : Type :=
| PromptTokenIds (ids : list Z)
| VisionInput (prompt : string) (multi_modal_data : option (list Image))
    (min_pixels max_pixels : Z).

Record DataProcessor : Type := mkDataProcessor
  { apply_chat_template : list Value -> result (list string);
    get_images_from_messages : Value -> result (list Image);
    (** [self.data_processor(prompts, self.prompt_max_len, device="cuda")] *)
    process : list Value -> result (dict string Visual) }.

(** The attributes of the maker and of its surroundings that
    [_generate_vllm] reads. *)
Record Maker : Type := mkMaker
  { vllm_engines : list nat;               (* handles of the engine actors *)
    data_processor : option DataProcessor;
    args : Args;
    micro_rollout_batch_size : Z;
    ring_attn_size : Z;
    (** [self.tokenize_fn(all_prompts, ..., padding=False)["input_ids"]] *)
    tokenize_fn : list Value -> result (list (list Z));
    eos_token : string;                    (* [self.tokenizer.eos_token] *)
    pad_token_id : Z;
    eos_token_id : Z;
    (** [self.actor.process_sequences(sequences, max_input_len,
        eos_token_id, pad_token_id)] *)
    process_sequences : Tensor -> nat -> result (Tensor * Tensor * Tensor);
    (** [item[key]] on an item of [all_prompts] *)
    subscript : Value -> string -> result Value;
    (** [int(os.getenv("MIN_PIXELS", ...))] and the same for
        ["MAX_PIXELS"] *)
    env_min_pixels : Z;
    env_max_pixels : Z;
    (** [torch.distributed.get_rank()], [torch.distributed.get_world_size()] *)
    dist_rank : Z;
    dist_world_size : Z }.

(** The engine actors by handle, and the model behind each of them. *)
Definition store : Type := nat -> LLMRayActor request RequestOutput.

Variable llm_generate : nat -> list request -> list RequestOutput.

Definition update (engines : store) (llm : nat)
    (actor : LLMRayActor request RequestOutput) : store :=
  fun h => if (h =? llm)%nat then actor else engines h.

(** A method call on the actor behind a handle: the actor goes on in the
    state the call leaves, and the reference holds the result or the
    exception. *)
Definition remote {A : Type} (engines : store) (llm : nat)
    (method : LLMRayActor request RequestOutput
              -> outcome (LLMRayActor request RequestOutput) A)
  : store * result A :=
  match method (engines llm) with
  | Return a actor => (update engines llm actor, Ok a)
  | Throw e actor => (update engines llm actor, Raise e)
  end.

(** [if len(self.vllm_engines) <= world_size: ... else: ...]. *)
Definition select_llms (vllm_engines : list nat) (rank world_size : Z)
  : attempt (list nat) :=
  let n := Z.of_nat (length vllm_engines) in
  if (n <=? world_size)%Z then
    (i <~ modulo rank n ;;
     llm <~ index vllm_engines i ;;
     Done [llm])%attempt
  else slice_step vllm_engines rank world_size.

(** [sum([[prompt] * n for prompt in all_prompts], [])]. *)
Definition expand_prompts (n : Z) (all_prompts : list Value) : list Value :=
  flat_map (fun prompt => repeat prompt (Z.to_nat n)) all_prompts.

(** [(len(all_prompts) + len(llms) - 1) // len(llms)]. *)
Definition batch_size_of (num_prompts num_llms : nat) : attempt nat :=
  if (num_llms =? 0)%nat then Fails ZeroDivisionError
  else Done ((num_prompts + num_llms - 1) / num_llms)%nat.

(** The loop over [enumerate(llms)] when there is no data processor, from
    the index [i] on: every engine is sent its slice of the token ids. *)
Fixpoint send_token_ids (engines : store) (rank : Z) (batch_size : nat)
    (all_prompt_token_ids : list (list Z)) (i : nat) (llms : list nat)
  : store * list (result unit) :=
  match llms with
  | [] => (engines, [])
  | llm :: llms' =>
      let prompt_token_ids :=
        slice all_prompt_token_ids (i * batch_size) ((i + 1) * batch_size) in
      let '(engines, ref) :=
        remote engines llm
          (fun actor =>
             add_requests (llm_generate llm) actor rank
               (map PromptTokenIds prompt_token_ids)) in
      let '(engines, refs) :=
        send_token_ids engines rank batch_size all_prompt_token_ids (S i)
          llms' in
      (engines, ref :: refs)
  end.

(** The vision inputs of a list of messages. *)
Definition vision_inputs (self : Maker) (dp : DataProcessor)
    (messages : list Value) : result (list request) :=
  prompts <- apply_chat_template dp messages ;;
  images <- map_result (get_images_from_messages dp) messages ;;
  Ok (map
        (fun '(p, imgs) =>
           VisionInput p
             (match imgs with [] => None | _ => Some imgs end)
             (env_min_pixels self) (env_max_pixels self))
        (combine prompts images)).

(** The loop over [enumerate(llms)] with a data processor, from the index
    [i] on: an engine whose slice of the messages is empty is sent nothing.
    An exception of the data processor ends the loop; the calls already
    made stay made. *)
Fixpoint send_vision_inputs (self : Maker) (dp : DataProcessor)
    (engines : store) (rank : Z) (batch_size : nat)
    (all_prompts : list Value) (i : nat) (llms : list nat)
  : store * result (list (result unit)) :=
  match llms with
  | [] => (engines, Ok [])
  | llm :: llms' =>
      let messages :=
        slice all_prompts (i * batch_size) ((i + 1) * batch_size) in
      match
        map_result (fun message => subscript self message "prompt") messages
      with
      | Raise e => (engines, Raise e)
      | Ok [] =>
          send_vision_inputs self dp engines rank batch_size all_prompts
            (S i) llms'
      | Ok messages =>
          match vision_inputs self dp messages with
          | Raise e => (engines, Raise e)
          | Ok vllm_inputs =>
              let '(engines, ref) :=
                remote engines llm
                  (fun actor =>
                     add_requests (llm_generate llm) actor rank vllm_inputs) in
              let '(engines, refs) :=
                send_vision_inputs self dp engines rank batch_size
                  all_prompts (S i) llms' in
              (engines, refs <- refs ;; Ok (ref :: refs))
          end
      end
  end.

(** The loop [for i, llm in enumerate(llms):
      all_output_refs.append(llm.get_responses.remote(rank))]. *)
Fixpoint collect_outputs (engines : store) (rank : Z) (llms : list nat)
  : store * list (result (list RequestOutput)) :=
  match llms with
  | [] => (engines, [])
  | llm :: llms' =>
      let '(engines, ref) :=
        remote engines llm (fun actor => get_responses actor rank) in
      let '(engines, refs) := collect_outputs engines rank llms' in
      (engines, ref :: refs)
  end.

(** The first half of [_generate_vllm], up to [ray.get(refs)]: the engines
    of this rank, the expanded prompts, and the engines as the requests
    leave them. *)
Definition send_requests (self : Maker) (engines : store)
    (all_prompts : list Value)
  : store * attempt (Z * list nat * list Value) :=
  match
    (rank <~ floordiv (dist_rank self) (ring_attn_size self) ;;
     world_size <~ floordiv (dist_world_size self) (ring_attn_size self) ;;
     llms <~ select_llms (vllm_engines self) rank world_size ;;
     let all_prompts :=
       expand_prompts (n_samples_per_prompt (args self)) all_prompts in
     batch_size <~ batch_size_of (length all_prompts) (length llms) ;;
     Done (rank, llms, all_prompts, batch_size))%attempt
  with
  | Fails f => (engines, Fails f)
  | Done (rank, llms, all_prompts, batch_size) =>
      match data_processor self with
      | None =>
          match tokenize_fn self all_prompts with
          | Raise e => (engines, Fails (Raised e))
          | Ok all_prompt_token_ids =>
              let '(engines, refs) :=
                send_token_ids engines rank batch_size all_prompt_token_ids
                  0 llms in
              (engines,
               (_ <~ ray_get refs ;; Done (rank, llms, all_prompts))%attempt)
          end
      | Some dp =>
          match
            send_vision_inputs self dp engines rank batch_size all_prompts
              0 llms
          with
          | (engines, Raise e) => (engines, Fails (Raised e))
          | (engines, Ok refs) =>
              (engines,
               (_ <~ ray_get refs ;; Done (rank, llms, all_prompts))%attempt)
          end
      end
  end.

(** The second half, after the barrier: [all_outputs]. *)
Definition receive_outputs (engines : store) (rank : Z) (llms : list nat)
  : store * attempt (list RequestOutput) :=
  let '(engines, all_output_refs) := collect_outputs engines rank llms in
  (engines,
   (outs <~ ray_get all_output_refs ;; Done (concat outs))%attempt).

(** *** The samples of a micro-batch *)

(** [s.removesuffix(suffix)]. *)
Definition removesuffix (s suffix : string) : string :=
  let n := String.length s in
  let m := String.length suffix in
  if ((0 <? m)%nat && (m <=? n)%nat
      && String.eqb (substring (n - m) m s) suffix)%bool
  then substring 0 (n - m) s
  else s.

(** [torch.tensor(l)] of a list of integers or of lengths, and of a list
    of lists of integers, which must all have one length. *)
Definition tensor_of_ints (l : list Z) : Tensor :=
  mkTensor [length l] (map inject_Z l).

Definition tensor_of_lens (l : list nat) : Tensor :=
  tensor_of_ints (map Z.of_nat l).

Definition tensor_of_rows (rows : list (list Z)) : attempt Tensor :=
  match rows with
  | [] => Done (mkTensor [0%nat] [])
  | row :: _ =>
      if forallb (fun r => (length r =? length row)%nat) rows
      then Done (mkTensor [length rows; length row]
                   (map inject_Z (concat rows)))
      else Fails ValueError
  end.

Record Samples : Type := mkSamples
  { sequences : Tensor;
    attention_mask : option Tensor;
    action_mask : option Tensor;
    num_actions : pyval;         (* an integer, or a list for packed samples *)
    packed_seq_lens : option (list nat);
    response_length : Tensor;
    total_length : Tensor;
    prompts : list Value;
    visual_inputs : option (dict string Visual);
    data_ids : list Value;
    responses : list string;
    pad_len : option Z }.

(** [Samples(...)]: the dataclass has no default, so every field must be
    given; [None] here is a keyword that the call does not pass. *)
Definition Samples_init
    (sequences : option Tensor)
    (attention_mask action_mask : option (option Tensor))
    (num_actions : option pyval)
    (packed_seq_lens : option (option (list nat)))
    (response_length total_length : option Tensor)
    (prompts : option (list Value))
    (visual_inputs : option (option (dict string Visual)))
    (data_ids : option (list Value))
    (responses : option (list string))
    (pad_len : option (option Z)) : result Samples :=
  match sequences, attention_mask, action_mask, num_actions, packed_seq_lens,
        response_length, total_length, prompts, visual_inputs, data_ids,
        responses, pad_len with
  | Some sequences, Some attention_mask, Some action_mask, Some num_actions,
    Some packed_seq_lens, Some response_length, Some total_length,
    Some prompts, Some visual_inputs, Some data_ids, Some responses,
    Some pad_len =>
      Ok (mkSamples sequences attention_mask action_mask num_actions
            packed_seq_lens response_length total_length prompts
            visual_inputs data_ids responses pad_len)
  | _, _, _, _, _, _, _, _, _, _, _, _ => Raise TypeError
  end.

(** [output.outputs[0]]. *)
Definition first_completion (output : RequestOutput)
  : result CompletionOutput :=
  match outputs output with
  | c :: _ => Ok c
  | [] => Raise IndexError
  end.

(** The visual inputs of a micro-batch: the processor's result without its
    ["input_ids"] and ["attention_mask"]; [None] without a processor. *)
Definition collect_visual_inputs (self : Maker) (prompts : list Value)
  : result (option (dict string Visual)) :=
  match data_processor self with
  | None => Ok None
  | Some dp =>
      visual_inputs <- process dp prompts ;;
      ' (_, visual_inputs) <- pop visual_inputs "input_ids"%string ;;
      ' (_, visual_inputs) <- pop visual_inputs "attention_mask"%string ;;
      Ok (Some visual_inputs)
  end.

(** The lists that the loop over [enumerate(zip(prompts, outputs))] extends
    when the samples are packed. *)
Record Packing : Type := mkPacking
  { pk_sequences : list Z;
    pk_packed_seq_lens : list nat;
    pk_attention_mask : list nat;
    pk_num_actions : list nat;
    pk_data_ids : list Value;
    pk_responses : list string }.

(** One iteration of that loop, at the index [i]. *)
Definition pack_one (self : Maker) (st : Packing) (i : nat)
    (prompt : Value) (output : RequestOutput) : result Packing :=
  let input_len := length (prompt_token_ids output) in
  completion <- first_completion output ;;
  let output_len := length (token_ids completion) in
  id <- subscript self prompt "id" ;;
  Ok (mkPacking
        (pk_sequences st ++ prompt_token_ids output ++ token_ids completion)
        (pk_packed_seq_lens st ++ [(input_len + output_len)%nat])
        (pk_attention_mask st ++ repeat (i + 1)%nat (input_len + output_len))
        (pk_num_actions st ++ [Nat.max 1 output_len])
        (pk_data_ids st ++ [id])
        (pk_responses st ++ [removesuffix (text completion) (eos_token self)])).

Fixpoint pack_loop (self : Maker) (st : Packing) (i : nat)
    (pairs : list (Value * RequestOutput)) : result Packing :=
  match pairs with
  | [] => Ok st
  | (prompt, output) :: pairs' =>
      st <- pack_one self st i prompt output ;;
      pack_loop self st (S i) pairs'
  end.

(** The samples of a micro-batch when [self.packing_samples] is set. *)
Definition packed_samples (self : Maker) (prompts : list Value)
    (outputs : list RequestOutput) : result Samples :=
  data_ids <- map_result (fun x => subscript self x "id") prompts ;;
  st <- pack_loop self (mkPacking [] [] [] [] data_ids []) 0
          (combine prompts outputs) ;;
  let sequences := unsqueeze0 (tensor_of_ints (pk_sequences st)) in
  let attention_mask := unsqueeze0 (tensor_of_lens (pk_attention_mask st)) in
  let response_length := tensor_of_lens (pk_num_actions st) in
  let total_length := tensor_of_lens (pk_packed_seq_lens st) in
  prompts <- map_result (fun prompt => subscript self prompt "prompt")
               prompts ;;
  visual_inputs <- collect_visual_inputs self prompts ;;
  Samples_init (Some sequences) (Some (Some attention_mask)) (Some None)
    (Some (PyList (map (fun n => PyInt (Z.of_nat n)) (pk_num_actions st))))
    (Some (Some (pk_packed_seq_lens st)))
    (Some response_length) (Some total_length) (Some prompts)
    (Some visual_inputs) (Some (pk_data_ids st)) (Some (pk_responses st))
    (Some None).

(** [max(max_len, len(ids))] over the outputs. *)
Definition max_len (lens : list nat) : nat := fold_left Nat.max lens 0%nat.

(** The row of an output in the padded batch: the prompt padded on the
    left, the answer padded on the right. *)
Definition padded_row (self : Maker) (max_input_len max_output_len : nat)
    (output : RequestOutput) : result (list Z) :=
  let input_len := length (prompt_token_ids output) in
  let input_ids :=
    repeat (pad_token_id self) (max_input_len - input_len)
    ++ prompt_token_ids output in
  completion <- first_completion output ;;
  let output_len := length (token_ids completion) in
  let output_ids :=
    token_ids completion
    ++ repeat (pad_token_id self) (max_output_len - output_len) in
  Ok (input_ids ++ output_ids).

(** [action_mask.size(1)]. *)
Definition size1 (t : Tensor) : result Z :=
  match shape t with
  | _ :: n :: _ => Ok (Z.of_nat n)
  | _ => Raise IndexError
  end.

(** The samples of a micro-batch when the sequences are padded. *)
Definition padded_samples (self : Maker) (prompts : list Value)
    (outputs : list RequestOutput) : attempt Samples :=
  (completions <~ of_result (map_result first_completion outputs) ;;
   let max_input_len :=
     max_len (map (fun output => length (prompt_token_ids output)) outputs) in
   let max_output_len :=
     max_len (map (fun c => length (token_ids c)) completions) in
   rows <~ of_result
             (map_result (padded_row self max_input_len max_output_len)
                outputs) ;;
   sequences <~ tensor_of_rows rows ;;
   ' (sequences, attention_mask, action_mask) <~
     of_result (process_sequences self sequences max_input_len) ;;
   visual_inputs <~ of_result (collect_visual_inputs self prompts) ;;
   num_actions <~ of_result (size1 action_mask) ;;
   response_length <~ of_result (sum_last action_mask) ;;
   total_length <~ of_result (sum_last attention_mask) ;;
   of_result
     (Samples_init (Some sequences) (Some (Some attention_mask))
        (Some (Some action_mask)) (Some (PyInt num_actions)) (Some None)
        (Some response_length) (Some total_length) (Some prompts)
        (Some visual_inputs) None None None))%attempt.

(** The loop over [range(0, len(all_outputs), micro_rollout_batch_size)]. *)
Fixpoint samples_loop (self : Maker) (all_prompts : list Value)
    (all_outputs : list RequestOutput) (starts : list nat)
  : attempt (list Samples) :=
  match starts with
  | [] => Done []
  | i :: starts' =>
      let size := Z.to_nat (micro_rollout_batch_size self) in
      let outputs := slice all_outputs i (i + size) in
      let prompts := slice all_prompts i (i + size) in
      (samples <~
         (if packing_samples (args self)
          then of_result (packed_samples self prompts outputs)
          else padded_samples self prompts outputs) ;;
       samples_list <~ samples_loop self all_prompts all_outputs starts' ;;
       Done (samples :: samples_list))%attempt
  end.

Definition make_samples (self : Maker) (all_prompts : list Value)
    (all_outputs : list RequestOutput) : attempt (list Samples) :=
  (starts <~ range_step (length all_outputs) (micro_rollout_batch_size self) ;;
   samples_loop self all_prompts all_outputs starts)%attempt.

(** [_generate_vllm(self, all_prompts, **kwargs)] as one process runs it,
    when the barrier lets it through. *)
Definition generate_vllm (self : Maker) (engines : store)
    (all_prompts : list Value) : store * attempt (list Samples) :=
  match send_requests self engines all_prompts with
  | (engines, Fails f) => (engines, Fails f)
  | (engines, Done (rank, llms, all_prompts)) =>
      let '(engines, all_outputs) := receive_outputs engines rank llms in
      (engines,
       (all_outputs <~ all_outputs ;;
        make_samples self all_prompts all_outputs)%attempt)
  end.

(** *** [RemoteExperienceMaker.make_experience]: the queries of a remote
        reward model on packed samples *)

(** [sequences_cpu.tolist()[0]]. *)
Definition tolist0 (t : Tensor) : result (list Q) :=
  match shape t with
  | [0%nat; _] => Raise IndexError
  | [_; L] => Ok (firstn L (data t))
  | _ => Raise TypeError      (* not a list of lists of token ids *)
  end.

(** [for length in packed_seq_lens:
      sequences_list.append(tokens_list[offset : offset + length])
      offset += length], from the offset given. *)
Fixpoint unpack_sequences {A : Type} (tokens_list : list A) (offset : nat)
    (packed_seq_lens : list nat) : list (list A) :=
  match packed_seq_lens with
  | [] => []
  | length :: lens =>
      slice tokens_list offset (offset + length)
      :: unpack_sequences tokens_list (offset + length) lens
  end.

(** [[{'id': data_id, 'response': response}
      for response, data_id in zip(responses, data_ids)]]. *)
Definition reward_queries (samples : Samples) : list (Value * string) :=
  map (fun '(response, data_id) => (data_id, response))
    (combine (responses samples) (data_ids samples)).

End Generate.

Arguments PromptTokenIds {Image} ids.
Arguments VisionInput {Image} prompt multi_modal_data min_pixels max_pixels.

End EngineRouting.

(** ** Vocabulary of the statements about engines and producers *)

Module RoutingSpec.

Import VllmEngine RolloutCollector EngineRouting.

(** The handles of [E] engines in the order of creation. *)
Definition handles (E : nat) : list nat := seq 0 E.

(** The rank routes its requests to the engine. *)
Definition routes_to (vllm_engines : list nat) (world_size rank : Z)
    (llm : nat) : bool :=
  match select_llms vllm_engines rank world_size with
  | Done llms => existsb (Nat.eqb llm) llms
  | Fails _ => false
  end.

(** How many of the ranks [0 .. W-1] route their requests to the engine. *)
Definition producers_of (vllm_engines : list nat) (W : nat) (llm : nat)
  : nat :=
  length
    (filter (fun r => routes_to vllm_engines (Z.of_nat W) (Z.of_nat r) llm)
       (seq 0 W)).

(** The slices [l[i * batch_size : (i + 1) * batch_size]] for the indices
    [first], ..., [first + k - 1]. *)
Definition slices_from {A : Type} (l : list A) (batch_size first k : nat)
  : list (list A) :=
  map (fun i => slice l (i * batch_size) ((i + 1) * batch_size))
    (seq first k).

Section Runs.

Variables (Value Image Visual : Type).
Variable llm_generate : nat -> list (request Image) -> list RequestOutput.

(** A registration: the engine, and the producer with its requests. *)
Definition registration : Type := (nat * (Z * list (request Image)))%type.

(** The registrations made one after the other. *)
Fixpoint register_calls (engines : store Image) (calls : list registration)
  : store Image * list (result unit) :=
  match calls with
  | [] => (engines, [])
  | (llm, (rank, payload)) :: calls' =>
      let '(engines, ref) :=
        remote engines llm
          (fun actor => add_requests (llm_generate llm) actor rank payload) in
      let '(engines, refs) := register_calls engines calls' in
      (engines, ref :: refs)
  end.

(** The registrations that reach one engine. *)
Definition calls_to (llm : nat) (calls : list registration)
  : list (Z * list (request Image)) :=
  map snd (filter (fun c => (fst c =? llm)%nat) calls).

(** The registrations of the loop of a rank without a data processor. *)
Definition token_calls (rank : Z) (batch_size : nat)
    (all_prompt_token_ids : list (list Z)) (first : nat) (llms : list nat)
  : list registration :=
  map (fun '(i, llm) =>
         (llm,
          (rank,
           map (@PromptTokenIds Image)
             (slice all_prompt_token_ids (i * batch_size)
                ((i + 1) * batch_size)))))
    (combine (seq first (length llms)) llms).

(** The maker of the rank [r] among [W], one process per rank, with the
    [E] engines as created and no data processor. *)
Definition token_rank (E W r : nat) (self : Maker Value Image Visual)
  : Prop :=
  vllm_engines self = handles E
  /\ data_processor self = None
  /\ ring_attn_size self = 1%Z
  /\ dist_rank self = Z.of_nat r
  /\ dist_world_size self = Z.of_nat W.

(** The ranks run the first half of [_generate_vllm] one after the other,
    in the order given. *)
Fixpoint send_all (self : nat -> Maker Value Image Visual)
    (prompts : nat -> list Value) (engines : store Image) (order : list nat)
  : store Image * list (attempt (Z * list nat * list Value)) :=
  match order with
  | [] => (engines, [])
  | r :: order' =>
      let '(engines, sent) :=
        send_requests llm_generate (self r) engines (prompts r) in
      let '(engines, sents) := send_all self prompts engines order' in
      (engines, sent :: sents)
  end.

(** The engines of the rank [r] among [W], of [E] engines. *)
Definition llms_of (E W r : nat) : list nat :=
  match select_llms (handles E) (Z.of_nat r) (Z.of_nat W) with
  | Done llms => llms
  | Fails _ => []
  end.

(** [batch_size] for a rank with [num_prompts] expanded prompts. *)
Definition batch_of (E W r num_prompts : nat) : nat :=
  ((num_prompts + length (llms_of E W r) - 1) / length (llms_of E W r))%nat.

(** The place of the engine [llm] among the engines of a rank that routes
    to it. *)
Definition slot (E W llm : nat) : nat :=
  if (E <=? W)%nat then 0%nat else (llm / W)%nat.

(** What the rank [r] asks of the engine [llm]. *)
Definition payload (E W r num_prompts : nat) (ids : list (list Z))
    (llm : nat) : list (request Image) :=
  map (@PromptTokenIds Image)
    (slice ids (slot E W llm * batch_of E W r num_prompts)
       ((slot E W llm + 1) * batch_of E W r num_prompts)).

(** The registrations of the rank [r]. *)
Definition rank_calls (E W r num_prompts : nat) (ids : list (list Z))
  : list registration :=
  token_calls (Z.of_nat r) (batch_of E W r num_prompts) ids 0
    (llms_of E W r).

(** After the barrier the ranks run the second half of [_generate_vllm]
    one after the other, in the order given, each with its own engines. *)
Fixpoint receive_all (E W : nat) (engines : store Image) (order : list nat)
  : store Image * list (attempt (list RequestOutput)) :=
  match order with
  | [] => (engines, [])
  | r :: order' =>
      let '(engines, out) :=
        receive_outputs engines (Z.of_nat r) (llms_of E W r) in
      let '(engines, outs) := receive_all E W engines order' in
      (engines, out :: outs)
  end.

(** The engines as [create_vllm_engines] leaves them for [W] producers. *)
Definition created (E W : nat) : store Image :=
  fun llm =>
    init (request Image) RequestOutput
      (num_actors_of (Z.of_nat E) (Z.of_nat W) (Z.of_nat llm)).

End Runs.

(** A model for the examples: it answers a prompt with its token ids and
    one completion that repeats them. *)
Definition parrot {Image : Type} (r : request Image) : RequestOutput :=
  match r with
  | PromptTokenIds ids => mkRequestOutput ids [mkCompletion ids "ok"]
  | VisionInput _ _ _ _ => mkRequestOutput [] [mkCompletion [] "ok"]
  end.

End RoutingSpec.

(** ** Vocabulary of the statements about a round of generation *)

Module RunSpec.

Import VllmEngine AggregatorSpec RolloutCollector EngineRouting RoutingSpec.

Section Runs.

Variables (Value Image Visual : Type).

(** [all_prompts] of the rank [r] after
    [sum([[prompt] * n_samples_per_prompt for prompt in all_prompts], [])]. *)
Definition expanded (self : nat -> Maker Value Image Visual)
    (prompts : nat -> list Value) (r : nat) : list Value :=
  expand_prompts (n_samples_per_prompt (args (self r))) (prompts r).

(** The registrations of the ranks that run in the order given. *)
Definition all_calls (E W : nat) (self : nat -> Maker Value Image Visual)
    (prompts : nat -> list Value) (ids : nat -> list (list Z))
    (order : list nat) : list (registration Image) :=
  concat
    (map (fun r =>
            rank_calls Image E W r (length (expanded self prompts r)) (ids r))
       order).

(** The registrations that reach the engine [llm], in that order. *)
Definition engine_calls (E W : nat) (self : nat -> Maker Value Image Visual)
    (prompts : nat -> list Value) (ids : nat -> list (list Z))
    (order : list nat) (llm : nat) : list (Z * list (request Image)) :=
  map (fun r =>
         (Z.of_nat r,
          payload Image E W r (length (expanded self prompts r)) (ids r) llm))
    (filter (fun r => routes_to (handles E) (Z.of_nat W) (Z.of_nat r) llm)
       order).

(** The engine [llm] holds the answers to what the rank [r] asked of it. *)
Definition awaiting (E W : nat) (self : nat -> Maker Value Image Visual)
    (prompts : nat -> list Value) (ids : nat -> list (list Z))
    (answer : request Image -> RequestOutput) (engines : store Image)
    (r llm : nat) : Prop :=
  exists d,
    VllmEngine.responses (engines llm) = Some d
    /\ lookup d (Z.of_nat r)
       = Some (map answer
                 (payload Image E W r (length (expanded self prompts r))
                    (ids r) llm)).

(** The ranks [0 .. W-1], each once, in some order. *)
Definition ranks_in_order (W : nat) (order : list nat) : Prop :=
  NoDup order /\ forall r, In r order <-> (r < W)%nat.

End Runs.

(** For the examples: the rank [r] among [W] with [E] engines, prompts
    that are numbers, and a tokenizer that gives a prompt the one token
    that is its number. *)
Definition number_maker (E W r : nat) : Maker nat unit unit :=
  mkMaker (handles E) None (mkArgs "gae" 2 true false None 1 1) 2 1
    (fun prompts => Ok (map (fun p => [Z.of_nat p]) prompts))
    "</s>" 0 0 (fun _ _ => Raise RuntimeError) (fun v _ => Ok v) 0 0
    (Z.of_nat r) (Z.of_nat W).

(** The rank [r] has the prompts [10 r + 1] and [10 r + 2]. *)
Definition number_prompts (r : nat) : list nat :=
  [(10 * r + 1)%nat; (10 * r + 2)%nat].

Definition number_ids (r : nat) : list (list Z) :=
  map (fun p => [Z.of_nat p])
    (expand_prompts 2 (number_prompts r)).

End RunSpec.

(** ** Vocabulary of the statements about packed samples *)

Module PackingSpec.

Import VllmEngine RolloutCollector EngineRouting RoutingSpec.

Section Packing.

Variables (Value Image Visual : Type).

(** The tokens of a sample: the prompt, then the first completion. *)
Definition sample_tokens (output : RequestOutput) : list Z :=
  prompt_token_ids output
  ++ match outputs output with
     | c :: _ => token_ids c
     | [] => []
     end.

(** The text of the first completion without the end-of-sequence token. *)
Definition sample_response (self : Maker Value Image Visual)
    (output : RequestOutput) : string :=
  match outputs output with
  | c :: _ => removesuffix (text c) (eos_token self)
  | [] => EmptyString
  end.

(** [max(1, output_len)]. *)
Definition sample_num_actions (output : RequestOutput) : nat :=
  match outputs output with
  | c :: _ => Nat.max 1 (length (token_ids c))
  | [] => 1%nat
  end.

(** [packed_seq_lens] of packed samples. *)
Definition lens_of (s : Samples Value Visual) : list nat :=
  match packed_seq_lens s with
  | Some lens => lens
  | None => []
  end.

(** The attention mask of packed samples: the sample [i] is marked
    [i + 1], from the index [first] on. *)
Fixpoint packed_mask (first : nat) (lens : list nat) : list nat :=
  match lens with
  | [] => []
  | len :: lens' => repeat (first + 1)%nat len ++ packed_mask (S first) lens'
  end.

End Packing.

(** For the examples: two outputs, the first ending in the
    end-of-sequence token. *)
Definition two_outputs : list RequestOutput :=
  [mkRequestOutput [7]%Z [mkCompletion [70; 71]%Z "a</s>"];
   mkRequestOutput [8; 9]%Z [mkCompletion [80]%Z "b"]].

(** A maker that pads its samples; its [process_sequences] returns the
    sequences for the masks too. *)
Definition padding_maker : Maker nat unit unit :=
  mkMaker (handles 1) None (mkArgs "gae" 1 false false None 1 1) 2 1
    (fun prompts => Ok (map (fun p => [Z.of_nat p]) prompts))
    "</s>" 0 0 (fun t _ => Ok (t, t, t)) (fun v _ => Ok v) 0 0 0 1.

(** A data processor that finds no image, and the only rank, with one
    sample per prompt and two engines. *)
Definition plain_processor : DataProcessor nat unit unit :=
  mkDataProcessor
    (fun messages => Ok (map (fun _ => "text"%string) messages))
    (fun _ => Ok [])
    (fun _ => Ok []).

Definition vision_maker : Maker nat unit unit :=
  mkMaker (handles 2) (Some plain_processor)
    (mkArgs "gae" 1 true false None 1 1) 2 1
    (fun prompts => Ok (map (fun p => [Z.of_nat p]) prompts))
    "</s>" 0 0 (fun _ _ => Raise RuntimeError) (fun v _ => Ok v) 0 0 0 1.

End PackingSpec.
(** * Part II: properties *)

Unset Implicit Arguments.

(** ** Lists *)

Module ListFacts.

Lemma zip_with_length {A B C : Type} (f : A -> B -> C) l l' :
  length (zip_with f l l') = Nat.min (length l) (length l').
Proof.
  revert l'; induction l as [|a l IH]; intros [|b l']; simpl; auto.
Qed.

Lemma nth_zip_with {A B C : Type} (f : A -> B -> C) l l' i da db dc :
  (i < length l)%nat -> (i < length l')%nat ->
  nth i (zip_with f l l') dc = f (nth i l da) (nth i l' db).
Proof.
  revert l' i; induction l as [|a l IH]; intros [|b l'] [|i]; simpl;
    intros; try lia; auto.
  apply IH; lia.
Qed.

Lemma nth_map_seq {A : Type} (f : nat -> A) a n i d :
  (i < n)%nat -> nth i (map f (seq a n)) d = f (a + i)%nat.
Proof.
  intros Hi.
  rewrite (nth_indep _ d (f 0%nat)) by (rewrite length_map, length_seq; lia).
  rewrite map_nth, seq_nth by lia. reflexivity.
Qed.

Lemma nth_map_lt {A B : Type} (f : A -> B) l i da db :
  (i < length l)%nat -> nth i (map f l) db = f (nth i l da).
Proof.
  intros Hi.
  rewrite (nth_indep _ db (f da)) by (rewrite length_map; lia).
  apply map_nth.
Qed.

Lemma rev_seq (n : nat) :
  rev (seq 0 n) = map (fun k => (n - 1 - k)%nat) (seq 0 n).
Proof.
  apply nth_ext with (d := 0%nat) (d' := 0%nat).
  - now rewrite length_rev, length_map.
  - intros i Hi. rewrite length_rev, length_seq in Hi.
    rewrite rev_nth by (rewrite length_seq; lia).
    rewrite length_seq, seq_nth by lia.
    rewrite nth_map_seq by lia. lia.
Qed.

(** The element at row [i], column [j] of a row-major concatenation of rows
    of one length. *)
Lemma nth_flat_map_rows {A : Type} (row : nat -> list A) (T a n i j : nat) d :
  (forall k, length (row k) = T) -> (i < n)%nat -> (j < T)%nat ->
  nth (i * T + j) (flat_map row (seq a n)) d = nth j (row (a + i)%nat) d.
Proof.
  intros Hlen. revert a i. induction n as [|n IH]; intros a i Hi Hj; [lia|].
  simpl. destruct i as [|i].
  - rewrite app_nth1 by (rewrite Hlen; lia). now rewrite Nat.add_0_r.
  - rewrite app_nth2 by (rewrite Hlen; lia). rewrite Hlen.
    replace (S i * T + j - T)%nat with (i * T + j)%nat by lia.
    rewrite IH by lia. f_equal. f_equal. lia.
Qed.

Lemma length_flat_map_rows {A : Type} (row : nat -> list A) (T a n : nat) :
  (forall k, length (row k) = T) ->
  length (flat_map row (seq a n)) = (n * T)%nat.
Proof.
  intros Hlen. revert a. induction n as [|n IH]; intros a; simpl; auto.
  now rewrite length_app, Hlen, IH.
Qed.

End ListFacts.


Module ChunkFacts.

Import ListFacts.

Lemma chunks_length {A : Type} (n k : nat) (l : list A) :
  length (chunks n k l) = k.
Proof. revert l; induction k as [|k IH]; intros l; simpl; auto. Qed.

Lemma nth_chunks {A : Type} (n k : nat) : forall (l : list A) i,
  (i < k)%nat -> nth i (chunks n k l) [] = firstn n (skipn (i * n) l).
Proof.
  induction k as [|k IH]; intros l i Hi; [lia|].
  destruct i as [|i]; simpl; [reflexivity|].
  rewrite IH by lia. now rewrite skipn_skipn, Nat.add_comm.
Qed.

Lemma chunks_row_length {A : Type} (n k : nat) : forall (l : list A),
  length l = (k * n)%nat -> Forall (fun r => length r = n) (chunks n k l).
Proof.
  induction k as [|k IH]; intros l Hl; simpl; constructor.
  - rewrite length_firstn. simpl in Hl. lia.
  - apply IH. rewrite length_skipn. simpl in Hl. lia.
Qed.

(** The blocks put together again give the list, once they cover it. *)
Lemma concat_chunks {A : Type} (n k : nat) : forall (l : list A),
  (length l <= k * n)%nat -> concat (chunks n k l) = l.
Proof.
  induction k as [|k IH]; intros l Hl; simpl.
  - destruct l; [reflexivity|simpl in Hl; lia].
  - rewrite IH by (rewrite length_skipn; simpl in Hl; lia).
    apply firstn_skipn.
Qed.

Lemma nth_concat_rows {A : Type} (n : nat) : forall (rs : list (list A)) i j d,
  Forall (fun r => length r = n) rs -> (i < length rs)%nat -> (j < n)%nat ->
  nth (i * n + j) (concat rs) d = nth j (nth i rs []) d.
Proof.
  induction rs as [|r rs IH]; intros i j d Hall Hi Hj; simpl in Hi; [lia|].
  pose proof (Forall_inv Hall) as Hr. pose proof (Forall_inv_tail Hall) as Hrs.
  cbv beta in Hr. simpl. destruct i as [|i].
  - simpl. now rewrite app_nth1 by lia.
  - rewrite app_nth2 by (rewrite Hr; lia). rewrite Hr.
    replace (S i * n + j - n)%nat with (i * n + j)%nat by lia.
    apply IH; auto; lia.
Qed.

Lemma length_concat_rows {A : Type} (n : nat) (rs : list (list A)) :
  Forall (fun r => length r = n) rs ->
  length (concat rs) = (length rs * n)%nat.
Proof.
  induction 1 as [|r rs Hr _ IH]; simpl; [reflexivity|].
  now rewrite length_app, Hr, IH.
Qed.

Lemma firstn_skipn_nth {A : Type} (n i j : nat) (l : list A) d :
  (j < n)%nat -> nth j (firstn n (skipn (i * n) l)) d = nth (i * n + j) l d.
Proof.
  intros Hj.
  now rewrite nth_firstn, (proj2 (Nat.ltb_lt j n) Hj), nth_skipn.
Qed.

Lemma concat_repeat_nil {A : Type} (k : nat) : concat (repeat (@nil A) k) = [].
Proof. induction k; simpl; auto. Qed.

Lemma map_result_ok {A B : Type} (f : A -> result B) l l' :
  Forall2 (fun x y => f x = Ok y) l l' -> map_result f l = Ok l'.
Proof.
  induction 1 as [|x y l l' Hxy _ IH]; simpl; [reflexivity|].
  now rewrite Hxy, IH.
Qed.

End ChunkFacts.

(** ** AdvantageEngine *)

Module AdvantageEngineProofs.

Import ListFacts AdvantageEngine AdvantageSpec.

Lemma get2_sized B T x i j :
  shape x = [B; T] -> get2 x i j = nth (i * T + j) (data x) 0.
Proof. unfold get2. intros ->. reflexivity. Qed.

Lemma select_col_length B T x j :
  shape x = [B; T] -> length (select_col x j) = B.
Proof.
  unfold select_col. intros ->. simpl. now rewrite length_map, length_seq.
Qed.

Lemma nth_select_col B T x i j :
  shape x = [B; T] -> (i < B)%nat -> nth i (select_col x j) 0 = get2 x i j.
Proof.
  unfold select_col. intros Hs Hi. rewrite Hs. simpl.
  now rewrite nth_map_seq.
Qed.

(** Masking keeps the sizes and multiplies elementwise. *)
Lemma apply_mask_sized B T action_mask x :
  sized B T x -> mask_sized B T action_mask ->
  exists y, apply_mask action_mask x = Ok y /\ sized B T y /\
    forall i t, (i < B)%nat -> (t < T)%nat ->
      get2 y i t = masked action_mask x i t.
Proof.
  intros [Hs Hl] Hm. destruct action_mask as [m|]; simpl in *.
  - destruct Hm as [Hms Hml].
    unfold Torch.mul, pointwise, shape_eqb. rewrite Hms, Hs.
    destruct (list_eq_dec Nat.eq_dec [B; T] [B; T]) as [_|n]; [|congruence].
    eexists; split; [reflexivity|]. split.
    + split; [reflexivity|]. simpl. rewrite zip_with_length. lia.
    + intros i t Hi Ht. unfold get2; simpl. rewrite Hms, Hs; simpl.
      apply nth_zip_with; nia.
  - exists x. repeat split; auto.
Qed.

Section Loop.

Variables gamma lambd : Q.
Variables (B T : nat) (values rewards : Tensor).
Hypothesis Hvalues : shape values = [B; T].
Hypothesis Hrewards : shape rewards = [B; T].

Lemma gae_body_eq lastgaelam acc t :
  gae_body gamma lambd T values rewards (lastgaelam, acc) t
  = (gae_next gamma lambd T values rewards lastgaelam t,
     acc ++ [gae_next gamma lambd T values rewards lastgaelam t]).
Proof. reflexivity. Qed.

Lemma gae_loop n : forall a acc,
  fold_left (gae_body gamma lambd T values rewards)
    (map (fun k => (T - 1 - k)%nat) (seq a n))
    (lastgae gamma lambd T values rewards a, acc)
  = (lastgae gamma lambd T values rewards (a + n),
     acc ++ map (fun k => lastgae gamma lambd T values rewards (S k))
              (seq a n)).
Proof.
  induction n as [|n IH]; intros a acc; cbn [seq map fold_left].
  - now rewrite Nat.add_0_r, app_nil_r.
  - rewrite gae_body_eq.
    change (gae_next gamma lambd T values rewards
              (lastgae gamma lambd T values rewards a) (T - 1 - a))
      with (lastgae gamma lambd T values rewards (S a)).
    rewrite IH. rewrite <- app_assoc. cbn [app]. f_equal. f_equal. lia.
Qed.

(** One iteration leaves a column: its element [i] is
    [delta + gamma * lambd * lastgaelam] at row [i]. *)
Lemma gae_next_vec last t :
  column_like B last ->
  exists v,
    gae_next gamma lambd T values rewards last t = Vec v /\ length v = B /\
    forall i, (i < B)%nat ->
      nth i v 0 =
        get2 rewards i t
          + gamma * (if (t <? T - 1)%nat then get2 values i (t + 1) else 0)
          - get2 values i t
          + gamma * lambd * elt last i.
Proof.
  intros Hlast. unfold gae_next, gae_body. cbn [fst].
  pose proof (@select_col_length B T rewards t Hrewards) as Lr.
  pose proof (@select_col_length B T values t Hvalues) as Lv.
  pose proof (@select_col_length B T values (t + 1) Hvalues) as Lv'.
  destruct (t <? T - 1)%nat; destruct last as [y|l]; cbn [broadcast];
    eexists; (split; [reflexivity|]); simpl in Hlast;
    (split;
     [ repeat (rewrite ?zip_with_length, ?length_map); lia
     | intros i Hi; cbn [elt];
       repeat first
         [ rewrite (@nth_zip_with _ _ _ _ _ _ i 0 0 0)
             by (repeat (rewrite ?zip_with_length, ?length_map); lia)
         | rewrite (@nth_map_lt _ _ _ _ i 0 0)
             by (repeat (rewrite ?zip_with_length, ?length_map); lia) ];
       rewrite ?(@nth_select_col B T rewards i _ Hrewards),
         ?(@nth_select_col B T values i _ Hvalues) by lia;
       reflexivity ]).
Qed.

Lemma lastgae_column_like k :
  column_like B (lastgae gamma lambd T values rewards k).
Proof.
  induction k as [|k IH]; [exact I|]. cbn [lastgae].
  destruct (gae_next_vec _ (T - 1 - k) IH) as (v & -> & Hl & _). exact Hl.
Qed.

Lemma lastgae_S k :
  exists v,
    lastgae gamma lambd T values rewards (S k) = Vec v /\ length v = B /\
    forall i, (i < B)%nat ->
      nth i v 0 =
        get2 rewards i (T - 1 - k)
          + gamma * (if (T - 1 - k <? T - 1)%nat
                     then get2 values i (T - 1 - k + 1) else 0)
          - get2 values i (T - 1 - k)
          + gamma * lambd * elt (lastgae gamma lambd T values rewards k) i.
Proof. apply gae_next_vec, lastgae_column_like. Qed.

(** The columns handed to [torch.stack]: column [t] is [lastgaelam] as the
    iteration at timestep [t] left it. *)
Lemma advantages_reversed_rev :
  rev (map (fun k => lastgae gamma lambd T values rewards (S k)) (seq 0 T))
  = map (fun t => lastgae gamma lambd T values rewards (T - t)) (seq 0 T).
Proof.
  rewrite <- map_rev, rev_seq, map_map.
  apply map_ext_in. intros t Ht. apply in_seq in Ht. f_equal. lia.
Qed.

End Loop.

Lemma stack_dim1_columns (B : nat) (cols : list operand) :
  cols <> [] ->
  Forall (fun c => exists v, c = Vec v /\ length v = B) cols ->
  stack_dim1 cols
  = Ok (mkTensor [B; length cols]
          (flat_map (fun i => map (fun c => nth i (vec c) 0) cols) (seq 0 B))).
Proof.
  intros Hne Hall. destruct cols as [|c cols]; [congruence|].
  pose proof (Forall_inv Hall) as (v & -> & Hv). unfold stack_dim1.
  assert (Hb : forallb (is_vec_of (length v)) (Vec v :: cols) = true).
  { apply forallb_forall. intros x Hx.
    rewrite Forall_forall in Hall. destruct (Hall x Hx) as (w & -> & Hw).
    simpl. apply Nat.eqb_eq. congruence. }
  rewrite Hb, Hv. reflexivity.
Qed.

Lemma get2_stack (B : nat) (cols : list operand) i t :
  (i < B)%nat -> (t < length cols)%nat ->
  get2 (mkTensor [B; length cols]
          (flat_map (fun i => map (fun c => nth i (vec c) 0) cols) (seq 0 B)))
       i t
  = nth i (vec (nth t cols (Num 0))) 0.
Proof.
  intros Hi Ht. unfold get2. cbn [shape data nth].
  rewrite (@nth_flat_map_rows _ _ (length cols)); auto.
  - cbn [Nat.add]. now rewrite (@nth_map_lt _ _ _ _ _ (Num 0)).
  - intros k. now rewrite length_map.
Qed.

(** C1.  For tensors of sizes [B, T] with [T >= 1] and any action mask of
    those sizes (or none), [get_advantages_and_returns] returns two tensors
    of sizes [B, T] that satisfy, on the masked rewards [r] and values [v],
    the backward recurrence
      [delta_t = r_t + gamma * v_{t+1} - v_t] (with [v_T = 0]) and
      [advantages_t = delta_t + gamma * lambd * advantages_{t+1}]
      (with [advantages_T = 0]),
    and [returns = advantages + v] elementwise. *)
Theorem gae_recurrence_and_returns :
  forall (B T : nat) (values rewards : Tensor) (action_mask : option Tensor)
         (gamma lambd : Q),
    (0 < T)%nat -> sized B T values -> sized B T rewards ->
    mask_sized B T action_mask ->
    exists advantages returns,
      get_advantages_and_returns (PyTensor values) (PyTensor rewards)
        action_mask gamma lambd
      = Ok (PyTensor advantages, PyTensor returns)
      /\ sized B T advantages /\ sized B T returns
      /\ forall i t, (i < B)%nat -> (t < T)%nat ->
           let v := masked action_mask values i in
           let r := masked action_mask rewards i in
           let delta :=
             r t + gamma * (if (t <? T - 1)%nat then v (t + 1)%nat else 0)
               - v t in
           get2 advantages i t
           = delta + gamma * lambd
                     * (if (t <? T - 1)%nat then get2 advantages i (t + 1)
                        else 0)
           /\ get2 returns i t = get2 advantages i t + v t.
Proof.
  intros B T values rewards action_mask gamma lambd HT Hv Hr Hm.
  destruct (apply_mask_sized B T action_mask values Hv Hm)
    as (V & HV & [HVs HVl] & HVe).
  destruct (apply_mask_sized B T action_mask rewards Hr Hm)
    as (R & HR & [HRs HRl] & HRe).
  set (cols := map (fun t => lastgae gamma lambd T V R (T - t)) (seq 0 T)).
  assert (Hlen : length cols = T)
    by (unfold cols; now rewrite length_map, length_seq).
  assert (Hcols : Forall (fun c => exists v, c = Vec v /\ length v = B) cols).
  { apply Forall_forall. intros c Hc. unfold cols in Hc.
    apply in_map_iff in Hc. destruct Hc as (t & <- & Ht). apply in_seq in Ht.
    replace (T - t)%nat with (S (T - t - 1)) by lia.
    destruct (@lastgae_S gamma lambd B T V R HVs HRs (T - t - 1))
      as (v & -> & Hl & _). eauto. }
  assert (Hne : cols <> [])
    by (intros E; rewrite E in Hlen; simpl in Hlen; lia).
  set (adv := mkTensor [B; length cols]
                (flat_map (fun i => map (fun c => nth i (vec c) 0) cols)
                   (seq 0 B))).
  assert (Hadv : sized B T adv).
  { split; [unfold adv; now rewrite Hlen|]. unfold adv; cbn [data].
    rewrite (@length_flat_map_rows _ _ (length cols))
      by (intros; now rewrite length_map).
    now rewrite Hlen. }
  assert (Hret : Torch.add adv V
                 = Ok (mkTensor [B; T] (zip_with Qplus (data adv) (data V)))).
  { unfold Torch.add, pointwise, shape_eqb. destruct Hadv as [-> _].
    rewrite HVs.
    destruct (list_eq_dec Nat.eq_dec [B; T] [B; T]); [reflexivity|congruence]. }
  exists adv, (mkTensor [B; T] (zip_with Qplus (data adv) (data V))).
  split; [|split; [exact Hadv|split]].
  - unfold get_advantages_and_returns, get_advantages_and_returns_batched.
    destruct Hr as [-> _].
    rewrite HV, HR. cbn [bind]. rewrite rev_seq.
    change (Num 0) with (lastgae gamma lambd T V R 0).
    rewrite gae_loop. cbn [app]. rewrite advantages_reversed_rev.
    fold cols. rewrite (stack_dim1_columns B cols Hne Hcols). cbn [bind].
    fold adv.
    rewrite Hret. reflexivity.
  - split; [reflexivity|]. cbn [data]. rewrite zip_with_length.
    destruct Hadv as [_ ->]. lia.
  - intros i t Hi Ht.
    assert (Hget : forall t', (t' < T)%nat ->
              get2 adv i t'
              = nth i (vec (lastgae gamma lambd T V R (T - t'))) 0).
    { intros t' Ht'. unfold adv. rewrite get2_stack by lia.
      unfold cols.
      rewrite (@nth_map_lt _ _ _ _ _ 0%nat) by (rewrite length_seq; lia).
      now rewrite seq_nth by lia. }
    split.
    + rewrite Hget by lia.
      replace (T - t)%nat with (S (T - t - 1)) by lia.
      destruct (@lastgae_S gamma lambd B T V R HVs HRs (T - t - 1))
        as (v & Ev & _ & Hv'). rewrite Ev. cbn [vec]. rewrite Hv' by lia.
      replace (T - 1 - (T - t - 1))%nat with t by lia.
      destruct (Nat.ltb_spec t (T - 1)) as [Hlt|Hge].
      * rewrite <- !HVe, <- !HRe by lia. rewrite Hget by lia.
        replace (T - t - 1)%nat with (T - (t + 1))%nat by lia.
        replace (T - (t + 1))%nat with (S (T - (t + 1) - 1)) by lia.
        destruct (@lastgae_S gamma lambd B T V R HVs HRs (T - (t + 1) - 1))
          as (w & -> & _ & _). reflexivity.
      * rewrite <- !HVe, <- !HRe by lia.
        replace (T - t - 1)%nat with 0%nat by lia. reflexivity.
    + unfold get2 at 1. cbn [shape data nth].
      rewrite (@nth_zip_with _ _ _ _ _ _ _ 0 0) by
        (destruct Hadv as [_ Hal]; rewrite ?Hal, ?HVl; nia).
      rewrite <- HVe by lia. unfold get2.
      destruct Hadv as [-> _]. rewrite HVs. reflexivity.
Qed.

Lemma gae_recurrence_and_returns_witness :
  exists advantages returns,
    get_advantages_and_returns (PyTensor sample_values)
      (PyTensor sample_rewards) (Some sample_mask) (1 # 2) 1
    = Ok (PyTensor advantages, PyTensor returns)
    /\ sized 2 3 advantages /\ sized 2 3 returns
    /\ forall i t, (i < 2)%nat -> (t < 3)%nat ->
         let v := masked (Some sample_mask) sample_values i in
         let r := masked (Some sample_mask) sample_rewards i in
         let delta :=
           r t + (1 # 2) * (if (t <? 3 - 1)%nat then v (t + 1)%nat else 0)
             - v t in
         get2 advantages i t
         = delta + (1 # 2) * 1
                   * (if (t <? 3 - 1)%nat then get2 advantages i (t + 1)
                      else 0)
         /\ get2 returns i t = get2 advantages i t + v t.
Proof.
  apply (gae_recurrence_and_returns 2 3 sample_values sample_rewards
           (Some sample_mask) (1 # 2) 1).
  - lia.
  - split; reflexivity.
  - split; reflexivity.
  - split; reflexivity.
Defined.

(** The run of the sample without a mask, with gamma = 1 and lambd = 1. *)
Example gae_sample_run :
  get_advantages_and_returns (PyTensor sample_values)
    (PyTensor sample_rewards) None 1 1
  = Ok (PyTensor (mkTensor [2; 3]%nat [2; 0; -2; -3; -4; -5]),
        PyTensor (mkTensor [2; 3]%nat [3; 2; 1; 1; 1; 1])).
Proof. vm_compute. reflexivity. Qed.

(** A response of length 0 is refused by [torch.stack]. *)
Example gae_empty_response :
  get_advantages_and_returns (PyTensor (mkTensor [2; 0]%nat []))
    (PyTensor (mkTensor [2; 0]%nat [])) None 1 1
  = Raise RuntimeError.
Proof. reflexivity. Qed.

End AdvantageEngineProofs.

(** ** Cumulative returns *)

Module CumulativeReturnsProofs.

Import ListFacts AdvantageEngine AdvantageSpec AdvantageEngineProofs.

Lemma get2_assign_col B T ret j col i t :
  sized B T ret -> (i < B)%nat -> (t < T)%nat ->
  get2 (assign_col ret j col) i t
  = if (t =? j)%nat then nth i col 0 else get2 ret i t.
Proof.
  intros [Hs Hl] Hi Ht. unfold get2, assign_col. cbn [shape data].
  rewrite Hs. cbn [nth]. rewrite nth_map_seq by (rewrite Hl; nia).
  cbn [Nat.add].
  replace ((i * T + t) mod T)%nat with t.
  2:{ rewrite Nat.add_comm, Nat.Div0.mod_add. symmetry.
      now apply Nat.mod_small. }
  replace ((i * T + t) / T)%nat with i.
  2:{ rewrite Nat.add_comm, Nat.div_add by lia.
      rewrite Nat.div_small by lia. reflexivity. }
  reflexivity.
Qed.

Lemma assign_col_sized B T ret j col :
  sized B T ret -> sized B T (assign_col ret j col).
Proof.
  intros [Hs Hl]. split; [exact Hs|]. unfold assign_col. cbn [data].
  now rewrite length_map, length_seq.
Qed.

Section Loop.

Variable gamma : Q.
Variables (B T : nat) (rewards : Tensor).
Hypothesis Hrewards : shape rewards = [B; T].

Lemma after_step k st :
  (k < T)%nat -> after gamma B T rewards k st ->
  after gamma B T rewards (S k) (cumulative_body gamma rewards st (T - 1 - k)).
Proof.
  intros Hk (c & Hc & Hlc & Hsz & Hlast & Hrec).
  destruct st as [cum ret]. cbn [fst snd] in *. subst cum.
  unfold cumulative_body. cbn [broadcast vec fst snd].
  set (c' := zip_with Qplus (select_col rewards (T - 1 - k))
               (map (fun y => gamma * y) c)).
  pose proof (select_col_length B T rewards (T - 1 - k) Hrewards) as Lr.
  assert (Hc' : forall i, (i < B)%nat ->
            nth i c' 0 = get2 rewards i (T - 1 - k) + gamma * nth i c 0).
  { intros i Hi. unfold c'.
    rewrite (@nth_zip_with _ _ _ _ _ _ i 0 0 0) by (rewrite ?length_map; lia).
    rewrite (@nth_map_lt _ _ _ _ i 0 0) by lia.
    now rewrite (nth_select_col B T rewards i _ Hrewards) by lia. }
  exists c'. split; [reflexivity|]. split.
  { unfold c'. rewrite zip_with_length, length_map. lia. }
  split; [now apply assign_col_sized|]. split.
  - intros i Hi. cbn [Nat.eqb snd].
    rewrite (get2_assign_col B T) by (auto; lia).
    replace (T - S k)%nat with (T - 1 - k)%nat by lia.
    now rewrite Nat.eqb_refl.
  - intros i t Hi Ht. cbn [snd].
    rewrite (get2_assign_col B T) by (auto; lia).
    destruct (Nat.eqb_spec t (T - 1 - k)) as [->|Hne].
    + rewrite Hc', Hlast by lia. f_equal. f_equal.
      destruct (Nat.ltb_spec (T - 1 - k) (T - 1)) as [Hlt|Hge].
      * rewrite (get2_assign_col B T) by (auto; lia).
        destruct (Nat.eqb_spec (T - 1 - k + 1) (T - 1 - k)); [lia|].
        destruct (Nat.eqb_spec k 0); [lia|]. f_equal. lia.
      * destruct (Nat.eqb_spec k 0); [reflexivity|lia].
    + rewrite Hrec by lia. f_equal. f_equal.
      destruct (Nat.ltb_spec t (T - 1)) as [Hlt|Hge]; [|reflexivity].
      rewrite (get2_assign_col B T) by (auto; lia).
      destruct (Nat.eqb_spec (t + 1) (T - 1 - k)); [lia|reflexivity].
Qed.

Lemma after_loop n : forall a st,
  (a + n <= T)%nat -> after gamma B T rewards a st ->
  after gamma B T rewards (a + n)
    (fold_left (cumulative_body gamma rewards)
       (map (fun k => (T - 1 - k)%nat) (seq a n)) st).
Proof.
  induction n as [|n IH]; intros a st Han Hst; cbn [seq map fold_left].
  - now rewrite Nat.add_0_r.
  - replace (a + S n)%nat with (S a + n)%nat by lia.
    apply IH; [lia|]. apply after_step; [lia|exact Hst].
Qed.

End Loop.

(** The closed form of the backward recurrence. *)
Lemma discounted_sum_step gamma r t T :
  (t < T)%nat ->
  discounted_sum gamma r t T == r t + gamma * discounted_sum gamma r (t + 1) T.
Proof.
  intros Ht. unfold discounted_sum.
  replace (T - t)%nat with (S (T - (t + 1))) by lia.
  cbn [seq map Qsum fold_right]. rewrite Nat.sub_diag. 
  change (gamma ^ Z.of_nat 0) with 1.
  assert (H : forall l,
    (forall k, In k l -> (t < k)%nat) ->
    fold_right Qplus 0 (map (fun k => gamma ^ Z.of_nat (k - t) * r k) l)
    == gamma * fold_right Qplus 0
                 (map (fun k => gamma ^ Z.of_nat (k - (t + 1)) * r k) l)).
  { induction l as [|k l IH]; intros Hl; cbn [map fold_right]; [ring|].
    rewrite IH by (intros; apply Hl; now right).
    assert (Hk : (t < k)%nat) by (apply Hl; now left).
    set (rest := fold_right Qplus 0 _).
    replace (Z.of_nat (k - t)) with (1 + Z.of_nat (k - (t + 1)))%Z by lia.
    destruct (Z.eq_dec (Z.of_nat (k - (t + 1))) 0) as [E|E].
    - rewrite E. change (1 + 0)%Z with 1%Z. rewrite Qpower_1_r.
      change (gamma ^ 0) with 1. ring.
    - rewrite Qpower_plus' by lia. rewrite Qpower_1_r.
      set (p := gamma ^ _). ring. }
  replace (S t) with (t + 1)%nat by lia.
  rewrite H by (intros k Hk; apply in_seq in Hk; lia).
  unfold Qsum. set (rest := fold_right Qplus 0 _). ring.
Qed.

Lemma discounted_sum_end gamma r T : discounted_sum gamma r T T == 0.
Proof. unfold discounted_sum. rewrite Nat.sub_diag. reflexivity. Qed.

Lemma masked_all_ones B T action_mask x i t :
  mask_sized B T action_mask -> all_ones action_mask ->
  (i < B)%nat -> (t < T)%nat ->
  masked action_mask x i t == get2 x i t.
Proof.
  destruct action_mask as [m|]; simpl; intros Hm Hones Hi Ht; [|reflexivity].
  destruct Hm as [Hs Hl].
  assert (H1 : get2 m i t == 1).
  { rewrite Forall_forall in Hones. apply Hones.
    unfold get2. rewrite Hs. cbn [nth]. apply nth_In. rewrite Hl. nia. }
  rewrite H1. ring.
Qed.

(** C2.  With an all-ones action mask (or none) and rewards of sizes
    [B, T], [get_cumulative_returns] returns a tensor of sizes [B, T] with
    [returns[i, t] = sum_{k >= t} gamma^(k - t) * rewards[i, k]] for every row
    [i] and timestep [t]. *)
Theorem cumulative_returns_closed_form :
  forall (B T : nat) (rewards : Tensor) (action_mask : option Tensor)
         (gamma : Q),
    sized B T rewards -> mask_sized B T action_mask -> all_ones action_mask ->
    exists returns,
      get_cumulative_returns (PyTensor rewards) action_mask gamma
      = Ok (PyTensor returns)
      /\ sized B T returns
      /\ forall i t, (i < B)%nat -> (t < T)%nat ->
           get2 returns i t == discounted_sum gamma (get2 rewards i) t T.
Proof.
  intros B T rewards action_mask gamma Hr Hm Hones.
  destruct (apply_mask_sized B T action_mask rewards Hr Hm)
    as (R & HR & [HRs HRl] & HRe).
  set (st0 := (Vec (repeat 0 B), zeros_like rewards)).
  assert (H0 : after gamma B T R 0 st0).
  { exists (repeat 0 B). cbn [fst snd]. split; [reflexivity|].
    split; [apply repeat_length|]. split.
    - destruct Hr as [Hs _].
      split; unfold st0, zeros_like, zeros; cbn [snd shape data].
      + exact Hs.
      + rewrite repeat_length, Hs. simpl. lia.
    - split.
      + intros i Hi. cbn [Nat.eqb]. apply nth_repeat_lt. exact Hi.
      + intros i t _ Ht. lia. }
  pose proof (after_loop gamma B T R HRs T 0 st0 (le_n _) H0) as Hfin.
  cbn [Nat.add] in Hfin. rewrite <- rev_seq in Hfin.
  destruct (fold_left (cumulative_body gamma R) (rev (seq 0 T)) st0)
    as [cum ret] eqn:Efold.
  destruct Hfin as (c & _ & _ & Hsz & _ & Hrec). cbn [snd] in Hsz, Hrec.
  exists ret. split; [|split; [exact Hsz|]].
  - unfold get_cumulative_returns, get_cumulative_returns_batched.
    destruct Hr as [-> _].
    rewrite HR. cbn [bind]. fold st0. rewrite Efold. reflexivity.
  - intros i t Hi Ht.
    assert (Hall : forall m t', (t' + m = T)%nat -> (0 < m)%nat ->
              get2 ret i t' == discounted_sum gamma (get2 rewards i) t' T).
    { induction m as [|m IH]; intros t' Hsum Hpos; [lia|].
      rewrite Hrec by lia. rewrite discounted_sum_step by lia.
      rewrite HRe by lia.
      rewrite (masked_all_ones B T action_mask rewards i t') by (auto; lia).
      destruct (Nat.ltb_spec t' (T - 1)) as [Hlt|Hge].
      - rewrite (IH (t' + 1)%nat) by lia. reflexivity.
      - replace (t' + 1)%nat with T by lia.
        rewrite discounted_sum_end. reflexivity. }
    apply (Hall (T - t)%nat); lia.
Qed.

(** The spec's example: rewards [1, 1, 1] and gamma = 0.5 give
    [1.75, 1.5, 1.0]. *)
Lemma cumulative_returns_closed_form_witness :
  exists returns,
    get_cumulative_returns (PyTensor unit_rewards)
      (Some (ones_like unit_rewards)) (1 # 2)
    = Ok (PyTensor returns)
    /\ get2 returns 0 0 == 7 # 4
    /\ get2 returns 0 1 == 3 # 2
    /\ get2 returns 0 2 == 1.
Proof.
  destruct (cumulative_returns_closed_form 1 3 unit_rewards
              (Some (ones_like unit_rewards)) (1 # 2))
    as (returns & Hrun & _ & Hall).
  - split; reflexivity.
  - split; reflexivity.
  - repeat constructor.
  - exists returns. split; [exact Hrun|].
    rewrite !Hall by lia. repeat split; reflexivity.
Defined.

Example cumulative_returns_unit_run :
  get_cumulative_returns (PyTensor unit_rewards)
    (Some (ones_like unit_rewards)) (1 # 2)
  = Ok (PyTensor (mkTensor [1; 3]%nat [14 # 8; 6 # 4; 2 # 2])).
Proof. vm_compute. reflexivity. Qed.

End CumulativeReturnsProofs.

(** ** Leave-one-out reward shaping *)

Module RlooProofs.

Import ListFacts ChunkFacts ExperienceModel RolloutCollector CollectorSpec.

Lemma zip_with_map_r {A B C : Type} (f : A -> B -> C) (g : A -> B) l :
  zip_with f l (map g l) = map (fun x => f x (g x)) l.
Proof. induction l as [|a l IH]; simpl; congruence. Qed.

Lemma cat_list_flat (rs : list Tensor) :
  rs <> [] -> Forall (fun r => shape r = [length (data r)]) rs ->
  cat_list rs
  = Ok (mkTensor [length (concat (map data rs))] (concat (map data rs))).
Proof.
  induction rs as [|r rs IH]; intros Hne Hall; [congruence|].
  pose proof (Forall_inv Hall) as Hr. pose proof (Forall_inv_tail Hall) as Hrs.
  cbv beta in Hr. destruct rs as [|r' rs].
  - simpl. rewrite Hr, app_nil_r. destruct r as [s d]. simpl in *. now subst.
  - change (cat_list (r :: r' :: rs))
      with (bind (cat_list (r' :: rs)) (fun x => cat r x)).
    rewrite IH by (auto; congruence). cbn [bind].
    unfold cat. rewrite Hr. cbn [shape data]. unfold shape_eqb.
    destruct (list_eq_dec Nat.eq_dec [] []); [|congruence].
    f_equal. f_equal. f_equal. simpl. rewrite !length_app. reflexivity.
Qed.

Lemma chunk_concat (t : Tensor) (k : nat) :
  k <> 0%nat ->
  exists pieces, chunk t k = Ok pieces /\ concat (map data pieces) = data t.
Proof.
  intros Hk. unfold chunk. destruct (Nat.eqb_spec k 0) as [|_]; [congruence|].
  eexists. split; [reflexivity|]. rewrite map_map. cbn [data]. rewrite map_id.
  set (len := length (data t)). set (size := ((len + k - 1) / k)%nat).
  destruct (Nat.eqb_spec size 0) as [E|E].
  - rewrite concat_repeat_nil.
    assert (len = 0)%nat.
    { unfold size in E. apply Nat.div_small_iff in E; lia. }
    destruct (data t); [reflexivity|discriminate].
  - apply concat_chunks. fold len.
    pose proof (Nat.div_mod_eq (len + size - 1) size) as Hdm.
    pose proof (Nat.mod_upper_bound (len + size - 1) size E). nia.
Qed.

Lemma group_as_indices (n i : nat) (l : list Q) :
  (i * n + n <= length l)%nat ->
  firstn n (skipn (i * n) l)
  = map (fun k => nth (i * n + k)%nat l 0) (seq 0 n).
Proof.
  intros Hl. apply nth_ext with (d := 0) (d' := 0).
  - rewrite length_firstn, length_skipn, length_map, length_seq. lia.
  - intros j Hj. rewrite length_firstn, length_skipn in Hj.
    rewrite firstn_skipn_nth by lia. now rewrite nth_map_seq by lia.
Qed.

(** C3.  Under the rloo policy, when the rewards of the experiences put end
    to end have [P * n] elements, with [n = n_samples_per_prompt > 1],
    [process_experiences] returns shaped rewards which, put end to end, hold at
    [i * n + j] the value
    [reward[i,j] - (sum_k reward[i,k] - reward[i,j]) / (n - 1)]. *)
Theorem rloo_shaped_rewards :
  forall (args : Args) (experiences : list Experience) (rs : list Tensor)
         (P n : nat),
    advantage_estimator args = "rloo"%string ->
    n_samples_per_prompt args = Z.of_nat n -> (1 < n)%nat ->
    experiences <> [] ->
    Forall2 has_reward experiences rs ->
    length (concat (map data rs)) = (P * n)%nat ->
    exists experiences' rewards',
      process_experiences args experiences
      = Ok (experiences', map PyTensor rewards')
      /\ length (concat (map data rewards')) = (P * n)%nat
      /\ forall i j, (i < P)%nat -> (j < n)%nat ->
           let reward := fun i k => nth (i * n + k) (concat (map data rs)) 0 in
           nth (i * n + j) (concat (map data rewards')) 0
           = reward i j
             - (Qsum (map (reward i) (seq 0 n)) - reward i j)
               / inject_Z (Z.of_nat n - 1).
Proof.
  intros args experiences rs P n Hest Hn Hn1 Hne Hrs Hlen.
  set (flat := concat (map data rs)) in *.
  unfold process_experiences. rewrite Hest. cbn [String.eqb Ascii.eqb Bool.eqb].
  assert (H1 : map_result
            (fun experience =>
               r <- getitem (info experience) "reward"%string ;; as_tensor r)
            experiences = Ok rs).
  { apply map_result_ok. eapply Forall2_impl; [|exact Hrs].
    intros e r [Hl _]. unfold getitem. now rewrite Hl. }
  rewrite H1. cbn [bind].
  assert (Hrs_ne : rs <> []).
  { intros ->. inversion Hrs. congruence. }
  rewrite cat_list_flat; [|exact Hrs_ne|].
  2:{ clear -Hrs.
      induction Hrs as [|e r es rs' [_ Hs] _ IH]; constructor; auto. }
  cbn [bind]. fold flat.
  assert (H2 : exists es', map_result
            (fun experience =>
               r <- getitem (info experience) "reward"%string ;;
               r <- as_tensor r ;;
               Ok (set_info experience "acc_info"
                     (PyTensor
                        (flatten
                           (mkTensor (shape r) (map eq_one (data r)))))))
            experiences = Ok es' /\ length es' = length experiences).
  { clear -Hrs. induction Hrs as [|e r es rs' [Hl _] _ (es' & IH & IHl)].
    - exists []. split; reflexivity.
    - eexists. cbn [map_result]. unfold getitem at 1. rewrite Hl.
      cbn [bind as_tensor].
      rewrite IH. cbn [bind]. split; [reflexivity|]. simpl. now rewrite IHl. }
  destruct H2 as (es' & -> & Hes'). cbn [bind].
  unfold reshape_rows. cbn [data]. rewrite Hn, Hlen.
  replace (0 <? Z.of_nat n)%Z with true by (symmetry; apply Z.ltb_lt; lia).
  rewrite Nat2Z.id, Nat.Div0.mod_mul, Nat.div_mul by lia.
  cbn [Nat.eqb andb bind]. unfold rows. cbn [shape data].
  unfold rloo_baseline. rewrite zip_with_map_r.
  rewrite (map_ext _ (fun row =>
             map (fun x => x - (Qsum row - x) / inject_Z (Z.of_nat n - 1))
               row))
    by (intros row; apply zip_with_map_r).
  set (shaped := concat (map _ (chunks n P flat))).
  destruct (chunk_concat (flatten (mkTensor [P; n] shaped)) (length es'))
    as (pieces & -> & Hpieces).
  { rewrite Hes'. destruct experiences; [congruence|discriminate]. }
  cbn [bind]. exists es', pieces. split; [reflexivity|].
  rewrite Hpieces. cbn [flatten data].
  pose proof (chunks_row_length n P flat Hlen) as Hrows.
  assert (Hrows' : Forall (fun r => length r = n)
            (map (fun row =>
               map (fun x => x - (Qsum row - x) / inject_Z (Z.of_nat n - 1))
                 row)
               (chunks n P flat))).
  { apply Forall_map. eapply Forall_impl; [|exact Hrows].
    intros r Hr. now rewrite length_map. }
  split.
  - unfold shaped. rewrite (length_concat_rows n) by exact Hrows'.
    now rewrite length_map, chunks_length.
  - intros i j Hi Hj. cbv zeta. unfold shaped.
    rewrite (nth_concat_rows n)
      by (auto; rewrite length_map, chunks_length; lia).
    rewrite (@nth_map_lt _ _ _ _ i [] []) by (rewrite chunks_length; lia).
    rewrite nth_chunks by lia.
    rewrite (@nth_map_lt _ _ _ _ j 0 0)
      by (rewrite length_firstn, length_skipn; nia).
    rewrite firstn_skipn_nth by lia.
    rewrite group_as_indices by nia. reflexivity.
Qed.

(** The spec's example: the group [2, 4, 6] is shaped to [-3, 0, 3]. *)
Lemma rloo_shaped_rewards_witness :
  exists experiences' rewards',
    process_experiences (args_of "rloo" 3) [group_246]
    = Ok (experiences', map PyTensor rewards')
    /\ nth 0 (concat (map data rewards')) 0 == -3
    /\ nth 1 (concat (map data rewards')) 0 == 0
    /\ nth 2 (concat (map data rewards')) 0 == 3.
Proof.
  destruct (rloo_shaped_rewards (args_of "rloo" 3) [group_246]
              [vector [2; 4; 6]] 1 3)
    as (es & rewards' & Hrun & _ & Hall).
  - reflexivity.
  - reflexivity.
  - lia.
  - discriminate.
  - repeat constructor.
  - reflexivity.
  - exists es, rewards'. split; [exact Hrun|].
    pose proof (Hall 0%nat 0%nat) as H0.
    pose proof (Hall 0%nat 1%nat) as H1.
    pose proof (Hall 0%nat 2%nat) as H2.
    cbv zeta in H0, H1, H2. cbn [Nat.mul Nat.add] in H0, H1, H2.
    rewrite H0, H1, H2 by lia. repeat split; reflexivity.
Defined.

(** For the group [2, 4, 6] the baseline is [5, 4, 3]. *)
Example rloo_baseline_246 :
  map (map Qred) (rloo_baseline 3 [[2; 4; 6]]) = [[5; 4; 3]].
Proof. reflexivity. Qed.

Example rloo_shaped_246 :
  process_experiences (args_of "rloo" 3) [group_246]
  = Ok ([set_info group_246 "acc_info" (PyTensor (vector [0; 0; 0]))],
        [PyTensor (vector [-6 # 2; 0 # 2; 6 # 2])]).
Proof. vm_compute. reflexivity. Qed.

End RlooProofs.

(** ** Dictionaries *)

Module DictFacts.

Section Facts.

Context {K V : Type} `{Key K}.

Lemma key_eqb_refl (k : K) : key_eqb k k = true.
Proof. destruct (key_eqb_spec k k); congruence. Qed.

Lemma key_eqb_neq (k k' : K) : k <> k' -> key_eqb k k' = false.
Proof. destruct (key_eqb_spec k k'); congruence. Qed.

Lemma lookup_setitem (d : dict K V) k v k' :
  lookup (setitem d k v) k' = if key_eqb k' k then Some v else lookup d k'.
Proof.
  induction d as [|[k0 v0] d IH]; simpl.
  - reflexivity.
  - destruct (key_eqb_spec k k0) as [->|Hne]; simpl.
    + destruct (key_eqb_spec k' k0); reflexivity.
    + rewrite IH. destruct (key_eqb_spec k' k0) as [->|Hne'].
      * now rewrite key_eqb_neq by congruence.
      * reflexivity.
Qed.

Lemma lookup_In_keys (d : dict K V) k :
  In k (keys d) <-> lookup d k <> None.
Proof.
  induction d as [|[k0 v0] d IH]; simpl.
  - split; [tauto|congruence].
  - destruct (key_eqb_spec k k0) as [->|Hne].
    + split; [congruence|auto].
    + rewrite <- IH. split; [intros [E|E]; congruence || auto|auto].
Qed.

Lemma lookup_remove_other (d : dict K V) k k' :
  k' <> k -> lookup (remove d k) k' = lookup d k'.
Proof.
  intros Hne. induction d as [|[k0 v0] d IH]; simpl; [reflexivity|].
  destruct (key_eqb_spec k k0) as [->|Hne0]; simpl.
  - now rewrite key_eqb_neq.
  - now rewrite IH.
Qed.

Lemma keys_setitem_new (d : dict K V) k v :
  lookup d k = None -> setitem d k v = d ++ [(k, v)].
Proof.
  induction d as [|[k0 v0] d IH]; simpl; [reflexivity|].
  destruct (key_eqb_spec k k0); [discriminate|].
  intros Hl. now rewrite IH.
Qed.

Lemma keys_setitem_present (d : dict K V) k v :
  lookup d k <> None -> keys (setitem d k v) = keys d.
Proof.
  induction d as [|[k0 v0] d IH]; simpl; [congruence|].
  destruct (key_eqb_spec k k0) as [->|Hne]; simpl; [reflexivity|].
  intros Hl. now rewrite IH.
Qed.

Lemma keys_setitem_absent (d : dict K V) k v :
  lookup d k = None -> keys (setitem d k v) = keys d ++ [k].
Proof.
  intros Hl. rewrite (keys_setitem_new d k v Hl). unfold keys.
  now rewrite map_app.
Qed.

End Facts.

End DictFacts.

(** ** The merge of experiences *)

Module ExperienceProofs.

Import DictFacts ExperienceModel CollectorSpec.

(** What the loop over the keys of [mine] leaves in the merged dictionary. *)
Lemma for_each_cat (mine : dict string pyval)
    (theirs : string -> result pyval) :
  forall ks acc out,
    for_each ks
      (fun out k =>
         a <- getitem mine k ;;
         b <- theirs k ;;
         v <- conditional_cat a b ;;
         Ok (setitem out k v)) acc = Ok out ->
    forall k,
      (In k ks ->
       exists a b v, lookup mine k = Some a /\ theirs k = Ok b
                     /\ conditional_cat a b = Ok v /\ lookup out k = Some v)
      /\ (~ In k ks -> lookup out k = lookup acc k).
Proof.
  induction ks as [|k0 ks IH]; intros acc out Hrun k.
  - simpl in Hrun. injection Hrun as <-. split; [intros []|reflexivity].
  - cbn [for_each] in Hrun. unfold getitem in Hrun at 1.
    destruct (lookup mine k0) as [a0|] eqn:Ea; [|discriminate].
    cbn [bind] in Hrun.
    destruct (theirs k0) as [b0|] eqn:Eb; [|discriminate].
    cbn [bind] in Hrun.
    destruct (conditional_cat a0 b0) as [v0|] eqn:Ev; [|discriminate].
    cbn [bind] in Hrun.
    destruct (IH _ _ Hrun k) as [Hin Hout].
    destruct (in_dec string_dec k ks) as [Hk|Hk].
    + split; [intros _; now apply Hin|].
      intros Hn. exfalso. apply Hn. now right.
    + rewrite (Hout Hk), lookup_setitem. split.
      * intros [->|Hk']; [|contradiction].
        rewrite key_eqb_refl. exists a0, b0, v0. auto.
      * intros Hn. rewrite key_eqb_neq; [reflexivity|].
        intros ->. apply Hn. now left.
Qed.

Lemma cat_dicts_lookup mine theirs out :
  cat_dicts mine theirs = Ok out ->
  forall k,
    match lookup mine k with
    | Some a => exists b v, theirs k = Ok b /\ conditional_cat a b = Ok v
                            /\ lookup out k = Some v
    | None => lookup out k = None
    end.
Proof.
  intros Hrun k. destruct (for_each_cat mine theirs _ _ _ Hrun k) as [Hin Hout].
  destruct (lookup mine k) as [a|] eqn:Ea.
  - destruct Hin as (a' & b & v & Ha & Hb & Hv & Ho).
    { apply lookup_In_keys. congruence. }
    exists b, v. injection Ha as <-. auto.
  - apply Hout. intros Hin'. apply lookup_In_keys in Hin'. congruence.
Qed.

(** A key of the left dictionary that the right one lacks stops the loop. *)
Lemma cat_dicts_missing mine theirs k :
  lookup mine k <> None -> (exists e, theirs k = Raise e) ->
  exists e, cat_dicts mine theirs = Raise e.
Proof.
  intros Hk [e He].
  destruct (cat_dicts mine theirs) as [out|e'] eqn:Hrun; [|eauto].
  pose proof (cat_dicts_lookup _ _ _ Hrun k) as Hl.
  destruct (lookup mine k); [|congruence].
  destruct Hl as (b & v & Hb & _). congruence.
Qed.

(** The attributes and dictionaries of a merge that returns. *)
Lemma Experience_add_inv e1 e2 e :
  Experience_add e1 (ObjExperience e2) = Ok (Returns e) ->
  cat_dicts (info e1) (getitem (info e2)) = Ok (info e)
  /\ forall f, conditional_cat (getattr e1 f) (getattr e2 f) = Ok (getattr e f).
Proof.
  unfold Experience_add. intros Hrun.
  destruct (cat_dicts (info e1) (getitem (info e2))) as [i|]; [|discriminate].
  cbn [bind] in Hrun.
  destruct (match visual_inputs e1 with
            | Some mine => _ | None => _ end) as [vi|]; [|discriminate].
  cbn [bind] in Hrun.
  repeat match type of Hrun with
         | bind (conditional_cat ?a ?b) _ = _ =>
             destruct (conditional_cat a b) eqn:?; [|discriminate];
             cbn [bind] in Hrun
         end.
  injection Hrun as <-. split; [reflexivity|].
  intros []; cbn [getattr sequences action_log_probs values returns advantages
                    attention_mask action_mask kl ref_log_probs]; assumption.
Qed.

End ExperienceProofs.

Module MergeProofs.

Import DictFacts ExperienceModel ExperienceProofs.
Import CollectorSpec Samples MergeSpec.

Lemma conditional_cat_None_l x : conditional_cat PyNone x = Ok PyNone.
Proof. reflexivity. Qed.

Lemma conditional_cat_None_r x : conditional_cat x PyNone = Ok PyNone.
Proof. now destruct x. Qed.

(** C8, as the code has it.  A field that is [None] in at least one operand
    -- in both, or in exactly one -- is [None] in the merged experience, with
    no error; so is an [info] entry.  An [info] key that both operands lack,
    or that only the right operand has, is not a key of the result; an [info]
    key of the left operand that the right operand lacks makes the merge
    raise. *)
Theorem merge_absent_field_stays_absent :
  (forall x, conditional_cat PyNone x = Ok PyNone
             /\ conditional_cat x PyNone = Ok PyNone)
  /\ (forall e1 e2 e,
        Experience_add e1 (ObjExperience e2) = Ok (Returns e) ->
        (forall f, getattr e1 f = PyNone \/ getattr e2 f = PyNone ->
                   getattr e f = PyNone)
        /\ (forall k a b,
              lookup (info e1) k = Some a -> lookup (info e2) k = Some b ->
              a = PyNone \/ b = PyNone -> lookup (info e) k = Some PyNone)
        /\ (forall k, lookup (info e1) k = None -> lookup (info e) k = None))
  /\ (forall e1 e2 k,
        lookup (info e1) k <> None -> lookup (info e2) k = None ->
        exists err, Experience_add e1 (ObjExperience e2) = Raise err).
Proof.
  split; [|split].
  - intros x.
    split; [apply conditional_cat_None_l|apply conditional_cat_None_r].
  - intros e1 e2 e Hadd.
    destruct (Experience_add_inv _ _ _ Hadd) as [Hinfo Hfields].
    split; [|split].
    + intros f [Hf|Hf]; specialize (Hfields f); rewrite Hf in Hfields.
      * rewrite conditional_cat_None_l in Hfields. congruence.
      * rewrite conditional_cat_None_r in Hfields. congruence.
    + intros k a b Ha Hb Hnone.
      pose proof (cat_dicts_lookup _ _ _ Hinfo k) as Hk. rewrite Ha in Hk.
      destruct Hk as (b' & v & Hb' & Hv & Hout).
      unfold getitem in Hb'. rewrite Hb in Hb'. injection Hb' as <-.
      destruct Hnone as [-> | ->].
      * rewrite conditional_cat_None_l in Hv. congruence.
      * rewrite conditional_cat_None_r in Hv. congruence.
    + intros k Hk. pose proof (cat_dicts_lookup _ _ _ Hinfo k) as Hl.
      now rewrite Hk in Hl.
  - intros e1 e2 k H1 H2.
    destruct (cat_dicts_missing (info e1) (getitem (info e2)) k H1)
      as [err Herr].
    { exists KeyError. unfold getitem. now rewrite H2. }
    exists err. unfold Experience_add. now rewrite Herr.
Qed.

(** The batch of two merged with a batch that has no [values], and with a
    batch whose [info] has no ["kl"] entry. *)
Lemma merge_absent_field_stays_absent_witness :
  Experience_add batch_of_two (ObjExperience batch_without_critic)
  = Ok (Returns merged_without_critic)
  /\ values merged_without_critic = PyNone
  /\ exists err,
       Experience_add batch_of_two (ObjExperience batch_without_kl_entry)
       = Raise err.
Proof.
  assert (Hadd : Experience_add batch_of_two
                   (ObjExperience batch_without_critic)
                 = Ok (Returns merged_without_critic))
    by (vm_compute; reflexivity).
  split; [exact Hadd|]. split.
  - apply (proj1 (proj1 (proj2 merge_absent_field_stays_absent) _ _ _ Hadd)
             Fvalues).
    right. reflexivity.
  - apply (proj2 (proj2 merge_absent_field_stays_absent) batch_of_two
             batch_without_kl_entry "kl"%string).
    + discriminate.
    + reflexivity.
Defined.

(** C8 as stated fails: [values] is present in the left operand and absent in
    the right one, and the merge returns, with [values] absent. *)
Lemma absence_mismatch_is_not_an_error :
  values batch_of_two <> PyNone
  /\ values batch_without_critic = PyNone
  /\ (forall err,
        Experience_add batch_of_two (ObjExperience batch_without_critic)
        <> Raise err)
  /\ exists e,
       Experience_add batch_of_two (ObjExperience batch_without_critic)
       = Ok (Returns e)
       /\ values e = PyNone.
Proof.
  split; [discriminate|]. split; [reflexivity|]. split.
  - intros err. vm_compute. discriminate.
  - eexists. split; [vm_compute; reflexivity|reflexivity].
Qed.

Lemma for_each_ok {A S : Type} (body : S -> A -> result S) (l : list A) :
  (forall s x, In x l -> exists s', body s x = Ok s') ->
  forall s, exists out, for_each l body s = Ok out.
Proof.
  induction l as [|x l IH]; intros Hbody s; simpl; [eauto|].
  destruct (Hbody s x (or_introl eq_refl)) as [s' ->]. cbn [bind].
  apply IH. intros s0 y Hy. apply Hbody. now right.
Qed.

Lemma cat_dicts_ok mine theirs :
  entries_combinable mine theirs ->
  exists out, cat_dicts mine (getitem theirs) = Ok out.
Proof.
  intros Hent. unfold cat_dicts. apply for_each_ok. intros s k Hk.
  apply lookup_In_keys in Hk. unfold getitem.
  destruct (lookup mine k) as [a|] eqn:Ea; [|congruence].
  destruct (Hent k a Ea) as (b & Hb & v & Hv). cbn [bind].
  rewrite Hb. cbn [bind]. rewrite Hv. cbn [bind]. eauto.
Qed.

(** Tensors whose sizes agree after the first are concatenated. *)
Lemma combinable_tensors t1 t2 n m s :
  shape t1 = n :: s -> shape t2 = m :: s ->
  conditional_cat (PyTensor t1) (PyTensor t2)
  = Ok (PyTensor (mkTensor ((n + m)%nat :: s) (data t1 ++ data t2))).
Proof.
  intros H1 H2. unfold conditional_cat, cat. rewrite H1, H2.
  unfold shape_eqb.
  destruct (list_eq_dec Nat.eq_dec s s); [reflexivity|congruence].
Qed.

Lemma conditional_cat_tensors t1 t2 v :
  conditional_cat (PyTensor t1) (PyTensor t2) = Ok v ->
  exists t, v = PyTensor t /\ cat t1 t2 = Ok t
            /\ data t = data t1 ++ data t2
            /\ forall b1 b2, size0 t1 = Ok b1 -> size0 t2 = Ok b2 ->
                             size0 t = Ok (b1 + b2)%nat.
Proof.
  unfold conditional_cat.
  destruct (cat t1 t2) as [t|] eqn:Ecat; [|discriminate].
  cbn [bind]. intros [= <-]. exists t.
  split; [reflexivity|]. split; [reflexivity|].
  unfold cat in Ecat. unfold size0.
  destruct (shape t1) as [|n s]; [discriminate|].
  destruct (shape t2) as [|m s']; [discriminate|].
  destruct (shape_eqb s s').
  { injection Ecat as <-. cbn [shape data]. split; [reflexivity|].
    intros b1 b2 [= <-] [= <-]. reflexivity. }
  unfold shape_eqb in Ecat.
  destruct (list_eq_dec Nat.eq_dec (n :: s) [0%nat]) as [[= -> ->]|_].
  { injection Ecat as <-. cbn [shape data]. split; [reflexivity|].
    intros b1 b2 [= <-] [= <-]. reflexivity. }
  destruct (list_eq_dec Nat.eq_dec (m :: s') [0%nat]) as [[= -> ->]|_];
    [|discriminate].
  injection Ecat as <-. cbn [shape data]. split; [reflexivity|].
  intros b1 b2 [= <-] [= <-]. now rewrite Nat.add_0_r.
Qed.

(** C9.  The integer 0 is neutral: [0 + e], as the builtin [sum] computes
    it first, is [e] itself.  A merge that returns has, in every field that
    holds a tensor in both operands, the concatenation of the two along
    dimension 0, so its batch size is the sum of theirs; and a merge of
    experiences whose fields and entries [conditional_cat] accepts returns. *)
Theorem merge_concatenates_batches :
  (forall e,
     Experience_radd e (ObjInt 0) = Ok (Returns e)
     /\ plus (ObjInt 0) (ObjExperience e) = Ok (ObjExperience e)
     /\ ExperienceModel.sum [e] = Ok (ObjExperience e))
  /\ (forall e1 e2 e,
        Experience_add e1 (ObjExperience e2) = Ok (Returns e) ->
        forall f t1 t2,
          getattr e1 f = PyTensor t1 -> getattr e2 f = PyTensor t2 ->
          exists t,
            getattr e f = PyTensor t /\ data t = data t1 ++ data t2
            /\ forall b1 b2, size0 t1 = Ok b1 -> size0 t2 = Ok b2 ->
                             size0 t = Ok (b1 + b2)%nat)
  /\ (forall e1 e2 d1 d2,
        visual_inputs e1 = Some d1 -> visual_inputs e2 = Some d2 ->
        (forall f, combinable (getattr e1 f) (getattr e2 f)) ->
        entries_combinable (info e1) (info e2) ->
        entries_combinable d1 d2 ->
        exists e, Experience_add e1 (ObjExperience e2) = Ok (Returns e)).
Proof.
  split; [|split].
  - intros e. repeat split; reflexivity.
  - intros e1 e2 e Hadd f t1 t2 H1 H2.
    destruct (Experience_add_inv _ _ _ Hadd) as [_ Hfields].
    specialize (Hfields f). rewrite H1, H2 in Hfields.
    destruct (conditional_cat_tensors _ _ _ Hfields) as (t & Ht & _ & Hd & Hs).
    exists t. auto.
  - intros e1 e2 d1 d2 Hv1 Hv2 Hf Hi Hd. unfold Experience_add.
    destruct (cat_dicts_ok _ _ Hi) as [i ->]. cbn [bind].
    rewrite Hv1, Hv2. destruct (cat_dicts_ok _ _ Hd) as [v ->]. cbn [bind].
    repeat match goal with
           | |- context [conditional_cat (?proj e1) (?proj e2)] =>
               let H := fresh in
               first
                 [ destruct (Hf Fsequences) as [? H]; cbn [getattr] in H;
                   rewrite H
                 | destruct (Hf Faction_log_probs) as [? H]; cbn [getattr] in H;
                   rewrite H
                 | destruct (Hf Fvalues) as [? H]; cbn [getattr] in H; rewrite H
                 | destruct (Hf Freturns) as [? H]; cbn [getattr] in H;
                   rewrite H
                 | destruct (Hf Fadvantages) as [? H]; cbn [getattr] in H;
                   rewrite H
                 | destruct (Hf Fattention_mask) as [? H]; cbn [getattr] in H;
                   rewrite H
                 | destruct (Hf Faction_mask) as [? H]; cbn [getattr] in H;
                   rewrite H
                 | destruct (Hf Fkl) as [? H]; cbn [getattr] in H; rewrite H
                 | destruct (Hf Fref_log_probs) as [? H]; cbn [getattr] in H;
                   rewrite H ];
               cbn [bind]; clear H
           end.
    eauto.
Qed.

(** Batch size 2 merged with batch size 3 gives batch size 5, in every
    tensor field. *)
Lemma merge_concatenates_batches_witness :
  Experience_add batch_of_two (ObjExperience batch_of_three)
  = Ok (Returns merged_batch)
  /\ forall f t1 t2,
       getattr batch_of_two f = PyTensor t1 ->
       getattr batch_of_three f = PyTensor t2 ->
       size0 t1 = Ok 2%nat /\ size0 t2 = Ok 3%nat
       /\ exists t, getattr merged_batch f = PyTensor t /\ size0 t = Ok 5%nat.
Proof.
  assert (Hadd : Experience_add batch_of_two (ObjExperience batch_of_three)
                 = Ok (Returns merged_batch)) by (vm_compute; reflexivity).
  split; [exact Hadd|]. intros f t1 t2 H1 H2.
  assert (Hs : size0 t1 = Ok 2%nat /\ size0 t2 = Ok 3%nat).
  { destruct f; cbn in H1, H2; try discriminate;
      injection H1 as <-; injection H2 as <-; split; reflexivity. }
  split; [apply Hs|]. split; [apply Hs|].
  destruct (proj1 (proj2 merge_concatenates_batches) _ _ _ Hadd f t1 t2 H1 H2)
    as (t & Ht & _ & Hsize).
  exists t. split; [exact Ht|]. apply (Hsize 2%nat 3%nat); apply Hs.
Defined.

(** C10.  An [info] entry present in both operands whose left value is
    neither [None] nor a tensor is combined with Python's [+]: integers and
    floats are added (a shared scalar [A] becomes [2 * A]) and lists are
    concatenated; tensor entries are concatenated along dimension 0. *)
Theorem merge_info_uses_python_plus :
  forall e1 e2 e k,
    Experience_add e1 (ObjExperience e2) = Ok (Returns e) ->
    (forall a b,
       lookup (info e1) k = Some a -> lookup (info e2) k = Some b ->
       a <> PyNone -> b <> PyNone -> ~ is_tensor a ->
       exists v, py_add a b = Ok v /\ lookup (info e) k = Some v)
    /\ (forall a b,
          lookup (info e1) k = Some (PyInt a) ->
          lookup (info e2) k = Some (PyInt b) ->
          lookup (info e) k = Some (PyInt (a + b)))
    /\ (forall a,
          lookup (info e1) k = Some (PyInt a) ->
          lookup (info e2) k = Some (PyInt a) ->
          lookup (info e) k = Some (PyInt (2 * a)))
    /\ (forall a b,
          lookup (info e1) k = Some (PyFloat a) ->
          lookup (info e2) k = Some (PyFloat b) ->
          lookup (info e) k = Some (PyFloat (a + b)))
    /\ (forall a b,
          lookup (info e1) k = Some (PyList a) ->
          lookup (info e2) k = Some (PyList b) ->
          lookup (info e) k = Some (PyList (a ++ b)))
    /\ (forall t1 t2,
          lookup (info e1) k = Some (PyTensor t1) ->
          lookup (info e2) k = Some (PyTensor t2) ->
          exists t, lookup (info e) k = Some (PyTensor t)
                    /\ cat t1 t2 = Ok t /\ data t = data t1 ++ data t2).
Proof.
  intros e1 e2 e k Hadd.
  destruct (Experience_add_inv _ _ _ Hadd) as [Hinfo _].
  assert (Hk : forall a b,
            lookup (info e1) k = Some a -> lookup (info e2) k = Some b ->
            exists v, conditional_cat a b = Ok v /\ lookup (info e) k = Some v).
  { intros a b Ha Hb. pose proof (cat_dicts_lookup _ _ _ Hinfo k) as Hl.
    rewrite Ha in Hl. destruct Hl as (b' & v & Hb' & Hv & Hout).
    unfold getitem in Hb'. rewrite Hb in Hb'. injection Hb' as <-. eauto. }
  repeat split.
  - intros a b Ha Hb Hna Hnb Hnt. destruct (Hk a b Ha Hb) as (v & Hv & Hout).
    exists v. split; [|exact Hout]. rewrite <- Hv.
    destruct a; try congruence; try (exfalso; apply Hnt; eexists; reflexivity);
      destruct b; try congruence; reflexivity.
  - intros a b Ha Hb. destruct (Hk _ _ Ha Hb) as (v & Hv & ->).
    cbn in Hv. congruence.
  - intros a Ha Hb. destruct (Hk _ _ Ha Hb) as (v & Hv & ->).
    cbn in Hv. injection Hv as <-. do 2 f_equal. lia.
  - intros a b Ha Hb. destruct (Hk _ _ Ha Hb) as (v & Hv & ->).
    cbn in Hv. congruence.
  - intros a b Ha Hb. destruct (Hk _ _ Ha Hb) as (v & Hv & ->).
    cbn in Hv. congruence.
  - intros t1 t2 Ha Hb. destruct (Hk _ _ Ha Hb) as (v & Hv & ->).
    destruct (conditional_cat_tensors _ _ _ Hv) as (t & -> & Hc & Hd & _).
    exists t. auto.
Qed.

(** The shared [num_actions = 3] of two batches becomes 6 in their merge,
    and their [dump/rewards] lists are concatenated. *)
Lemma merge_info_uses_python_plus_witness :
  Experience_add batch_of_two (ObjExperience batch_of_three)
  = Ok (Returns merged_batch)
  /\ lookup (info merged_batch) "num_actions"%string = Some (PyInt (2 * 3)).
Proof.
  assert (Hadd : Experience_add batch_of_two (ObjExperience batch_of_three)
                 = Ok (Returns merged_batch)) by (vm_compute; reflexivity).
  split; [exact Hadd|].
  apply (proj1 (proj2 (proj2
           (merge_info_uses_python_plus _ _ _ "num_actions"%string Hadd))));
    reflexivity.
Defined.

End MergeProofs.

(** ** The request aggregator *)

Module AggregatorProofs.

Import DictFacts VllmEngine AggregatorSpec.

Section Proofs.

Variables (prompt output : Type).
Variable llm_generate : list prompt -> list output.


Lemma lookup_not_In (d : dict Z (list prompt)) k :
  ~ In k (keys d) -> lookup d k = None.
Proof.
  intros Hn. destruct (lookup d k) eqn:E; [|reflexivity].
  exfalso. apply Hn. apply lookup_In_keys. congruence.
Qed.

(** Distinct producers fill a round: the last registration dispatches. *)
Lemma register_round : forall rest done (self : LLMRayActor prompt output),
  requests self = done ->
  actor_counter self = Z.of_nat (length done) ->
  num_actors self = Z.of_nat (length done + length rest) ->
  NoDup (map fst (done ++ rest)) -> rest <> [] ->
  register_all llm_generate self rest
  = Return tt (dispatched llm_generate self (done ++ rest)).
Proof.
  induction rest as [|[r p] rest IH]; intros done self Hreq Hc Hn Hnd Hne;
    [congruence|].
  cbn [VllmEngine.register_all]. unfold VllmEngine.add_requests.
  assert (Hr : ~ In r (keys done)).
  { rewrite map_app in Hnd. cbn [map fst] in Hnd.
    apply NoDup_remove_2 in Hnd. intros Hin. apply Hnd.
    apply in_or_app. now left. }
  rewrite Hreq, (keys_setitem_new done r p (lookup_not_In done r Hr)).
  rewrite Hc, Hn. cbn [length] in *.
  rewrite length_app. cbn [length].
  destruct rest as [|c rest]; cbn [length] in *.
  - repeat match goal with
           | |- context [(?a =? ?b)%Z] => destruct (Z.eqb_spec a b); [|lia]
           end.
    cbn [negb VllmEngine.register_all].
    unfold dispatched, combined_result, combined, sizes. rewrite Hn.
    destruct (0 <? length (concat (map snd (done ++ [(r, p)]))))%nat;
      reflexivity.
  - match goal with
    | |- context [(?a =? ?b)%Z] => destruct (Z.eqb_spec a b); [lia|]
    end.
    rewrite (IH (done ++ [(r, p)])); cbn [requests actor_counter num_actors].
    + unfold dispatched. cbn [num_actors generate_calls].
      now rewrite <- app_assoc, Hn.
    + reflexivity.
    + rewrite length_app. cbn [length]. lia.
    + rewrite length_app. cbn [length]. f_equal. lia.
    + now rewrite <- app_assoc.
    + discriminate.
Qed.

Lemma lookup_not_In_out (d : dict Z (list output)) k :
  ~ In k (keys d) -> lookup d k = None.
Proof.
  intros Hn. destruct (lookup d k) eqn:E; [|reflexivity].
  exfalso. apply Hn. apply lookup_In_keys. congruence.
Qed.

(** With distinct ranks the loop over [num_requests] stores the consecutive
    slices, in the order of the list. *)
Lemma slice_loop (responses : list output) : forall num_requests offset acc,
  NoDup (keys acc ++ map fst num_requests) ->
  snd (fold_left
         (fun '(offset, self_responses) '(actor_rank, num) =>
            ((offset + num)%nat,
             setitem self_responses actor_rank
               (firstn num (skipn offset responses))))
         num_requests (offset, acc))
  = acc ++ slices offset num_requests responses.
Proof.
  induction num_requests as [|[r n] nr IH]; intros offset acc Hnd;
    cbn [fold_left slices].
  - now rewrite app_nil_r.
  - rewrite IH.
    + rewrite keys_setitem_new.
      * now rewrite <- app_assoc.
      * apply lookup_not_In_out. apply NoDup_remove_2 in Hnd.
        intros Hin. apply Hnd. apply in_or_app. now left.
    + rewrite keys_setitem_new.
      * unfold keys in *. rewrite map_app, <- app_assoc. exact Hnd.
      * apply lookup_not_In_out. apply NoDup_remove_2 in Hnd.
        intros Hin. apply Hnd. apply in_or_app. now left.
Qed.

Lemma slice_responses_slices num_requests (responses : list output) :
  NoDup (map fst num_requests) ->
  slice_responses num_requests responses = slices 0 num_requests responses.
Proof. intros Hnd. unfold slice_responses. now rewrite slice_loop. Qed.

Lemma keys_slices (responses : list output) : forall num_requests offset,
  keys (slices offset num_requests responses) = map fst num_requests.
Proof.
  induction num_requests as [|[r n] nr IH]; intros offset; cbn; [reflexivity|].
  f_equal. apply IH.
Qed.

Lemma firstn_firstn_skipn {A : Type} (n m : nat) (l : list A) :
  firstn n l ++ firstn m (skipn n l) = firstn (n + m) l.
Proof.
  revert l; induction n as [|n IH]; intros [|a l]; cbn; auto.
  - now rewrite firstn_nil.
  - now rewrite IH.
Qed.

(** The slices put end to end are the responses up to the total size. *)
Lemma concat_slices (responses : list output) : forall num_requests offset,
  concat (map snd (slices offset num_requests responses))
  = firstn (list_sum (map snd num_requests)) (skipn offset responses).
Proof.
  induction num_requests as [|[r n] nr IH]; intros offset; cbn; [reflexivity|].
  rewrite IH, <- firstn_firstn_skipn, skipn_skipn. do 3 f_equal. lia.
Qed.

Lemma list_sum_sizes (calls : list (Z * list prompt)) :
  list_sum (map snd (sizes calls)) = length (combined calls).
Proof.
  unfold sizes, combined.
  induction calls as [|[r p] calls IH]; cbn [map snd list_sum concat];
    [reflexivity|].
  rewrite length_app. change (list_sum (?a :: ?l)) with (a + list_sum l)%nat.
  now rewrite IH.
Qed.

(** Each slice has the size of its request when the responses are as many as
    the requests. *)
Lemma slices_sizes (responses : list output) : forall calls offset,
  (offset + length (combined calls) <= length responses)%nat ->
  Forall2 (fun (call : Z * list prompt) (s : Z * list output) =>
             fst s = fst call /\ length (snd s) = length (snd call))
    calls (slices offset (sizes calls) responses).
Proof.
  induction calls as [|[r p] calls IH]; intros offset Hlen; cbn; constructor.
  - cbn. split; [reflexivity|]. rewrite length_firstn, length_skipn.
    unfold combined in Hlen. cbn in Hlen. rewrite length_app in Hlen. lia.
  - apply IH. unfold combined in *. cbn in Hlen.
    rewrite length_app in Hlen. lia.
Qed.

(** Collecting in the order of the response map returns its values. *)
Lemma collect_all_keys :
  forall (d : dict Z (list output)) (self : LLMRayActor prompt output),
  responses self = Some d ->
  collect_all self (keys d) = Some (map snd d).
Proof.
  unfold keys.
  induction d as [|[r v] d IH]; intros self Hd; cbn; [reflexivity|].
  unfold get_responses, pop. rewrite Hd. cbn [lookup]. rewrite key_eqb_refl.
  cbn [remove]. rewrite key_eqb_refl.
  match goal with
  | |- context [collect_all ?s _] => now rewrite (IH s eq_refl)
  end.
Qed.

Lemma lookup_In_NoDup (d : dict Z (list output)) r v :
  NoDup (keys d) -> In (r, v) d -> lookup d r = Some v.
Proof.
  induction d as [|[r0 v0] d IH]; intros Hnd Hin; [destruct Hin|].
  unfold keys in Hnd. cbn [map fst] in Hnd. cbn [lookup].
  inversion Hnd as [|? ? Hr0 Hnd']; subst.
  destruct Hin as [[= -> ->]|Hin].
  - now rewrite key_eqb_refl.
  - rewrite key_eqb_neq; [now apply IH|].
    intros ->. apply Hr0. change r0 with (fst (r0, v)).
    now apply in_map.
Qed.

Lemma Forall2_map_r_In {A B C : Type} (P : A -> B -> Prop) (Q : A -> C -> Prop)
    (f : B -> C) l l' :
  Forall2 P l l' -> (forall a b, In b l' -> P a b -> Q a (f b)) ->
  Forall2 Q l (map f l').
Proof.
  induction 1 as [|a b l l' Hab _ IH]; intros HPQ; cbn; constructor.
  - apply HPQ; [now left|exact Hab].
  - apply IH. intros a' b' Hin. apply HPQ. now right.
Qed.

Lemma fst_sizes (calls : list (Z * list prompt)) :
  map fst (sizes calls) = map fst calls.
Proof.
  unfold sizes. rewrite map_map. apply map_ext. now intros [r p].
Qed.

(** C4, as the code has it.  In a round that starts with nothing pending,
    when the [N] expected producers, all distinct, have registered, the
    last registration concatenates the pending requests in the order of
    registration and issues one generation call on the combined request, or
    none when it is empty; the actor is then ready for the next round, and
    [get_responses] returns to every producer a slice as long as its own
    request, the slices in the order of registration making up the whole
    result (the engine answering every request). *)
Theorem aggregation_round_in_registration_order :
  forall (self : LLMRayActor prompt output) (calls : list (Z * list prompt)),
    round_start self ->
    calls <> [] ->
    num_actors self = Z.of_nat (length calls) ->
    NoDup (map fst calls) ->
    length (llm_generate (combined calls)) = length (combined calls) ->
    exists self' outs,
      register_all llm_generate self calls = Return tt self'
      /\ round_start self'
      /\ generate_calls self'
         = generate_calls self
           ++ (if (0 <? length (combined calls))%nat then [combined calls]
               else [])
      /\ collect_all self' (map fst calls) = Some outs
      /\ concat outs = combined_result llm_generate calls
      /\ Forall2
           (fun call out =>
              length out = length (snd call)
              /\ exists self'',
                   get_responses self' (fst call) = Return out self'')
           calls outs.
Proof.
  intros self calls [Hc Hreq] Hne Hn Hnd Hgen.
  set (result := combined_result llm_generate calls).
  assert (Hres : length result = length (combined calls)).
  { unfold result, combined_result.
    destruct (Nat.ltb_spec 0 (length (combined calls))); [exact Hgen|].
    cbn. lia. }
  assert (Hslices : slice_responses (sizes calls) result
                    = slices 0 (sizes calls) result).
  { apply slice_responses_slices. now rewrite fst_sizes. }
  exists (dispatched llm_generate self calls),
         (map snd (slices 0 (sizes calls) result)).
  split; [|split; [|split; [|split; [|split]]]].
  - apply (register_round calls [] self); auto.
  - split; reflexivity.
  - unfold dispatched. cbn [generate_calls].
    destruct (0 <? length (combined calls))%nat; [reflexivity|].
    now rewrite app_nil_r.
  - rewrite <- fst_sizes, <- (keys_slices result (sizes calls) 0).
    apply collect_all_keys. unfold dispatched. cbn [responses]. fold result.
    now rewrite Hslices.
  - rewrite concat_slices, list_sum_sizes, skipn_O.
    apply firstn_all2. lia.
  - apply Forall2_map_r_In
      with (P := fun (call : Z * list prompt) (s : Z * list output) =>
                   fst s = fst call /\ length (snd s) = length (snd call)).
    + apply slices_sizes. lia.
    + intros call [r out] Hin [Hfst Hlen]. cbn [fst snd] in *. subst r.
      split; [exact Hlen|]. unfold get_responses, pop, dispatched.
      cbn [responses].
      fold result. rewrite Hslices.
      rewrite (lookup_In_NoDup _ (fst call) out).
      * eexists. reflexivity.
      * rewrite keys_slices, fst_sizes. exact Hnd.
      * exact Hin.
Qed.

(** A round in which a producer registers twice never dispatches: the
    registration that completes the count fails the assertion. *)
Lemma register_duplicates : forall rest (done : list Z)
    (self : LLMRayActor prompt output),
  NoDup (keys (requests self)) ->
  (forall r, In r done <-> In r (keys (requests self))) ->
  actor_counter self = Z.of_nat (length done) ->
  num_actors self = Z.of_nat (length done + length rest) ->
  rest <> [] -> ~ NoDup (done ++ map fst rest) ->
  exists self',
    register_all llm_generate self rest
    = Throw (AssertionError EmptyString) self'
    /\ generate_calls self' = generate_calls self
    /\ responses self' = responses self.
Proof.
  induction rest as [|[r p] rest IH]; intros done self Hnd Hkeys Hc Hn Hne Hdup;
    [congruence|].
  cbn [VllmEngine.register_all]. unfold VllmEngine.add_requests.
  set (requests1 := setitem (requests self) r p).
  assert (Hnd1 : NoDup (keys requests1)
                 /\ forall r', In r' (done ++ [r]) <-> In r' (keys requests1)).
  { unfold requests1. destruct (lookup (requests self) r) eqn:El.
    - rewrite keys_setitem_present by congruence. split; [exact Hnd|].
      intros r'. rewrite in_app_iff, Hkeys. cbn. split; [|tauto].
      intros [H|[<-|[]]]; [exact H|]. apply lookup_In_keys. congruence.
    - rewrite (keys_setitem_absent _ _ _ El). split.
      + apply NoDup_app; [exact Hnd|repeat constructor; intros []|].
        intros x Hx [<-|[]]. apply lookup_In_keys in Hx. congruence.
      + intros r'. rewrite !in_app_iff, Hkeys. tauto. }
  destruct Hnd1 as [Hnd1 Hkeys1].
  assert (Hlen1 : length requests1 = length (keys requests1))
    by (unfold keys; now rewrite length_map).
  rewrite Hc, Hn. cbn [length map fst] in *.
  destruct rest as [|c rest]; cbn [length map] in *.
  - match goal with
    | |- context [(?a =? ?b)%Z] => destruct (Z.eqb_spec a b); [|lia]
    end.
    assert (Hlt : (length (keys requests1) < length (done ++ [r]))%nat).
    { destruct (Nat.lt_ge_cases (length (keys requests1))
                  (length (done ++ [r])))
        as [Hlt|Hge]; [exact Hlt|].
      exfalso. apply Hdup.
      apply (NoDup_incl_NoDup Hnd1 Hge). intros x Hx. now apply Hkeys1. }
    rewrite length_app in Hlt. cbn [length] in Hlt.
    match goal with
    | |- context [(?a =? ?b)%Z] => destruct (Z.eqb_spec a b); [lia|]
    end.
    cbn [negb]. eexists. split; [reflexivity|]. split; reflexivity.
  - match goal with
    | |- context [(?a =? ?b)%Z] => destruct (Z.eqb_spec a b); [lia|]
    end.
    match goal with
    | |- context [VllmEngine.register_all _ ?s _] =>
        destruct (IH (done ++ [r]) s) as (self' & Hrun & Hcalls & Hresp)
    end; cbn [requests actor_counter num_actors generate_calls responses].
    + exact Hnd1.
    + exact Hkeys1.
    + rewrite length_app. cbn [length]. lia.
    + rewrite length_app. cbn [length]. f_equal. lia.
    + discriminate.
    + now rewrite <- app_assoc.
    + exists self'. auto.
Qed.

(** C5, as the code has it.  The violation the code checks is a count that
    is complete while the request map holds fewer producers: a round in
    which a producer registers twice fails the assertion at the registration
    that completes the count, and no generation call is issued.  A
    registration that does not complete the count passes no check and
    returns normally; a duplicate one replaces the pending request and adds
    no producer.  A registration in a state where nothing is
    pending, as after a dispatch, always returns: there is no check for more
    registrations than expected.  [get_responses] raises before the first
    dispatch and for a rank that has no slice, as for a rank that did not
    register in the dispatched round. *)
Theorem protocol_violations_as_checked :
  (forall (self : LLMRayActor prompt output) calls,
     round_start self -> calls <> [] ->
     num_actors self = Z.of_nat (length calls) ->
     ~ NoDup (map fst calls) ->
     exists self',
       register_all llm_generate self calls
       = Throw (AssertionError EmptyString) self'
       /\ generate_calls self' = generate_calls self
       /\ responses self' = responses self)
  /\ (forall (self : LLMRayActor prompt output) rank payload,
        (actor_counter self + 1)%Z <> num_actors self ->
        exists self',
          add_requests llm_generate self rank payload = Return tt self'
          /\ lookup (requests self') rank = Some payload
          /\ (lookup (requests self) rank <> None ->
              keys (requests self') = keys (requests self))
          /\ actor_counter self' = (actor_counter self + 1)%Z
          /\ generate_calls self' = generate_calls self)
  /\ (forall (self : LLMRayActor prompt output) rank payload,
        round_start self ->
        exists self',
          add_requests llm_generate self rank payload = Return tt self')
  /\ (forall (self : LLMRayActor prompt output) rank,
        (responses self = None ->
         get_responses self rank = Throw AttributeError self)
        /\ (forall d, responses self = Some d -> lookup d rank = None ->
                      get_responses self rank = Throw KeyError self))
  /\ (forall (self : LLMRayActor prompt output) calls rank,
        round_start self -> calls <> [] ->
        num_actors self = Z.of_nat (length calls) ->
        NoDup (map fst calls) -> ~ In rank (map fst calls) ->
        exists self',
          register_all llm_generate self calls = Return tt self'
          /\ get_responses self' rank = Throw KeyError self').
Proof.
  split; [|split; [|split; [|split]]].
  - intros self calls [Hc Hreq] Hne Hn Hdup.
    apply (register_duplicates calls [] self); auto.
    + rewrite Hreq. constructor.
    + intros r. rewrite Hreq. reflexivity.
  - intros self rank payload Hcount. unfold VllmEngine.add_requests.
    destruct (Z.eqb_spec (actor_counter self + 1) (num_actors self));
      [contradiction|].
    eexists. split; [reflexivity|].
    cbn [requests actor_counter generate_calls].
    split; [|split; [|split; reflexivity]].
    + rewrite lookup_setitem. now rewrite key_eqb_refl.
    + apply keys_setitem_present.
  - intros self rank payload [Hc Hreq]. unfold VllmEngine.add_requests.
    rewrite Hc, Hreq. cbn [setitem length].
    destruct (0 + 1 =? num_actors self)%Z eqn:E1; [|eauto].
    apply Z.eqb_eq in E1. rewrite <- E1. cbn [Z.of_nat Z.add Z.eqb negb Pos.eqb
      Pos.of_succ_nat].
    destruct (0 <? length (concat (map snd [(rank, payload)])))%nat; eauto.
  - intros self rank. split.
    + intros Hnone. unfold get_responses. now rewrite Hnone.
    + intros d Hd Hl. unfold get_responses, pop. now rewrite Hd, Hl.
  - intros self calls rank [Hc Hreq] Hne Hn Hnd Hnot.
    exists (dispatched llm_generate self calls). split.
    + apply (register_round calls [] self); auto.
    + unfold get_responses, pop, dispatched. cbn [responses].
      rewrite slice_responses_slices by now rewrite fst_sizes.
      rewrite lookup_not_In_out; [reflexivity|].
      now rewrite keys_slices, fst_sizes.
Qed.

End Proofs.

(** The round of two producers, rank 1 registering before rank 0. *)
Lemma aggregation_round_in_registration_order_witness :
  exists self' outs,
    register_all echo (init nat nat 2) [(1%Z, [7%nat]); (0%Z, [8%nat])]
    = Return tt self'
    /\ generate_calls self' = [[7%nat; 8%nat]]
    /\ collect_all self' [1%Z; 0%Z] = Some outs
    /\ concat outs = echo [7%nat; 8%nat].
Proof.
  destruct (aggregation_round_in_registration_order nat nat echo
              (init nat nat 2) [(1%Z, [7%nat]); (0%Z, [8%nat])])
    as (self' & outs & Hrun & _ & Hcalls & Hcollect & Hconcat & _).
  - split; reflexivity.
  - discriminate.
  - reflexivity.
  - repeat constructor; cbn; intuition discriminate.
  - reflexivity.
  - exists self', outs. auto.
Defined.

(** C4 as stated fails twice.  Rank 1 registers before rank 0: the combined
    request is not in increasing rank order, and the slices collected in
    increasing rank order do not make up the result.  And when the only
    request is empty, no generation call is issued. *)
Lemma aggregation_in_rank_order_counterexample :
  (let self' :=
     state_of (register_all echo (init nat nat 2)
                 [(1%Z, [7%nat]); (0%Z, [8%nat])]) in
   generate_calls self' = [[7%nat; 8%nat]]
   /\ generate_calls self' <> [[8%nat; 7%nat]]
   /\ collect_all self' [0%Z; 1%Z] = Some [[108%nat]; [107%nat]]
   /\ concat [[108%nat]; [107%nat]] <> echo [7%nat; 8%nat])
  /\ (let self' := state_of (register_all echo (init nat nat 1) [(0%Z, [])]) in
      round_start self' /\ responses self' = Some [(0%Z, [])]
      /\ generate_calls self' = []).
Proof.
  cbv zeta. repeat split; try reflexivity; discriminate.
Qed.

(** C5 as stated fails.  With three producers expected, rank 0 registers
    twice: the second registration returns, and the first request is gone.
    With one producer expected, a second registration is served as a round
    of its own. *)
Lemma duplicate_registration_is_absorbed :
  (exists self',
     register_all echo (init nat nat 3) [(0%Z, [7%nat]); (0%Z, [8%nat])]
     = Return tt self'
     /\ requests self' = [(0%Z, [8%nat])]
     /\ actor_counter self' = 2%Z)
  /\ (exists self',
        register_all echo (init nat nat 1) [(0%Z, [7%nat]); (1%Z, [8%nat])]
        = Return tt self'
        /\ generate_calls self' = [[7%nat]; [8%nat]]).
Proof.
  split; eexists; (split; [reflexivity|]); split; reflexivity.
Qed.

(** A round of three in which rank 0 registers twice fails the assertion at
    the third registration; [get_responses] before any dispatch, and for a
    rank that did not register in the dispatched round. *)
Lemma protocol_violations_as_checked_witness :
  (exists self',
     register_all echo (init nat nat 3)
       [(0%Z, [7%nat]); (0%Z, [8%nat]); (1%Z, [9%nat])]
     = Throw (AssertionError EmptyString) self'
     /\ generate_calls self' = []
     /\ responses self' = None)
  /\ get_responses (init nat nat 2) 0%Z
     = Throw AttributeError (init nat nat 2)
  /\ (exists self',
        register_all echo (init nat nat 2) [(1%Z, [7%nat]); (0%Z, [8%nat])]
        = Return tt self'
        /\ get_responses self' 5%Z = Throw KeyError self').
Proof.
  pose proof (protocol_violations_as_checked nat nat echo)
    as (Hdup & _ & _ & Hcollect & Hmissing).
  split; [|split].
  - apply (Hdup (init nat nat 3)
             [(0%Z, [7%nat]); (0%Z, [8%nat]); (1%Z, [9%nat])]).
    + split; reflexivity.
    + discriminate.
    + reflexivity.
    + cbn [map fst]. intros Hnd. inversion Hnd as [|x l Hnotin _].
      apply Hnotin. left. reflexivity.
  - apply (proj1 (Hcollect (init nat nat 2) 0%Z)). reflexivity.
  - apply (Hmissing (init nat nat 2) [(1%Z, [7%nat]); (0%Z, [8%nat])] 5%Z).
    + split; reflexivity.
    + discriminate.
    + reflexivity.
    + repeat constructor; cbn; intuition discriminate.
    + cbn. intuition discriminate.
Defined.

Example duplicate_round_fails :
  exists self',
    register_all echo (init nat nat 3)
      [(0%Z, [7%nat]); (0%Z, [8%nat]); (1%Z, [9%nat])]
    = Throw (AssertionError EmptyString) self'
    /\ generate_calls self' = [].
Proof. eexists. split; reflexivity. Qed.

Example collect_before_dispatch :
  get_responses (init nat nat 2) 0%Z = Throw AttributeError (init nat nat 2).
Proof. reflexivity. Qed.

End AggregatorProofs.

(** ** Group normalization *)

Module GroupNormProofs.

Import ListFacts ChunkFacts DictFacts ExperienceModel RolloutCollector.
Import CollectorSpec GroupNormSpec RlooProofs ExperienceProofs.

Lemma zip_with_map_map {A B C D : Type} (h : B -> C -> D) (f : A -> B)
    (g : A -> C) (l : list A) :
  zip_with h (map f l) (map g l) = map (fun x => h (f x) (g x)) l.
Proof. induction l as [|a l IH]; simpl; congruence. Qed.

Lemma length_concat_map_map {A B : Type} (f : A -> B) (ls : list (list A)) :
  length (concat (map (map f) ls)) = length (concat ls).
Proof.
  induction ls as [|l ls IH]; simpl; [reflexivity|].
  now rewrite !length_app, length_map, IH.
Qed.

Lemma Qsum_shift (m d : Q) (row : list Q) :
  Qsum (map (fun x => (x - m) / d) row)
  == (Qsum row - inject_Z (Z.of_nat (length row)) * m) / d.
Proof.
  induction row as [|x row IH].
  - cbn. unfold Qdiv. ring.
  - cbn [map Qsum fold_right length].
    fold (Qsum (map (fun x => (x - m) / d) row)).
    fold (Qsum row). rewrite IH, Nat2Z.inj_succ, <- Z.add_1_r, inject_Z_plus.
    unfold Qdiv. ring.
Qed.

(** The normalized rewards of a group sum to zero. *)
Lemma normalize_sum_zero (sqrt : Q -> Q) (row : list Q) :
  row <> [] -> Qsum (normalize sqrt row) == 0.
Proof.
  intros Hne. unfold normalize. rewrite Qsum_shift. unfold mean.
  assert (Hn : ~ inject_Z (Z.of_nat (length row)) == 0).
  { destruct row; [congruence|]. cbn [length].
    intros H. unfold Qeq in H. cbn in H. lia. }
  set (n := inject_Z (Z.of_nat (length row))) in *.
  assert (E : Qsum row - n * (Qsum row / n) == 0) by (field; exact Hn).
  rewrite E. unfold Qdiv. ring.
Qed.

(** A lookup below assignments to other keys. *)
Ltac lookup_past_setitem :=
  repeat (rewrite lookup_setitem;
          match goal with
          | |- context [key_eqb ?a ?b] =>
              let c := eval vm_compute in (String.eqb a b) in
              change (key_eqb a b) with c
          end; cbv iota).

Lemma reshape_groups_sizes reward n K groups :
  reshape_groups reward n K = Ok groups ->
  Forall (fun g => length g = Z.to_nat n) groups.
Proof.
  unfold reshape_groups.
  destruct ((0 <? Z.to_nat n * K)%nat && _)%bool; [|discriminate].
  intros [= <-]. apply Forall_map, Forall_forall. intros g _.
  apply chunks_length.
Qed.

(** *** The merge of the rewards *)

(** An entry that is a tensor in every micro-batch is, after [sum], the
    concatenation of these tensors in the order of the rollout. *)
Lemma sum_info_tensors (k : string) (s : list nat) :
  forall (rest : list Experience) (ts : list Tensor)
         (acc merged : Experience) (ta : Tensor) (ba : nat),
    for_each rest (fun acc e => plus acc (ObjExperience e))
      (ObjExperience acc) = Ok (ObjExperience merged) ->
    lookup (info acc) k = Some (PyTensor ta) -> shape ta = ba :: s ->
    Forall2 (fun e t => lookup (info e) k = Some (PyTensor t)
                        /\ exists b, shape t = b :: s) rest ts ->
    exists t,
      lookup (info merged) k = Some (PyTensor t)
      /\ data t = data ta ++ concat (map data ts)
      /\ shape t
         = (ba + list_sum (map (fun t => hd 0%nat (shape t)) ts))%nat :: s.
Proof.
  induction rest as [|e rest IH]; intros ts acc merged ta ba Hrun Ha Hsa Hts.
  - inversion Hts; subst. cbn in Hrun. injection Hrun as <-.
    exists ta. split; [exact Ha|]. cbn. rewrite app_nil_r, Nat.add_0_r.
    now split.
  - inversion Hts as [|? t1 ? ts' [He (b1 & Hs1)] Hrest]; subst.
    cbn [for_each plus] in Hrun.
    destruct (Experience_add acc (ObjExperience e)) as [[|acc']|] eqn:Eadd;
      cbn [bind] in Hrun; try discriminate.
    destruct (Experience_add_inv _ _ _ Eadd) as [Hinfo _].
    pose proof (cat_dicts_lookup _ _ _ Hinfo k) as Hk. rewrite Ha in Hk.
    destruct Hk as (b & v & Hb & Hv & Hout).
    unfold getitem in Hb. rewrite He in Hb. injection Hb as <-.
    unfold conditional_cat, cat in Hv. rewrite Hsa, Hs1 in Hv.
    unfold shape_eqb in Hv.
    destruct (list_eq_dec Nat.eq_dec s s); [|congruence].
    cbn [bind] in Hv. injection Hv as <-.
    destruct (IH ts' acc' merged _ (ba + b1)%nat Hrun Hout eq_refl Hrest)
      as (t & Ht & Hd & Hs).
    exists t. split; [exact Ht|]. cbn [data] in Hd. split.
    + rewrite Hd. cbn [map concat]. now rewrite app_assoc.
    + rewrite Hs. cbn [map]. rewrite Hs1. cbn [hd].
      change (list_sum (b1 :: ?l)) with (b1 + list_sum l)%nat.
      f_equal. lia.
Qed.

(** An entry that the first micro-batch lacks is not in the merge. *)
Lemma sum_info_absent (k : string) :
  forall (rest : list Experience) (acc merged : Experience),
    for_each rest (fun acc e => plus acc (ObjExperience e))
      (ObjExperience acc) = Ok (ObjExperience merged) ->
    lookup (info acc) k = None -> lookup (info merged) k = None.
Proof.
  induction rest as [|e rest IH]; intros acc merged Hrun Ha.
  - cbn in Hrun. now injection Hrun as <-.
  - cbn [for_each plus] in Hrun.
    destruct (Experience_add acc (ObjExperience e)) as [[|acc']|] eqn:Eadd;
      cbn [bind] in Hrun; try discriminate.
    destruct (Experience_add_inv _ _ _ Eadd) as [Hinfo _].
    pose proof (cat_dicts_lookup _ _ _ Hinfo k) as Hk. rewrite Ha in Hk.
    now apply (IH acc' merged).
Qed.

Lemma chunks_of_rows {A : Type} (n : nat) :
  forall (rs : list (list A)),
    Forall (fun r => length r = n) rs ->
    chunks n (length rs) (concat rs) = rs.
Proof.
  induction 1 as [|r rs Hr _ IH]; [reflexivity|].
  cbn [length chunks concat].
  rewrite firstn_app, <- Hr, Nat.sub_diag, firstn_all. cbn [firstn].
  rewrite app_nil_r, skipn_app, Nat.sub_diag, skipn_all. cbn [skipn app].
  rewrite Hr. now rewrite IH.
Qed.

(** The sizes of dimension 0 add up to the number of items. *)
Lemma batch_sizes_sum (K : nat) (experiences : list Experience)
    (rs ls : list Tensor) :
  Forall2 (scored K) experiences rs ->
  Forall2 (fun e l => lookup (info e) "response_length"%string
                      = Some (PyTensor l)
                      /\ exists b, shape l = b :: []) experiences ls ->
  (list_sum (map (fun l => hd 0%nat (shape l)) ls) * K)%nat
  = length (concat (map data rs))
  /\ list_sum (map (fun r => hd 0%nat (shape r)) rs)
     = list_sum (map (fun l => hd 0%nat (shape l)) ls).
Proof.
  intros Hrs. revert ls.
  induction Hrs as [|e r es rs' (Hr & b & l & Hsr & Hlen & Hl & Hsl) _ IH];
    intros ls Hls; inversion Hls as [|? l' ? ls' [Hl' _] Hls']; subst.
  - split; reflexivity.
  - rewrite Hl in Hl'. injection Hl' as <-.
    destruct (IH ls' Hls') as [IH1 IH2].
    cbn [map concat]. rewrite length_app, <- IH1, Hlen, Hsl, Hsr. cbn [hd].
    change (list_sum (b :: ?x)) with (b + list_sum x)%nat.
    split; [lia|]. now rewrite IH2.
Qed.

Lemma scored_lengths (K : nat) (experiences : list Experience)
    (rs : list Tensor) :
  Forall2 (scored K) experiences rs ->
  exists ls,
    Forall2 (fun e l => lookup (info e) "response_length"%string
                        = Some (PyTensor l)
                        /\ exists b, shape l = b :: []) experiences ls.
Proof.
  induction 1 as [|e r es rs' (Hr & b & l & Hsr & Hlen & Hl & Hsl) _ [ls IH]].
  - exists []. constructor.
  - exists (l :: ls). constructor; [|exact IH]. split; [exact Hl|]. eauto.
Qed.

Lemma scored_rewards (K : nat) (experiences : list Experience)
    (rs : list Tensor) :
  Forall2 (scored K) experiences rs ->
  Forall2 (fun e r => lookup (info e) "reward"%string = Some (PyTensor r)
                      /\ exists b, shape r = b :: [K]) experiences rs.
Proof.
  intros H. eapply Forall2_impl; [|exact H].
  intros e r (Hr & b & l & Hsr & _). split; [exact Hr|]. eauto.
Qed.

Lemma Forall2_map_is (f : Q -> Q) (l : list Q) :
  Forall2 (fun x y => y == f x) l (map f l).
Proof. induction l; cbn [map]; constructor; [reflexivity|assumption]. Qed.

(** C7, as the code has it.  Under the group_norm policy
    [process_experiences], when it returns, hands on one experience, the
    merge of all the micro-batches, and its reward, the rewards of the
    micro-batches put end to end in the order of the rollout.  On that
    reward, cut in groups of [n_samples_per_prompt] items, the shaped
    reward of an item is [(sum_of_components - mean) / (std + 1e-8)] with
    the mean of its group and its standard deviation [std], which is
    torch's default: the square root of the Bessel-corrected variance (the
    squared deviations over [n - 1], not over [n]); the shaped rewards of
    a group sum to 0.  The arithmetic is exact, and the square root is
    taken to be one to within [delta] on the square.  The micro-batches
    hold their rewards as tensors of sizes [b, K], with [K >= 2]
    components per sample, and their response lengths as vectors of [b]
    elements, they have no ["learn_mask"] entry, and their samples make
    [P] groups of [n = n_samples_per_prompt > 1]. *)
Theorem group_norm_shaping :
  forall (args : Args) (sqrt : Q -> Q) (delta : Q)
         (experiences experiences' : list Experience) (rewards : list pyval)
         (rs : list Tensor) (K P n : nat),
    advantage_estimator args = "group_norm"%string ->
    n_samples_per_prompt args = Z.of_nat n -> (1 < n)%nat -> (2 <= K)%nat ->
    process_experiences args experiences = Ok (experiences', rewards) ->
    Forall2 (scored K) experiences rs ->
    Forall (fun e => lookup (info e) "learn_mask"%string = None)
      experiences ->
    length (concat (map data rs)) = (P * (n * K))%nat ->
    Forall (fun g => root_within delta (sqrt (sample_variance g))
                       (sample_variance g))
      (group_sums K n P (concat (map data rs))) ->
    exists merged reward shaped info',
      experiences' = [merged] /\ rewards = [PyTensor reward]
      /\ data reward = concat (map data rs)
      /\ group_norm_reward args sqrt (PyTensor reward) (info merged)
         = Ok (PyTensor (vector shaped), info')
      /\ Forall2
           (fun g sh =>
              Qsum sh == 0
              /\ exists s,
                   root_within delta s (sample_variance g)
                   /\ Forall2 (fun x y => y == (x - mean g) / (s + eps)) g sh)
           (group_sums K n P (concat (map data rs))) (chunks n P shaped).
Proof.
  intros args sqrt delta experiences experiences' rewards rs K P n
    Hest Hn Hn1 HK Hrun Hrs Hmask Hlen Hsqrt.
  (* the merge *)
  unfold process_experiences in Hrun. rewrite Hest in Hrun.
  cbn [String.eqb Ascii.eqb Bool.eqb estimator_in existsb orb] in Hrun.
  destruct (ExperienceModel.sum experiences) as [[z|merged]|] eqn:Esum;
    cbn [bind] in Hrun; try discriminate.
  unfold getitem in Hrun.
  destruct (lookup (info merged) "reward"%string) as [reward_v|] eqn:Er;
    cbn [bind] in Hrun; [|discriminate].
  injection Hrun as <- <-.
  destruct (scored_lengths K experiences rs Hrs) as [ls Hls].
  destruct (batch_sizes_sum K experiences rs ls Hrs Hls) as [Hitems Hsame].
  pose proof (scored_rewards K experiences rs Hrs) as Hrs'.
  unfold ExperienceModel.sum in Esum.
  destruct experiences as [|e rest]; [discriminate|].
  inversion Hrs' as [|? r1 ? rs1 [He (b1 & Hs1)] Hrest]; subst.
  inversion Hls as [|? l1 ? ls1 [Hl (c1 & Hc1)] Hlrest]; subst.
  cbn [for_each plus Experience_radd bind] in Esum.
  destruct (sum_info_tensors "reward" [K] rest rs1 e merged r1 b1 Esum He Hs1
              Hrest) as (reward & Hreward & Hdata & Hshape).
  destruct (sum_info_tensors "response_length" [] rest ls1 e merged l1 c1
              Esum Hl Hc1 Hlrest) as (lens & Hlens & _ & Hlshape).
  pose proof (sum_info_absent "learn_mask" rest e merged Esum
                (Forall_inv Hmask)) as Hnomask.
  rewrite Hreward in Er. injection Er as <-.
  assert (Hflat : data reward = concat (map data (r1 :: rs1)))
    by exact Hdata.
  set (flat := concat (map data (r1 :: rs1))) in *.
  assert (Hitems' : (c1 + list_sum (map (fun l => hd 0%nat (shape l)) ls1))%nat
                    = (P * n)%nat).
  { cbn [map] in Hitems. rewrite Hc1 in Hitems. cbn [hd] in Hitems.
    change (list_sum (c1 :: ?x)) with (c1 + list_sum x)%nat in Hitems.
    fold flat in Hitems. rewrite Hlen in Hitems. nia. }
  (* the shaping *)
  set (groups := map (chunks K n) (chunks (n * K) P flat)).
  set (sums := map (map (item_sum K)) groups).
  assert (Hsums : sums = group_sums K n P flat).
  { unfold sums, groups, group_sums. now rewrite map_map. }
  assert (Hgroup_len : Forall (fun g => length g = n) groups).
  { apply Forall_map, Forall_forall. intros g _. apply chunks_length. }
  assert (Hsums_len : Forall (fun g => length g = n) sums).
  { apply Forall_map. eapply Forall_impl; [|exact Hgroup_len].
    intros g Hg. now rewrite length_map. }
  assert (Hitems_len : length (concat sums) = (P * n)%nat).
  { rewrite (length_concat_rows n) by exact Hsums_len.
    unfold sums, groups. now rewrite !length_map, chunks_length. }
  assert (Hrun : exists info',
            group_norm_reward args sqrt (PyTensor reward) (info merged)
            = Ok (flat1 (map (normalize sqrt) sums), info')).
  { unfold group_norm_reward. rewrite Hn.
    replace (Z.of_nat n >? 1)%Z with true
      by (symmetry; apply Z.gtb_lt; lia).
    cbn [negb as_tensor bind]. unfold size_last. rewrite Hshape.
    cbn [rev app bind]. unfold reshape_groups. rewrite Hflat, Hlen, Nat2Z.id.
    replace (0 <? n * K)%nat with true by (symmetry; apply Nat.ltb_lt; nia).
    rewrite Nat.Div0.mod_mul, Nat.div_mul by nia.
    cbn [Nat.eqb andb bind]. fold flat. fold groups. unfold component.
    replace (0 <? K)%nat with true by (symmetry; apply Nat.ltb_lt; lia).
    replace (1 <? K)%nat with true by (symmetry; apply Nat.ltb_lt; lia).
    cbn [bind].
    assert (Hrows :
      (if (3 <=? K)%nat
       then Some (zip_with (zip_with Qplus)
                    (zip_with (zip_with Qplus)
                       (map (map (fun item => nth 1 item 0)) groups)
                       (map (map (fun item => nth 0 item 0)) groups))
                    (map (map (fun item => nth 2 item 0)) groups))
       else Some (zip_with (zip_with Qplus)
                    (map (map (fun item => nth 1 item 0)) groups)
                    (map (map (fun item => nth 0 item 0)) groups)))
      = Some sums).
    { unfold sums, item_sum. destruct (3 <=? K)%nat; f_equal.
      - rewrite zip_with_map_map.
        rewrite (map_ext _ (map (fun item => nth 1 item 0 + nth 0 item 0)))
          by (intros g; apply zip_with_map_map).
        rewrite zip_with_map_map. apply map_ext. intros g.
        apply zip_with_map_map.
      - rewrite zip_with_map_map. apply map_ext. intros g.
        apply zip_with_map_map. }
    assert (Hmask_len :
      length (concat
                (map (map (fun x => if Qle_bool (-1) x then 1 else 0))
                   (map (map (fun item => nth 0 item 0)) groups)))
      = (P * n)%nat).
    { rewrite !length_concat_map_map.
      rewrite (length_concat_rows n) by exact Hgroup_len.
      unfold groups. now rewrite length_map, chunks_length. }
    destruct (Nat.leb_spec 3 K) as [H3|H3];
      [replace (2 <? K)%nat with true by (symmetry; apply Nat.ltb_lt; lia)|];
      cbn [bind];
      injection Hrows as Hrows; rewrite Hrows;
      cbn [bind]; unfold getitem; lookup_past_setitem; rewrite Hlens;
      cbn [bind as_tensor];
      unfold zero_unmasked; rewrite Hlshape, Hmask_len, Hitems';
      rewrite Nat.eqb_refl; cbn [bind];
      unfold div_last; cbn [shape rev app];
      match goal with
      | |- context [(?a =? length ?l)%nat] =>
          replace (length l) with a; [rewrite Nat.eqb_refl|]
      end;
      try (cbn [bind]; lookup_past_setitem; rewrite Hnomask;
           eexists; reflexivity);
      (rewrite (length_concat_rows n);
       [now rewrite !length_map; unfold groups;
            rewrite length_map, chunks_length|];
       do 3 apply Forall_map;
       eapply Forall_impl; [|exact Hgroup_len];
       intros g Hg; now rewrite repeat_length, !length_map). }
  destruct Hrun as [info' Hrun].
  exists merged, reward, (concat (map (normalize sqrt) sums)), info'.
  split; [reflexivity|]. split; [reflexivity|]. split; [exact Hflat|].
  split; [exact Hrun|].
  assert (Hnorm_len : Forall (fun g => length g = n)
                        (map (normalize sqrt) sums)).
  { apply Forall_map. eapply Forall_impl; [|exact Hsums_len].
    intros g Hg. unfold normalize. now rewrite length_map. }
  assert (HP : P = length (map (normalize sqrt) sums)).
  { unfold sums, groups. now rewrite !length_map, chunks_length. }
  rewrite HP at 2. rewrite (chunks_of_rows n) by exact Hnorm_len.
  rewrite <- Hsums. rewrite <- Hsums in Hsqrt.
  clear -Hsqrt Hsums_len Hn1.
  induction sums as [|g sums IH]; cbn [map]; constructor.
  - split.
    + apply normalize_sum_zero. pose proof (Forall_inv Hsums_len) as Hg.
      cbv beta in Hg. destruct g; [cbn in Hg; lia|discriminate].
    + exists (sqrt (sample_variance g)). split; [exact (Forall_inv Hsqrt)|].
      apply (Forall2_map_is
               (fun x => (x - mean g) / (sqrt (sample_variance g) + eps))).
  - apply IH; [exact (Forall_inv_tail Hsqrt)|exact (Forall_inv_tail Hsums_len)].
Qed.

(** The spec's example in two micro-batches: the group [1, 2, 3, 4] has
    mean 2.5, and its shaped rewards are taken with the standard deviation
    whose square is 5/3 to within 1e-5. *)
Lemma group_norm_shaping_witness :
  exists merged reward shaped info',
    process_experiences (args_of "group_norm" 4) [half_12; half_34]
    = Ok ([merged], [PyTensor reward])
    /\ data reward = [1; 0; 2; 0; 3; 0; 4; 0]
    /\ group_norm_reward (args_of "group_norm" 4) sqrt_approx
         (PyTensor reward) (info merged)
       = Ok (PyTensor (vector shaped), info')
    /\ Forall2
         (fun g sh =>
            Qsum sh == 0
            /\ exists s,
                 root_within (1 # 100000) s (sample_variance g)
                 /\ Forall2 (fun x y => y == (x - mean g) / (s + eps)) g sh)
         (group_sums 2 4 1 [1; 0; 2; 0; 3; 0; 4; 0]) (chunks 4 1 shaped)
    /\ map (fun g => Qred (mean g))
         (group_sums 2 4 1 [1; 0; 2; 0; 3; 0; 4; 0]) = [5 # 2]
    /\ map (fun g => Qred (sample_variance g))
         (group_sums 2 4 1 [1; 0; 2; 0; 3; 0; 4; 0]) = [5 # 3].
Proof.
  set (run := process_experiences (args_of "group_norm" 4)
                [half_12; half_34]).
  destruct run as [[experiences' rewards]|] eqn:Hrun; [|discriminate].
  destruct (group_norm_shaping (args_of "group_norm" 4) sqrt_approx
              (1 # 100000) [half_12; half_34] experiences' rewards
              [mkTensor [2; 2]%nat [1; 0; 2; 0];
               mkTensor [2; 2]%nat [3; 0; 4; 0]] 2 1 4)
    as (merged & reward & shaped & info' & -> & -> & Hdata & Hshaped & Hall).
  - reflexivity.
  - reflexivity.
  - lia.
  - lia.
  - exact Hrun.
  - repeat constructor;
      (eexists 2%nat, _; repeat split; reflexivity).
  - repeat constructor.
  - reflexivity.
  - repeat constructor; apply Qle_bool_iff; vm_compute; reflexivity.
  - exists merged, reward, shaped, info'.
    split; [reflexivity|]. split; [exact Hdata|]. split; [exact Hshaped|].
    split; [exact Hall|]. split; vm_compute; reflexivity.
Defined.

(** C7 with the population standard deviation fails: on the group
    [1, 2, 3, 4] the shaped reward of the last item is 1.5 over 1.290994
    (and 1e-8), where the population standard deviation is 1.118034; no
    root of the population variance 5/4, to within 1e-5 on the square,
    gives that reward. *)
Lemma group_norm_population_std_counterexample :
  exists shaped info',
    group_norm_reward (args_of "group_norm" 4) sqrt_approx
      (PyTensor (mkTensor [4; 2]%nat [1; 0; 2; 0; 3; 0; 4; 0]))
      (info group_1234)
    = Ok (PyTensor (vector shaped), info')
    /\ Qred (population_variance [1; 2; 3; 4]) = 5 # 4
    /\ root_within (1 # 100000) (sqrt_approx (sample_variance [1; 2; 3; 4]))
         (sample_variance [1; 2; 3; 4])
    /\ ~ exists p,
          root_within (1 # 100000) p (population_variance [1; 2; 3; 4])
          /\ nth 3 shaped 0 == (4 - mean [1; 2; 3; 4]) / (p + eps).
Proof.
  exists (normalize sqrt_approx [0 + 1; 0 + 2; 0 + 3; 0 + 4]). eexists.
  split; [vm_compute; reflexivity|].
  split; [vm_compute; reflexivity|].
  split; [repeat split; apply Qle_bool_iff; vm_compute; reflexivity|].
  intros (p & (Hp & _ & Hhi) & Heq).
  assert (Hval : nth 3 (normalize sqrt_approx [0 + 1; 0 + 2; 0 + 3; 0 + 4])
                   0 == 150000000 # 129099401)
    by (vm_compute; reflexivity).
  assert (Hx : 4 - mean [1; 2; 3; 4] == 3 # 2) by (vm_compute; reflexivity).
  assert (Hv : population_variance [1; 2; 3; 4] == 5 # 4)
    by (vm_compute; reflexivity).
  rewrite Hval, Hx in Heq. rewrite Hv in Hhi.
  assert (Hpos : ~ p + eps == 0) by (unfold eps; lra).
  assert (Hlin : (150000000 # 129099401) * (p + eps) == 3 # 2).
  { rewrite Heq. field. exact Hpos. }
  unfold eps in Hlin.
  assert (Hlow : 129 # 100 <= p) by lra.
  assert (Hsq : (129 # 100) * (129 # 100) <= p * p) by nra.
  lra.
Qed.

(** The shaped rewards of the group [1, 2, 3, 4], to six decimals of the
    standard deviation: about -1.16, -0.39, 0.39, 1.16. *)
Example group_norm_1234_shaped :
  map Qred (normalize sqrt_approx [1; 2; 3; 4])
  = [-150000000 # 129099401; -50000000 # 129099401;
     50000000 # 129099401; 150000000 # 129099401].
Proof. vm_compute. reflexivity. Qed.

End GroupNormProofs.
(** ** Configuration errors *)

Module ConfigProofs.

Import ExperienceModel RolloutCollector CollectorSpec Samples ConfigSpec.
Import GroupNormSpec.

Lemma io_map_scores {A B : Type} (f : A -> result B) l l' :
  Forall2 (fun x y => f x = Ok y) l l' ->
  io_map (fun x => call EvScore (f x)) l = (repeat EvScore (length l), Ok l').
Proof.
  induction 1 as [|x y l l' Hxy _ IH]; cbn [io_map]; [reflexivity|].
  unfold call at 1. rewrite Hxy. cbn [io_bind]. rewrite IH.
  unfold lift. cbn [io_bind length repeat app]. now rewrite app_nil_r.
Qed.

Lemma map_result_length {A B : Type} (f : A -> result B) l l' :
  map_result f l = Ok l' -> length l' = length l.
Proof.
  revert l'. induction l as [|x l IH]; intros l' H; cbn in H.
  - now injection H as <-.
  - destruct (f x); [|discriminate]. cbn [bind] in H.
    destruct (map_result f l) as [ys|]; [|discriminate]. cbn [bind] in H.
    injection H as <-. cbn. now rewrite (IH ys).
Qed.

Section Run.

Variable args : Args.
Variable sqrt : Q -> Q.
Variable compute_reward : pyval -> pyval -> pyval -> pyval -> result pyval.
Variables (Prompts Samples : Type).
Variable generate_samples : Prompts -> result (list Samples).
Variable broadcast_object_list : result (list Samples).
Variable make_experience : Samples -> result Experience.

(** All the remote work comes first. *)
Lemma remote_work_first all_prompts samples_list experiences :
  incoming_samples args generate_samples broadcast_object_list all_prompts
  = Ok samples_list ->
  Forall2 (fun s e => make_experience s = Ok e) samples_list experiences ->
  make_experience_list args sqrt compute_reward generate_samples
    broadcast_object_list make_experience all_prompts
  = (remote_work args (length samples_list),
     local_stage args sqrt compute_reward experiences).
Proof.
  intros Hin Hscore.
  unfold make_experience_list, incoming_samples, remote_work in *.
  pose proof (io_map_scores make_experience _ _ Hscore) as Hmap.
  unfold local_stage.
  destruct (ring_attn_rank args) as [rank|];
    [destruct (rank =? 0)%Z|]; rewrite Hin;
    destruct (vllm_enable_sleep args);
    unfold call at 1 2 3, lift at 1; cbn [io_bind];
    unfold call in Hmap |- *; rewrite Hmap;
    unfold lift; cbn [io_bind app];
    destruct (process_experiences args experiences) as [p|]; cbn [bind];
    try (destruct (flatten_dump_rewards (fst p)) as [es|]; cbn [bind];
         try destruct (advantage_loop args sqrt compute_reward es (snd p)));
    rewrite ?app_nil_r; reflexivity.
Qed.

Lemma unknown_estimator_tests :
  unknown_estimator args ->
  String.eqb (advantage_estimator args) "gae" = false
  /\ String.eqb (advantage_estimator args) "rloo" = false
  /\ estimator_in (advantage_estimator args)
       ["reinforce"; "rloo"; "reinforce++"]%string = false
  /\ estimator_in (advantage_estimator args) ["group_norm"]%string = false
  /\ estimator_in (advantage_estimator args)
       ["group_norm"; "reinforce++"]%string = false.
Proof.
  unfold unknown_estimator, known_estimators, estimator_in. cbn [existsb].
  intros H. repeat (apply orb_false_elim in H; destruct H as [? H]).
  repeat split; cbn [existsb];
    repeat match goal with
           | E : String.eqb _ _ = false |- _ => rewrite E; clear E
           end; reflexivity.
Qed.

Lemma too_few_samples_not_rloo :
  too_few_samples args -> String.eqb (advantage_estimator args) "rloo" = false.
Proof.
  unfold too_few_samples, estimator_in. cbn [existsb]. intros [H _].
  destruct (String.eqb_spec (advantage_estimator args) "rloo") as [E|]; auto.
  rewrite E in H. discriminate H.
Qed.

(** The assertion on the number of samples per prompt. *)
Lemma advantage_step_too_few experience reward num :
  too_few_samples args ->
  lookup (info experience) "num_actions"%string = Some num ->
  advantage_step args sqrt compute_reward experience reward
  = Raise (AssertionError "group_norm requires n_samples_per_prompt > 1").
Proof.
  intros [Hest Hn] Hnum. unfold advantage_step, getitem. rewrite Hnum.
  cbn [bind]. rewrite Hest. unfold group_norm_reward.
  replace (n_samples_per_prompt args >? 1)%Z with false
    by (symmetry; rewrite Z.gtb_ltb; apply Z.ltb_ge; lia).
  reflexivity.
Qed.

(** The final [else] of the choice of the estimator. *)
Lemma advantage_step_unknown experience reward num reward' :
  unknown_estimator args ->
  lookup (info experience) "num_actions"%string = Some num ->
  compute_reward reward (kl experience) (action_mask experience) num
  = Ok reward' ->
  advantage_step args sqrt compute_reward experience reward
  = Raise (Exception
             ("Unkown advantage_estimator " ++ advantage_estimator args)).
Proof.
  intros Hunk Hnum Hcr.
  destruct (unknown_estimator_tests Hunk) as (Hgae & _ & Hre & Hgn & Hgn2).
  unfold advantage_step, getitem. rewrite Hnum. cbn [bind].
  rewrite Hgn2. cbn [bind]. rewrite Hgn. cbn [negb]. rewrite Hcr. cbn [bind].
  rewrite Hgae, Hre. reflexivity.
Qed.

(** With either configuration error an iteration of the loop never returns. *)
Lemma advantage_step_raises experience reward :
  unknown_estimator args \/ too_few_samples args ->
  exists err,
    advantage_step args sqrt compute_reward experience reward = Raise err.
Proof.
  intros Hcfg.
  destruct (lookup (info experience) "num_actions"%string) as [num|] eqn:Hnum.
  - destruct Hcfg as [Hunk|Hfew].
    + destruct (compute_reward reward (kl experience) (action_mask experience)
                  num)
        as [reward'|err] eqn:Hcr.
      * rewrite (advantage_step_unknown _ _ _ _ Hunk Hnum Hcr). eauto.
      * destruct (unknown_estimator_tests Hunk) as (_ & _ & _ & Hgn & Hgn2).
        unfold advantage_step, getitem. rewrite Hnum. cbn [bind].
        rewrite Hgn2. cbn [bind]. rewrite Hgn. cbn [negb]. rewrite Hcr.
        cbn [bind]. eauto.
    + rewrite (advantage_step_too_few _ reward _ Hfew Hnum). eauto.
  - unfold advantage_step, getitem. rewrite Hnum. cbn [bind]. eauto.
Qed.

Lemma process_experiences_rewards experiences es rs :
  String.eqb (advantage_estimator args) "rloo" = false ->
  process_experiences args experiences = Ok (es, rs) ->
  es <> [] -> rs <> [].
Proof.
  intros Hrloo. unfold process_experiences. rewrite Hrloo.
  destruct (estimator_in (advantage_estimator args) ["group_norm"%string]).
  - destruct (ExperienceModel.sum experiences) as [[z|e]|]; cbn [bind];
      try discriminate.
    destruct (getitem (info e) "reward"%string); cbn [bind]; [|discriminate].
    intros [= <- <-] _. discriminate.
  - destruct (map_result _ experiences) as [rewards|] eqn:Hmap; cbn [bind];
      [|discriminate].
    intros [= <- <-] Hne. apply map_result_length in Hmap.
    destruct rewards; [|discriminate].
    destruct experiences; [congruence|discriminate].
Qed.

Lemma local_stage_raises experiences :
  unknown_estimator args \/ too_few_samples args ->
  exists err, local_stage args sqrt compute_reward experiences = Raise err.
Proof.
  intros Hcfg. unfold local_stage.
  destruct (process_experiences args experiences) as [[es rs]|] eqn:Hp;
    cbn [bind fst snd]; [|eauto].
  unfold flatten_dump_rewards. destruct es as [|e es]; cbn [bind]; [eauto|].
  destruct (getitem (info e) "dump/rewards"%string); cbn [bind]; [|eauto].
  destruct (sum_lists a); cbn [bind]; [|eauto].
  assert (Hrs : rs <> []).
  { apply (process_experiences_rewards _ _ _
             (match Hcfg with
              | or_introl H => proj1 (proj2 (unknown_estimator_tests H))
              | or_intror H => too_few_samples_not_rloo H
              end) Hp). discriminate. }
  destruct rs as [|r rs]; [congruence|]. cbn [advantage_loop].
  destruct (advantage_step_raises (set_info e "dump/rewards" a0) r Hcfg)
    as [err ->]. cbn [bind]. eauto.
Qed.

End Run.

(** C6, as the code has it.  An unknown estimator name, and group_norm or
    reinforce++ with [n_samples_per_prompt <= 1], are fatal, and they are
    raised in the advantage stage: when the collaborators answer, the rollout
    has issued generation and the scoring of every micro-batch by the time
    [make_experience_list] raises.  The assertion and the final [else] raise
    the errors of the source as soon as the loop reaches them. *)
Theorem configuration_errors_follow_remote_work :
  (forall (args : Args) (sqrt : Q -> Q)
          (compute_reward : pyval -> pyval -> pyval -> pyval -> result pyval)
          (Prompts Samples : Type)
          (generate_samples : Prompts -> result (list Samples))
          (broadcast_object_list : result (list Samples))
          (make_experience : Samples -> result Experience)
          (all_prompts : Prompts) samples_list experiences,
     incoming_samples args generate_samples broadcast_object_list all_prompts
     = Ok samples_list ->
     Forall2 (fun s e => make_experience s = Ok e) samples_list experiences ->
     unknown_estimator args \/ too_few_samples args ->
     exists err,
       make_experience_list args sqrt compute_reward generate_samples
         broadcast_object_list make_experience all_prompts
       = (remote_work args (length samples_list), Raise err))
  /\ (forall args sqrt compute_reward experience reward num,
        too_few_samples args ->
        lookup (info experience) "num_actions"%string = Some num ->
        advantage_step args sqrt compute_reward experience reward
        = Raise (AssertionError "group_norm requires n_samples_per_prompt > 1"))
  /\ (forall args sqrt compute_reward experience reward num reward',
        unknown_estimator args ->
        lookup (info experience) "num_actions"%string = Some num ->
        compute_reward reward (kl experience) (action_mask experience) num
        = Ok reward' ->
        advantage_step args sqrt compute_reward experience reward
        = Raise (Exception
                   ("Unkown advantage_estimator " ++ advantage_estimator args))).
Proof.
  split; [|split].
  - intros args sqrt compute_reward Prompts Samples generate_samples
      broadcast_object_list make_experience all_prompts samples_list
      experiences Hin Hscore Hcfg.
    destruct (local_stage_raises args sqrt compute_reward experiences Hcfg)
      as [err Herr].
    exists err.
    rewrite (remote_work_first args sqrt compute_reward Prompts Samples
               generate_samples broadcast_object_list make_experience
               all_prompts samples_list experiences Hin Hscore).
    now rewrite Herr.
  - intros. now apply advantage_step_too_few with (num := num).
  - intros.
    now apply advantage_step_unknown with (num := num) (reward' := reward').
Qed.

(** A rollout of one micro-batch under an estimator that is not known. *)
Lemma configuration_errors_follow_remote_work_witness :
  exists err,
    make_experience_list (args_of "bogus" 2) sqrt_approx reward_as_is
      one_micro_batch (Ok []) score_batch_of_two tt
    = ([EvGenerate; EvBarrier; EvScore], Raise err).
Proof.
  apply (proj1 configuration_errors_follow_remote_work (args_of "bogus" 2)
           sqrt_approx reward_as_is unit nat one_micro_batch (Ok [])
           score_batch_of_two tt [0%nat] [batch_of_two]).
  - reflexivity.
  - repeat constructor.
  - left. reflexivity.
Defined.

(** C6 as stated fails: with an unknown estimator, and with group_norm on a
    single sample per prompt, generation and scoring have been issued when
    the error is raised. *)
Lemma configuration_error_after_scoring :
  make_experience_list (args_of "bogus" 2) sqrt_approx reward_as_is
    one_micro_batch (Ok []) score_batch_of_two tt
  = ([EvGenerate; EvBarrier; EvScore],
     Raise (Exception "Unkown advantage_estimator bogus"))
  /\ make_experience_list (args_of "group_norm" 1) sqrt_approx reward_as_is
       one_micro_batch (Ok []) score_batch_of_two tt
     = ([EvGenerate; EvBarrier; EvScore],
        Raise (AssertionError "group_norm requires n_samples_per_prompt > 1")).
Proof. split; vm_compute; reflexivity. Qed.

End ConfigProofs.

(** * Part III: further properties of the code *)

(** ** Closed forms of the advantage engine *)

Module RecurrenceProofs.

Import ListFacts AdvantageEngine AdvantageSpec RecurrenceSpec.
Import AdvantageEngineProofs CumulativeReturnsProofs.

(** A backward recurrence [f t = g t + c * f (t + 1)] that starts from 0 past
    the last timestep is the discounted sum of [g]. *)
Lemma backward_closed_form (c : Q) (g f : nat -> Q) (T : nat) :
  (forall t, (t < T)%nat -> f t == g t + c * next T f t) ->
  forall t, (t < T)%nat -> f t == discounted_sum c g t T.
Proof.
  intros Hrec t Ht.
  assert (Hall : forall m t', (t' + m = T)%nat -> (0 < m)%nat ->
            f t' == discounted_sum c g t' T).
  { induction m as [|m IH]; intros t' Hsum Hpos; [lia|].
    rewrite Hrec by lia. rewrite discounted_sum_step by lia.
    unfold next. destruct (Nat.ltb_spec t' (T - 1)) as [Hlt|Hge].
    - rewrite (IH (t' + 1)%nat) by lia. reflexivity.
    - replace (t' + 1)%nat with T by lia.
      rewrite discounted_sum_end. reflexivity. }
  apply (Hall (T - t)%nat); lia.
Qed.

(** The discounted sum of pointwise equal terms. *)
Lemma discounted_sum_ext (c : Q) (g g' : nat -> Q) (T : nat) :
  (forall k, (k < T)%nat -> g k == g' k) ->
  forall t, discounted_sum c g t T == discounted_sum c g' t T.
Proof.
  intros Hg t. unfold discounted_sum.
  assert (H : forall l, (forall k, In k l -> (k < T)%nat) ->
            Qsum (map (fun k => c ^ Z.of_nat (k - t) * g k) l)
            == Qsum (map (fun k => c ^ Z.of_nat (k - t) * g' k) l)).
  { induction l as [|k l IH]; intros Hl; cbn [map Qsum fold_right];
      [reflexivity|].
    fold (Qsum (map (fun k => c ^ Z.of_nat (k - t) * g k) l)).
    fold (Qsum (map (fun k => c ^ Z.of_nat (k - t) * g' k) l)).
    rewrite IH by (intros; apply Hl; now right).
    rewrite (Hg k) by (apply Hl; now left). reflexivity. }
  apply H. intros k Hk. apply in_seq in Hk. lia.
Qed.

(** The run of [get_advantages_and_returns] on one padded tensor: what it
    returns, and the recurrence its elements satisfy. *)
Lemma gae_run (B T : nat) (values rewards : Tensor)
    (action_mask : option Tensor) (gamma lambd : Q) :
  (0 < T)%nat -> sized B T values -> sized B T rewards ->
  mask_sized B T action_mask ->
  exists advantages returns,
    get_advantages_and_returns (PyTensor values) (PyTensor rewards)
      action_mask gamma lambd
    = Ok (PyTensor advantages, PyTensor returns)
    /\ sized B T advantages /\ sized B T returns
    /\ forall i t, (i < B)%nat -> (t < T)%nat ->
         get2 advantages i t
         = td_error gamma T (masked action_mask rewards i)
             (masked action_mask values i) t
           + gamma * lambd * next T (get2 advantages i) t
         /\ get2 returns i t
            = get2 advantages i t + masked action_mask values i t.
Proof.
  intros HT Hv Hr Hm.
  destruct (apply_mask_sized B T action_mask values Hv Hm)
    as (V & HV & [HVs HVl] & HVe).
  destruct (apply_mask_sized B T action_mask rewards Hr Hm)
    as (R & HR & [HRs HRl] & HRe).
  set (cols := map (fun t => lastgae gamma lambd T V R (T - t)) (seq 0 T)).
  assert (Hlen : length cols = T)
    by (unfold cols; now rewrite length_map, length_seq).
  assert (Hcols : Forall (fun c => exists v, c = Vec v /\ length v = B) cols).
  { apply Forall_forall. intros c Hc. unfold cols in Hc.
    apply in_map_iff in Hc. destruct Hc as (t & <- & Ht). apply in_seq in Ht.
    replace (T - t)%nat with (S (T - t - 1)) by lia.
    destruct (@lastgae_S gamma lambd B T V R HVs HRs (T - t - 1))
      as (v & -> & Hl & _). eauto. }
  assert (Hne : cols <> [])
    by (intros E; rewrite E in Hlen; simpl in Hlen; lia).
  set (adv := mkTensor [B; length cols]
                (flat_map (fun i => map (fun c => nth i (vec c) 0) cols)
                   (seq 0 B))).
  assert (Hadv : sized B T adv).
  { split; [unfold adv; now rewrite Hlen|]. unfold adv; cbn [data].
    rewrite (@length_flat_map_rows _ _ (length cols))
      by (intros; now rewrite length_map).
    now rewrite Hlen. }
  assert (Hret : Torch.add adv V
                 = Ok (mkTensor [B; T] (zip_with Qplus (data adv) (data V)))).
  { unfold Torch.add, pointwise, shape_eqb. destruct Hadv as [-> _].
    rewrite HVs.
    destruct (list_eq_dec Nat.eq_dec [B; T] [B; T]); [reflexivity|congruence]. }
  exists adv, (mkTensor [B; T] (zip_with Qplus (data adv) (data V))).
  split; [|split; [exact Hadv|split]].
  - unfold get_advantages_and_returns, get_advantages_and_returns_batched.
    destruct Hr as [-> _].
    rewrite HV, HR. cbn [bind]. rewrite rev_seq.
    change (Num 0) with (lastgae gamma lambd T V R 0).
    rewrite gae_loop. cbn [app]. rewrite advantages_reversed_rev.
    fold cols. rewrite (stack_dim1_columns B cols Hne Hcols). cbn [bind].
    fold adv.
    rewrite Hret. reflexivity.
  - split; [reflexivity|]. cbn [data]. rewrite zip_with_length.
    destruct Hadv as [_ ->]. lia.
  - intros i t Hi Ht. unfold td_error, next.
    assert (Hget : forall t', (t' < T)%nat ->
              get2 adv i t'
              = nth i (vec (lastgae gamma lambd T V R (T - t'))) 0).
    { intros t' Ht'. unfold adv. rewrite get2_stack by lia.
      unfold cols.
      rewrite (@nth_map_lt _ _ _ _ _ 0%nat) by (rewrite length_seq; lia).
      now rewrite seq_nth by lia. }
    split.
    + rewrite Hget by lia.
      replace (T - t)%nat with (S (T - t - 1)) by lia.
      destruct (@lastgae_S gamma lambd B T V R HVs HRs (T - t - 1))
        as (v & Ev & _ & Hv'). rewrite Ev. cbn [vec]. rewrite Hv' by lia.
      replace (T - 1 - (T - t - 1))%nat with t by lia.
      destruct (Nat.ltb_spec t (T - 1)) as [Hlt|Hge].
      * rewrite <- !HVe, <- !HRe by lia. rewrite Hget by lia.
        replace (T - t - 1)%nat with (T - (t + 1))%nat by lia.
        replace (T - (t + 1))%nat with (S (T - (t + 1) - 1)) by lia.
        destruct (@lastgae_S gamma lambd B T V R HVs HRs (T - (t + 1) - 1))
          as (w & -> & _ & _). reflexivity.
      * rewrite <- !HVe, <- !HRe by lia.
        replace (T - t - 1)%nat with 0%nat by lia. reflexivity.
    + unfold get2 at 1. cbn [shape data nth].
      rewrite (@nth_zip_with _ _ _ _ _ _ _ 0 0) by
        (destruct Hadv as [_ Hal]; rewrite ?Hal, ?HVl; nia).
      rewrite <- HVe by lia. unfold get2.
      destruct Hadv as [-> _]. rewrite HVs. reflexivity.
Qed.

(** The run of [get_cumulative_returns] on one padded tensor. *)
Lemma cumulative_run (B T : nat) (rewards : Tensor)
    (action_mask : option Tensor) (gamma : Q) :
  sized B T rewards -> mask_sized B T action_mask ->
  exists returns,
    get_cumulative_returns (PyTensor rewards) action_mask gamma
    = Ok (PyTensor returns)
    /\ sized B T returns
    /\ forall i t, (i < B)%nat -> (t < T)%nat ->
         get2 returns i t
         = masked action_mask rewards i t
           + gamma * next T (get2 returns i) t.
Proof.
  intros Hr Hm.
  destruct (apply_mask_sized B T action_mask rewards Hr Hm)
    as (R & HR & [HRs HRl] & HRe).
  set (st0 := (Vec (repeat 0 B), zeros_like rewards)).
  assert (H0 : after gamma B T R 0 st0).
  { exists (repeat 0 B). cbn [fst snd]. split; [reflexivity|].
    split; [apply repeat_length|]. split.
    - destruct Hr as [Hs _].
      split; unfold st0, zeros_like, zeros; cbn [snd shape data].
      + exact Hs.
      + rewrite repeat_length, Hs. simpl. lia.
    - split.
      + intros i Hi. cbn [Nat.eqb]. apply nth_repeat_lt. exact Hi.
      + intros i t _ Ht. lia. }
  pose proof (after_loop gamma B T R HRs T 0 st0 (le_n _) H0) as Hfin.
  cbn [Nat.add] in Hfin. rewrite <- rev_seq in Hfin.
  destruct (fold_left (cumulative_body gamma R) (rev (seq 0 T)) st0)
    as [cum ret] eqn:Efold.
  destruct Hfin as (c & _ & _ & Hsz & _ & Hrec). cbn [snd] in Hsz, Hrec.
  exists ret. split; [|split; [exact Hsz|]].
  - unfold get_cumulative_returns, get_cumulative_returns_batched.
    destruct Hr as [-> _].
    rewrite HR. cbn [bind]. fold st0. rewrite Efold. reflexivity.
  - intros i t Hi Ht. unfold next. rewrite Hrec by lia.
    now rewrite HRe by lia.
Qed.

(** X1.  For tensors of sizes [B, T] with [T >= 1] and any action mask of
    those sizes (or none), the advantages of [get_advantages_and_returns]
    are the discounted sums of the temporal-difference errors,
    [advantages[i, t] = sum_{k >= t} (gamma * lambd)^(k - t) * delta_k] with
    [delta_k = r_k + gamma * v_{k+1} - v_k] on the masked rewards and
    values. *)
Theorem gae_advantages_closed_form :
  forall (B T : nat) (values rewards : Tensor) (action_mask : option Tensor)
         (gamma lambd : Q),
    (0 < T)%nat -> sized B T values -> sized B T rewards ->
    mask_sized B T action_mask ->
    exists advantages returns,
      get_advantages_and_returns (PyTensor values) (PyTensor rewards)
        action_mask gamma lambd
      = Ok (PyTensor advantages, PyTensor returns)
      /\ forall i t, (i < B)%nat -> (t < T)%nat ->
           get2 advantages i t
           == discounted_sum (gamma * lambd)
                (td_error gamma T (masked action_mask rewards i)
                   (masked action_mask values i)) t T.
Proof.
  intros B T values rewards action_mask gamma lambd HT Hv Hr Hm.
  destruct (gae_run B T values rewards action_mask gamma lambd HT Hv Hr Hm)
    as (adv & ret & Hrun & _ & _ & Hrec).
  exists adv, ret. split; [exact Hrun|]. intros i t Hi Ht.
  apply backward_closed_form; [|exact Ht].
  intros t' Ht'. destruct (Hrec i t' Hi Ht') as [-> _]. reflexivity.
Qed.

Lemma gae_advantages_closed_form_witness :
  exists advantages returns,
    get_advantages_and_returns (PyTensor sample_values)
      (PyTensor sample_rewards) (Some sample_mask) (1 # 2) (1 # 3)
    = Ok (PyTensor advantages, PyTensor returns)
    /\ forall i t, (i < 2)%nat -> (t < 3)%nat ->
         get2 advantages i t
         == discounted_sum ((1 # 2) * (1 # 3))
              (td_error (1 # 2) 3 (masked (Some sample_mask) sample_rewards i)
                 (masked (Some sample_mask) sample_values i)) t 3.
Proof.
  apply (gae_advantages_closed_form 2 3 sample_values sample_rewards
           (Some sample_mask) (1 # 2) (1 # 3)).
  - lia.
  - split; reflexivity.
  - split; reflexivity.
  - split; reflexivity.
Defined.

(** The recurrence of the returns: [ret_t = r_t + gamma * (1 - lambd) *
    v_{t+1} + gamma * lambd * ret_{t+1}]. *)
Lemma returns_recurrence (gamma lambd : Q) (T : nat) (r v adv ret : nat -> Q) :
  (forall t, (t < T)%nat ->
     adv t = td_error gamma T r v t + gamma * lambd * next T adv t
     /\ ret t = adv t + v t) ->
  forall t, (t < T)%nat ->
    ret t == lambda_reward gamma lambd T r v t + gamma * lambd * next T ret t.
Proof.
  intros Hrec t Ht. destruct (Hrec t Ht) as [Hadv Hret].
  rewrite Hret, Hadv. unfold td_error, lambda_reward, next.
  destruct (Nat.ltb_spec t (T - 1)) as [Hlt|Hge]; [|ring].
  destruct (Hrec (t + 1)%nat ltac:(lia)) as [_ Hret'].
  rewrite Hret'. ring.
Qed.

(** X2.  The returns of [get_advantages_and_returns] are, as its docstring
    has them, [returns[i, t] = sum_{k >= t} (gamma * lambd)^(k - t) *
    (r_k + gamma * (1 - lambd) * v_{k+1})] on the masked rewards and values,
    with [v] taken as 0 past the last timestep. *)
Theorem gae_returns_closed_form :
  forall (B T : nat) (values rewards : Tensor) (action_mask : option Tensor)
         (gamma lambd : Q),
    (0 < T)%nat -> sized B T values -> sized B T rewards ->
    mask_sized B T action_mask ->
    exists advantages returns,
      get_advantages_and_returns (PyTensor values) (PyTensor rewards)
        action_mask gamma lambd
      = Ok (PyTensor advantages, PyTensor returns)
      /\ forall i t, (i < B)%nat -> (t < T)%nat ->
           get2 returns i t
           == discounted_sum (gamma * lambd)
                (lambda_reward gamma lambd T (masked action_mask rewards i)
                   (masked action_mask values i)) t T.
Proof.
  intros B T values rewards action_mask gamma lambd HT Hv Hr Hm.
  destruct (gae_run B T values rewards action_mask gamma lambd HT Hv Hr Hm)
    as (adv & ret & Hrun & _ & _ & Hrec).
  exists adv, ret. split; [exact Hrun|]. intros i t Hi Ht.
  apply backward_closed_form; [|exact Ht].
  apply (returns_recurrence gamma lambd T _ _ (get2 adv i)).
  intros t' Ht'. now apply Hrec.
Qed.

Lemma gae_returns_closed_form_witness :
  exists advantages returns,
    get_advantages_and_returns (PyTensor sample_values)
      (PyTensor sample_rewards) (Some sample_mask) (1 # 2) (1 # 3)
    = Ok (PyTensor advantages, PyTensor returns)
    /\ forall i t, (i < 2)%nat -> (t < 3)%nat ->
         get2 returns i t
         == discounted_sum ((1 # 2) * (1 # 3))
              (lambda_reward (1 # 2) (1 # 3) 3
                 (masked (Some sample_mask) sample_rewards i)
                 (masked (Some sample_mask) sample_values i)) t 3.
Proof.
  apply (gae_returns_closed_form 2 3 sample_values sample_rewards
           (Some sample_mask) (1 # 2) (1 # 3)).
  - lia.
  - split; reflexivity.
  - split; reflexivity.
  - split; reflexivity.
Defined.

(** X3.  With [lambd = 1] the returns of [get_advantages_and_returns] do
    not depend on the values: they are the returns of
    [get_cumulative_returns] on the same rewards and mask, and the
    advantages are these returns minus the masked values. *)
Theorem gae_lambda_one_is_cumulative_return :
  forall (B T : nat) (values rewards : Tensor) (action_mask : option Tensor)
         (gamma : Q),
    (0 < T)%nat -> sized B T values -> sized B T rewards ->
    mask_sized B T action_mask ->
    exists advantages returns cumulative,
      get_advantages_and_returns (PyTensor values) (PyTensor rewards)
        action_mask gamma 1
      = Ok (PyTensor advantages, PyTensor returns)
      /\ get_cumulative_returns (PyTensor rewards) action_mask gamma
         = Ok (PyTensor cumulative)
      /\ forall i t, (i < B)%nat -> (t < T)%nat ->
           get2 returns i t == get2 cumulative i t
           /\ get2 advantages i t
              == get2 cumulative i t - masked action_mask values i t.
Proof.
  intros B T values rewards action_mask gamma HT Hv Hr Hm.
  destruct (gae_run B T values rewards action_mask gamma 1 HT Hv Hr Hm)
    as (adv & ret & Hrun & _ & _ & Hrec).
  destruct (cumulative_run B T rewards action_mask gamma Hr Hm)
    as (cum & Hcum & _ & Hcrec).
  exists adv, ret, cum. split; [exact Hrun|]. split; [exact Hcum|].
  intros i t Hi Ht.
  assert (Hret : get2 ret i t == get2 cum i t).
  { transitivity (discounted_sum gamma (masked action_mask rewards i) t T).
    - apply backward_closed_form; [|exact Ht].
      intros t' Ht'.
      rewrite (returns_recurrence gamma 1 T (masked action_mask rewards i)
                 (masked action_mask values i) (get2 adv i) (get2 ret i)
                 (fun k Hk => Hrec i k Hi Hk) t' Ht').
      unfold lambda_reward. ring.
    - symmetry. apply backward_closed_form; [|exact Ht].
      intros t' Ht'. now rewrite (Hcrec i t' Hi Ht'). }
  split; [exact Hret|].
  rewrite <- Hret. destruct (Hrec i t Hi Ht) as [_ ->]. ring.
Qed.

Lemma gae_lambda_one_is_cumulative_return_witness :
  exists advantages returns cumulative,
    get_advantages_and_returns (PyTensor sample_values)
      (PyTensor sample_rewards) (Some sample_mask) (1 # 2) 1
    = Ok (PyTensor advantages, PyTensor returns)
    /\ get_cumulative_returns (PyTensor sample_rewards) (Some sample_mask)
         (1 # 2)
       = Ok (PyTensor cumulative)
    /\ forall i t, (i < 2)%nat -> (t < 3)%nat ->
         get2 returns i t == get2 cumulative i t
         /\ get2 advantages i t
            == get2 cumulative i t - masked (Some sample_mask) sample_values i t.
Proof.
  apply (gae_lambda_one_is_cumulative_return 2 3 sample_values sample_rewards
           (Some sample_mask) (1 # 2)).
  - lia.
  - split; reflexivity.
  - split; reflexivity.
  - split; reflexivity.
Defined.

(** X4.  For rewards of sizes [B, T] and any action mask of those sizes (or
    none), [get_cumulative_returns] returns
    [returns[i, t] = sum_{k >= t} gamma^(k - t) * mask[i, k] * rewards[i, k]]:
    a masked reward counts for nothing, and the return at a masked timestep
    still carries the discounted rewards that follow it. *)
Theorem cumulative_returns_masked_closed_form :
  forall (B T : nat) (rewards : Tensor) (action_mask : option Tensor)
         (gamma : Q),
    sized B T rewards -> mask_sized B T action_mask ->
    exists returns,
      get_cumulative_returns (PyTensor rewards) action_mask gamma
      = Ok (PyTensor returns)
      /\ sized B T returns
      /\ forall i t, (i < B)%nat -> (t < T)%nat ->
           get2 returns i t
           == discounted_sum gamma (masked action_mask rewards i) t T.
Proof.
  intros B T rewards action_mask gamma Hr Hm.
  destruct (cumulative_run B T rewards action_mask gamma Hr Hm)
    as (ret & Hrun & Hsz & Hrec).
  exists ret. split; [exact Hrun|]. split; [exact Hsz|].
  intros i t Hi Ht. apply backward_closed_form; [|exact Ht].
  intros t' Ht'. now rewrite (Hrec i t' Hi Ht').
Qed.

(** The first row of the sample: the reward of the masked last action is
    dropped, [returns[0] = [1 + 1/2, 1, 0]]. *)
Lemma cumulative_returns_masked_closed_form_witness :
  exists returns,
    get_cumulative_returns (PyTensor sample_rewards) (Some sample_mask)
      (1 # 2)
    = Ok (PyTensor returns)
    /\ get2 returns 0 0 == 3 # 2
    /\ get2 returns 0 1 == 1
    /\ get2 returns 0 2 == 0.
Proof.
  destruct (cumulative_returns_masked_closed_form 2 3 sample_rewards
              (Some sample_mask) (1 # 2))
    as (returns & Hrun & _ & Hall).
  - split; reflexivity.
  - split; reflexivity.
  - exists returns. split; [exact Hrun|].
    rewrite !Hall by lia. repeat split; reflexivity.
Defined.

(** One packed sequence goes through the tensor case as a batch of one. *)
Lemma unsqueeze0_sized (r : Tensor) :
  is_vector r -> sized 1 (length (data r)) (unsqueeze0 r).
Proof.
  intros Hr. split; unfold unsqueeze0; cbn [shape data].
  - now rewrite Hr.
  - lia.
Qed.

Lemma get2_row0 (x : Tensor) (T t : nat) :
  shape x = [1%nat; T] -> get2 x 0 t = nth t (data x) 0.
Proof. intros Hs. unfold get2. rewrite Hs. reflexivity. Qed.

Lemma squeeze0_row (x : Tensor) (T : nat) :
  sized 1 T x ->
  is_vector (squeeze0 x) /\ data (squeeze0 x) = data x
  /\ length (data x) = T.
Proof.
  intros [Hs Hl]. unfold squeeze0, is_vector. rewrite Hs. cbn [shape data].
  split; [f_equal; lia|]. split; [reflexivity|lia].
Qed.

Lemma cumulative_vector (r : Tensor) (gamma : Q) :
  is_vector r ->
  exists ret,
    get_cumulative_returns_batched (unsqueeze0 r) None gamma = Ok ret
    /\ is_vector (squeeze0 ret)
    /\ length (data (squeeze0 ret)) = length (data r)
    /\ forall t, (t < length (data r))%nat ->
         nth t (data (squeeze0 ret)) 0
         == discounted_sum gamma (fun k => nth k (data r) 0) t
              (length (data r)).
Proof.
  intros Hr. set (T := length (data r)).
  destruct (cumulative_run 1 T (unsqueeze0 r) None gamma
              (unsqueeze0_sized r Hr) I) as (ret & Hrun & Hsz & Hrec).
  unfold get_cumulative_returns in Hrun.
  destruct (get_cumulative_returns_batched (unsqueeze0 r) None gamma)
    as [ret'|] eqn:E; [|discriminate].
  cbn [bind] in Hrun. injection Hrun as ->.
  destruct (squeeze0_row ret T Hsz) as (Hvec & Hdata & Hlen).
  exists ret. split; [reflexivity|]. split; [exact Hvec|].
  split; [now rewrite Hdata|].
  intros t Ht. rewrite Hdata.
  rewrite <- (get2_row0 ret T t) by apply Hsz.
  apply backward_closed_form; [|exact Ht].
  intros t' Ht'. rewrite (Hrec 0%nat t') by lia. cbn [masked].
  rewrite (get2_row0 (unsqueeze0 r) T t') by now apply unsqueeze0_sized.
  reflexivity.
Qed.

(** X5.  Packed samples: on a list of 1-d reward tensors (and no action
    mask) [get_cumulative_returns] returns a list with one 1-d tensor per
    sequence, of the length of that sequence, holding its discounted sums
    [ret[t] = sum_{k >= t} gamma^(k - t) * r[k]]. *)
Theorem packed_cumulative_returns :
  forall (rs : list Tensor) (gamma : Q),
    Forall is_vector rs ->
    exists rets,
      get_cumulative_returns (PyList (map PyTensor rs)) None gamma
      = Ok (PyList (map PyTensor rets))
      /\ Forall2
           (fun r ret =>
              is_vector ret /\ length (data ret) = length (data r)
              /\ forall t, (t < length (data r))%nat ->
                   nth t (data ret) 0
                   == discounted_sum gamma (fun k => nth k (data r) 0) t
                        (length (data r)))
           rs rets.
Proof.
  intros rs gamma Hrs. unfold get_cumulative_returns.
  assert (H : exists rets,
            map_result
              (fun r =>
                 match r with
                 | PyTensor r =>
                     ret <- get_cumulative_returns_batched (unsqueeze0 r)
                              None gamma ;;
                     Ok (PyTensor (squeeze0 ret))
                 | _ => Raise AttributeError
                 end)
              (map PyTensor rs) = Ok (map PyTensor rets)
            /\ Forall2
                 (fun r ret =>
                    is_vector ret /\ length (data ret) = length (data r)
                    /\ forall t, (t < length (data r))%nat ->
                         nth t (data ret) 0
                         == discounted_sum gamma (fun k => nth k (data r) 0)
                              t (length (data r)))
                 rs rets).
  { induction Hrs as [|r rs Hr _ (rets & IH & IHall)].
    - exists []. split; [reflexivity|constructor].
    - destruct (cumulative_vector r gamma Hr) as (ret & Hrun & Hret).
      exists (squeeze0 ret :: rets). cbn [map map_result].
      rewrite Hrun. cbn [bind]. rewrite IH. cbn [bind].
      split; [reflexivity|]. constructor; [exact Hret|exact IHall]. }
  destruct H as (rets & -> & Hall). cbn [bind]. exists rets. now split.
Qed.

Lemma packed_cumulative_returns_witness :
  exists rets,
    get_cumulative_returns (PyList (map PyTensor packed_rewards)) None (1 # 2)
    = Ok (PyList (map PyTensor rets))
    /\ Forall2
         (fun r ret =>
            is_vector ret /\ length (data ret) = length (data r)
            /\ forall t, (t < length (data r))%nat ->
                 nth t (data ret) 0
                 == discounted_sum (1 # 2) (fun k => nth k (data r) 0) t
                      (length (data r)))
         packed_rewards rets.
Proof.
  apply (packed_cumulative_returns packed_rewards (1 # 2)).
  repeat constructor.
Defined.

Example packed_cumulative_returns_run :
  get_cumulative_returns (PyList (map PyTensor packed_rewards)) None (1 # 2)
  = Ok (PyList [PyTensor (mkTensor [3]%nat [14 # 8; 6 # 4; 2 # 2]);
                PyTensor (mkTensor [2]%nat [8 # 4; 8 # 2])]).
Proof. vm_compute. reflexivity. Qed.

(** X6.  A response of length 0: [get_advantages_and_returns] raises, as
    [torch.stack] refuses the empty list of columns, whereas
    [get_cumulative_returns] returns the empty tensor of sizes [B, 0]. *)
Theorem empty_response_stack_raises :
  forall (B : nat) (values rewards : Tensor) (action_mask : option Tensor)
         (gamma lambd : Q),
    sized B 0 values -> sized B 0 rewards -> mask_sized B 0 action_mask ->
    get_advantages_and_returns (PyTensor values) (PyTensor rewards)
      action_mask gamma lambd
    = Raise RuntimeError
    /\ get_cumulative_returns (PyTensor rewards) action_mask gamma
       = Ok (PyTensor (mkTensor [B; 0%nat] [])).
Proof.
  intros B values rewards action_mask gamma lambd Hv Hr Hm.
  destruct (apply_mask_sized B 0 action_mask values Hv Hm)
    as (V & HV & _ & _).
  destruct (apply_mask_sized B 0 action_mask rewards Hr Hm)
    as (R & HR & _ & _).
  destruct Hr as [Hs Hl]. split.
  - unfold get_advantages_and_returns, get_advantages_and_returns_batched.
    rewrite Hs, HV, HR. reflexivity.
  - unfold get_cumulative_returns, get_cumulative_returns_batched.
    rewrite Hs, HR. cbn [bind seq rev fold_left].
    unfold zeros_like, zeros. rewrite Hs. cbn [numel fold_right].
    now rewrite Nat.mul_0_r.
Qed.

Lemma empty_response_stack_raises_witness :
  get_advantages_and_returns (PyTensor (mkTensor [2; 0]%nat []))
    (PyTensor (mkTensor [2; 0]%nat [])) None 1 1
  = Raise RuntimeError
  /\ get_cumulative_returns (PyTensor (mkTensor [2; 0]%nat [])) None 1
     = Ok (PyTensor (mkTensor [2; 0]%nat [])).
Proof.
  apply (empty_response_stack_raises 2 (mkTensor [2; 0]%nat [])
           (mkTensor [2; 0]%nat []) None 1 1).
  - split; reflexivity.
  - split; reflexivity.
  - exact I.
Defined.

End RecurrenceProofs.

(** ** Dictionaries without repeated keys *)

Module DictInvariants.

Import DictFacts.

Section Facts.

Context {K V : Type} `{Key K}.

Lemma setitem_NoDup (d : dict K V) k v :
  NoDup (keys d) -> NoDup (keys (setitem d k v)).
Proof.
  intros Hnd. destruct (lookup d k) as [old|] eqn:E.
  - rewrite keys_setitem_present by congruence. exact Hnd.
  - rewrite keys_setitem_absent by exact E.
    apply NoDup_app; [exact Hnd|repeat constructor; intros []|].
    intros k' Hin [<-|[]]. apply lookup_In_keys in Hin. congruence.
Qed.

Lemma remove_keys_incl (d : dict K V) k k' :
  In k' (keys (remove d k)) -> In k' (keys d).
Proof.
  induction d as [|[k0 v0] d IH]; cbn; [tauto|].
  destruct (key_eqb_spec k k0); cbn; [auto|]. intros [E|E]; auto.
Qed.

Lemma remove_NoDup (d : dict K V) k :
  NoDup (keys d) -> NoDup (keys (remove d k)).
Proof.
  induction d as [|[k0 v0] d IH]; cbn; intros Hnd; [constructor|].
  inversion Hnd as [|? ? Hk0 Hnd']; subst.
  destruct (key_eqb_spec k k0); cbn; [exact Hnd'|].
  constructor; [|now apply IH].
  intros Hin. apply Hk0. now apply remove_keys_incl in Hin.
Qed.

(** [del d[k]] leaves no entry for [k]. *)
Lemma lookup_remove_same (d : dict K V) k :
  NoDup (keys d) -> lookup (remove d k) k = None.
Proof.
  induction d as [|[k0 v0] d IH]; cbn; intros Hnd; [reflexivity|].
  inversion Hnd as [|? ? Hk0 Hnd']; subst.
  destruct (key_eqb_spec k k0) as [->|Hne]; cbn.
  - destruct (lookup d k0) eqn:E; [|reflexivity].
    exfalso. apply Hk0. apply lookup_In_keys. congruence.
  - rewrite key_eqb_neq by exact Hne. now apply IH.
Qed.

End Facts.

End DictInvariants.

(** ** The request aggregator over its life *)

Module AggregatorLife.

Import DictFacts DictInvariants VllmEngine AggregatorSpec AggregatorStates.

Section Proofs.

Variables (prompt output : Type).
Variable llm_generate : list prompt -> list output.

Lemma slice_responses_NoDup (num_requests : list (Z * nat))
    (responses : list output) :
  NoDup (keys (slice_responses num_requests responses)).
Proof.
  unfold slice_responses.
  assert (H : forall offset (acc : dict Z (list output)),
            NoDup (keys acc) ->
            NoDup (keys (snd
              (fold_left
                 (fun '(offset, self_responses) '(actor_rank, num) =>
                    ((offset + num)%nat,
                     setitem self_responses actor_rank
                       (firstn num (skipn offset responses))))
                 num_requests (offset, acc))))).
  { induction num_requests as [|[r n] nr IH]; intros offset acc Hacc;
      cbn [fold_left]; [exact Hacc|].
    apply IH. now apply setitem_NoDup. }
  apply H. constructor.
Qed.

(** No state of the actor holds a response map with a repeated key. *)
Lemma reachable_responses_NoDup N (self : LLMRayActor prompt output) :
  reachable llm_generate N self ->
  forall d, responses self = Some d -> NoDup (keys d).
Proof.
  induction 1 as [|self r p _ IH|self r _ IH]; intros d Hd.
  - discriminate.
  - unfold add_requests in Hd.
    destruct (actor_counter self + 1 =? num_actors self)%Z;
      [|cbn in Hd; auto].
    destruct (negb _); [cbn in Hd; auto|].
    destruct (0 <? _)%nat; cbn in Hd; injection Hd as <-;
      apply slice_responses_NoDup.
  - unfold get_responses, pop in Hd.
    destruct (responses self) as [d0|] eqn:E; [|cbn in Hd; congruence].
    destruct (lookup d0 r); cbn in Hd.
    + injection Hd as <-. apply remove_NoDup. now apply IH.
    + rewrite E in Hd. injection Hd as <-. now apply IH.
Qed.

(** X7.  A slice is handed out once: in every state the actor can reach,
    when [get_responses] returns a producer's slice, a second call for the
    same producer raises [KeyError]; the slices of the other producers, the
    pending requests and the counter are left as they were. *)
Theorem responses_are_collected_once :
  forall (N : Z) (self self' : LLMRayActor prompt output) (rank : Z)
         (out : list output),
    reachable llm_generate N self ->
    get_responses self rank = Return out self' ->
    get_responses self' rank = Throw KeyError self'
    /\ (exists d d',
          responses self = Some d /\ responses self' = Some d'
          /\ lookup d rank = Some out
          /\ forall other, other <> rank -> lookup d' other = lookup d other)
    /\ requests self' = requests self
    /\ actor_counter self' = actor_counter self
    /\ generate_calls self' = generate_calls self.
Proof.
  intros N self self' rank out Hreach Hget.
  unfold get_responses, pop in Hget.
  destruct (responses self) as [d|] eqn:Hd; [|discriminate].
  destruct (lookup d rank) as [v|] eqn:Hl; [|discriminate].
  injection Hget as <- <-.
  pose proof (reachable_responses_NoDup N self Hreach d Hd) as Hnd.
  split; [|split; [|repeat split]].
  - unfold get_responses, pop. cbn [responses].
    now rewrite (lookup_remove_same d rank Hnd).
  - exists d, (remove d rank). cbn [responses].
    repeat split; auto. intros other Hne. now apply lookup_remove_other.
Qed.

(** Once the counter has reached the number of producers, a registration
    only records the request. *)
Lemma add_requests_wedged (self : LLMRayActor prompt output) rank payload :
  wedged self ->
  exists self',
    add_requests llm_generate self rank payload = Return tt self'
    /\ wedged self'
    /\ generate_calls self' = generate_calls self
    /\ responses self' = responses self.
Proof.
  unfold wedged. intros Hw. unfold add_requests.
  destruct (Z.eqb_spec (actor_counter self + 1) (num_actors self)); [lia|].
  eexists. split; [reflexivity|]. cbn. repeat split. lia.
Qed.

(** X8.  The failed assertion wedges the actor: a registration that raises
    leaves the counter at the number of producers, and from a state where
    the counter has reached that number (after a failed round, or with a
    number of producers that is not positive) every registration returns
    normally, none issues a generation call and none sets the responses. *)
Theorem failed_round_never_dispatches_again :
  (forall (self self' : LLMRayActor prompt output) rank payload e,
     add_requests llm_generate self rank payload = Throw e self' ->
     wedged self')
  /\ (forall (self : LLMRayActor prompt output) calls,
        wedged self ->
        exists self',
          register_all llm_generate self calls = Return tt self'
          /\ wedged self'
          /\ generate_calls self' = generate_calls self
          /\ responses self' = responses self).
Proof.
  split.
  - intros self self' rank payload e. unfold add_requests, wedged.
    destruct (Z.eqb_spec (actor_counter self + 1) (num_actors self))
      as [E|E]; [|discriminate].
    destruct (negb _); [|destruct (0 <? _)%nat; discriminate].
    intros [= _ <-]. cbn. lia.
  - intros self calls. revert self.
    induction calls as [|[rank payload] calls IH]; intros self Hw.
    + exists self. cbn. auto.
    + destruct (add_requests_wedged self rank payload Hw)
        as (self1 & Hadd & Hw1 & Hcalls1 & Hresp1).
      destruct (IH self1 Hw1) as (self' & Hrun & Hw' & Hcalls & Hresp).
      exists self'. cbn [register_all]. rewrite Hadd.
      repeat split; auto; congruence.
Qed.

End Proofs.

(** A round of two in which rank 0 registers twice fails; the two
    registrations that follow, of distinct ranks, return and generate
    nothing. *)
Lemma failed_round_never_dispatches_again_witness :
  exists failed self',
    register_all echo (init nat nat 2) [(0%Z, [7%nat]); (0%Z, [8%nat])]
    = Throw (AssertionError EmptyString) failed
    /\ register_all echo failed [(0%Z, [7%nat]); (1%Z, [8%nat])]
       = Return tt self'
    /\ generate_calls self' = []
    /\ responses self' = None.
Proof.
  pose proof (failed_round_never_dispatches_again nat nat echo)
    as [Hfail Hlater].
  set (failed := mkActor 2 2 [(0%Z, [8%nat])] (@None (dict Z (list nat))) []).
  destruct (Hlater failed [(0%Z, [7%nat]); (1%Z, [8%nat])])
    as (self' & Hrun & _ & Hcalls & Hresp).
  - apply (Hfail (mkActor 2 1 [(0%Z, [7%nat])] None []) failed 0%Z [8%nat]
             (AssertionError EmptyString)).
    reflexivity.
  - exists failed, self'. split; [reflexivity|]. auto.
Defined.

(** After the round of two producers, rank 1 collects its slice once. *)
Lemma responses_are_collected_once_witness :
  exists self self',
    register_all echo (init nat nat 2) [(1%Z, [7%nat]); (0%Z, [8%nat])]
    = Return tt self
    /\ get_responses self 1%Z = Return [107%nat] self'
    /\ get_responses self' 1%Z = Throw KeyError self'
    /\ get_responses self' 0%Z
       = Return [108%nat]
           (mkActor 2 0 [] (Some []) [[7%nat; 8%nat]]).
Proof.
  set (self := state_of (register_all echo (init nat nat 2)
                           [(1%Z, [7%nat]); (0%Z, [8%nat])])).
  set (self' := state_of (get_responses self 1%Z)).
  exists self, self'. split; [reflexivity|]. split; [reflexivity|].
  split; [|reflexivity].
  apply (responses_are_collected_once nat nat echo 2 self self' 1%Z
           [107%nat]).
  - apply (@reach_add_requests nat nat echo 2
             (state_of (add_requests echo (init nat nat 2) 1%Z [7%nat]))
             0%Z [8%nat]).
    apply (@reach_add_requests nat nat echo 2 (init nat nat 2) 1%Z [7%nat]).
    apply reach_init.
  - reflexivity.
Defined.

End AggregatorLife.

(** ** The stages of the collector *)

Module StageProofs.

Import ListFacts ChunkFacts DictFacts DictInvariants ExperienceModel.
Import RolloutCollector CollectorSpec RlooProofs ExperienceProofs MergeProofs.
Import GroupNormProofs ConfigSpec ConfigProofs GroupNormSpec RecurrenceSpec.
Import Samples StageSpec.

(** *** Leave-one-out shaping *)

(** The run of [process_experiences] under rloo, up to the split of the
    shaped rewards. *)
Lemma rloo_run (args : Args) (experiences : list Experience)
    (rs : list Tensor) (P n : nat) :
  advantage_estimator args = "rloo"%string ->
  n_samples_per_prompt args = Z.of_nat n -> (1 < n)%nat ->
  experiences <> [] ->
  Forall2 has_reward experiences rs ->
  length (flat_rewards rs) = (P * n)%nat ->
  exists experiences',
    experiences' = with_acc_info experiences rs
    /\ length experiences' = length experiences
    /\ process_experiences args experiences
       = (rewards <-
            chunk (mkTensor [(P * n)%nat] (rloo_shaped n P (flat_rewards rs)))
              (length experiences) ;;
          Ok (experiences', map PyTensor rewards))
    /\ length (rloo_shaped n P (flat_rewards rs)) = (P * n)%nat
    /\ forall i j, (i < P)%nat -> (j < n)%nat ->
         nth (i * n + j) (rloo_shaped n P (flat_rewards rs)) 0
         = nth j (group_of n (flat_rewards rs) i) 0
           - (Qsum (group_of n (flat_rewards rs) i)
              - nth j (group_of n (flat_rewards rs) i) 0)
             / inject_Z (Z.of_nat n - 1).
Proof.
  intros Hest Hn Hn1 Hne Hrs Hlen. unfold flat_rewards in *.
  set (flat := concat (map data rs)) in *.
  pose proof (chunks_row_length n P flat Hlen) as Hrows.
  assert (Hrows' : Forall (fun r => length r = n)
            (map (fun row =>
               map (fun x => x - (Qsum row - x) / inject_Z (Z.of_nat n - 1))
                 row)
               (chunks n P flat))).
  { apply Forall_map. eapply Forall_impl; [|exact Hrows].
    intros r Hr. now rewrite length_map. }
  assert (Hshaped : length (rloo_shaped n P flat) = (P * n)%nat).
  { unfold rloo_shaped. rewrite (length_concat_rows n) by exact Hrows'.
    now rewrite length_map, chunks_length. }
  unfold process_experiences. rewrite Hest.
  cbn [String.eqb Ascii.eqb Bool.eqb].
  assert (H1 : map_result
            (fun experience =>
               r <- getitem (info experience) "reward"%string ;; as_tensor r)
            experiences = Ok rs).
  { apply map_result_ok. eapply Forall2_impl; [|exact Hrs].
    intros e r [Hl _]. unfold getitem. now rewrite Hl. }
  rewrite H1. cbn [bind].
  assert (Hrs_ne : rs <> []).
  { intros ->. inversion Hrs. congruence. }
  rewrite cat_list_flat; [|exact Hrs_ne|].
  2:{ clear -Hrs.
      induction Hrs as [|e r es rs' [_ Hs] _ IH]; constructor; auto. }
  cbn [bind]. fold flat.
  assert (H2 : exists es', map_result
            (fun experience =>
               r <- getitem (info experience) "reward"%string ;;
               r <- as_tensor r ;;
               Ok (set_info experience "acc_info"
                     (PyTensor
                        (flatten
                           (mkTensor (shape r) (map eq_one (data r)))))))
            experiences = Ok es' /\ length es' = length experiences
            /\ es' = with_acc_info experiences rs).
  { clear -Hrs.
    induction Hrs as [|e r es rs' [Hl _] _ (es' & IH & IHl & IHe)].
    - exists []. repeat split; reflexivity.
    - eexists. cbn [map_result]. unfold getitem at 1. rewrite Hl.
      cbn [bind as_tensor].
      rewrite IH. cbn [bind]. split; [reflexivity|]. split.
      + simpl. now rewrite IHl.
      + unfold with_acc_info. cbn [combine map fst snd]. f_equal. exact IHe. }
  destruct H2 as (es' & -> & Hes' & Hwith). cbn [bind].
  unfold reshape_rows. cbn [data]. rewrite Hn, Hlen.
  replace (0 <? Z.of_nat n)%Z with true by (symmetry; apply Z.ltb_lt; lia).
  rewrite Nat2Z.id, Nat.Div0.mod_mul, Nat.div_mul by lia.
  cbn [Nat.eqb andb bind]. unfold rows. cbn [shape data].
  unfold rloo_baseline. rewrite zip_with_map_r.
  rewrite (map_ext _ (fun row =>
             map (fun x => x - (Qsum row - x) / inject_Z (Z.of_nat n - 1))
               row))
    by (intros row; apply zip_with_map_r).
  fold (rloo_shaped n P flat). unfold flatten. cbn [data].
  rewrite Hshaped, Hes'.
  exists es'. split; [exact Hwith|]. split; [exact Hes'|].
  split; [reflexivity|]. split; [reflexivity|].
  intros i j Hi Hj. unfold rloo_shaped, group_of.
  rewrite (nth_concat_rows n) by (auto; rewrite length_map, chunks_length; lia).
  rewrite (@nth_map_lt _ _ _ _ i [] []) by (rewrite chunks_length; lia).
  rewrite nth_chunks by lia.
  rewrite (@nth_map_lt _ _ _ _ j 0 0)
    by (rewrite length_firstn, length_skipn; nia).
  rewrite firstn_skipn_nth by lia.
  rewrite group_as_indices by nia.
  rewrite nth_map_seq by lia. reflexivity.
Qed.

Lemma Qsum_leave_one_out (S c : Q) (row : list Q) :
  Qsum (map (fun x => x - (S - x) / c) row)
  == Qsum row - (inject_Z (Z.of_nat (length row)) * S - Qsum row) / c.
Proof.
  induction row as [|x row IH].
  - cbn. unfold Qdiv. ring.
  - cbn [map Qsum fold_right length].
    fold (Qsum (map (fun x => x - (S - x) / c) row)). fold (Qsum row).
    rewrite IH, Nat2Z.inj_succ, <- Z.add_1_r, inject_Z_plus.
    unfold Qdiv. ring.
Qed.

Lemma group_of_length (n : nat) (flat : list Q) (i : nat) :
  length (group_of n flat i) = n.
Proof. unfold group_of. now rewrite length_map, length_seq. Qed.

Lemma inject_Z_pred_nonzero (n : nat) :
  (1 < n)%nat -> ~ inject_Z (Z.of_nat n - 1) == 0.
Proof. intros Hn H. unfold Qeq in H. cbn in H. lia. Qed.

Lemma inject_Z_nonzero (n : nat) :
  (0 < n)%nat -> ~ inject_Z (Z.of_nat n) == 0.
Proof. intros Hn H. unfold Qeq in H. cbn in H. lia. Qed.

(** X9.  Under the rloo policy the shaped reward of a sample is its reward
    minus the mean of its group, scaled by [n / (n - 1)], so the shaped
    rewards of every prompt sum to 0. *)
Theorem rloo_is_scaled_centering :
  forall (args : Args) (experiences : list Experience) (rs : list Tensor)
         (P n : nat),
    advantage_estimator args = "rloo"%string ->
    n_samples_per_prompt args = Z.of_nat n -> (1 < n)%nat ->
    experiences <> [] ->
    Forall2 has_reward experiences rs ->
    length (flat_rewards rs) = (P * n)%nat ->
    exists experiences' rewards',
      process_experiences args experiences
      = Ok (experiences', map PyTensor rewards')
      /\ forall i, (i < P)%nat ->
           Qsum (group_of n (flat_rewards rewards') i) == 0
           /\ forall j, (j < n)%nat ->
                nth j (group_of n (flat_rewards rewards') i) 0
                == inject_Z (Z.of_nat n) / inject_Z (Z.of_nat n - 1)
                   * (nth j (group_of n (flat_rewards rs) i) 0
                      - mean (group_of n (flat_rewards rs) i)).
Proof.
  intros args experiences rs P n Hest Hn Hn1 Hne Hrs Hlen.
  destruct (rloo_run args experiences rs P n Hest Hn Hn1 Hne Hrs Hlen)
    as (es' & _ & _ & Hrun & _ & Hshaped).
  destruct (chunk_concat
              (mkTensor [(P * n)%nat] (rloo_shaped n P (flat_rewards rs)))
              (length experiences))
    as (pieces & Hchunk & Hpieces).
  { destruct experiences; [congruence|discriminate]. }
  rewrite Hchunk in Hrun. cbn [bind data] in Hrun, Hpieces.
  exists es', pieces. split; [exact Hrun|].
  intros i Hi. unfold flat_rewards at 1 2. rewrite Hpieces.
  set (group := group_of n (flat_rewards rs) i).
  set (c := inject_Z (Z.of_nat n - 1)).
  assert (Hc : ~ c == 0) by now apply inject_Z_pred_nonzero.
  assert (Hnn : ~ inject_Z (Z.of_nat n) == 0)
    by (apply inject_Z_nonzero; lia).
  assert (Hcn : inject_Z (Z.of_nat n) == c + 1).
  { unfold c. unfold Zminus. rewrite inject_Z_plus.
    change (inject_Z (- (1))) with (- (1)). ring. }
  assert (Hgroup : group_of n (rloo_shaped n P (flat_rewards rs)) i
                   = map (fun x => x - (Qsum group - x) / c) group).
  { unfold group_of at 1. unfold group, group_of at 2. rewrite map_map.
    apply map_ext_in. intros k Hk. apply in_seq in Hk.
    rewrite (Hshaped i k Hi) by lia. fold group.
    unfold group, group_of. now rewrite nth_map_seq by lia. }
  assert (Hlg : length group = n) by apply group_of_length.
  rewrite Hgroup. split.
  - rewrite Qsum_leave_one_out, Hlg, Hcn. field. exact Hc.
  - intros j Hj.
    rewrite (@nth_map_lt _ _ _ _ j 0 0) by lia.
    unfold mean. rewrite Hlg. fold c. rewrite Hcn.
    assert (Hc1 : ~ c + 1 == 0) by now rewrite <- Hcn.
    field. split; assumption.
Qed.

(** The two micro-batches [1, 2] and [3, 6] of one prompt with four samples:
    the mean is 3 and the shaped rewards are 4/3 of the differences. *)
Lemma rloo_is_scaled_centering_witness :
  exists experiences' rewards',
    process_experiences (args_of "rloo" 4) [pair_12; pair_36]
    = Ok (experiences', map PyTensor rewards')
    /\ Qsum (group_of 4 (flat_rewards rewards') 0) == 0
    /\ nth 3 (group_of 4 (flat_rewards rewards') 0) 0 == 4.
Proof.
  destruct (rloo_is_scaled_centering (args_of "rloo" 4) [pair_12; pair_36]
              [vector [1; 2]; vector [3; 6]] 1 4)
    as (es & rewards' & Hrun & Hall).
  - reflexivity.
  - reflexivity.
  - lia.
  - discriminate.
  - repeat constructor.
  - reflexivity.
  - exists es, rewards'. split; [exact Hrun|].
    destruct (Hall 0%nat ltac:(lia)) as [Hsum Hj].
    split; [exact Hsum|]. rewrite (Hj 3%nat) by lia. reflexivity.
Defined.

Lemma Forall2_of_nth {A B : Type} (R : A -> B -> Prop) (da : A) (db : B) :
  forall l l',
    length l = length l' ->
    (forall i, (i < length l)%nat -> R (nth i l da) (nth i l' db)) ->
    Forall2 R l l'.
Proof.
  induction l as [|a l IH]; intros [|b l'] Hlen Hnth;
    try discriminate; constructor.
  - apply (Hnth 0%nat). cbn. lia.
  - apply IH; [now injection Hlen|].
    intros i Hi. apply (Hnth (S i)). cbn. lia.
Qed.

Lemma length_concat_uniform {A : Type} (b : nat) (ls : list (list A)) :
  Forall (fun l => length l = b) ls ->
  length (concat ls) = (length ls * b)%nat.
Proof.
  induction 1 as [|l ls Hl _ IH]; cbn; [reflexivity|].
  rewrite length_app, IH, Hl. reflexivity.
Qed.

(** [chunk] of [k * b] elements in [k] pieces: the [k] blocks of [b]. *)
Lemma chunk_even (l : list Q) (k b : nat) :
  (0 < k)%nat -> (0 < b)%nat -> length l = (k * b)%nat ->
  chunk (mkTensor [length l] l) k
  = Ok (map (fun piece => mkTensor [length piece] piece) (chunks b k l)).
Proof.
  intros Hk Hb Hl. unfold chunk. cbn [data].
  destruct (Nat.eqb_spec k 0); [lia|]. rewrite Hl.
  replace ((k * b + k - 1) / k)%nat with b.
  2:{ replace (k * b + k - 1)%nat with (b * k + (k - 1))%nat by lia.
      rewrite Nat.div_add_l by lia. rewrite Nat.div_small by lia. lia. }
  destruct (Nat.eqb_spec b 0); [lia|].
  replace ((k * b + b - 1) / b)%nat with k.
  2:{ replace (k * b + b - 1)%nat with (k * b + (b - 1))%nat by lia.
      rewrite Nat.div_add_l by lia. rewrite Nat.div_small by lia. lia. }
  reflexivity.
Qed.

(** X10.  Under the rloo policy, when every micro-batch holds the same
    number [b] of samples, [process_experiences] returns the experiences
    in their order, each with its ["acc_info"] entry set from its own
    reward, and one reward tensor per experience, each of [b] elements: the
    shaped rewards of the samples of that experience, in their order. *)
Theorem rloo_rewards_follow_equal_batches :
  forall (args : Args) (experiences : list Experience) (rs : list Tensor)
         (P n b : nat),
    advantage_estimator args = "rloo"%string ->
    n_samples_per_prompt args = Z.of_nat n -> (1 < n)%nat ->
    experiences <> [] ->
    Forall2 has_reward experiences rs ->
    length (flat_rewards rs) = (P * n)%nat ->
    (0 < b)%nat -> Forall (fun r => length (data r) = b) rs ->
    exists experiences' rewards',
      process_experiences args experiences
      = Ok (experiences', map PyTensor rewards')
      /\ experiences' = with_acc_info experiences rs
      /\ length experiences' = length experiences
      /\ Forall2
           (fun r r' => is_vector r' /\ length (data r') = length (data r))
           rs rewards'
      /\ forall e j, (e < length experiences)%nat -> (j < b)%nat ->
           nth j (data (nth e rewards' (vector []))) 0
           = nth (e * b + j) (rloo_shaped n P (flat_rewards rs)) 0.
Proof.
  intros args experiences rs P n b Hest Hn Hn1 Hne Hrs Hlen Hb Hall.
  destruct (rloo_run args experiences rs P n Hest Hn Hn1 Hne Hrs Hlen)
    as (es' & Hwith & Hes' & Hrun & Hshaped & _).
  pose proof (Forall2_length Hrs) as Hk.
  assert (Hflat : length (flat_rewards rs) = (length rs * b)%nat).
  { unfold flat_rewards. rewrite <- (length_map data rs).
    apply length_concat_uniform. apply Forall_map. exact Hall. }
  set (shaped := rloo_shaped n P (flat_rewards rs)) in *.
  set (k := length experiences) in *.
  assert (Hk0 : (0 < k)%nat).
  { unfold k. destruct experiences; [congruence|cbn; lia]. }
  assert (Hsk : length shaped = (k * b)%nat) by lia.
  rewrite <- Hshaped in Hrun.
  rewrite (chunk_even shaped k b Hk0 Hb Hsk) in Hrun. cbn [bind] in Hrun.
  eexists es', _. split; [exact Hrun|]. split; [exact Hwith|].
  split; [exact Hes'|].
  pose proof (chunks_row_length b k shaped Hsk) as Hrows.
  split.
  - apply (Forall2_of_nth _ (vector []) (vector [])).
    + now rewrite length_map, chunks_length.
    + intros i Hi.
      rewrite (@nth_map_lt _ _ _ _ i [] (vector []))
        by (rewrite chunks_length; lia).
      unfold is_vector. cbn [shape data]. split; [reflexivity|].
      rewrite Forall_forall in Hrows, Hall.
      rewrite (Hrows (nth i (chunks b k shaped) []))
        by (apply nth_In; rewrite chunks_length; lia).
      symmetry. apply Hall. now apply nth_In.
  - intros e j He Hj.
    rewrite (@nth_map_lt _ _ _ _ e [] (vector []))
      by (rewrite chunks_length; lia).
    cbn [data]. rewrite nth_chunks by lia.
    now rewrite firstn_skipn_nth by lia.
Qed.

Lemma rloo_rewards_follow_equal_batches_witness :
  exists experiences' rewards',
    process_experiences (args_of "rloo" 4) [pair_12; pair_36]
    = Ok (experiences', map PyTensor rewards')
    /\ experiences'
       = with_acc_info [pair_12; pair_36] [vector [1; 2]; vector [3; 6]]
    /\ length experiences' = 2%nat
    /\ Forall2
         (fun r r' => is_vector r' /\ length (data r') = length (data r))
         [vector [1; 2]; vector [3; 6]] rewards'
    /\ forall e j, (e < 2)%nat -> (j < 2)%nat ->
         nth j (data (nth e rewards' (vector []))) 0
         = nth (e * 2 + j)
             (rloo_shaped 4 1 (flat_rewards [vector [1; 2]; vector [3; 6]]))
             0.
Proof.
  apply (rloo_rewards_follow_equal_batches (args_of "rloo" 4)
           [pair_12; pair_36] [vector [1; 2]; vector [3; 6]] 1 4 2).
  - reflexivity.
  - reflexivity.
  - lia.
  - discriminate.
  - repeat constructor.
  - reflexivity.
  - lia.
  - repeat constructor.
Defined.

(** With micro-batches of four and of two samples the six shaped rewards
    come back in two tensors of three: the last reward of the first
    experience goes to the second one. *)
Example rloo_uneven_batches :
  exists experiences',
    process_experiences (args_of "rloo" 2) [four_samples; two_samples]
    = Ok (experiences',
          [PyTensor (vector [-1; 1; -1]); PyTensor (vector [1; -1; 1])]).
Proof. eexists. vm_compute. reflexivity. Qed.

(** *** The advantage stage *)

(** One step through a computation that returned. *)
Ltac returned H :=
  match type of H with
  | bind ?m _ = Ok _ =>
      let E := fresh "E" in
      destruct m eqn:E; cbn [bind] in H; [|discriminate H]
  | (let '(_, _) := ?p in _) = Ok _ => destruct p
  | (if ?c then _ else _) = Ok _ => destruct c eqn:?
  | match ?m with Some _ => _ | None => _ end = Ok _ =>
      let E := fresh "E" in destruct m eqn:E
  end.

(** The group statistics are entered in [info] by assignments. *)
Lemma group_norm_reward_NoDup args sqrt reward info reward' info' :
  group_norm_reward args sqrt reward info = Ok (reward', info') ->
  NoDup (keys info) -> NoDup (keys info').
Proof.
  unfold group_norm_reward. intros Hrun Hnd.
  destruct (negb (n_samples_per_prompt args >? 1)%Z); [discriminate|].
  do 5 returned Hrun.
  match type of Hrun with
  | bind ?m _ = _ => destruct m as [[shaped info1]|] eqn:Eif
  end; cbn [bind] in Hrun; [|discriminate].
  assert (Hnd1 : NoDup (keys info1)).
  { destruct (3 <=? _)%nat.
    - returned Eif. injection Eif as _ <-. now repeat apply setitem_NoDup.
    - injection Eif as _ <-. now apply setitem_NoDup. }
  do 4 returned Hrun.
  match type of Hrun with
  | bind ?m _ = _ => destruct m as [info2|] eqn:Elm
  end; cbn [bind] in Hrun; [|discriminate].
  injection Hrun as _ <-.
  returned Elm.
  - returned Elm. injection Elm as <-. now repeat apply setitem_NoDup.
  - injection Elm as <-. now repeat apply setitem_NoDup.
Qed.

(** The group statistics leave the other entries of [info] as they were,
    and are in [info] afterwards. *)
Lemma group_norm_reward_entries args sqrt reward info reward' info' :
  group_norm_reward args sqrt reward info = Ok (reward', info') ->
  (forall k, ~ In k group_entries -> lookup info' k = lookup info k)
  /\ Forall (fun k => lookup info' k <> None) group_statistics.
Proof.
  unfold group_norm_reward. intros Hrun.
  destruct (negb (n_samples_per_prompt args >? 1)%Z); [discriminate|].
  do 5 returned Hrun.
  match type of Hrun with
  | bind ?m _ = _ => destruct m as [[shaped info1]|] eqn:Eif
  end; cbn [bind] in Hrun; [|discriminate].
  assert (Hinfo1 :
    (forall k, ~ In k group_entries -> lookup info1 k = lookup info k)
    /\ lookup info1 "acc"%string <> None).
  { destruct (3 <=? _)%nat.
    - returned Eif. injection Eif as _ <-. split.
      + intros k Hk.
        repeat (rewrite lookup_setitem;
                rewrite key_eqb_neq by (intros ->; apply Hk; cbn; tauto)).
        reflexivity.
      + lookup_past_setitem. discriminate.
    - injection Eif as _ <-. split.
      + intros k Hk.
        repeat (rewrite lookup_setitem;
                rewrite key_eqb_neq by (intros ->; apply Hk; cbn; tauto)).
        reflexivity.
      + lookup_past_setitem. discriminate. }
  destruct Hinfo1 as [Hkeep1 Hacc].
  do 4 returned Hrun.
  match type of Hrun with
  | bind ?m _ = _ => destruct m as [info2|] eqn:Elm
  end; cbn [bind] in Hrun; [|discriminate].
  injection Hrun as _ <-.
  assert (Hacc' : forall (d : dict string pyval) k v,
            k <> "acc"%string ->
            lookup d "acc"%string <> None ->
            lookup (setitem d k v) "acc"%string <> None).
  { intros d k v Hk Hd. rewrite lookup_setitem.
    rewrite key_eqb_neq by congruence. exact Hd. }
  returned Elm; [returned Elm|]; injection Elm as <-; split;
    try (intros k Hk;
         repeat (rewrite lookup_setitem;
                 rewrite key_eqb_neq by (intros ->; apply Hk; cbn; tauto));
         now apply Hkeep1);
    repeat constructor;
    try (lookup_past_setitem; discriminate);
    repeat (apply Hacc'; [discriminate|]); exact Hacc.
Qed.

(** X11.  An iteration of the advantage loop that returns leaves the
    experience without [kl] and without its ["num_actions"] entry, with a
    ["return"] entry, and with the attributes of the rollout as they were.
    The other entries of [info] are as they were, except that under
    group_norm and reinforce++ the group statistics are written: ["acc"],
    ["reward"], ["length_reward"], ["label_reward"], ["reward_std"],
    ["completion_ratio"] and ["completion_length"] are then in [info], and
    ["pattern_reward"] and ["learn_mask"] may be assigned.  For every
    estimator but gae the advantages are the returns.  (A dictionary has
    no repeated key.) *)
Theorem advantage_step_finishes_experience :
  forall (args : Args) (sqrt : Q -> Q)
         (compute_reward : pyval -> pyval -> pyval -> pyval -> result pyval)
         (experience experience' : Experience) (reward : pyval),
    NoDup (keys (info experience)) ->
    advantage_step args sqrt compute_reward experience reward
    = Ok experience' ->
    finished experience' /\ same_rollout experience experience'
    /\ kept_entries args experience experience'
    /\ has_group_statistics args experience'
    /\ (String.eqb (advantage_estimator args) "gae" = false ->
        advantages experience' = returns experience').
Proof.
  intros args sqrt compute_reward experience experience' reward Hnd Hrun.
  unfold advantage_step in Hrun. returned Hrun.
  match type of Hrun with
  | bind ?m _ = _ => destruct m as [[reward1 info1]|] eqn:Egroup
  end; cbn [bind] in Hrun; [|discriminate].
  assert (Hnd1 : NoDup (keys info1)).
  { destruct (estimator_in _ ["group_norm"; "reinforce++"]%string).
    - exact (group_norm_reward_NoDup _ _ _ _ _ _ Egroup Hnd).
    - now injection Egroup as _ <-. }
  assert (Hentries :
    (forall k, (with_group_statistics args = true -> ~ In k group_entries) ->
               lookup info1 k = lookup (info experience) k)
    /\ (with_group_statistics args = true ->
        Forall (fun k => lookup info1 k <> None) group_statistics)).
  { unfold with_group_statistics.
    destruct (estimator_in _ ["group_norm"; "reinforce++"]%string).
    - destruct (group_norm_reward_entries _ _ _ _ _ _ Egroup)
        as [Hkeep Hstats].
      split; [intros k Hk; apply Hkeep; now apply Hk|intros _; exact Hstats].
    - injection Egroup as _ <-. split; [reflexivity|discriminate]. }
  destruct Hentries as [Hkeep Hstats].
  returned Hrun.
  match type of Hrun with
  | bind ?m _ = _ => destruct m as [[advantages1 returns1]|] eqn:Eest
  end; cbn [bind] in Hrun; [|discriminate].
  returned Hrun. injection Hrun as <-.
  split; [|split; [|split; [|split]]].
  - unfold finished. cbn [kl info]. split; [reflexivity|]. split.
    + apply lookup_remove_same. now apply setitem_NoDup.
    + rewrite lookup_remove_other by discriminate.
      rewrite lookup_setitem, key_eqb_refl. discriminate.
  - unfold same_rollout. cbn. repeat split.
  - intros k Hret Hnum Hk. cbn [info].
    rewrite lookup_remove_other by exact Hnum.
    rewrite lookup_setitem, key_eqb_neq by exact Hret.
    now apply Hkeep.
  - intros Hgroup. cbn [info]. specialize (Hstats Hgroup).
    rewrite Forall_forall in *. intros k Hin.
    assert (Hk : k <> "return"%string /\ k <> "num_actions"%string).
    { cbn in Hin. intuition (subst; discriminate). }
    rewrite lookup_remove_other by apply Hk.
    rewrite lookup_setitem, key_eqb_neq by apply Hk.
    now apply Hstats.
  - intros Hgae. cbn [advantages returns]. rewrite Hgae in Eest.
    repeat (returned Eest; try discriminate);
      now injection Eest as <- <-.
Qed.

Lemma advantage_step_finishes_experience_witness :
  exists experience',
    advantage_step (args_of "group_norm" 4) sqrt_approx reward_as_is
      grouped_four (PyTensor (mkTensor [4; 2]%nat [1; 0; 2; 0; 3; 0; 4; 0]))
    = Ok experience'
    /\ finished experience' /\ same_rollout grouped_four experience'
    /\ lookup (info experience') "total_length"%string
       = lookup (info grouped_four) "total_length"%string
    /\ Forall (fun k => lookup (info experience') k <> None) group_statistics
    /\ advantages experience' = returns experience'.
Proof.
  set (run := advantage_step (args_of "group_norm" 4) sqrt_approx
                reward_as_is grouped_four
                (PyTensor (mkTensor [4; 2]%nat [1; 0; 2; 0; 3; 0; 4; 0]))).
  destruct run as [experience'|] eqn:Hrun; [|discriminate].
  exists experience'. split; [reflexivity|].
  destruct (advantage_step_finishes_experience (args_of "group_norm" 4)
              sqrt_approx reward_as_is grouped_four experience'
              (PyTensor (mkTensor [4; 2]%nat [1; 0; 2; 0; 3; 0; 4; 0])))
    as (Hfin & Hsame & Hkept & Hstats & Hadv).
  - repeat constructor; cbn; intuition discriminate.
  - exact Hrun.
  - split; [exact Hfin|]. split; [exact Hsame|]. split.
    + apply Hkept; try discriminate.
      intros _. cbn. intuition discriminate.
    + split; [now apply Hstats|now apply Hadv].
Defined.

(** Under reinforce the entries of [info] other than ["return"] and
    ["num_actions"] are as they were. *)
Example advantage_step_reinforce_keeps_reward :
  match
    advantage_step (args_of "reinforce" 1) sqrt_approx reward_as_is
      scored_pair (PyTensor (mkTensor [2; 1]%nat [1; 2]))
  with
  | Ok experience' =>
      lookup (info experience') "reward"%string
      = lookup (info scored_pair) "reward"%string
  | Raise _ => False
  end.
Proof. reflexivity. Qed.

(** X12.  A rollout without a micro-batch never returns the empty list:
    once generation and the barrier are through, [make_experience_list]
    raises; [torch.cat] refuses the empty list under rloo, the integer that
    [sum] returns has no [info] under group_norm, and [experiences[0]] is
    out of range otherwise. *)
Theorem empty_rollout_raises :
  forall (args : Args) (sqrt : Q -> Q)
         (compute_reward : pyval -> pyval -> pyval -> pyval -> result pyval)
         (Prompts Samples : Type)
         (generate_samples : Prompts -> result (list Samples))
         (broadcast_object_list : result (list Samples))
         (make_experience : Samples -> result Experience)
         (all_prompts : Prompts),
    incoming_samples args generate_samples broadcast_object_list all_prompts
    = Ok [] ->
    make_experience_list args sqrt compute_reward generate_samples
      broadcast_object_list make_experience all_prompts
    = (remote_work args 0,
       Raise (empty_rollout_error (advantage_estimator args))).
Proof.
  intros args sqrt compute_reward Prompts Samples generate_samples
    broadcast_object_list make_experience all_prompts Hin.
  rewrite (remote_work_first args sqrt compute_reward Prompts Samples
             generate_samples broadcast_object_list make_experience
             all_prompts [] [] Hin (Forall2_nil _)).
  cbn [length]. f_equal.
  unfold local_stage, process_experiences, empty_rollout_error.
  destruct (String.eqb (advantage_estimator args) "rloo"); [reflexivity|].
  unfold estimator_in. cbn [existsb]. rewrite orb_false_r.
  destruct (String.eqb (advantage_estimator args) "group_norm"); reflexivity.
Qed.

Lemma empty_rollout_raises_witness :
  make_experience_list (args_of "group_norm" 4) sqrt_approx reward_as_is
    (fun _ : unit => Ok []) (Ok []) score_batch_of_two tt
  = ([EvGenerate; EvBarrier], Raise AttributeError).
Proof.
  apply (empty_rollout_raises (args_of "group_norm" 4) sqrt_approx
           reward_as_is unit nat (fun _ : unit => Ok []) (Ok [])
           score_batch_of_two tt).
  reflexivity.
Defined.

(** X13.  Under group_norm the returns of a sample are its reward on every
    action: for a list of log-probability tensors and a 1-d reward,
    [zip] pairs them up to the shorter of the two, and the tensor returned
    for a pair has the sizes of the log-probabilities with a leading 1 and
    the reward of the sample in every element. *)
Theorem group_reward_covers_every_action :
  forall (logps : list Tensor) (reward : Tensor),
    is_vector reward ->
    exists rets,
      broadcast_group_reward (PyList (map PyTensor logps)) (PyTensor reward)
      = Ok (PyList (map PyTensor rets))
      /\ Forall2
           (fun (pair : Tensor * Q) (ret : Tensor) =>
              shape ret = 1%nat :: shape (fst pair)
              /\ length (data ret) = numel (shape (fst pair))
              /\ Forall (fun x => x == snd pair) (data ret))
           (combine logps (data reward)) rets.
Proof.
  intros logps reward _. unfold broadcast_group_reward. cbn [as_tensor bind].
  generalize (data reward) as rs.
  assert (H : forall rs, exists rets,
            map_result
              (fun '(logps, r) =>
                 logps <- as_tensor logps ;;
                 Ok (PyTensor (ones_times (unsqueeze0 logps) r)))
              (combine (map PyTensor logps) rs)
            = Ok (map PyTensor rets)
            /\ Forall2
                 (fun (pair : Tensor * Q) (ret : Tensor) =>
                    shape ret = 1%nat :: shape (fst pair)
                    /\ length (data ret) = numel (shape (fst pair))
                    /\ Forall (fun x => x == snd pair) (data ret))
                 (combine logps rs) rets).
  { induction logps as [|l logps IH]; intros rs.
    - exists []. split; [reflexivity|constructor].
    - destruct rs as [|r rs]; [exists []; split; [reflexivity|constructor]|].
      destruct (IH rs) as (rets & Hrun & Hall).
      exists (ones_times (unsqueeze0 l) r :: rets).
      cbn [map combine map_result as_tensor bind]. rewrite Hrun.
      cbn [bind]. split; [reflexivity|]. constructor; [|exact Hall].
      unfold ones_times, ones_like, unsqueeze0. cbn [shape data fst snd].
      split; [reflexivity|]. split.
      + rewrite length_map, repeat_length.
        change (numel (1%nat :: shape l)) with (1 * numel (shape l))%nat.
        lia.
      + apply Forall_map, Forall_forall. intros x Hx.
        apply repeat_spec in Hx. subst x. ring. }
  intros rs. destruct (H rs) as (rets & -> & Hall). cbn [bind].
  exists rets. now split.
Qed.

Lemma group_reward_covers_every_action_witness :
  exists rets,
    broadcast_group_reward (PyList (map PyTensor packed_logps))
      (PyTensor (vector [7; -7]))
    = Ok (PyList (map PyTensor rets))
    /\ Forall2
         (fun (pair : Tensor * Q) (ret : Tensor) =>
            shape ret = 1%nat :: shape (fst pair)
            /\ length (data ret) = numel (shape (fst pair))
            /\ Forall (fun x => x == snd pair) (data ret))
         (combine packed_logps [7; -7]) rets.
Proof.
  apply (group_reward_covers_every_action packed_logps (vector [7; -7])).
  reflexivity.
Defined.

(** *** The merge of a rollout *)

(** [sum] goes on from an experience with [+]. *)
Lemma sum_from_experience (f : field) :
  forall (rest : list Experience) (ts : list Tensor) (acc merged : Experience)
         (ta : Tensor),
    for_each rest (fun acc e => plus acc (ObjExperience e))
      (ObjExperience acc) = Ok (ObjExperience merged) ->
    getattr acc f = PyTensor ta ->
    Forall2 (fun e t => getattr e f = PyTensor t) rest ts ->
    exists t,
      getattr merged f = PyTensor t
      /\ data t = data ta ++ concat (map data ts)
      /\ forall ba bs,
           size0 ta = Ok ba -> Forall2 (fun t b => size0 t = Ok b) ts bs ->
           size0 t = Ok (ba + list_sum bs)%nat.
Proof.
  induction rest as [|e rest IH]; intros ts acc merged ta Hrun Ha Hts.
  - inversion Hts; subst. cbn in Hrun. injection Hrun as <-.
    exists ta. split; [exact Ha|]. split; [cbn; now rewrite app_nil_r|].
    intros ba bs Hba Hbs. inversion Hbs; subst. cbn.
    now rewrite Nat.add_0_r.
  - inversion Hts as [|? t1 ? ts' He Hrest]; subst.
    cbn [for_each plus] in Hrun.
    destruct (Experience_add acc (ObjExperience e)) as [[|acc']|] eqn:Eadd;
      cbn [bind] in Hrun; try discriminate.
    destruct (Experience_add_inv _ _ _ Eadd) as [_ Hfields].
    specialize (Hfields f). rewrite Ha, He in Hfields.
    destruct (conditional_cat_tensors _ _ _ Hfields)
      as (t' & Ht' & _ & Hd' & Hs').
    destruct (IH ts' acc' merged t' Hrun Ht' Hrest)
      as (t & Ht & Hd & Hs).
    exists t. split; [exact Ht|]. split.
    + rewrite Hd, Hd'. cbn [map concat]. now rewrite app_assoc.
    + intros ba bs Hba Hbs. inversion Hbs as [|? b1 ? bs' Hb1 Hbs']; subst.
      rewrite (Hs (ba + b1)%nat bs' (Hs' _ _ Hba Hb1) Hbs').
      change (list_sum (b1 :: bs')) with (b1 + list_sum bs')%nat.
      f_equal. lia.
Qed.

(** X14.  Under the group_norm policy [process_experiences], when it
    returns, hands on exactly one experience, the [sum] of the rollout, and
    one reward, the ["reward"] entry of that experience; every attribute
    that is a tensor in all the micro-batches is their concatenation along
    dimension 0, in the order of the rollout, so its batch size is the sum
    of theirs. *)
Theorem group_norm_merges_rollout :
  forall (args : Args) (experiences experiences' : list Experience)
         (rewards : list pyval),
    advantage_estimator args = "group_norm"%string ->
    process_experiences args experiences = Ok (experiences', rewards) ->
    exists merged reward,
      experiences' = [merged] /\ rewards = [reward]
      /\ lookup (info merged) "reward"%string = Some reward
      /\ ExperienceModel.sum experiences = Ok (ObjExperience merged)
      /\ forall f ts,
           Forall2 (fun e t => getattr e f = PyTensor t) experiences ts ->
           exists t,
             getattr merged f = PyTensor t
             /\ data t = concat (map data ts)
             /\ forall bs,
                  Forall2 (fun t b => size0 t = Ok b) ts bs ->
                  size0 t = Ok (list_sum bs).
Proof.
  intros args experiences experiences' rewards Hest Hrun.
  unfold process_experiences in Hrun. rewrite Hest in Hrun.
  cbn [String.eqb Ascii.eqb Bool.eqb estimator_in existsb orb] in Hrun.
  destruct (ExperienceModel.sum experiences) as [[z|merged]|] eqn:Esum;
    cbn [bind] in Hrun; try discriminate.
  unfold getitem in Hrun.
  destruct (lookup (info merged) "reward"%string) as [reward|] eqn:Er;
    cbn [bind] in Hrun; [|discriminate].
  injection Hrun as <- <-.
  exists merged, reward. repeat (split; [reflexivity || assumption|]).
  intros f ts Hts. unfold ExperienceModel.sum in Esum.
  destruct experiences as [|e rest]; [discriminate|].
  inversion Hts as [|? t1 ? ts' He Hrest]; subst.
  cbn [for_each plus Experience_radd bind] in Esum.
  destruct (sum_from_experience f rest ts' e merged t1 Esum He Hrest)
    as (t & Ht & Hd & Hs).
  exists t. split; [exact Ht|]. split; [exact Hd|].
  intros bs Hbs. inversion Hbs as [|? b1 ? bs' Hb1 Hbs']; subst.
  exact (Hs b1 bs' Hb1 Hbs').
Qed.

Lemma group_norm_merges_rollout_witness :
  exists merged reward,
    process_experiences (args_of "group_norm" 5)
      [batch_of_two; batch_of_three]
    = Ok ([merged], [reward])
    /\ lookup (info merged) "reward"%string = Some reward
    /\ exists t,
         sequences merged = PyTensor t /\ size0 t = Ok 5%nat.
Proof.
  set (run := process_experiences (args_of "group_norm" 5)
                [batch_of_two; batch_of_three]).
  destruct run as [[experiences' rewards]|] eqn:Hrun; [|discriminate].
  destruct (group_norm_merges_rollout (args_of "group_norm" 5)
              [batch_of_two; batch_of_three] experiences' rewards
              eq_refl Hrun)
    as (merged & reward & -> & -> & Hreward & _ & Hfields).
  exists merged, reward. split; [reflexivity|]. split; [exact Hreward|].
  destruct (Hfields Fsequences
              [mkTensor [2; 4]%nat [1; 2; 3; 4; 5; 6; 7; 8];
               mkTensor [3; 4]%nat [1; 2; 3; 4; 5; 6; 7; 8; 9; 10; 11; 12]])
    as (t & Ht & _ & Hsize).
  - repeat constructor.
  - exists t. split; [exact Ht|].
    apply (Hsize [2; 3]%nat). repeat constructor.
Defined.

End StageProofs.

(** ** Engines and their producers *)

Module RoutingProofs.

Import ListFacts ChunkFacts VllmEngine RolloutCollector EngineRouting.
Import RoutingSpec.

(** *** Counting residues *)

Lemma count_eq (i n : nat) :
  length (filter (fun r => (r =? i)%nat) (seq 0 n))
  = if (i <? n)%nat then 1%nat else 0%nat.
Proof.
  induction n as [|n IH]; [reflexivity|].
  rewrite seq_S, filter_app, length_app, IH. cbn [filter Nat.add].
  destruct (Nat.eqb_spec n i) as [E|Hne]; cbn [length];
    destruct (Nat.ltb_spec i n), (Nat.ltb_spec i (S n)); lia.
Qed.

Lemma succ_div_mod (n E : nat) :
  (0 < E)%nat ->
  (S n mod E = 0 /\ S n / E = S (n / E) /\ n mod E = E - 1)%nat
  \/ (S n mod E = S (n mod E) /\ S n / E = n / E)%nat.
Proof.
  intros HE.
  pose proof (Nat.div_mod_eq n E) as Hn.
  pose proof (Nat.mod_upper_bound n E ltac:(lia)) as Hm.
  destruct (Nat.eq_dec (n mod E) (E - 1)) as [Hlast|Hmid].
  - left. assert (HS : S n = (E * S (n / E) + 0)%nat) by nia.
    split; [|split; [|exact Hlast]].
    + symmetry. apply (Nat.mod_unique (S n) E (S (n / E)) 0); lia.
    + symmetry. apply (Nat.div_unique (S n) E (S (n / E)) 0); lia.
  - right. assert (HS : S n = (E * (n / E) + S (n mod E))%nat) by nia.
    split.
    + symmetry. apply (Nat.mod_unique (S n) E (n / E) (S (n mod E))); lia.
    + symmetry. apply (Nat.div_unique (S n) E (n / E) (S (n mod E))); lia.
Qed.

(** Among [0 .. n-1] the residue [i] modulo [E] is taken [n / E] times, and
    once more when [i < n mod E]. *)
Lemma count_residue (E i n : nat) :
  (0 < E)%nat -> (i < E)%nat ->
  length (filter (fun r => (r mod E =? i)%nat) (seq 0 n))
  = (n / E + if (i <? n mod E)%nat then 1 else 0)%nat.
Proof.
  intros HE Hi. induction n as [|n IH].
  - rewrite Nat.Div0.div_0_l, Nat.Div0.mod_0_l. reflexivity.
  - rewrite seq_S, filter_app, length_app, IH. cbn [filter Nat.add].
    destruct (succ_div_mod n E HE) as [(Hm & Hd & Hl)|(Hm & Hd)];
      rewrite Hm, Hd.
    + rewrite Hl. destruct (Nat.eqb_spec (E - 1) i); cbn [length];
        destruct (Nat.ltb_spec i (E - 1)); cbn; lia.
    + destruct (Nat.eqb_spec (n mod E) i); cbn [length];
        destruct (Nat.ltb_spec i (n mod E));
        destruct (Nat.ltb_spec i (S (n mod E))); lia.
Qed.

(** *** The engines of a rank *)

Lemma NoDup_map_injective {A B : Type} (f : A -> B) (l : list A) :
  (forall a b, In a l -> In b l -> f a = f b -> a = b) ->
  NoDup l -> NoDup (map f l).
Proof.
  intros Hinj. induction 1 as [|a l Ha _ IH]; cbn [map]; constructor.
  - intros Hin. apply in_map_iff in Hin. destruct Hin as (b & Hb & Hin).
    apply Ha. rewrite <- (Hinj b a); auto; [now right|now left].
  - apply IH. intros x y Hx Hy. apply Hinj; now right.
Qed.

Lemma nth_error_seq0 (E j : nat) :
  (j < E)%nat -> nth_error (seq 0 E) j = Some j.
Proof.
  intros Hj. rewrite (nth_error_nth' (seq 0 E) 0%nat) by now rewrite length_seq.
  now rewrite seq_nth.
Qed.

Lemma pick_handles (E : nat) (indices : list nat) :
  Forall (fun j => (j < E)%nat) indices ->
  pick (handles E) (map Z.of_nat indices) = indices.
Proof.
  unfold pick, handles. induction 1 as [|j l Hj _ IH]; cbn [map flat_map];
    [reflexivity|].
  rewrite Nat2Z.id, (nth_error_seq0 E j Hj), IH.
  destruct (Z.leb_spec 0 (Z.of_nat j)); [reflexivity|lia].
Qed.

(** With no more engines than ranks, a rank has the one engine
    [rank % len(engines)]. *)
Lemma select_shared (E W r : nat) :
  (0 < E)%nat -> (E <= W)%nat ->
  select_llms (handles E) (Z.of_nat r) (Z.of_nat W) = Done [(r mod E)%nat].
Proof.
  intros HE HEW. unfold select_llms, handles. rewrite length_seq.
  destruct (Z.leb_spec (Z.of_nat E) (Z.of_nat W)); [|lia].
  unfold modulo. destruct (Z.eqb_spec (Z.of_nat E) 0); [lia|].
  cbn [attempt_bind]. unfold index.
  rewrite <- Nat2Z.inj_mod, Nat2Z.id.
  rewrite nth_error_seq0 by (apply Nat.mod_upper_bound; lia).
  reflexivity.
Qed.

(** With more engines than ranks, a rank has the engines [rank],
    [rank + world_size], ... *)
Lemma select_dedicated (E W r : nat) :
  (0 < W)%nat -> (W < E)%nat -> (r < W)%nat ->
  select_llms (handles E) (Z.of_nat r) (Z.of_nat W)
  = Done (map (fun k => (r + k * W)%nat) (seq 0 ((E - r + W - 1) / W))).
Proof.
  intros HW HWE Hr. unfold select_llms. unfold handles at 1.
  rewrite length_seq.
  destruct (Z.leb_spec (Z.of_nat E) (Z.of_nat W)); [lia|].
  unfold slice_step. destruct (Z.eqb_spec (Z.of_nat W) 0); [lia|].
  f_equal. unfold handles at 2. rewrite length_seq. fold (handles E).
  unfold slice_indices.
  destruct (Z.ltb_spec 0 (Z.of_nat W)); [|lia].
  destruct (Z.ltb_spec (Z.of_nat r) 0); [lia|].
  rewrite Z.min_l by lia. unfold range.
  replace (Z.of_nat E - Z.of_nat r + Z.of_nat W - 1)%Z
    with (Z.of_nat (E - r + W - 1)) by lia.
  rewrite <- Nat2Z.inj_div, Nat2Z.id, map_map.
  rewrite (map_ext _ (fun k => Z.of_nat (r + k * W)))
    by (intros; lia).
  rewrite <- map_map. apply pick_handles.
  apply Forall_map, Forall_forall. intros k Hk. apply in_seq in Hk.
  assert (Hlt : (k < (E - r + W - 1) / W)%nat) by lia.
  assert (Hmul : (W * S k <= E - r + W - 1)%nat).
  { pose proof (Nat.Div0.mul_div_le (E - r + W - 1) W). nia. }
  nia.
Qed.

Lemma routes_to_shared (E W r i : nat) :
  (0 < E)%nat -> (E <= W)%nat ->
  routes_to (handles E) (Z.of_nat W) (Z.of_nat r) i = (r mod E =? i)%nat.
Proof.
  intros HE HEW. unfold routes_to. rewrite select_shared by assumption.
  cbn [existsb]. rewrite orb_false_r. apply Nat.eqb_sym.
Qed.

Lemma routes_to_dedicated (E W r i : nat) :
  (0 < W)%nat -> (W < E)%nat -> (r < W)%nat -> (i < E)%nat ->
  routes_to (handles E) (Z.of_nat W) (Z.of_nat r) i = (r =? i mod W)%nat.
Proof.
  intros HW HWE Hr Hi. unfold routes_to.
  rewrite select_dedicated by assumption.
  destruct (Nat.eqb_spec r (i mod W)) as [->|Hne].
  - apply existsb_exists. exists i. split; [|apply Nat.eqb_refl].
    apply in_map_iff. exists (i / W)%nat. split.
    + pose proof (Nat.div_mod_eq i W). nia.
    + apply in_seq. split; [lia|]. cbn [Nat.add].
      pose proof (Nat.div_mod_eq i W) as Hdm.
      pose proof (Nat.mod_upper_bound i W ltac:(lia)) as Hm.
      apply Nat.div_le_lower_bound; [lia|]. nia.
  - destruct (existsb _ _) eqn:Ex; [|reflexivity].
    apply existsb_exists in Ex. destruct Ex as (j & Hj & Hij).
    apply Nat.eqb_eq in Hij. subst j.
    apply in_map_iff in Hj. destruct Hj as (k & Hk & _).
    exfalso. apply Hne. rewrite <- Hk.
    rewrite Nat.Div0.mod_add. symmetry. now apply Nat.mod_small.
Qed.

(** How many ranks route to an engine. *)
Lemma producers_count (E W i : nat) :
  (0 < E)%nat -> (0 < W)%nat -> (i < E)%nat ->
  producers_of (handles E) W i
  = if (E <=? W)%nat
    then (W / E + if (i <? W mod E)%nat then 1 else 0)%nat
    else 1%nat.
Proof.
  intros HE HW Hi. unfold producers_of.
  destruct (Nat.leb_spec E W) as [HEW|HWE].
  - rewrite (filter_ext _ (fun r => (r mod E =? i)%nat))
      by (intros r; now apply routes_to_shared).
    now apply count_residue.
  - rewrite (filter_ext_in _ (fun r => (r =? i mod W)%nat)).
    + rewrite count_eq.
      pose proof (Nat.mod_upper_bound i W ltac:(lia)).
      destruct (Nat.ltb_spec (i mod W) W); [reflexivity|lia].
    + intros r Hr. apply in_seq in Hr.
      apply routes_to_dedicated; lia.
Qed.

Lemma num_actors_counts (E W i : nat) :
  (0 < E)%nat -> (0 < W)%nat -> (i < E)%nat ->
  num_actors_of (Z.of_nat E) (Z.of_nat W) (Z.of_nat i)
  = Z.of_nat (producers_of (handles E) W i).
Proof.
  intros HE HW Hi. rewrite producers_count by assumption.
  unfold num_actors_of.
  destruct (Nat.leb_spec E W) as [HEW|HWE].
  - destruct (Z.geb_spec (Z.of_nat E) (Z.of_nat W)) as [Hge|Hlt].
    + assert (E = W) by lia. subst W.
      rewrite Nat.div_same, Nat.Div0.mod_same by lia. reflexivity.
    + rewrite <- Nat2Z.inj_div, <- Nat2Z.inj_mod.
      destruct (Nat.ltb_spec i (W mod E)), (Z.ltb_spec (Z.of_nat i)
        (Z.of_nat (W mod E))); lia.
  - destruct (Z.geb_spec (Z.of_nat E) (Z.of_nat W)); [reflexivity|lia].
Qed.

Lemma producers_positive (E W i : nat) :
  (0 < E)%nat -> (0 < W)%nat -> (i < E)%nat ->
  (0 < producers_of (handles E) W i)%nat.
Proof.
  intros HE HW Hi. rewrite producers_count by assumption.
  destruct (Nat.leb_spec E W) as [HEW|HWE]; [|lia].
  assert (0 < W / E)%nat by (apply Nat.div_str_pos; lia). lia.
Qed.

(** X15.  Routing agrees with creation: for [E >= 1] engines created for
    [W >= 1] producers, [create_vllm_engines] makes [E] engines, and the
    [num_actors] it gives each engine is the number of ranks among
    [0 .. W-1] whose [_generate_vllm] selects that engine; and every rank
    selects at least one engine, none of them twice. *)
Theorem engines_expect_their_producers :
  forall (get_bundle_indices : Z -> Z -> list Z)
         (tensor_parallel_size seed : Z) (use_hybrid_engine : bool)
         (E W : nat),
    (0 < E)%nat -> (0 < W)%nat ->
    map engine_num_actors
      (create_vllm_engines get_bundle_indices (Z.of_nat E)
         tensor_parallel_size seed (Z.of_nat W) use_hybrid_engine)
    = map (fun i => Z.of_nat (producers_of (handles E) W i)) (handles E)
    /\ (forall r, (r < W)%nat ->
          exists llms,
            select_llms (handles E) (Z.of_nat r) (Z.of_nat W) = Done llms
            /\ llms <> [] /\ NoDup llms
            /\ Forall (fun llm => (llm < E)%nat) llms).
Proof.
  intros gbi tp seed hybrid E W HE HW. split.
  - unfold create_vllm_engines, range, handles.
    rewrite Nat2Z.id, !map_map. cbn [engine_num_actors].
    apply map_ext_in. intros i Hi. apply in_seq in Hi.
    apply num_actors_counts; lia.
  - intros r Hr. destruct (Nat.le_gt_cases E W) as [HEW|HWE].
    + exists [(r mod E)%nat]. split; [now apply select_shared|].
      split; [discriminate|]. split; [repeat constructor; intros []|].
      repeat constructor. apply Nat.mod_upper_bound. lia.
    + eexists. split; [now apply select_dedicated|].
      assert (Hcount : (0 < (E - r + W - 1) / W)%nat).
      { apply Nat.div_str_pos. lia. }
      split; [|split].
      * destruct ((E - r + W - 1) / W)%nat; [lia|discriminate].
      * apply NoDup_map_injective; [|apply seq_NoDup].
        intros a b _ _ Hab. nia.
      * apply Forall_map, Forall_forall. intros k Hk. apply in_seq in Hk.
        assert (Hmul : (W * S k <= E - r + W - 1)%nat).
        { pose proof (Nat.Div0.mul_div_le (E - r + W - 1) W). nia. }
        nia.
Qed.

(** Three engines for eight producers: the first expects the three ranks
    0, 3 and 6, and rank 7 has the engine 1. *)
Lemma engines_expect_their_producers_witness :
  map engine_num_actors
    (create_vllm_engines (fun _ _ => []) 3 1 42 8 false)
  = map (fun i => Z.of_nat (producers_of (handles 3) 8 i)) (handles 3)
  /\ exists llms,
       select_llms (handles 3) 7 8 = Done llms
       /\ llms <> [] /\ NoDup llms
       /\ Forall (fun llm => (llm < 3)%nat) llms.
Proof.
  destruct (engines_expect_their_producers (fun _ _ => []) 1 42 false 3 8
              ltac:(lia) ltac:(lia))
    as [Hcount Hselect].
  split; [exact Hcount|apply (Hselect 7%nat); lia].
Defined.

Example three_engines_for_eight_producers :
  map engine_num_actors (create_vllm_engines (fun _ _ => []) 3 1 42 8 false)
  = [3; 3; 2]%Z
  /\ map seed (create_vllm_engines (fun _ _ => []) 3 1 42 8 false)
     = [42; 43; 44]%Z
  /\ map (producers_of (handles 3) 8) (handles 3) = [3; 3; 2]%nat
  /\ select_llms (handles 3) 7 8 = Done [1%nat]
  /\ select_llms (handles 8) 1 3 = Done [1; 4; 7]%nat.
Proof. repeat split; reflexivity. Qed.

End RoutingProofs.

(** ** A round of generation: every rank gets its own outputs *)

Module RunLists.

Import ListFacts ChunkFacts AggregatorProofs EngineRouting RoutingSpec.

Lemma filter_seq_eq (k0 n : nat) :
  filter (fun k => (k =? k0)%nat) (seq 0 n)
  = if (k0 <? n)%nat then [k0] else [].
Proof.
  induction n as [|n IH]; [reflexivity|].
  rewrite seq_S, filter_app, IH. cbn [filter Nat.add].
  destruct (Nat.eqb_spec n k0) as [E|Hne];
    destruct (Nat.ltb_spec k0 n), (Nat.ltb_spec k0 (S n)); try lia;
    cbn [app]; congruence.
Qed.

Lemma filter_map_comm {A B : Type} (p : B -> bool) (f : A -> B) l :
  filter p (map f l) = map f (filter (fun a => p (f a)) l).
Proof.
  induction l as [|a l IH]; cbn; [reflexivity|].
  destruct (p (f a)); cbn; now rewrite IH.
Qed.

Lemma combine_map_self {A B : Type} (g : A -> B) l :
  combine l (map g l) = map (fun a => (a, g a)) l.
Proof. induction l as [|a l IH]; cbn; [reflexivity|now rewrite IH]. Qed.

Lemma concat_map_if {A B : Type} (p : A -> bool) (f : A -> B) l :
  concat (map (fun a => if p a then [f a] else []) l) = map f (filter p l).
Proof.
  induction l as [|a l IH]; cbn; [reflexivity|].
  destruct (p a); cbn; now rewrite IH.
Qed.

(** Two duplicate-free lists with the same members have as many members
    that pass a test. *)
Lemma filter_length_members {A : Type} (p : A -> bool) (l l' : list A) :
  NoDup l -> NoDup l' -> (forall a, In a l <-> In a l') ->
  length (filter p l) = length (filter p l').
Proof.
  intros Hl Hl' Hmem. apply Nat.le_antisymm; apply NoDup_incl_length;
    try (now apply NoDup_filter); intros a Ha; apply filter_In in Ha;
    apply filter_In; (split; [apply Hmem|]; tauto).
Qed.

Lemma slice_app {A : Type} (l : list A) (a b c : nat) :
  (a <= b)%nat -> (b <= c)%nat -> slice l a b ++ slice l b c = slice l a c.
Proof.
  intros Hab Hbc. unfold slice.
  replace (skipn b l) with (skipn (b - a) (skipn a l))
    by (rewrite skipn_skipn; f_equal; lia).
  rewrite firstn_firstn_skipn. f_equal. lia.
Qed.

(** Consecutive slices of one size put end to end are one slice. *)
Lemma concat_slices_from {A : Type} (l : list A) (batch_size : nat) :
  forall k first,
    concat (slices_from l batch_size first k)
    = slice l (first * batch_size) ((first + k) * batch_size).
Proof.
  unfold slices_from.
  induction k as [|k IH]; intros first; cbn [seq map concat].
  - unfold slice. rewrite Nat.add_0_r, Nat.sub_diag. reflexivity.
  - rewrite IH.
    rewrite <- (slice_app l (first * batch_size) ((first + 1) * batch_size)
                  ((first + S k) * batch_size)) by nia.
    do 2 f_equal; lia.
Qed.

(** The slices of size [ceil(n / k)] for [k] engines cover a list of [n]
    items. *)
Lemma slices_cover {A : Type} (l : list A) (k : nat) :
  (0 < k)%nat ->
  concat (slices_from l ((length l + k - 1) / k) 0 k) = l.
Proof.
  intros Hk. rewrite concat_slices_from. unfold slice.
  cbn [Nat.mul Nat.add skipn]. rewrite Nat.sub_0_r.
  apply firstn_all2.
  pose proof (Nat.div_mod_eq (length l + k - 1) k) as Hdm.
  pose proof (Nat.mod_upper_bound (length l + k - 1) k ltac:(lia)) as Hm.
  nia.
Qed.

End RunLists.

Module RunProofs.

Import ListFacts ChunkFacts DictFacts VllmEngine AggregatorSpec.
Import AggregatorProofs RolloutCollector EngineRouting RoutingSpec.
Import RoutingProofs RunLists RunSpec.

Section Runs.

Variables (Value Image Visual : Type).
Variable llm_generate : nat -> list (request Image) -> list RequestOutput.

Lemma calls_to_cons_same llm c (calls : list (registration Image)) :
  calls_to llm ((llm, c) :: calls) = c :: calls_to llm calls.
Proof. unfold calls_to. cbn. now rewrite Nat.eqb_refl. Qed.

Lemma calls_to_cons_other llm llm' c (calls : list (registration Image)) :
  llm <> llm' -> calls_to llm ((llm', c) :: calls) = calls_to llm calls.
Proof.
  intros Hne. unfold calls_to. cbn.
  destruct (Nat.eqb_spec llm' llm); [congruence|reflexivity].
Qed.

(** Engines do not share state: when the registrations that reach each
    engine return, so do all the registrations, and every engine ends as its
    own registrations leave it. *)
Lemma register_calls_per_engine :
  forall (calls : list (registration Image)) (engines final : store Image),
    (forall llm,
       register_all (llm_generate llm) (engines llm) (calls_to llm calls)
       = Return tt (final llm)) ->
    exists engines',
      register_calls llm_generate engines calls
      = (engines', map (fun _ => Ok tt) calls)
      /\ forall llm, engines' llm = final llm.
Proof.
  induction calls as [|[llm0 [rank payload]] calls IH]; intros engines final H.
  - exists engines. split; [reflexivity|]. intros llm.
    specialize (H llm). cbn in H. congruence.
  - pose proof (H llm0) as H0. rewrite calls_to_cons_same in H0.
    cbn [register_all] in H0.
    destruct (add_requests (llm_generate llm0) (engines llm0) rank payload)
      as [[] actor|] eqn:Eadd; [|discriminate].
    destruct (IH (update engines llm0 actor) final) as (engines' & Hrun & Hfin).
    { intros llm. unfold update. destruct (Nat.eqb_spec llm llm0) as [->|Hne].
      - exact H0.
      - rewrite <- (H llm). now rewrite calls_to_cons_other. }
    exists engines'. split; [|exact Hfin].
    cbn [register_calls map]. unfold remote. rewrite Eadd, Hrun. reflexivity.
Qed.

Lemma register_calls_app :
  forall (calls calls' : list (registration Image)) (engines : store Image),
    register_calls llm_generate engines (calls ++ calls')
    = let '(engines1, refs) := register_calls llm_generate engines calls in
      let '(engines2, refs') := register_calls llm_generate engines1 calls' in
      (engines2, refs ++ refs').
Proof.
  induction calls as [|[llm [rank payload]] calls IH]; intros calls' engines.
  - cbn. now destruct (register_calls llm_generate engines calls').
  - cbn [app register_calls].
    destruct (remote engines llm _) as [engines1 ref].
    rewrite IH.
    destruct (register_calls llm_generate engines1 calls) as [engines2 refs].
    destruct (register_calls llm_generate engines2 calls') as [engines3 refs'].
    reflexivity.
Qed.

Lemma register_calls_length :
  forall (calls : list (registration Image)) (engines : store Image),
    length (snd (register_calls llm_generate engines calls)) = length calls.
Proof.
  induction calls as [|[llm [rank payload]] calls IH]; intros engines;
    [reflexivity|].
  cbn [register_calls]. destruct (remote engines llm _) as [engines1 ref].
  specialize (IH engines1).
  destruct (register_calls llm_generate engines1 calls). cbn in *. lia.
Qed.

(** The loop without a data processor makes the registrations of
    [token_calls]. *)
Lemma send_token_ids_calls rank batch_size ids :
  forall llms first (engines : store Image),
    send_token_ids llm_generate engines rank batch_size ids first llms
    = register_calls llm_generate engines
        (token_calls Image rank batch_size ids first llms).
Proof.
  induction llms as [|llm llms IH]; intros first engines; [reflexivity|].
  cbn [send_token_ids]. unfold token_calls. cbn [length seq combine map].
  cbn [register_calls]. destruct (remote engines llm _) as [engines1 ref].
  rewrite IH. reflexivity.
Qed.

Lemma ray_get_all_ok {A : Type} (l : list A) :
  ray_get (map (fun a => Ok a) l) = Done l.
Proof. induction l as [|a l IH]; cbn; [reflexivity|now rewrite IH]. Qed.

Lemma app_eq_length {A : Type} (l1 l1' l2 l2' : list A) :
  length l1 = length l1' -> l1 ++ l2 = l1' ++ l2' -> l1 = l1' /\ l2 = l2'.
Proof.
  revert l1'. induction l1 as [|a l1 IH]; intros [|a' l1'] Hlen Heq;
    try discriminate; cbn in *.
  - now split.
  - injection Heq as <- Heq. destruct (IH l1' ltac:(lia) Heq) as [-> ->].
    now split.
Qed.

(** What the first half of [_generate_vllm] does for the rank [r]: it
    registers the slices of the token ids with the engines of the rank. *)
Lemma send_requests_token_rank (E W r : nat)
    (self : Maker Value Image Visual) (engines : store Image)
    (all_prompts : list Value) (ids : list (list Z)) (llms : list nat) :
  token_rank E W r self ->
  select_llms (handles E) (Z.of_nat r) (Z.of_nat W) = Done llms ->
  llms <> [] ->
  tokenize_fn self
    (expand_prompts (n_samples_per_prompt (args self)) all_prompts)
  = Ok ids ->
  send_requests llm_generate self engines all_prompts
  = let expanded :=
      expand_prompts (n_samples_per_prompt (args self)) all_prompts in
    let '(engines', refs) :=
      register_calls llm_generate engines
        (token_calls Image (Z.of_nat r)
           ((length expanded + length llms - 1) / length llms) ids 0 llms) in
    (engines',
     attempt_bind (ray_get refs)
       (fun _ => Done (Z.of_nat r, llms, expanded))).
Proof.
  intros (Hengines & Hdp & Hring & Hrank & Hworld) Hselect Hne Htok.
  unfold send_requests. rewrite Hring, Hrank, Hworld, Hengines.
  unfold floordiv. cbn [Z.eqb attempt_bind]. rewrite !Z.div_1_r.
  rewrite Hselect. cbn [attempt_bind]. unfold batch_size_of.
  destruct (Nat.eqb_spec (length llms) 0) as [E0|_].
  { destruct llms; [congruence|discriminate]. }
  cbn [attempt_bind]. rewrite Hdp, Htok.
  rewrite send_token_ids_calls. reflexivity.
Qed.


Lemma calls_to_app llm (calls calls' : list (registration Image)) :
  calls_to llm (calls ++ calls') = calls_to llm calls ++ calls_to llm calls'.
Proof. unfold calls_to. now rewrite filter_app, map_app. Qed.

Lemma calls_to_concat llm (cs : list (list (registration Image))) :
  calls_to llm (concat cs) = concat (map (calls_to llm) cs).
Proof.
  induction cs as [|c cs IH]; cbn [concat map]; [reflexivity|].
  now rewrite calls_to_app, IH.
Qed.

(** The registrations of a rank that reach an engine: one when the rank
    routes to it, with the slice at the engine's place. *)
Lemma calls_to_rank (E W r h n : nat) (ids : list (list Z)) :
  (0 < E)%nat -> (0 < W)%nat -> (r < W)%nat -> (h < E)%nat ->
  calls_to h (rank_calls Image E W r n ids)
  = if routes_to (handles E) (Z.of_nat W) (Z.of_nat r) h
    then [(Z.of_nat r, payload Image E W r n ids h)]
    else [].
Proof.
  intros HE HW Hr Hh. unfold rank_calls, payload, slot.
  destruct (Nat.leb_spec E W) as [HEW|HWE].
  - rewrite routes_to_shared by assumption.
    unfold batch_of, llms_of. rewrite select_shared by assumption.
    unfold token_calls, calls_to. cbn [length seq combine map filter fst].
    destruct (Nat.eqb_spec (r mod E) h); reflexivity.
  - rewrite routes_to_dedicated by assumption.
    unfold batch_of, llms_of. rewrite select_dedicated by assumption.
    set (cnt := ((E - r + W - 1) / W)%nat).
    set (bs := ((n + length (map (fun k => (r + k * W)%nat) (seq 0 cnt)) - 1)
                / length (map (fun k => (r + k * W)%nat) (seq 0 cnt)))%nat).
    unfold token_calls, calls_to.
    rewrite length_map, length_seq, combine_map_self, map_map.
    rewrite filter_map_comm, map_map. cbn [fst snd].
    assert (Hcnt : (h mod W = r -> h / W < cnt)%nat).
    { intros Hm. unfold cnt.
      pose proof (Nat.div_mod_eq h W) as Hdm.
      apply Nat.div_le_lower_bound; [lia|]. nia. }
    destruct (Nat.eqb_spec r (h mod W)) as [Hr'|Hne].
    + rewrite (filter_ext _ (fun k => (k =? h / W)%nat)).
      * rewrite filter_seq_eq.
        destruct (Nat.ltb_spec (h / W) cnt) as [_|Hge];
          [reflexivity|symmetry in Hr'; specialize (Hcnt Hr'); lia].
      * intros k. pose proof (Nat.div_mod_eq h W) as Hdm.
        destruct (Nat.eqb_spec (r + k * W) h), (Nat.eqb_spec k (h / W));
          try reflexivity; exfalso; nia.
    + rewrite (filter_ext _ (fun _ => false)).
      * now rewrite filter_false.
      * intros k. destruct (Nat.eqb_spec (r + k * W) h) as [Hk|];
          [|reflexivity].
        exfalso. apply Hne. rewrite <- Hk, Nat.Div0.mod_add.
        symmetry. now apply Nat.mod_small.
Qed.

(** The registrations of all the ranks that reach an engine, in the order
    the ranks run. *)
Lemma calls_to_order (E W h : nat) (n : nat -> nat)
    (ids : nat -> list (list Z)) (order : list nat) :
  (0 < E)%nat -> (0 < W)%nat -> (h < E)%nat ->
  (forall r, In r order -> (r < W)%nat) ->
  calls_to h
    (concat (map (fun r => rank_calls Image E W r (n r) (ids r)) order))
  = map (fun r => (Z.of_nat r, payload Image E W r (n r) (ids r) h))
      (filter (fun r => routes_to (handles E) (Z.of_nat W) (Z.of_nat r) h)
         order).
Proof.
  intros HE HW Hh Horder. rewrite calls_to_concat, map_map.
  rewrite <- concat_map_if. f_equal. apply map_ext_in.
  intros r Hr. apply calls_to_rank; auto.
Qed.

(** No registration reaches a handle that is not an engine's. *)
Lemma calls_to_outside (E W h : nat) (n : nat -> nat)
    (ids : nat -> list (list Z)) (order : list nat) :
  (0 < E)%nat -> (0 < W)%nat -> (E <= h)%nat ->
  (forall r, In r order -> (r < W)%nat) ->
  calls_to h
    (concat (map (fun r => rank_calls Image E W r (n r) (ids r)) order))
  = [].
Proof.
  intros HE HW Hh Horder. rewrite calls_to_concat, map_map.
  induction order as [|r order IH]; [reflexivity|].
  cbn [map concat]. rewrite IH by (intros; apply Horder; now right).
  rewrite app_nil_r. unfold rank_calls, token_calls, calls_to.
  assert (Hr : (r < W)%nat) by (apply Horder; now left).
  assert (Hall : Forall (fun llm => (llm < E)%nat) (llms_of E W r)).
  { unfold llms_of. destruct (Nat.le_gt_cases E W) as [HEW|HWE].
    - rewrite select_shared by assumption. repeat constructor.
      apply Nat.mod_upper_bound. lia.
    - rewrite select_dedicated by assumption.
      apply Forall_map, Forall_forall. intros k Hk. apply in_seq in Hk.
      assert (Hmul : (W * S k <= E - r + W - 1)%nat).
      { pose proof (Nat.Div0.mul_div_le (E - r + W - 1) W). nia. }
      nia. }
  rewrite filter_map_comm.
  rewrite (filter_ext_in _ (fun _ => false)); [now rewrite filter_false|].
  intros [i llm] Hin. cbn [fst]. apply in_combine_r in Hin.
  rewrite Forall_forall in Hall. specialize (Hall llm Hin).
  destruct (Nat.eqb_spec llm h); [lia|reflexivity].
Qed.


(** The ranks, one after the other, make the registrations of
    [all_calls]; when these all return, every rank passes its
    [ray.get(refs)]. *)
Lemma send_all_calls (E W : nat) (self : nat -> Maker Value Image Visual)
    (prompts : nat -> list Value) (ids : nat -> list (list Z)) :
  (0 < E)%nat -> (0 < W)%nat ->
  (forall r, (r < W)%nat -> token_rank E W r (self r)) ->
  (forall r, (r < W)%nat ->
     tokenize_fn (self r) (expanded self prompts r) = Ok (ids r)) ->
  forall (order : list nat) (engines engines' : store Image),
    (forall r, In r order -> (r < W)%nat) ->
    register_calls llm_generate engines (all_calls E W self prompts ids order)
    = (engines',
       map (fun _ => Ok tt) (all_calls E W self prompts ids order)) ->
    send_all llm_generate self prompts engines order
    = (engines',
       map (fun r =>
              Done (Z.of_nat r, llms_of E W r, expanded self prompts r))
         order).
Proof.
  intros HE HW Hself Htok.
  induction order as [|r order IH]; intros engines engines' Horder Hrun.
  - cbn in *. congruence.
  - assert (Hr : (r < W)%nat) by (apply Horder; now left).
    assert (Hsel : exists llms,
               select_llms (handles E) (Z.of_nat r) (Z.of_nat W) = Done llms
               /\ llms <> []).
    { destruct (Nat.le_gt_cases E W) as [HEW|HWE].
      - eexists. split; [now apply select_shared|discriminate].
      - eexists. split; [now apply select_dedicated|].
        assert (Hcount : (0 < (E - r + W - 1) / W)%nat).
        { apply Nat.div_str_pos. lia. }
        destruct ((E - r + W - 1) / W)%nat; [lia|discriminate]. }
    destruct Hsel as (llms & Hsel & Hne).
    assert (Hllms : llms_of E W r = llms) by (unfold llms_of; now rewrite Hsel).
    cbn [send_all map].
    rewrite (send_requests_token_rank E W r (self r) engines (prompts r)
               (ids r) llms (Hself r Hr) Hsel Hne (Htok r Hr)).
    cbn zeta.
    unfold all_calls in Hrun. cbn [map concat] in Hrun.
    rewrite register_calls_app in Hrun.
    unfold rank_calls, batch_of in Hrun. rewrite Hllms in Hrun.
    unfold expanded in Hrun at 1 2.
    pose proof (register_calls_length
                  (token_calls Image (Z.of_nat r)
                     ((length
                         (expand_prompts
                            (n_samples_per_prompt (args (self r)))
                            (prompts r))
                       + length llms - 1) / length llms) (ids r) 0 llms)
                  engines) as Hlen.
    destruct (register_calls llm_generate engines _) as [engines1 refs].
    cbn [snd] in Hlen.
    destruct (register_calls llm_generate engines1 _) as [engines2 refs']
      eqn:Erest.
    rewrite map_app in Hrun. injection Hrun as -> Hrefs.
    apply app_eq_length in Hrefs; [|now rewrite length_map].
    destruct Hrefs as [-> ->].
    rewrite (IH engines1 engines'); [| intros; apply Horder; now right |].
    + f_equal. f_equal.
      rewrite <- (map_map (fun _ => tt) (fun a => Ok a)).
      rewrite ray_get_all_ok. cbn [attempt_bind]. now rewrite Hllms.
    + exact Erest.
Qed.


Lemma engine_calls_length (E W h : nat)
    (self : nat -> Maker Value Image Visual) prompts ids order :
  ranks_in_order W order ->
  length (engine_calls E W self prompts ids order h)
  = producers_of (handles E) W h.
Proof.
  intros [Hnd Hmem]. unfold engine_calls, producers_of. rewrite length_map.
  apply filter_length_members; [exact Hnd|apply seq_NoDup|].
  intros r. rewrite Hmem, in_seq. lia.
Qed.

Lemma engine_calls_ranks (E W h : nat)
    (self : nat -> Maker Value Image Visual) prompts ids order :
  NoDup order ->
  NoDup (map fst (engine_calls E W self prompts ids order h)).
Proof.
  intros Hnd. unfold engine_calls. rewrite map_map. cbn [fst].
  apply NoDup_map_injective; [|now apply NoDup_filter].
  intros a b _ _. apply Nat2Z.inj.
Qed.

(** The state the requests of all the ranks leave: every rank has passed
    its [ray.get(refs)], and every engine has dispatched the requests of
    its producers. *)
Lemma send_all_state (E W : nat) (self : nat -> Maker Value Image Visual)
    (prompts : nat -> list Value) (ids : nat -> list (list Z))
    (order : list nat) :
  (0 < E)%nat -> (0 < W)%nat ->
  (forall r, (r < W)%nat -> token_rank E W r (self r)) ->
  (forall r, (r < W)%nat ->
     tokenize_fn (self r) (expanded self prompts r) = Ok (ids r)) ->
  ranks_in_order W order ->
  exists engines1,
    send_all llm_generate self prompts (created Image E W) order
    = (engines1,
       map (fun r =>
              Done (Z.of_nat r, llms_of E W r, expanded self prompts r))
         order)
    /\ forall h, (h < E)%nat ->
         engines1 h
         = dispatched (llm_generate h) (created Image E W h)
             (engine_calls E W self prompts ids order h).
Proof.
  intros HE HW Hself Htok Horder.
  assert (Hin : forall r, In r order -> (r < W)%nat)
    by (intros r; apply Horder).
  destruct (register_calls_per_engine
              (all_calls E W self prompts ids order) (created Image E W)
              (fun h =>
                 if (h <? E)%nat
                 then dispatched (llm_generate h) (created Image E W h)
                        (engine_calls E W self prompts ids order h)
                 else created Image E W h))
    as (engines1 & Hrun & Hfinal).
  - intros h. unfold all_calls.
    destruct (Nat.ltb_spec h E) as [Hh|Hh].
    + rewrite (calls_to_order E W h _ ids order HE HW Hh Hin).
      fold (engine_calls E W self prompts ids order h).
      pose proof (engine_calls_length E W h self prompts ids order Horder)
        as Hlen.
      pose proof (producers_positive E W h HE HW Hh) as Hpos.
      apply (register_round _ _ (llm_generate h)
               (engine_calls E W self prompts ids order h) []
               (created Image E W h)).
      * reflexivity.
      * reflexivity.
      * unfold created. cbn [num_actors init length Nat.add].
        rewrite Hlen. now apply num_actors_counts.
      * apply engine_calls_ranks, Horder.
      * intros Hnil. rewrite Hnil in Hlen. cbn in Hlen. lia.
    + now rewrite (calls_to_outside E W h _ ids order HE HW Hh Hin).
  - exists engines1. split.
    + now apply (send_all_calls E W self prompts ids HE HW Hself Htok).
    + intros h Hh. rewrite Hfinal.
      destruct (Nat.ltb_spec h E); [reflexivity|lia].
Qed.


(** *** The answers *)

Lemma slices_pointwise (answer : request Image -> RequestOutput) :
  forall (calls : list (Z * list (request Image))) (pre : list (request Image)),
    slices (length pre) (sizes calls) (map answer (pre ++ combined calls))
    = map (fun c => (fst c, map answer (snd c))) calls.
Proof.
  induction calls as [|[r p] calls IH]; intros pre; [reflexivity|].
  cbn [sizes map slices fst snd]. f_equal.
  - f_equal. unfold combined. cbn [map snd concat].
    rewrite map_app, skipn_app, length_map, Nat.sub_diag.
    rewrite skipn_all2 by (rewrite length_map; lia).
    cbn [skipn app]. rewrite map_app, firstn_app, length_map, Nat.sub_diag.
    rewrite firstn_all2 by (rewrite length_map; lia).
    cbn [firstn]. now rewrite app_nil_r.
  - specialize (IH (pre ++ p)). rewrite length_app in IH.
    fold (sizes calls). rewrite <- IH. f_equal.
    unfold combined. cbn [map snd concat]. now rewrite app_assoc.
Qed.

(** What an engine that answers request by request holds after a
    dispatch. *)
Lemma dispatched_responses (answer : request Image -> RequestOutput)
    (h : nat) (self : LLMRayActor (request Image) RequestOutput)
    (calls : list (Z * list (request Image))) :
  (forall reqs, llm_generate h reqs = map answer reqs) ->
  NoDup (map fst calls) ->
  VllmEngine.responses (dispatched (llm_generate h) self calls)
  = Some (map (fun c => (fst c, map answer (snd c))) calls).
Proof.
  intros Hanswer Hnd. unfold dispatched. cbn [VllmEngine.responses]. f_equal.
  rewrite slice_responses_slices by now rewrite fst_sizes.
  assert (Hres : combined_result (llm_generate h) calls
                 = map answer (combined calls)).
  { unfold combined_result.
    destruct (Nat.ltb_spec 0 (length (combined calls))) as [|Hz];
      [apply Hanswer|].
    destruct (combined calls); [reflexivity|cbn in Hz; lia]. }
  rewrite Hres. exact (slices_pointwise answer calls []).
Qed.

Lemma llms_of_routes (E W r h : nat) :
  In h (llms_of E W r)
  <-> routes_to (handles E) (Z.of_nat W) (Z.of_nat r) h = true.
Proof.
  unfold llms_of, routes_to.
  destruct (select_llms (handles E) (Z.of_nat r) (Z.of_nat W)) as [llms|].
  - rewrite existsb_exists. split.
    + intros Hin. exists h. split; [exact Hin|apply Nat.eqb_refl].
    + intros (x & Hx & Heq). apply Nat.eqb_eq in Heq. now subst x.
  - split; [intros []|discriminate].
Qed.

Lemma llms_of_engines (E W r : nat) :
  (0 < E)%nat -> (0 < W)%nat -> (r < W)%nat ->
  llms_of E W r <> [] /\ NoDup (llms_of E W r)
  /\ Forall (fun llm => (llm < E)%nat) (llms_of E W r).
Proof.
  intros HE HW Hr. unfold llms_of.
  destruct (Nat.le_gt_cases E W) as [HEW|HWE].
  - rewrite select_shared by assumption.
    split; [discriminate|]. split; [repeat constructor; intros []|].
    repeat constructor. apply Nat.mod_upper_bound. lia.
  - rewrite select_dedicated by assumption.
    assert (Hcount : (0 < (E - r + W - 1) / W)%nat).
    { apply Nat.div_str_pos. lia. }
    split; [|split].
    + destruct ((E - r + W - 1) / W)%nat; [lia|discriminate].
    + apply NoDup_map_injective; [|apply seq_NoDup].
      intros a b _ _ Hab. nia.
    + apply Forall_map, Forall_forall. intros k Hk. apply in_seq in Hk.
      assert (Hmul : (W * S k <= E - r + W - 1)%nat).
      { pose proof (Nat.Div0.mul_div_le (E - r + W - 1) W). nia. }
      nia.
Qed.

(** After the requests of all the ranks, every engine holds the answers
    for each of its producers. *)
Lemma send_all_awaiting (E W : nat) (self : nat -> Maker Value Image Visual)
    (prompts : nat -> list Value) (ids : nat -> list (list Z))
    (answer : request Image -> RequestOutput)
    (order : list nat) (engines1 : store Image) :
  (forall h reqs, llm_generate h reqs = map answer reqs) ->
  ranks_in_order W order ->
  (forall h, (h < E)%nat ->
     engines1 h
     = dispatched (llm_generate h) (created Image E W h)
         (engine_calls E W self prompts ids order h)) ->
  forall r h, (r < W)%nat -> (h < E)%nat -> In h (llms_of E W r) ->
    awaiting E W self prompts ids answer engines1 r h.
Proof.
  intros Hanswer Horder Hstate r h Hr Hh Hin. unfold awaiting.
  rewrite (Hstate h Hh).
  rewrite (dispatched_responses answer h _ _ (Hanswer h))
    by (apply engine_calls_ranks, Horder).
  eexists. split; [reflexivity|].
  apply lookup_In_NoDup.
  - unfold keys. rewrite map_map. cbn [fst].
    apply (engine_calls_ranks E W h self prompts ids order), Horder.
  - unfold engine_calls. rewrite map_map. cbn [fst snd].
    apply in_map_iff. exists r. split; [reflexivity|].
    apply filter_In. split; [now apply Horder|now apply llms_of_routes].
Qed.

(** A rank that takes its answers from its engines gets them, and leaves
    the answers of the other ranks in place. *)
Lemma collect_outputs_awaiting (E W : nat)
    (self : nat -> Maker Value Image Visual)
    (prompts : nat -> list Value) (ids : nat -> list (list Z))
    (answer : request Image -> RequestOutput) (r : nat) :
  forall (llms : list nat) (engines : store Image),
    NoDup llms ->
    (forall h, In h llms ->
       awaiting E W self prompts ids answer engines r h) ->
    exists engines',
      collect_outputs engines (Z.of_nat r) llms
      = (engines',
         map (fun h =>
                Ok (map answer
                      (payload Image E W r (length (expanded self prompts r))
                         (ids r) h)))
           llms)
      /\ forall r' h, r' <> r ->
           awaiting E W self prompts ids answer engines r' h ->
           awaiting E W self prompts ids answer engines' r' h.
Proof.
  induction llms as [|h llms IH]; intros engines Hnd Hall.
  - exists engines. split; [reflexivity|auto].
  - inversion Hnd as [|? ? Hh Hnd']; subst.
    destruct (Hall h (or_introl eq_refl)) as (d & Hd & Hlook).
    cbn [collect_outputs]. unfold remote, get_responses at 1, pop.
    rewrite Hd, Hlook.
    set (actor := mkActor _ _ _ _ _).
    assert (Hkeep : forall r' h',
               (r' <> r \/ h' <> h) ->
               awaiting E W self prompts ids answer engines r' h' ->
               awaiting E W self prompts ids answer
                 (update engines h actor) r' h').
    { intros r' h' Hdiff (d' & Hd' & Hlook'). unfold awaiting, update.
      destruct (Nat.eqb_spec h' h) as [->|Hneq].
      - rewrite Hd in Hd'. injection Hd' as <-.
        exists (remove d (Z.of_nat r)). split; [reflexivity|].
        rewrite lookup_remove_other; [exact Hlook'|].
        intros Heq. apply Nat2Z.inj in Heq. tauto.
      - exists d'. now split. }
    destruct (IH (update engines h actor) Hnd') as (engines' & Hrun & Hrest).
    { intros h' Hin. apply Hkeep; [|apply Hall; now right].
      right. intros ->. contradiction. }
    exists engines'. rewrite Hrun. split; [reflexivity|].
    intros r' h' Hne Haw. apply Hrest; [exact Hne|].
    apply Hkeep; [now left|exact Haw].
Qed.

(** What a rank asks of its engines, engine after engine, is its token ids
    cut into slices. *)
Lemma payload_slices (E W r n : nat) (ids : list (list Z)) :
  (0 < E)%nat -> (0 < W)%nat -> (r < W)%nat ->
  map (payload Image E W r n ids) (llms_of E W r)
  = map (map (@PromptTokenIds Image))
      (slices_from ids (batch_of E W r n) 0 (length (llms_of E W r))).
Proof.
  intros HE HW Hr. unfold payload, slot, slices_from. rewrite map_map.
  generalize (batch_of E W r n) as bs. intros bs. unfold llms_of.
  destruct (Nat.leb_spec E W) as [HEW|HWE].
  - rewrite select_shared by assumption. reflexivity.
  - rewrite select_dedicated by assumption.
    rewrite length_map, length_seq, map_map. apply map_ext_in.
    intros k _.
    replace ((r + k * W) / W)%nat with k; [reflexivity|].
    rewrite Nat.div_add by lia. rewrite Nat.div_small by lia. reflexivity.
Qed.

Lemma payload_concat (E W r : nat) (ids : list (list Z))
    (answer : request Image -> RequestOutput) :
  (0 < E)%nat -> (0 < W)%nat -> (r < W)%nat ->
  concat
    (map (fun h => map answer (payload Image E W r (length ids) ids h))
       (llms_of E W r))
  = map answer (map (@PromptTokenIds Image) ids).
Proof.
  intros HE HW Hr.
  rewrite <- (map_map (payload Image E W r (length ids) ids) (map answer)).
  rewrite payload_slices by assumption.
  rewrite <- !concat_map. unfold batch_of.
  rewrite slices_cover; [reflexivity|].
  destruct (llms_of_engines E W r HE HW Hr) as [Hne _].
  destruct (llms_of E W r); [congruence|cbn; lia].
Qed.

Lemma receive_all_awaiting (E W : nat)
    (self : nat -> Maker Value Image Visual)
    (prompts : nat -> list Value) (ids : nat -> list (list Z))
    (answer : request Image -> RequestOutput) :
  (0 < E)%nat -> (0 < W)%nat ->
  (forall r, (r < W)%nat ->
     length (ids r) = length (expanded self prompts r)) ->
  forall (order : list nat) (engines : store Image),
    NoDup order ->
    (forall r, In r order -> (r < W)%nat) ->
    (forall r h, In r order -> In h (llms_of E W r) ->
       awaiting E W self prompts ids answer engines r h) ->
    exists engines',
      receive_all E W engines order
      = (engines',
         map (fun r =>
                Done (map answer (map (@PromptTokenIds Image) (ids r))))
           order).
Proof.
  intros HE HW Hlen.
  induction order as [|r order IH]; intros engines Hnd Hin Hall.
  - exists engines. reflexivity.
  - inversion Hnd as [|? ? Hr Hnd']; subst.
    assert (HrW : (r < W)%nat) by (apply Hin; now left).
    destruct (llms_of_engines E W r HE HW HrW) as (_ & Hndl & _).
    destruct (collect_outputs_awaiting E W self prompts ids answer r
                (llms_of E W r) engines Hndl)
      as (engines1 & Hrun & Hrest).
    { intros h Hh. apply Hall; [now left|exact Hh]. }
    destruct (IH engines1 Hnd') as (engines' & Hrec).
    { intros; apply Hin; now right. }
    { intros r' h Hr' Hh. apply Hrest.
      - intros ->. contradiction.
      - apply Hall; [now right|exact Hh]. }
    exists engines'. cbn [receive_all map]. unfold receive_outputs.
    rewrite Hrun, Hrec. f_equal. f_equal.
    rewrite <- (map_map _ (fun a => Ok a)), ray_get_all_ok.
    cbn [attempt_bind]. f_equal.
    rewrite <- (Hlen r HrW). now apply payload_concat.
Qed.


(** X16.  A round of generation over [E >= 1] engines created for the
    [W >= 1] ranks, none with a data processor or ring attention: whatever
    the order in which the ranks run the first half of [_generate_vllm],
    every registration returns, so every rank passes [ray.get(refs)]; and
    then, after the barrier, whatever the order in which the ranks run the
    second half, every rank gets the outputs for its own expanded prompts,
    in the order of the prompts (for engines that answer request by
    request and a tokenizer that gives every prompt its token ids). *)
Theorem every_rank_gets_its_own_outputs :
  forall (E W : nat) (self : nat -> Maker Value Image Visual)
         (prompts : nat -> list Value) (ids : nat -> list (list Z))
         (answer : request Image -> RequestOutput)
         (order order' : list nat),
    (0 < E)%nat -> (0 < W)%nat ->
    (forall r, (r < W)%nat -> token_rank E W r (self r)) ->
    (forall r, (r < W)%nat ->
       tokenize_fn (self r) (expanded self prompts r) = Ok (ids r)) ->
    (forall r, (r < W)%nat ->
       length (ids r) = length (expanded self prompts r)) ->
    (forall h reqs, llm_generate h reqs = map answer reqs) ->
    ranks_in_order W order -> ranks_in_order W order' ->
    exists engines1 engines2,
      send_all llm_generate self prompts (created Image E W) order
      = (engines1,
         map (fun r =>
                Done (Z.of_nat r, llms_of E W r, expanded self prompts r))
           order)
      /\ receive_all E W engines1 order'
         = (engines2,
            map (fun r =>
                   Done (map answer (map (@PromptTokenIds Image) (ids r))))
              order').
Proof.
  intros E W self prompts ids answer order order' HE HW Hself Htok Hlen
    Hanswer Horder Horder'.
  destruct (send_all_state E W self prompts ids order HE HW Hself Htok Horder)
    as (engines1 & Hsend & Hstate).
  destruct (receive_all_awaiting E W self prompts ids answer HE HW Hlen
              order' engines1)
    as (engines2 & Hrec).
  - apply Horder'.
  - intros r. apply Horder'.
  - intros r h Hr Hh.
    assert (HrW : (r < W)%nat) by now apply Horder'.
    destruct (llms_of_engines E W r HE HW HrW) as (_ & _ & Hall).
    rewrite Forall_forall in Hall.
    apply (send_all_awaiting E W self prompts ids answer order engines1
             Hanswer Horder Hstate r h HrW (Hall h Hh) Hh).
  - exists engines1, engines2. now split.
Qed.

End Runs.

(** Three ranks share two engines; they register in the order 2, 0, 1 and
    collect in the order 1, 2, 0. *)
Lemma every_rank_gets_its_own_outputs_witness :
  exists engines1 engines2,
    send_all (fun _ reqs => map parrot reqs) (number_maker 2 3)
      number_prompts (created unit 2 3) [2; 0; 1]%nat
    = (engines1,
       map (fun r =>
              Done (Z.of_nat r, llms_of 2 3 r,
                    expanded (number_maker 2 3) number_prompts r))
         [2; 0; 1]%nat)
    /\ receive_all 2 3 engines1 [1; 2; 0]%nat
       = (engines2,
          map (fun r =>
                 Done (map parrot
                         (map (@PromptTokenIds unit) (number_ids r))))
            [1; 2; 0]%nat).
Proof.
  apply (every_rank_gets_its_own_outputs nat unit unit
           (fun _ reqs => map parrot reqs) 2 3 (number_maker 2 3)
           number_prompts number_ids parrot [2; 0; 1]%nat [1; 2; 0]%nat).
  - lia.
  - lia.
  - intros r _. repeat split.
  - intros r _. reflexivity.
  - intros r _. unfold number_ids, expanded. now rewrite length_map.
  - reflexivity.
  - split; [|intros r; cbn; lia].
    repeat constructor; cbn; lia.
  - split; [|intros r; cbn; lia].
    repeat constructor; cbn; lia.
Defined.

(** The same round run: rank 2 shares the engine 0 with rank 0, and gets
    the outputs for its own four prompts. *)
Example three_ranks_two_engines :
  let '(engines1, sent) :=
    send_all (fun _ reqs => map parrot reqs) (number_maker 2 3)
      number_prompts (created unit 2 3) [2; 0; 1]%nat in
  let '(engines2, got) := receive_all 2 3 engines1 [1; 2; 0]%nat in
  map (fun o => match o with
                | Done outs => map prompt_token_ids outs
                | Fails _ => []
                end) got
  = [[[11]; [11]; [12]; [12]]; [[21]; [21]; [22]; [22]];
     [[1]; [1]; [2]; [2]]]%Z
  /\ map (fun h => generate_calls (engines2 h)) [0; 1]%nat
     = [[map (@PromptTokenIds unit)
           [[21]; [21]; [22]; [22]; [1]; [1]; [2]; [2]]%Z];
        [map (@PromptTokenIds unit) [[11]; [11]; [12]; [12]]%Z]].
Proof. split; reflexivity. Qed.

End RunProofs.

(** ** Packed and padded samples; the rank with a data processor *)

Module PackingProofs.

Import ListFacts ChunkFacts DictFacts VllmEngine.
Import AggregatorProofs RolloutCollector EngineRouting RoutingSpec.
Import ConfigProofs RunLists RunSpec PackingSpec.

Lemma map_result_inv {A B : Type} (f : A -> result B) :
  forall l l', map_result f l = Ok l' -> Forall2 (fun x y => f x = Ok y) l l'.
Proof.
  induction l as [|x l IH]; intros l' H; cbn in H.
  - injection H as <-. constructor.
  - destruct (f x) as [y|] eqn:Ex; [|discriminate]. cbn in H.
    destruct (map_result f l) as [ys|] eqn:El; [|discriminate]. cbn in H.
    injection H as <-. constructor; [exact Ex|now apply IH].
Qed.

(** Cutting a concatenation at the lengths of its parts gives the parts
    back. *)
Lemma unpack_concat {A : Type} :
  forall (rows : list (list A)) (pre post : list A),
    unpack_sequences (pre ++ concat rows ++ post) (length pre)
      (map (@length A) rows)
    = rows.
Proof.
  intros rows.
  induction rows as [|row rows IH]; intros pre post; [reflexivity|].
  cbn [map unpack_sequences concat]. f_equal.
  - unfold slice. rewrite skipn_app, Nat.sub_diag.
    rewrite skipn_all2 by lia. cbn [skipn app].
    replace (length pre + length row - length pre)%nat with (length row) by lia.
    rewrite <- app_assoc, firstn_app, Nat.sub_diag, firstn_all. cbn [firstn].
    now rewrite app_nil_r.
  - specialize (IH (pre ++ row) post). rewrite length_app in IH.
    rewrite <- IH at 3. f_equal. now rewrite <- !app_assoc.
Qed.

Section Packing.

Variables (Value Image Visual : Type).

(** What the loop over the pairs of a micro-batch appends. *)
Lemma pack_loop_appends (self : Maker Value Image Visual) :
  forall (pairs : list (Value * RequestOutput)) (st st' : Packing Value)
         (i : nat),
    pack_loop self st i pairs = Ok st' ->
    exists ids,
      map_result (fun p => subscript self (fst p) "id") pairs = Ok ids
      /\ pk_sequences st'
         = pk_sequences st
           ++ concat (map (fun p => sample_tokens (snd p)) pairs)
      /\ pk_packed_seq_lens st'
         = pk_packed_seq_lens st
           ++ map (fun p => length (sample_tokens (snd p))) pairs
      /\ pk_attention_mask st'
         = pk_attention_mask st
           ++ packed_mask i
                (map (fun p => length (sample_tokens (snd p))) pairs)
      /\ pk_num_actions st'
         = pk_num_actions st ++ map (fun p => sample_num_actions (snd p)) pairs
      /\ pk_data_ids st' = pk_data_ids st ++ ids
      /\ pk_responses st'
         = pk_responses st ++ map (fun p => sample_response self (snd p)) pairs.
Proof.
  induction pairs as [|[prompt output] pairs IH]; intros st st' i H.
  - cbn in H. injection H as <-. exists []. cbn.
    now rewrite !app_nil_r.
  - cbn [pack_loop] in H. unfold pack_one, first_completion in H.
    destruct (outputs output) as [|c cs] eqn:Eo; [discriminate|].
    cbn [bind] in H.
    destruct (subscript self prompt "id") as [id|] eqn:Eid; [|discriminate].
    cbn [bind] in H.
    apply IH in H. destruct H as (ids & Hids & Hs & Hl & Hm & Hn & Hd & Hr).
    cbn [pk_sequences pk_packed_seq_lens pk_attention_mask pk_num_actions
         pk_data_ids pk_responses] in *.
    exists (id :: ids). cbn [map_result map concat fst snd packed_mask].
    rewrite Eid, Hids. cbn [bind].
    unfold sample_tokens, sample_response, sample_num_actions in *.
    rewrite Eo. rewrite Hs, Hl, Hm, Hn, Hd, Hr.
    rewrite !length_app, <- !app_assoc. cbn [app].
    repeat split; reflexivity.
Qed.


Lemma map_result_map {A B C : Type} (f : B -> result C) (g : A -> B) l :
  map_result (fun a => f (g a)) l = map_result f (map g l).
Proof. induction l as [|a l IH]; cbn; [reflexivity|now rewrite IH]. Qed.

Lemma map_fst_combine {A B : Type} : forall (l : list A) (l' : list B),
  length l = length l' -> map fst (combine l l') = l.
Proof.
  induction l as [|a l IH]; intros [|b l'] H; try discriminate; cbn;
    [reflexivity|]. f_equal. apply IH. cbn in H. lia.
Qed.

Lemma map_snd_combine {A B : Type} : forall (l : list A) (l' : list B),
  length l = length l' -> map snd (combine l l') = l'.
Proof.
  induction l as [|a l IH]; intros [|b l'] H; try discriminate; cbn;
    [reflexivity|]. f_equal. apply IH. cbn in H. lia.
Qed.

Lemma combine_app_l {A B : Type} : forall (l : list A) (l1 l2 : list B),
  length l = length l1 -> combine l (l1 ++ l2) = combine l l1.
Proof.
  induction l as [|a l IH]; intros [|b l1] l2 H; try discriminate;
    [reflexivity|]. cbn. f_equal. apply IH. cbn in H. lia.
Qed.

Lemma combine_swap {A B : Type} : forall (l : list A) (l' : list B),
  map (fun '(a, b) => (b, a)) (combine l l') = combine l' l.
Proof.
  induction l as [|a l IH]; intros [|b l']; cbn; try reflexivity.
  f_equal. apply IH.
Qed.

(** The fields of packed samples. *)
Lemma packed_samples_fields :
  forall (self : Maker Value Image Visual) (prompts : list Value)
         (outputs : list RequestOutput) (s : Samples Value Visual),
    length prompts = length outputs ->
    packed_samples self prompts outputs = Ok s ->
    let lens := map (fun o => length (sample_tokens o)) outputs in
    exists ids,
      map_result (fun x => subscript self x "id") prompts = Ok ids
      /\ sequences s
         = unsqueeze0 (tensor_of_ints (concat (map sample_tokens outputs)))
      /\ attention_mask s
         = Some (unsqueeze0 (tensor_of_lens (packed_mask 0 lens)))
      /\ packed_seq_lens s = Some lens
      /\ data_ids s = ids ++ ids
      /\ responses s = map (sample_response self) outputs.
Proof.
  intros self prompts outputs s Hlen H lens. unfold packed_samples in H.
  destruct (map_result (fun x => subscript self x "id") prompts)
    as [ids|] eqn:Eids; [|discriminate].
  cbn [bind] in H.
  destruct (pack_loop self _ 0 (combine prompts outputs)) as [st|] eqn:Eloop;
    [|discriminate].
  cbn [bind] in H.
  destruct (map_result (fun prompt => subscript self prompt "prompt") prompts)
    as [texts|]; [|discriminate].
  cbn [bind] in H.
  destruct (collect_visual_inputs self texts) as [visual|]; [|discriminate].
  cbn [bind Samples_init] in H. injection H as <-.
  apply pack_loop_appends in Eloop.
  destruct Eloop as (ids' & Hids' & Hs & Hl & Hm & Hn & Hd & Hr).
  cbn [pk_sequences pk_packed_seq_lens pk_attention_mask pk_num_actions
       pk_data_ids pk_responses app] in *.
  rewrite (map_result_map (fun x => subscript self x "id") fst) in Hids'.
  rewrite (map_fst_combine prompts outputs Hlen), Eids in Hids'.
  injection Hids' as <-.
  rewrite <- (map_map snd (fun o => length (sample_tokens o))) in Hl, Hm.
  rewrite <- (map_map snd sample_tokens) in Hs.
  rewrite <- (map_map snd (sample_response self)) in Hr.
  rewrite (map_snd_combine prompts outputs Hlen) in Hs, Hl, Hm, Hr.
  fold lens in Hl, Hm.
  exists ids.
  cbn [packed_seq_lens sequences attention_mask data_ids responses].
  rewrite Hs, Hl, Hm, Hd, Hr. repeat split; reflexivity.
Qed.

(** [zip(responses, data_ids)] stops at the last response, so the second
    copy of the ids is not read. *)
Lemma reward_queries_doubled (s : Samples Value Visual) (ids : list Value)
    (texts : list string) :
  length ids = length texts ->
  data_ids s = ids ++ ids -> responses s = texts ->
  reward_queries s = combine ids texts.
Proof.
  intros Hlen Hd Hr. unfold reward_queries. rewrite Hd, Hr.
  rewrite combine_app_l by (symmetry; exact Hlen). apply combine_swap.
Qed.

(** X17.  Packed samples keep every sample apart: when
    [_generate_vllm] packs a micro-batch of as many prompts as outputs,
    [packed_seq_lens] holds the length of each sample (prompt and first
    completion), the sequences are one row, and cutting that row at these
    lengths, as [make_experience] does for a remote reward model, gives
    back the tokens of each sample; the attention mask marks the sample
    [i] with [i + 1]; [data_ids] holds every id twice, and the queries of
    the reward model still pair each response with the id of its own
    prompt. *)
Theorem packed_samples_round_trip :
  forall (self : Maker Value Image Visual) (prompts : list Value)
         (outputs : list RequestOutput) (s : Samples Value Visual),
    length prompts = length outputs ->
    packed_samples self prompts outputs = Ok s ->
    let lens := map (fun o => length (sample_tokens o)) outputs in
    exists ids tokens,
      map_result (fun x => subscript self x "id") prompts = Ok ids
      /\ packed_seq_lens s = Some lens
      /\ shape (sequences s) = [1%nat; list_sum lens]
      /\ tolist0 (sequences s) = Ok tokens
      /\ unpack_sequences tokens 0 lens
         = map (fun o => map inject_Z (sample_tokens o)) outputs
      /\ option_map data (attention_mask s)
         = Some (map (fun n => inject_Z (Z.of_nat n)) (packed_mask 0 lens))
      /\ data_ids s = ids ++ ids
      /\ reward_queries s = combine ids (map (sample_response self) outputs).
Proof.
  intros self prompts outputs s Hlen H lens.
  destruct (packed_samples_fields self prompts outputs s Hlen H)
    as (ids & Hids & Hs & Hm & Hl & Hd & Hr).
  fold lens in Hm, Hl.
  assert (Hsum : length (concat (map sample_tokens outputs)) = list_sum lens).
  { unfold lens. clear.
    induction outputs as [|o os IH]; [reflexivity|].
    cbn [map concat]. rewrite length_app, IH. reflexivity. }
  exists ids, (map inject_Z (concat (map sample_tokens outputs))).
  split; [exact Hids|]. split; [exact Hl|].
  split; [rewrite Hs; cbn; now rewrite Hsum|].
  split.
  { rewrite Hs. unfold tolist0, unsqueeze0, tensor_of_ints. cbn [shape data].
    now rewrite firstn_all2 by (rewrite length_map; lia). }
  split.
  { rewrite concat_map.
    pose proof (unpack_concat
                  (map (map inject_Z) (map sample_tokens outputs)) [] [])
      as Hun.
    cbn [app length] in Hun. rewrite app_nil_r in Hun.
    rewrite !map_map in Hun. rewrite map_map.
    unfold lens.
    rewrite (map_ext (fun o => length (sample_tokens o))
               (fun o => length (map inject_Z (sample_tokens o))))
      by (intros; now rewrite length_map).
    exact Hun. }
  split.
  { rewrite Hm. unfold unsqueeze0, tensor_of_lens, tensor_of_ints.
    cbn [option_map data]. now rewrite map_map. }
  split; [exact Hd|].
  apply reward_queries_doubled; [|exact Hd|exact Hr].
  rewrite length_map, <- Hlen.
  apply (map_result_length _ _ _ Hids).
Qed.



(** *** The micro-batches *)

Lemma slices_cover_upto {A : Type} (l : list A) (batch_size k : nat) :
  (length l <= k * batch_size)%nat ->
  concat (slices_from l batch_size 0 k) = l.
Proof.
  intros Hk. rewrite concat_slices_from. unfold slice.
  cbn [Nat.mul Nat.add skipn]. rewrite Nat.sub_0_r. now apply firstn_all2.
Qed.

Lemma combine_skipn {A B : Type} (n : nat) :
  forall (l : list A) (l' : list B),
    skipn n (combine l l') = combine (skipn n l) (skipn n l').
Proof.
  induction n as [|n IH]; intros [|a l] [|b l']; cbn; try reflexivity.
  - now destruct (skipn n l).
  - apply IH.
Qed.

Lemma slice_combine {A B : Type} (l : list A) (l' : list B) (a b : nat) :
  slice (combine l l') a b = combine (slice l a b) (slice l' a b).
Proof. unfold slice. now rewrite combine_skipn, combine_firstn. Qed.

Lemma In_slice {A : Type} (l : list A) (a b : nat) (x : A) :
  In x (slice l a b) -> In x l.
Proof.
  unfold slice. intros Hin.
  rewrite <- (firstn_skipn a l). apply in_or_app. right.
  rewrite <- (firstn_skipn (b - a) (skipn a l)). apply in_or_app. now left.
Qed.

Lemma length_slice {A : Type} (l : list A) (a b : nat) :
  length (slice l a b) = Nat.min (b - a) (length l - a).
Proof. unfold slice. now rewrite length_firstn, length_skipn. Qed.

Lemma pack_loop_returns (self : Maker Value Image Visual)
    (id_of : Value -> Value) :
  forall (pairs : list (Value * RequestOutput)) (st : Packing Value)
         (i : nat),
    (forall p, In p pairs ->
       outputs (snd p) <> []
       /\ subscript self (fst p) "id" = Ok (id_of (fst p))) ->
    exists st', pack_loop self st i pairs = Ok st'.
Proof.
  induction pairs as [|[prompt output] pairs IH]; intros st i Hall.
  - now eexists.
  - destruct (Hall (prompt, output) (or_introl eq_refl)) as [Ho Hid].
    cbn [fst snd] in *.
    cbn [pack_loop]. unfold pack_one, first_completion.
    destruct (outputs output) as [|c cs]; [congruence|].
    cbn [bind]. rewrite Hid. cbn [bind].
    apply IH. intros p Hp. apply Hall. now right.
Qed.

(** A micro-batch is packed when every output has a completion and every
    prompt its id and its text. *)
Lemma packed_samples_returns (self : Maker Value Image Visual)
    (id_of text_of : Value -> Value) (prompts : list Value)
    (outputs : list RequestOutput) :
  data_processor self = None ->
  (forall o, In o outputs -> EngineRouting.outputs o <> []) ->
  (forall p, In p prompts ->
     subscript self p "id" = Ok (id_of p)
     /\ subscript self p "prompt" = Ok (text_of p)) ->
  map_result (fun x => subscript self x "id") prompts
  = Ok (map id_of prompts)
  /\ exists s, packed_samples self prompts outputs = Ok s.
Proof.
  intros Hdp Hout Hsub.
  assert (Hids : map_result (fun x => subscript self x "id") prompts
                 = Ok (map id_of prompts)).
  { apply map_result_ok. clear Hout.
    induction prompts as [|p ps IH]; cbn [map]; constructor.
    - apply Hsub. now left.
    - apply IH. intros q Hq. apply Hsub. now right. }
  assert (Htexts : map_result (fun x => subscript self x "prompt") prompts
                   = Ok (map text_of prompts)).
  { apply map_result_ok. clear Hout Hids.
    induction prompts as [|p ps IH]; cbn [map]; constructor.
    - apply Hsub. now left.
    - apply IH. intros q Hq. apply Hsub. now right. }
  split; [exact Hids|].
  unfold packed_samples. rewrite Hids. cbn [bind].
  destruct (pack_loop_returns self id_of (combine prompts outputs)
              (mkPacking [] [] [] [] (map id_of prompts) []) 0) as [st Hst].
  { intros [p o] Hin. cbn [fst snd]. split.
    - apply Hout. eapply in_combine_r; eauto.
    - apply Hsub. eapply in_combine_l; eauto. }
  rewrite Hst. cbn [bind]. rewrite Htexts. cbn [bind].
  unfold collect_visual_inputs. rewrite Hdp. cbn [bind Samples_init].
  now eexists.
Qed.



Lemma combine_map_map {A B C D : Type} (f : A -> C) (g : B -> D) :
  forall (l : list A) (l' : list B),
    combine (map f l) (map g l')
    = map (fun p => (f (fst p), g (snd p))) (combine l l').
Proof.
  induction l as [|a l IH]; intros [|b l']; cbn; try reflexivity.
  f_equal. apply IH.
Qed.

(** The loop over the micro-batches packs the consecutive slices of the
    prompts and the outputs. *)
Lemma samples_loop_packed (self : Maker Value Image Visual)
    (id_of text_of : Value -> Value) (all_prompts : list Value)
    (all_outputs : list RequestOutput) :
  packing_samples (args self) = true ->
  data_processor self = None ->
  length all_prompts = length all_outputs ->
  (forall o, In o all_outputs -> outputs o <> []) ->
  (forall p, In p all_prompts ->
     subscript self p "id" = Ok (id_of p)
     /\ subscript self p "prompt" = Ok (text_of p)) ->
  forall (cnt first : nat),
    exists samples_list,
      samples_loop self all_prompts all_outputs
        (map (fun k => (k * Z.to_nat (micro_rollout_batch_size self))%nat)
           (seq first cnt))
      = Done samples_list
      /\ map (@reward_queries Value Visual) samples_list
         = map (map (fun po => (id_of (fst po), sample_response self (snd po))))
             (slices_from (combine all_prompts all_outputs)
                (Z.to_nat (micro_rollout_batch_size self)) first cnt)
      /\ map (@lens_of Value Visual) samples_list
         = map (map (fun o => length (sample_tokens o)))
             (slices_from all_outputs
                (Z.to_nat (micro_rollout_batch_size self)) first cnt).
Proof.
  intros Hpack Hdp Hlen Hout Hsub.
  set (size := Z.to_nat (micro_rollout_batch_size self)).
  induction cnt as [|cnt IH]; intros first.
  - exists []. repeat split; reflexivity.
  - cbn [seq map samples_loop]. fold size. rewrite Hpack.
    replace (first * size + size)%nat with ((first + 1) * size)%nat by lia.
    set (prompts := slice all_prompts (first * size) ((first + 1) * size)).
    set (outs := slice all_outputs (first * size) ((first + 1) * size)).
    assert (Hlen' : length prompts = length outs).
    { unfold prompts, outs. now rewrite !length_slice, Hlen. }
    destruct (packed_samples_returns self id_of text_of prompts outs Hdp)
      as [Hids [s Hs]].
    { intros o Ho. apply Hout. eapply In_slice; eauto. }
    { intros p Hp. apply Hsub. eapply In_slice; eauto. }
    rewrite Hs. cbn [of_result attempt_bind].
    destruct (IH (S first)) as (sl & Hrun & Hq & Hl).
    rewrite Hrun. cbn [attempt_bind].
    exists (s :: sl). split; [reflexivity|].
    destruct (packed_samples_fields self prompts outs s Hlen' Hs)
      as (ids & Hids' & _ & _ & Hlens & Hdata & Hresp).
    rewrite Hids in Hids'. injection Hids' as <-.
    unfold slices_from in *. cbn [seq map]. split.
    + rewrite Hq. f_equal.
      rewrite (reward_queries_doubled s (map id_of prompts)
                 (map (sample_response self) outs))
        by (rewrite ?length_map; auto).
      rewrite combine_map_map. unfold prompts, outs.
      now rewrite slice_combine.
    + rewrite Hl. f_equal. unfold lens_of. now rewrite Hlens.
Qed.

(** The micro-batches of packed samples are the consecutive slices of
    the outputs, and cover them. *)
Lemma make_samples_slices :
  forall (self : Maker Value Image Visual) (id_of text_of : Value -> Value)
         (all_prompts : list Value) (all_outputs : list RequestOutput),
    packing_samples (args self) = true ->
    data_processor self = None ->
    (0 < micro_rollout_batch_size self)%Z ->
    length all_prompts = length all_outputs ->
    (forall o, In o all_outputs -> outputs o <> []) ->
    (forall p, In p all_prompts ->
       subscript self p "id" = Ok (id_of p)
       /\ subscript self p "prompt" = Ok (text_of p)) ->
    let size := Z.to_nat (micro_rollout_batch_size self) in
    let cnt := ((length all_outputs + size - 1) / size)%nat in
    exists samples_list,
      make_samples self all_prompts all_outputs = Done samples_list
      /\ map (@reward_queries Value Visual) samples_list
         = map (map (fun po => (id_of (fst po), sample_response self (snd po))))
             (slices_from (combine all_prompts all_outputs) size 0 cnt)
      /\ map (@lens_of Value Visual) samples_list
         = map (map (fun o => length (sample_tokens o)))
             (slices_from all_outputs size 0 cnt)
      /\ (length all_outputs <= cnt * size)%nat.
Proof.
  intros self id_of text_of all_prompts all_outputs Hpack Hdp Hsize Hlen
    Hout Hsub size cnt.
  unfold make_samples, range_step.
  destruct (Z.eqb_spec (micro_rollout_batch_size self) 0); [lia|].
  destruct (Z.ltb_spec (micro_rollout_batch_size self) 0); [lia|].
  cbn [attempt_bind]. fold size. fold cnt.
  destruct (samples_loop_packed self id_of text_of all_prompts all_outputs
              Hpack Hdp Hlen Hout Hsub cnt 0) as (sl & Hrun & Hq & Hl).
  fold size in Hrun, Hq, Hl.
  exists sl. split; [exact Hrun|]. split; [exact Hq|]. split; [exact Hl|].
  unfold cnt. assert (0 < size)%nat by (unfold size; lia).
  pose proof (Nat.div_mod_eq (length all_outputs + size - 1) size) as Hdm.
  pose proof (Nat.mod_upper_bound (length all_outputs + size - 1) size
                ltac:(lia)) as Hm.
  nia.
Qed.

(** X18.  With [packing_samples], no data processor and a positive
    [micro_rollout_batch_size], the second half of [_generate_vllm] turns
    as many prompts as outputs, each output with a completion and each
    prompt with its id and its text, into
    [ceil(len(all_outputs) / micro_rollout_batch_size)] packed samples of
    at most [micro_rollout_batch_size] sequences each, which hold every
    output once and in order: their reward queries, put end to end, pair
    the id of every prompt with the response of its own output, and their
    [packed_seq_lens] are the lengths of the outputs' samples. *)
Theorem packed_batches_cover_outputs :
  forall (self : Maker Value Image Visual) (id_of text_of : Value -> Value)
         (all_prompts : list Value) (all_outputs : list RequestOutput),
    packing_samples (args self) = true ->
    data_processor self = None ->
    (0 < micro_rollout_batch_size self)%Z ->
    length all_prompts = length all_outputs ->
    (forall o, In o all_outputs -> outputs o <> []) ->
    (forall p, In p all_prompts ->
       subscript self p "id" = Ok (id_of p)
       /\ subscript self p "prompt" = Ok (text_of p)) ->
    let size := Z.to_nat (micro_rollout_batch_size self) in
    exists samples_list,
      make_samples self all_prompts all_outputs = Done samples_list
      /\ length samples_list = ((length all_outputs + size - 1) / size)%nat
      /\ Forall (fun s => (length (lens_of s) <= size)%nat) samples_list
      /\ concat (map (@reward_queries Value Visual) samples_list)
         = map (fun po => (id_of (fst po), sample_response self (snd po)))
             (combine all_prompts all_outputs)
      /\ concat (map (@lens_of Value Visual) samples_list)
         = map (fun o => length (sample_tokens o)) all_outputs.
Proof.
  intros self id_of text_of all_prompts all_outputs Hpack Hdp Hsize Hlen
    Hout Hsub size.
  destruct (make_samples_slices self id_of text_of all_prompts all_outputs
              Hpack Hdp Hsize Hlen Hout Hsub)
    as (sl & Hrun & Hq & Hl & Hcover).
  fold size in Hq, Hl, Hcover.
  exists sl. split; [exact Hrun|]. split; [|split; [|split]].
  - apply (f_equal (@length _)) in Hl. rewrite !length_map in Hl.
    rewrite Hl. unfold slices_from. now rewrite length_map, length_seq.
  - apply Forall_forall. intros s Hs.
    apply (in_map (@lens_of Value Visual)) in Hs. rewrite Hl in Hs.
    apply in_map_iff in Hs. destruct Hs as (part & Hpart & Hin).
    rewrite <- Hpart, length_map.
    unfold slices_from in Hin. apply in_map_iff in Hin.
    destruct Hin as (i & <- & _). rewrite length_slice. lia.
  - rewrite Hq, <- concat_map. f_equal. apply slices_cover_upto.
    rewrite length_combine, Hlen, Nat.min_id. exact Hcover.
  - rewrite Hl, <- concat_map. f_equal. now apply slices_cover_upto.
Qed.

(** The samples of a padded micro-batch are never built: the call of
    [Samples] lacks [data_ids], [responses] and [pad_len]. *)
Lemma padded_samples_fail (self : Maker Value Image Visual)
    (prompts : list Value) (outputs : list RequestOutput) :
  exists f, padded_samples self prompts outputs = Fails f.
Proof.
  unfold padded_samples.
  destruct (map_result first_completion outputs) as [completions|e];
    cbn [of_result attempt_bind]; [|now eexists].
  destruct (map_result _ outputs) as [rws|e];
    cbn [of_result attempt_bind]; [|now eexists].
  destruct (tensor_of_rows rws) as [t|f]; cbn [attempt_bind]; [|now eexists].
  destruct (process_sequences self t _) as [[[sq am] acm]|e];
    cbn [of_result attempt_bind]; [|now eexists].
  destruct (collect_visual_inputs self prompts) as [v|e];
    cbn [of_result attempt_bind]; [|now eexists].
  destruct (size1 acm) as [n|e]; cbn [of_result attempt_bind]; [|now eexists].
  destruct (sum_last acm) as [rl|e]; cbn [of_result attempt_bind];
    [|now eexists].
  destruct (sum_last am) as [tl|e]; cbn [of_result attempt_bind];
    [|now eexists].
  now eexists.
Qed.

(** X19.  Without [packing_samples] the second half of [_generate_vllm]
    returns no samples: with outputs to batch and a positive
    [micro_rollout_batch_size] it raises, at the latest when the call of
    [Samples] for the first micro-batch lacks [data_ids], [responses] and
    [pad_len]. *)
Theorem padded_batches_raise :
  forall (self : Maker Value Image Visual) (all_prompts : list Value)
         (all_outputs : list RequestOutput),
    packing_samples (args self) = false ->
    (0 < micro_rollout_batch_size self)%Z ->
    all_outputs <> [] ->
    exists f, make_samples self all_prompts all_outputs = Fails f.
Proof.
  intros self all_prompts all_outputs Hpack Hsize Hne.
  unfold make_samples, range_step.
  destruct (Z.eqb_spec (micro_rollout_batch_size self) 0); [lia|].
  destruct (Z.ltb_spec (micro_rollout_batch_size self) 0); [lia|].
  cbn [attempt_bind].
  set (size := Z.to_nat (micro_rollout_batch_size self)).
  assert (Hcount : (0 < (length all_outputs + size - 1) / size)%nat).
  { apply Nat.div_str_pos. destruct all_outputs; [congruence|].
    cbn [length]. lia. }
  destruct ((length all_outputs + size - 1) / size)%nat as [|k]; [lia|].
  cbn [seq map samples_loop]. rewrite Hpack.
  destruct (padded_samples_fail self
              (slice all_prompts (0 * size)
                 (0 * size + Z.to_nat (micro_rollout_batch_size self)))
              (slice all_outputs (0 * size)
                 (0 * size + Z.to_nat (micro_rollout_batch_size self))))
    as [f Hf].
  rewrite Hf. now eexists.
Qed.

Section Vision.

Variable llm_generate : nat -> list (request Image) -> list RequestOutput.

Lemma update_other (engines : store Image) (llm llm' : nat) actor :
  llm' <> llm -> update engines llm actor llm' = engines llm'.
Proof.
  intros Hne. unfold update. destruct (Nat.eqb_spec llm' llm); congruence.
Qed.

(** Calls on other engines leave an engine as it is. *)
Lemma send_vision_inputs_frame (self : Maker Value Image Visual)
    (dp : DataProcessor Value Image Visual) (rank : Z) (batch_size : nat)
    (all_prompts : list Value) (llm : nat) :
  forall (llms : list nat) (first : nat) (engines : store Image),
    ~ In llm llms ->
    fst (send_vision_inputs llm_generate self dp engines rank batch_size
           all_prompts first llms) llm
    = engines llm.
Proof.
  induction llms as [|llm0 llms IH]; intros first engines Hnot;
    [reflexivity|].
  cbn [send_vision_inputs].
  destruct (map_result _ _) as [[|m ms]|e]; [|  |reflexivity].
  - apply IH. intros Hin. apply Hnot. now right.
  - destruct (vision_inputs self dp (m :: ms)) as [inputs|e]; [|reflexivity].
    unfold remote.
    destruct (add_requests (llm_generate llm0) (engines llm0) rank inputs)
      as [a actor|e actor].
    + specialize (IH (S first) (update engines llm0 actor)
                    ltac:(intros Hin; apply Hnot; now right)).
      destruct (send_vision_inputs llm_generate self dp
                  (update engines llm0 actor) rank batch_size all_prompts
                  (S first) llms) as [engines' refs].
      cbn [fst] in *. rewrite IH. apply update_other.
      intros ->. apply Hnot. now left.
    + specialize (IH (S first) (update engines llm0 actor)
                    ltac:(intros Hin; apply Hnot; now right)).
      destruct (send_vision_inputs llm_generate self dp
                  (update engines llm0 actor) rank batch_size all_prompts
                  (S first) llms) as [engines' refs].
      cbn [fst] in *. rewrite IH. apply update_other.
      intros ->. apply Hnot. now left.
Qed.

(** The loop with a data processor makes no call on an engine whose slice
    of the prompts is empty. *)
Lemma send_vision_inputs_skips (self : Maker Value Image Visual)
    (dp : DataProcessor Value Image Visual) (rank : Z) (batch_size : nat)
    (all_prompts : list Value) :
  forall (llms : list nat) (first : nat) (engines : store Image)
         (j llm : nat),
    NoDup llms ->
    nth_error llms j = Some llm ->
    slice all_prompts ((first + j) * batch_size)
      ((first + j + 1) * batch_size) = [] ->
    fst (send_vision_inputs llm_generate self dp engines rank batch_size
           all_prompts first llms) llm
    = engines llm.
Proof.
  induction llms as [|llm0 llms IH]; intros first engines j llm Hnd Hj Hempty.
  - destruct j; discriminate.
  - inversion Hnd as [|? ? Hnot Hnd']; subst.
    destruct j as [|j]; cbn [nth_error] in Hj.
    + injection Hj as ->. rewrite Nat.add_0_r in Hempty.
      cbn [send_vision_inputs]. rewrite Hempty. cbn [map_result].
      now apply send_vision_inputs_frame.
    + assert (Hne : llm <> llm0).
      { intros ->. apply Hnot. eapply nth_error_In; eauto. }
      assert (Hempty' : slice all_prompts ((S first + j) * batch_size)
                          ((S first + j + 1) * batch_size) = []).
      { rewrite <- Hempty. f_equal; lia. }
      cbn [send_vision_inputs].
      destruct (map_result _ _) as [[|m ms]|e]; [| |reflexivity].
      * now apply (IH (S first) engines j llm).
      * destruct (vision_inputs self dp (m :: ms)) as [inputs|e];
          [|reflexivity].
        unfold remote.
        destruct (add_requests (llm_generate llm0) (engines llm0) rank inputs)
          as [a actor|e actor].
        -- specialize (IH (S first) (update engines llm0 actor) j llm
                         Hnd' Hj Hempty').
           destruct (send_vision_inputs llm_generate self dp
                       (update engines llm0 actor) rank batch_size
                       all_prompts (S first) llms) as [engines' refs].
           cbn [fst] in *. rewrite IH. now apply update_other.
        -- specialize (IH (S first) (update engines llm0 actor) j llm
                         Hnd' Hj Hempty').
           destruct (send_vision_inputs llm_generate self dp
                       (update engines llm0 actor) rank batch_size
                       all_prompts (S first) llms) as [engines' refs].
           cbn [fst] in *. rewrite IH. now apply update_other.
Qed.

Lemma collect_outputs_frame (rank : Z) (llm : nat) :
  forall (llms : list nat) (engines : store Image),
    ~ In llm llms ->
    fst (collect_outputs engines rank llms) llm = engines llm.
Proof.
  induction llms as [|llm0 llms IH]; intros engines Hnot; [reflexivity|].
  cbn [collect_outputs]. unfold remote.
  destruct (get_responses (engines llm0) rank) as [a actor|e actor];
    specialize (IH (update engines llm0 actor)
                  ltac:(intros Hin; apply Hnot; now right));
    destruct (collect_outputs (update engines llm0 actor) rank llms)
      as [engines' refs];
    cbn [fst] in *; rewrite IH; apply update_other;
    intros ->; apply Hnot; now left.
Qed.

(** Collecting from an engine that has never dispatched raises. *)
Lemma collect_outputs_unset (rank : Z) :
  forall (llms : list nat) (engines : store Image) (j llm : nat),
    NoDup llms ->
    nth_error llms j = Some llm ->
    VllmEngine.responses (engines llm) = None ->
    exists e,
      ray_get (snd (collect_outputs engines rank llms)) = Fails (Raised e).
Proof.
  induction llms as [|llm0 llms IH]; intros engines j llm Hnd Hj Hnone.
  - destruct j; discriminate.
  - inversion Hnd as [|? ? Hnot Hnd']; subst.
    cbn [collect_outputs]. unfold remote.
    destruct j as [|j]; cbn [nth_error] in Hj.
    + injection Hj as ->. unfold get_responses. rewrite Hnone.
      destruct (collect_outputs _ rank llms) as [engines' refs].
      cbn [snd ray_get]. now eexists.
    + assert (Hne : llm <> llm0).
      { intros ->. apply Hnot. eapply nth_error_In; eauto. }
      destruct (get_responses (engines llm0) rank) as [a actor|e actor].
      * destruct (IH (update engines llm0 actor) j llm Hnd' Hj) as [e He].
        { now rewrite update_other. }
        destruct (collect_outputs (update engines llm0 actor) rank llms)
          as [engines' refs].
        cbn [snd ray_get] in *. rewrite He. now eexists.
      * destruct (collect_outputs (update engines llm0 actor) rank llms)
          as [engines' refs].
        cbn [snd ray_get]. now eexists.
Qed.

(** X20.  With a data processor a rank sends nothing to an engine whose
    slice of the prompts is empty: when the first half of
    [_generate_vllm] has passed, such an engine is as it was; and if it
    has never dispatched, the second half raises, [get_responses] finding
    no responses. *)
Theorem vision_empty_slice_is_not_sent :
  forall (self : Maker Value Image Visual)
         (dp : DataProcessor Value Image Visual)
         (engines engines1 : store Image) (all_prompts expanded : list Value)
         (rank : Z) (llms : list nat) (j llm : nat),
    data_processor self = Some dp ->
    send_requests llm_generate self engines all_prompts
    = (engines1, Done (rank, llms, expanded)) ->
    NoDup llms ->
    nth_error llms j = Some llm ->
    slice expanded
      (j * ((length expanded + length llms - 1) / length llms))
      ((j + 1) * ((length expanded + length llms - 1) / length llms)) = [] ->
    engines1 llm = engines llm
    /\ (VllmEngine.responses (engines llm) = None ->
        exists engines2 e,
          receive_outputs engines1 rank llms
          = (engines2, Fails (Raised e))).
Proof.
  intros self dp engines engines1 all_prompts expanded rank llms j llm
    Hdp Hsend Hnd Hj Hempty.
  assert (Hsame : engines1 llm = engines llm).
  { unfold send_requests in Hsend.
    destruct (floordiv (dist_rank self) (ring_attn_size self)) as [rk|];
      cbn [attempt_bind] in Hsend; [|now inversion Hsend].
    destruct (floordiv (dist_world_size self) (ring_attn_size self))
      as [ws|]; cbn [attempt_bind] in Hsend; [|now inversion Hsend].
    destruct (select_llms (vllm_engines self) rk ws) as [ls|];
      cbn [attempt_bind] in Hsend; [|now inversion Hsend].
    unfold batch_size_of in Hsend.
    destruct (Nat.eqb_spec (length ls) 0) as [|Hlen];
      cbn [attempt_bind] in Hsend; [now inversion Hsend|].
    rewrite Hdp in Hsend.
    pose proof (send_vision_inputs_skips self dp rk
                  ((length
                      (expand_prompts (n_samples_per_prompt (args self))
                         all_prompts) + length ls - 1) / length ls)
                  (expand_prompts (n_samples_per_prompt (args self))
                     all_prompts) ls 0 engines j llm) as Hskip.
    destruct (send_vision_inputs llm_generate self dp engines rk _ _ 0 ls)
      as [engines' [refs|e]]; [|now inversion Hsend].
    destruct (ray_get refs); cbn [attempt_bind] in Hsend;
      [|now inversion Hsend].
    injection Hsend as <- <- <- <-. cbn [fst] in Hskip.
    now apply Hskip. }
  split; [exact Hsame|]. intros Hnone.
  unfold receive_outputs.
  destruct (collect_outputs_unset rank llms engines1 j llm Hnd Hj) as [e He].
  { now rewrite Hsame. }
  destruct (collect_outputs engines1 rank llms) as [engines2 refs].
  cbn [snd] in He. rewrite He. cbn [attempt_bind]. now eexists; eexists.
Qed.

End Vision.

End Packing.

(** Two prompts with their outputs, packed by the only rank. *)
Lemma packed_samples_round_trip_witness :
  exists s ids tokens,
    packed_samples (number_maker 1 1 0) [7; 8]%nat two_outputs = Ok s
    /\ map_result (fun x => subscript (number_maker 1 1 0) x "id")
         [7; 8]%nat = Ok ids
    /\ packed_seq_lens s = Some [3; 3]%nat
    /\ shape (sequences s) = [1; 6]%nat
    /\ tolist0 (sequences s) = Ok tokens
    /\ unpack_sequences tokens 0 [3; 3]%nat
       = map (fun o => map inject_Z (sample_tokens o)) two_outputs
    /\ option_map data (attention_mask s)
       = Some (map (fun n => inject_Z (Z.of_nat n))
                 (packed_mask 0 [3; 3]%nat))
    /\ data_ids s = ids ++ ids
    /\ reward_queries s
       = combine ids
           (map (sample_response (number_maker 1 1 0)) two_outputs).
Proof.
  eexists.
  destruct (packed_samples_round_trip nat unit unit (number_maker 1 1 0)
              [7; 8]%nat two_outputs _ eq_refl eq_refl)
    as (ids & tokens & H).
  exists ids, tokens. split; [reflexivity|exact H].
Defined.

Example packed_samples_run :
  match packed_samples (number_maker 1 1 0) [7; 8]%nat two_outputs with
  | Ok s =>
      data (sequences s) = [7; 70; 71; 8; 9; 80]
      /\ option_map data (attention_mask s) = Some [1; 1; 1; 2; 2; 2]
      /\ responses s = ["a"; "b"]%string
      /\ data_ids s = [7; 8; 7; 8]%nat
      /\ reward_queries s = [(7%nat, "a"%string); (8%nat, "b"%string)]
  | Raise _ => False
  end.
Proof. cbn. repeat split; reflexivity. Qed.

Lemma padded_batches_raise_witness :
  exists f, make_samples padding_maker [7; 8]%nat two_outputs = Fails f.
Proof.
  apply (padded_batches_raise nat unit unit padding_maker [7; 8]%nat
           two_outputs); [reflexivity|reflexivity|discriminate].
Defined.

Example padded_batch_type_error :
  make_samples padding_maker [7; 8]%nat two_outputs
  = Fails (Raised TypeError).
Proof. reflexivity. Qed.

(** One prompt for the two engines of the only rank: the second engine is
    sent nothing. *)
Lemma vision_empty_slice_is_not_sent_witness :
  let engines1 :=
    fst (send_requests (fun _ reqs => map parrot reqs) vision_maker
           (created unit 2 1) [5%nat]) in
  engines1 1%nat = created unit 2 1 1%nat
  /\ exists engines2 e,
       receive_outputs engines1 0 [0; 1]%nat = (engines2, Fails (Raised e)).
Proof.
  destruct (vision_empty_slice_is_not_sent nat unit unit
              (fun _ reqs => map parrot reqs) vision_maker plain_processor
              (created unit 2 1)
              (fst (send_requests (fun _ reqs => map parrot reqs)
                      vision_maker (created unit 2 1) [5%nat]))
              [5%nat] [5%nat] 0%Z [0; 1]%nat 1 1)
    as [Hsame Hraise].
  - reflexivity.
  - reflexivity.
  - repeat constructor; cbn; intuition discriminate.
  - reflexivity.
  - reflexivity.
  - split; [exact Hsame|]. apply Hraise. reflexivity.
Defined.

Example vision_rank_with_one_prompt :
  snd (receive_outputs
         (fst (send_requests (fun _ reqs => map parrot reqs) vision_maker
                 (created unit 2 1) [5%nat]))
         0 [0; 1]%nat)
  = Fails (Raised AttributeError).
Proof. reflexivity. Qed.


Lemma packed_batches_cover_outputs_witness :
  exists samples_list,
    make_samples (number_maker 1 1 0) [7; 8]%nat two_outputs
    = Done samples_list
    /\ length samples_list = ((2 + 2 - 1) / 2)%nat
    /\ Forall (fun s => (length (lens_of s) <= 2)%nat) samples_list
    /\ concat (map (@reward_queries nat unit) samples_list)
       = map (fun po =>
                (fst po, sample_response (number_maker 1 1 0) (snd po)))
           (combine [7; 8]%nat two_outputs)
    /\ concat (map (@lens_of nat unit) samples_list)
       = map (fun o => length (sample_tokens o)) two_outputs.
Proof.
  apply (packed_batches_cover_outputs nat unit unit (number_maker 1 1 0)
           (fun p => p) (fun p => p) [7; 8]%nat two_outputs).
  - reflexivity.
  - reflexivity.
  - reflexivity.
  - reflexivity.
  - intros o [<-|[<-|[]]]; discriminate.
  - intros p _. split; reflexivity.
Defined.


End PackingProofs.

(** ** [_generate_vllm] as a whole *)

Module GenerationProofs.

Import ListFacts ChunkFacts DictFacts VllmEngine.
Import AggregatorProofs RolloutCollector EngineRouting RoutingSpec.
Import RoutingProofs RunLists RunSpec RunProofs PackingSpec PackingProofs.

Section Generation.

Variables (Value Image Visual : Type).
Variable llm_generate : nat -> list (request Image) -> list RequestOutput.

(** X21.  [_generate_vllm] as a whole, for the only rank of a world of
    one with [E >= 1] engines, no data processor, no ring attention and
    [packing_samples]: it returns, and its packed samples hold, once and
    in the order of the expanded prompts, the output of the engines for
    each prompt: their reward queries pair the id of every prompt with the
    response to its own token ids (for engines that answer request by
    request with at least one completion, a tokenizer that gives every
    prompt its token ids, and prompts that have an id and a text). *)
Theorem single_rank_generation :
  forall (E : nat) (self : Maker Value Image Visual)
         (all_prompts : list Value) (ids : list (list Z))
         (answer : request Image -> RequestOutput)
         (id_of text_of : Value -> Value),
    let expanded :=
      expand_prompts (n_samples_per_prompt (args self)) all_prompts in
    let all_outputs := map answer (map (@PromptTokenIds Image) ids) in
    (0 < E)%nat ->
    token_rank E 1 0 self ->
    packing_samples (args self) = true ->
    (0 < micro_rollout_batch_size self)%Z ->
    tokenize_fn self expanded = Ok ids ->
    length ids = length expanded ->
    (forall h reqs, llm_generate h reqs = map answer reqs) ->
    (forall req, outputs (answer req) <> []) ->
    (forall p, In p expanded ->
       subscript self p "id" = Ok (id_of p)
       /\ subscript self p "prompt" = Ok (text_of p)) ->
    exists engines' samples_list,
      generate_vllm llm_generate self (created Image E 1) all_prompts
      = (engines', Done samples_list)
      /\ concat (map (@reward_queries Value Visual) samples_list)
         = map (fun po => (id_of (fst po), sample_response self (snd po)))
             (combine expanded all_outputs)
      /\ concat (map (@lens_of Value Visual) samples_list)
         = map (fun o => length (sample_tokens o)) all_outputs.
Proof.
  intros E self all_prompts ids answer id_of text_of expanded all_outputs
    HE Hself Hpack Hsize Htok Hlen Hanswer Hout Hsub.
  assert (Horder : ranks_in_order 1 [0%nat]).
  { split; [repeat constructor; intros []|]. intros r. cbn. lia. }
  destruct (send_all_state Value Image Visual llm_generate E 1
              (fun _ => self) (fun _ => all_prompts) (fun _ => ids)
              [0%nat] HE ltac:(lia))
    as (engines1 & Hsend & Hstate); auto.
  { intros r Hr. assert (r = 0%nat) by lia. now subst r. }
  destruct (receive_all_awaiting Value Image Visual llm_generate E 1
              (fun _ => self) (fun _ => all_prompts) (fun _ => ids) answer
              HE ltac:(lia) ltac:(auto) [0%nat] engines1)
    as (engines2 & Hrec).
  { apply Horder. }
  { intros r. apply Horder. }
  { intros r h Hr Hh.
    assert (HrW : (r < 1)%nat) by now apply Horder.
    destruct (llms_of_engines E 1 r HE ltac:(lia) HrW) as (_ & _ & Hall).
    rewrite Forall_forall in Hall.
    apply (send_all_awaiting Value Image Visual llm_generate E 1
             (fun _ => self) (fun _ => all_prompts) (fun _ => ids) answer
             [0%nat] engines1 Hanswer Horder Hstate r h HrW (Hall h Hh) Hh). }
  cbn [send_all map] in Hsend.
  destruct (send_requests llm_generate self (created Image E 1) all_prompts)
    as [engines1' sent] eqn:Esend.
  injection Hsend as -> ->.
  cbn [receive_all map] in Hrec.
  destruct (receive_outputs engines1 (Z.of_nat 0) (llms_of E 1 0))
    as [engines2' got] eqn:Erec.
  injection Hrec as -> ->.
  destruct (make_samples_slices Value Image Visual self id_of text_of
              expanded all_outputs Hpack)
    as (samples_list & Hrun & Hq & Hl & Hcover); auto.
  { destruct Hself as (_ & Hdp & _). exact Hdp. }
  { unfold all_outputs. now rewrite !length_map. }
  { intros o Ho. unfold all_outputs in Ho. apply in_map_iff in Ho.
    destruct Ho as (req & <- & _). apply Hout. }
  exists engines2, samples_list. split; [|split].
  2: { rewrite Hq, <- concat_map. f_equal. apply slices_cover_upto.
       rewrite length_combine. unfold all_outputs in *.
       rewrite !length_map in *. rewrite <- Hlen, Nat.min_id.
       exact Hcover. }
  2: { rewrite Hl, <- concat_map. f_equal. now apply slices_cover_upto. }
  unfold generate_vllm. rewrite Esend. cbv beta iota.
  change (Z.of_nat 0) with 0%Z in Erec. rewrite Erec.
  cbn [attempt_bind]. unfold RunSpec.expanded. fold expanded.
  fold all_outputs. now rewrite Hrun.
Qed.

End Generation.

(** The only rank spreads two prompts, sampled twice each, over three
    engines. *)
Lemma single_rank_generation_witness :
  exists engines' samples_list,
    generate_vllm (fun _ reqs => map parrot reqs) (number_maker 3 1 0)
      (created unit 3 1) (number_prompts 0)
    = (engines', Done samples_list)
    /\ concat (map (@reward_queries nat unit) samples_list)
       = map (fun po =>
                (fst po, sample_response (number_maker 3 1 0) (snd po)))
           (combine (expand_prompts 2 (number_prompts 0))
              (map parrot (map (@PromptTokenIds unit) (number_ids 0))))
    /\ concat (map (@lens_of nat unit) samples_list)
       = map (fun o => length (sample_tokens o))
           (map parrot (map (@PromptTokenIds unit) (number_ids 0))).
Proof.
  apply (single_rank_generation nat unit unit
           (fun _ reqs => map parrot reqs) 3 (number_maker 3 1 0)
           (number_prompts 0) (number_ids 0) parrot (fun p => p)
           (fun p => p)).
  - lia.
  - repeat split.
  - reflexivity.
  - reflexivity.
  - reflexivity.
  - reflexivity.
  - reflexivity.
  - intros [ids|? ? ? ?]; discriminate.
  - intros p _. split; reflexivity.
Defined.

Example single_rank_three_engines :
  match
    snd (generate_vllm (fun _ reqs => map parrot reqs) (number_maker 3 1 0)
           (created unit 3 1) (number_prompts 0))
  with
  | Done samples_list =>
      map (fun s => data (sequences s)) samples_list
      = [[1; 1; 1; 1]; [2; 2; 2; 2]]
      /\ map (@reward_queries nat unit) samples_list
         = [[(1%nat, "ok"%string); (1%nat, "ok"%string)];
            [(2%nat, "ok"%string); (2%nat, "ok"%string)]]
  | Fails _ => False
  end.
Proof. cbn. split; reflexivity. Qed.

End GenerationProofs.
